(** * mlforecast.core: a shallow embedding of [TimeSeries] and its helpers

    The development follows [src/mlforecast/core.py].  Python objects are
    modelled by records, dictionaries that are iterated in insertion order
    by association lists, [collections.Counter] by a finite map, exceptions
    by an error result, and the methods of [TimeSeries] by functions in a
    state-and-error monad over the attributes of [self]. *)

From Stdlib Require Import ZArith.
From stdpp Require Import base gmap strings list pretty.

Local Open Scope Z_scope.
Local Open Scope nat_scope.

(** ** Python values, exceptions and results *)

(** Extra arguments of a lag transform (window sizes and the like). *)
Inductive pyval :=
  | PInt (z : Z)
  | PStr (s : string).

#[global] Instance pyval_eq_dec : EqDecision pyval.
Proof. solve_decision. Defined.

(** [str(value)] as used by an f-string. *)
Definition py_str (v : pyval) : string :=
  match v with
  | PInt z => pretty z
  | PStr s => s
  end.

(** A raised exception: its class and its message. *)
Record exn := Exception { exc_class : string; exc_msg : string }.

#[global] Instance exn_eq_dec : EqDecision exn.
Proof. solve_decision. Defined.

Definition ValueError (msg : string) : exn := Exception "ValueError" msg.

(** The outcome of a call: a value or a raised exception. *)
Inductive res (A : Type) :=
  | Ok (a : A)
  | Raise (e : exn).
Arguments Ok {A} a.
Arguments Raise {A} e.

Definition res_bind {A B} (r : res A) (k : A → res B) : res B :=
  match r with
  | Ok a => k a
  | Raise e => Raise e
  end.

Definition is_Ok {A} (r : res A) : bool :=
  match r with Ok _ => true | Raise _ => false end.

(** The element type of the numeric buffers: floats, of which the code
    only copies values, writes [np.nan] and tests [np.isnan]. *)
Class Float (V : Type) := {
  nan : V;
  isnan : V → bool;
  isnan_nan : isnan nan = true
}.

(** ** Insertion-ordered dictionaries

    [dict] and [OrderedDict] keep their keys in insertion order; assigning
    to an existing key replaces the value and keeps the key's position. *)
Section odict.
Context {A : Type}.

Fixpoint od_set (k : string) (v : A) (d : list (string * A)) : list (string * A) :=
  match d with
  | [] => [(k, v)]
  | (k', v') :: d' =>
      if decide (k' = k) then (k, v) :: d' else (k', v') :: od_set k v d'
  end.

Fixpoint od_get (k : string) (d : list (string * A)) : option A :=
  match d with
  | [] => None
  | (k', v') :: d' => if decide (k' = k) then Some v' else od_get k d'
  end.

Definition od_keys (d : list (string * A)) : list string := d.*1.
Definition od_values (d : list (string * A)) : list A := d.*2.
End odict.

(** ** Feature and model names *)

(** A callable with the parts of it that the code inspects: [__name__],
    the parameters of its signature with their defaults (no default is
    [inspect.Parameter.empty], here [None]) and its behaviour on one
    series. *)
Record Callable (V : Type) := {
  __name__ : string;
  parameters : list (string * option pyval);
  call : list V → list pyval → res (list V)
}.
Arguments __name__ {V} _.
Arguments parameters {V} _.
Arguments call {V} _ _ _.

(** [arg.default != value] *)
Definition default_differs (dflt : option pyval) (value : pyval) : bool :=
  match dflt with
  | None => true
  | Some d => bool_decide (d ≠ value)
  end.

(** [sep.join(parts)] *)
Fixpoint join (sep : string) (parts : list string) : string :=
  match parts with
  | [] => EmptyString
  | [p] => p
  | p :: rest => p +:+ sep +:+ join sep rest
  end.

Definition _build_transform_name {V} (lag : Z) (tfm : Callable V) (args : list pyval) : string :=
  let tfm_name := __name__ tfm +:+ "_lag" +:+ pretty lag in
  let func_args := drop 1 (parameters tfm) in
  let changed_params :=
    omap (λ '(value, (name, dflt)),
            if default_differs dflt value then Some (name +:+ py_str value) else None)
         (zip args func_args) in
  match changed_params with
  | [] => tfm_name
  | _ => tfm_name +:+ "_" +:+ join "_" changed_params
  end.

(** [Counter(names)]; a missing key counts 0. *)
Definition Counter (names : list string) : gmap string nat :=
  foldl (λ c x, <[x := S (default 0 (c !! x))]> c) ∅ names.

Definition ctr_get (ctr : gmap string nat) (x : string) : nat :=
  default 0 (ctr !! x).

(** One iteration of the loop of [_name_models]: [i] counts from 1 over
    the reversed names and [names[-i]] is the slot [len(names) - i]. *)
Definition _name_models_step (st : gmap string nat * list string) (ix : nat * string)
  : gmap string nat * list string :=
  let '(ctr, names) := st in
  let '(i, x) := ix in
  let count := ctr_get ctr x in
  if decide (1 < count)
  then (<[x := count - 1]> ctr, <[length names - i := x +:+ pretty count]> names)
  else (ctr, <[length names - i := x]> names).

Definition _name_models (current_names : list string) : list string :=
  let ctr := Counter current_names in
  if decide (ctr = ∅) then []
  else if decide (max_list (snd <$> map_to_list ctr) < 2) then current_names
  else
    (foldl _name_models_step (ctr, current_names)
           (zip (seq 1 (length current_names)) (reverse current_names))).2.

(** [@njit _identity] *)
Definition _identity {V} (x : list V) : list V := x.

Definition identity_tfm {V} : Callable V :=
  {| __name__ := "_identity"; parameters := [("x", None)];
     call := λ x _, Ok (_identity x) |}.

(** A lag transform: a callable or a tuple of a callable and arguments. *)
Inductive LagTransform (V : Type) :=
  | TfmFn (f : Callable V)
  | TfmTuple (f : Callable V) (args : list pyval).
Arguments TfmFn {V} f.
Arguments TfmTuple {V} f args.

(** [tfm, *args = _as_tuple(tfm_args)] *)
Definition _as_tuple {V} (x : LagTransform V) : Callable V * list pyval :=
  match x with
  | TfmFn f => (f, [])
  | TfmTuple f args => (f, args)
  end.

(** An entry [(lag, tfm, *args)] of [self.transforms]. *)
Record tspec (V : Type) := TSpec {
  ts_lag : Z;
  ts_tfm : Callable V;
  ts_args : list pyval
}.
Arguments TSpec {V} _ _ _.
Arguments ts_lag {V} _.
Arguments ts_tfm {V} _.
Arguments ts_args {V} _.

(** The registry built by [TimeSeries.__init__] (lines 161-168):
    [lag_transforms] is a dictionary from a lag to its transforms. *)
Definition register_lags {V} (lags : list Z) (transforms : list (string * tspec V))
  : list (string * tspec V) :=
  foldl (λ t lag, od_set ("lag" +:+ pretty lag) (TSpec lag identity_tfm []) t)
        transforms lags.

Definition register_lag_transforms {V} (lag_transforms : list (Z * list (LagTransform V)))
    (transforms : list (string * tspec V)) : list (string * tspec V) :=
  foldl (λ t '(lag, tfms),
           foldl (λ t tfm_args,
                    let '(tfm, args) := _as_tuple tfm_args in
                    let tfm_name := _build_transform_name lag tfm args in
                    od_set tfm_name (TSpec lag tfm args) t)
                 t tfms)
        transforms lag_transforms.

Definition init_transforms {V} (lags : list Z)
    (lag_transforms : list (Z * list (LagTransform V))) : list (string * tspec V) :=
  register_lag_transforms lag_transforms (register_lags lags []).

(** ** GroupedArray

    [mlforecast/grouped_array.py] is imported by [core.py]; its class is
    described by the specification (sections 3 and 4.1). *)

Record GroupedArray (V : Type) := {
  data : list V;
  indptr : list nat
}.
Arguments data {V} _.
Arguments indptr {V} _.

(** [x[lo:hi]] for non-negative bounds. *)
Definition py_slice {A} (x : list A) (lo hi : nat) : list A :=
  take (hi - lo) (drop lo x).

(** [x[start:]] for a possibly negative [start]. *)
Definition py_slice_from {A} (start : Z) (x : list A) : list A :=
  if decide (0 ≤ start)%Z then drop (Z.to_nat start) x
  else drop (length x - Z.to_nat (- start)) x.

Definition n_groups {V} (ga : GroupedArray V) : nat := length (indptr ga) - 1.

(** Modelled from the spec: [GroupedArray.__getitem__], "group i occupies
    data[indptr[i]:indptr[i+1]]". *)
Definition ga_slice {V} (ga : GroupedArray V) (i : nat) : list V :=
  py_slice (data ga) (indptr ga !!! i) (indptr ga !!! (i + 1)).

Definition ga_groups {V} (ga : GroupedArray V) : list (list V) :=
  ga_slice ga <$> seq 0 (n_groups ga).

(** The offsets of consecutive groups of the given sizes, from [start]. *)
Fixpoint offsets (start : nat) (sizes : list nat) : list nat :=
  match sizes with
  | [] => [start]
  | n :: rest => start :: offsets (start + n) rest
  end.

Definition ga_of_groups {V} (groups : list (list V)) : GroupedArray V :=
  {| data := concat groups; indptr := offsets 0 (length <$> groups) |}.

(** The invariant of the data model: [indptr[0] = 0], [indptr] is
    non-decreasing and ends at [len(data)]. *)
Definition ga_wf {V} (ga : GroupedArray V) : Prop :=
  indptr ga !! 0 = Some 0 ∧
  last (indptr ga) = Some (length (data ga)) ∧
  ∀ i a b, indptr ga !! i = Some a → indptr ga !! (S i) = Some b → a ≤ b.

(** Modelled from the spec: the lag-shifted sub-array of one group, whose
    position [t] holds the value [lag] steps back and NaN where there is
    none.  The spec gives lags from 0 upwards a meaning; a negative lag
    is read as 0. *)
Definition shift_array `{Float V} (lag : Z) (x : list V) : list V :=
  let l := Z.to_nat lag in
  replicate (l `min` length x) nan ++ take (length x - l) x.

(** Modelled from the spec: [GroupedArray.transform_series], "for every
    group, apply fn to the lag-shifted sub-array of that group and return
    one flat output buffer of the same total length (or, if updates_only,
    one value per group representing only the most recent point)". *)
Fixpoint transform_groups `{Float V} (updates_only : bool) (lag : Z)
    (tfm : Callable V) (args : list pyval) (groups : list (list V)) : res (list V) :=
  match groups with
  | [] => Ok []
  | g :: rest =>
      res_bind (call tfm (shift_array lag g) args) (λ out,
      res_bind (transform_groups updates_only lag tfm args rest) (λ outs,
      Ok ((if updates_only then [default nan (last out)] else out) ++ outs)))
  end.

Definition transform_series `{Float V} (ga : GroupedArray V) (updates_only : bool)
    (lag : Z) (tfm : Callable V) (args : list pyval) : res (list V) :=
  transform_groups updates_only lag tfm args (ga_groups ga).

(** Modelled from the spec: [GroupedArray.append], "appends one new value
    to the tail of every group; fails with ShapeError if length of values
    differs from the number of groups". *)
Definition ga_append {V} (ga : GroupedArray V) (values : list V) : res (GroupedArray V) :=
  if decide (length values = n_groups ga)
  then Ok (ga_of_groups (zip_with (λ g v, g ++ [v]) (ga_groups ga) values))
  else Raise (Exception "ShapeError" "new must have the same size as the number of groups").

(** Modelled from the spec: [GroupedArray.take], "a new GroupedArray
    containing only the selected groups"; an index that names no group
    is an [IndexError]. *)
Definition ga_take {V} (ga : GroupedArray V) (idxs : list nat) : res (GroupedArray V) :=
  if decide (Forall (λ i, i < n_groups ga) idxs)
  then Ok (ga_of_groups (ga_slice ga <$> idxs))
  else Raise (Exception "IndexError" "index out of bounds").

(** Modelled from the spec: [GroupedArray.take_from_groups(slice(start, None))],
    "only a trailing sub-range of each group's observations". *)
Definition ga_take_from_groups {V} (ga : GroupedArray V) (start : Z) : GroupedArray V :=
  ga_of_groups (py_slice_from start <$> ga_groups ga).

(** [out[n, k] = v] on a two-dimensional array. *)
Definition set2 {A} (n k : nat) (v : A) (out : list (list A)) : list (list A) :=
  alter (λ row, <[k := v]> row) n out.

(** [_expand_target] (lines 97-111).  [out0] is the content of
    [np.empty((data.size, max_horizon))] before the loops write to it. *)
Definition _expand_target `{Float V} (out0 : list (list V)) (data : list V)
    (indptr : list nat) (max_horizon : nat) : list (list V) :=
  let n_series := length indptr - 1 in
  (foldl (λ '(out, n) i,
     let serie := py_slice data (indptr !!! i) (indptr !!! (i + 1)) in
     foldl (λ '(out, n) j,
        let upper := (length serie - j) `min` max_horizon in
        let out := foldl (λ out k, set2 n k (default nan (serie !! (j + k))) out)
                         out (seq 0 upper) in
        let out := foldl (λ out k, set2 n k nan out)
                         out (seq upper (max_horizon - upper)) in
        (out, S n))
       (out, n) (seq 0 (length serie)))
    (out0, 0) (seq 0 n_series)).1.

(** [np.empty((rows, cols))]: fresh memory, of which nothing is known but
    its shape; [junk] is what it happens to hold. *)
Definition np_empty {V} (junk : V) (rows cols : nat) : list (list V) :=
  replicate rows (replicate cols junk).

(** Modelled from the spec: [GroupedArray.expand_target] calls
    [_expand_target] on its own buffers. *)
Definition ga_expand_target `{Float V} (junk : V) (ga : GroupedArray V)
    (max_horizon : nat) : list (list V) :=
  _expand_target (np_empty junk (length (data ga)) max_horizon)
                 (data ga) (indptr ga) max_horizon.

(** ** Arrays and tables *)

(** [x[mask]] for a boolean mask of the length of [x]. *)
Fixpoint np_mask {A} (mask : list bool) (x : list A) : list A :=
  match mask, x with
  | b :: mask', a :: x' => if b then a :: np_mask mask' x' else np_mask mask' x'
  | _, _ => []
  end.

Definition IndexError (msg : string) : exn := Exception "IndexError" msg.
Definition KeyError (msg : string) : exn := Exception "KeyError" msg.

Definition np_mask_checked {A} (mask : list bool) (x : list A) : res (list A) :=
  if decide (length mask = length x) then Ok (np_mask mask x)
  else Raise (IndexError "boolean index did not match indexed array").

(** [x[idxs]] for an array of positions. *)
Fixpoint np_take {A} (x : list A) (idxs : list nat) : res (list A) :=
  match idxs with
  | [] => Ok []
  | i :: rest =>
      match x !! i with
      | None => Raise (IndexError "index out of bounds")
      | Some a => res_bind (np_take x rest) (λ out, Ok (a :: out))
      end
  end.

(** The position that an integer index denotes in an array of [n]
    elements: a negative index counts from the end. *)
Definition np_position (n : nat) (i : Z) : option nat :=
  if decide (0 ≤ i < Z.of_nat n)%Z then Some (Z.to_nat i)
  else if decide (- Z.of_nat n ≤ i < 0)%Z then Some (Z.to_nat (Z.of_nat n + i))
  else None.

(** [x[idxs]] for an array of integers. *)
Fixpoint np_take_int {A} (x : list A) (idxs : list Z) : res (list A) :=
  match idxs with
  | [] => Ok []
  | i :: rest =>
      match np_position (length x) i ≫= (x !!.) with
      | None => Raise (IndexError "index out of bounds")
      | Some a => res_bind (np_take_int x rest) (λ out, Ok (a :: out))
      end
  end.

(** The value that a cast to [np.int32] stores: it wraps around. *)
Definition int32 (z : Z) : Z := ((z + 2 ^ 31) `mod` 2 ^ 32 - 2 ^ 31)%Z.

(** [a |= b] on boolean arrays: equal lengths, or a single element on
    the right that is broadcast. *)
Definition np_ior (a b : list bool) : res (list bool) :=
  if decide (length a = length b) then Ok (zip_with orb a b)
  else match b with
       | [y] => Ok ((λ x, orb x y) <$> a)
       | _ => Raise (ValueError "operands could not be broadcast together")
       end.

(** [a | b]: as [a |= b], and a single element on the left is broadcast
    as well. *)
Definition np_or (a b : list bool) : res (list bool) :=
  if decide (length a = length b) then Ok (zip_with orb a b)
  else match a, b with
       | _, [y] => Ok ((λ x, orb x y) <$> a)
       | [x], _ => Ok (orb x <$> b)
       | _, _ => Raise (ValueError "operands could not be broadcast together")
       end.

(** [[f(x) for x in xs]] for an [f] that may raise. *)
Fixpoint res_map {A B} (f : A → res B) (xs : list A) : res (list B) :=
  match xs with
  | [] => Ok []
  | x :: rest =>
      res_bind (f x) (λ y, res_bind (res_map f rest) (λ ys, Ok (y :: ys)))
  end.

(** [np.array(rows).ravel("F")] for rows of one length. *)
Definition ravel_F {A} (rows : list (list A)) : list A :=
  match rows with
  | [] => []
  | r :: _ => concat ((λ j, omap (λ row, row !! j) rows) <$> seq 0 (length r))
  end.

(** A column of a table, by dtype. *)
Inductive Column (V : Type) :=
  | ColStr (l : list string)
  | ColInt (l : list Z)
  | ColDatetime (l : list Z)
  | ColFloat (l : list V).
Arguments ColStr {V} l.
Arguments ColInt {V} l.
Arguments ColDatetime {V} l.
Arguments ColFloat {V} l.

Definition col_len {V} (c : Column V) : nat :=
  match c with
  | ColStr l => length l
  | ColInt l | ColDatetime l => length l
  | ColFloat l => length l
  end.

Definition col_map {V} (f : ∀ A, list A → list A) (c : Column V) : Column V :=
  match c with
  | ColStr l => ColStr (f _ l)
  | ColInt l => ColInt (f _ l)
  | ColDatetime l => ColDatetime (f _ l)
  | ColFloat l => ColFloat (f _ l)
  end.

(** [pd.api.types.is_datetime64_dtype] *)
Definition is_datetime64_dtype {V} (c : Column V) : bool :=
  match c with ColDatetime _ => true | _ => false end.

(** [np.issubdtype(dtype, np.integer)] *)
Definition is_integer_dtype {V} (c : Column V) : bool :=
  match c with ColInt _ => true | _ => false end.

(** [column.isnull()] *)
Definition col_isnull `{Float V} (c : Column V) : list bool :=
  match c with
  | ColStr l => (λ _, false) <$> l
  | ColInt l | ColDatetime l => (λ _, false) <$> l
  | ColFloat l => isnan <$> l
  end.

(** A table: [shape[0]] and the columns in order. *)
Record Frame (V : Type) := {
  nrows : nat;
  cols : list (string * Column V)
}.
Arguments nrows {V} _.
Arguments cols {V} _.

Definition columns {V} (df : Frame V) : list string := od_keys (cols df).

(** [df[name]] *)
Definition frame_get {V} (name : string) (df : Frame V) : res (Column V) :=
  match od_get name (cols df) with
  | Some c => Ok c
  | None => Raise (KeyError name)
  end.

(** [df[name] = values]: the lengths must agree, unless the table has no
    rows yet and takes the length of the values. *)
Definition frame_set `{Float V} (name : string) (c : Column V) (df : Frame V) : res (Frame V) :=
  if decide (col_len c = nrows df)
  then Ok {| nrows := nrows df; cols := od_set name c (cols df) |}
  else if decide (nrows df = 0)
  then Ok {| nrows := col_len c;
             cols := od_set name c
                       (prod_map id (λ _, ColFloat (replicate (col_len c) nan)) <$> cols df) |}
  else Raise (ValueError "Length of values does not match length of index").

(** [df[mask]] *)
Definition frame_mask {V} (mask : list bool) (df : Frame V) : res (Frame V) :=
  if decide (length mask = nrows df)
  then Ok {| nrows := length (filter (λ b, b = true) mask);
             cols := prod_map id (col_map (λ A, np_mask mask)) <$> cols df |}
  else Raise (ValueError "Item wrong length").

(** [df.iloc[lo:hi]] *)
Definition frame_iloc {V} (lo hi : nat) (df : Frame V) : Frame V :=
  {| nrows := (hi `min` nrows df) - lo;
     cols := prod_map id (col_map (λ A x, py_slice x lo hi)) <$> cols df |}.

(** [df[names]] *)
Fixpoint select_cols {V} (names : list string) (d : list (string * Column V))
  : res (list (string * Column V)) :=
  match names with
  | [] => Ok []
  | n :: rest =>
      match od_get n d with
      | None => Raise (KeyError n)
      | Some c => res_bind (select_cols rest d) (λ out, Ok ((n, c) :: out))
      end
  end.

Definition frame_select {V} (names : list string) (df : Frame V) : res (Frame V) :=
  res_bind (select_cols names (cols df)) (λ cs, Ok {| nrows := nrows df; cols := cs |}).

(** [index.drop(labels)]: every label must be present. *)
Definition index_drop (labels : list string) (index : list string) : res (list string) :=
  match list_find (λ l, l ∉ index) labels with
  | Some (_, l) => Raise (KeyError l)
  | None => Ok (filter (λ c, c ∉ labels) index)
  end.

(** [df.drop(columns=labels)] *)
Definition frame_drop {V} (labels : list string) (df : Frame V) : res (Frame V) :=
  res_bind (index_drop labels (columns df)) (λ _,
  Ok {| nrows := nrows df; cols := filter (λ kc, kc.1 ∉ labels) (cols df) |}).

(** [pd.DataFrame(d)] for a dictionary of columns, which must be of one
    length. *)
Definition frame_of_dict {V} (d : list (string * Column V)) : res (Frame V) :=
  match d with
  | [] => Ok {| nrows := 0; cols := [] |}
  | (_, c) :: _ =>
      if decide (Forall (λ kc, col_len kc.2 = col_len c) d)
      then Ok {| nrows := col_len c; cols := d |}
      else Raise (ValueError "All arrays must be of the same length")
  end.

(** [pd.DataFrame(d, columns=names)]: the named columns of [d] in the
    given order; a name that [d] lacks gives a column of NaN. *)
Definition frame_of_dict_columns `{Float V} (d : list (string * Column V))
    (names : list string) : res (Frame V) :=
  res_bind (frame_of_dict d) (λ df,
  Ok {| nrows := nrows df;
        cols := (λ n, (n, default (ColFloat (replicate (nrows df) nan)) (od_get n d)))
                  <$> names |}).

(** ** External capabilities *)

(** [self.freq]: an integer step or a pandas offset. *)
Inductive Freq :=
  | FreqInt (n : Z)
  | FreqOffset (alias : string).

(** [self.freq == 1]; an offset never equals an integer. *)
Definition freq_is_one (f : Freq) : bool :=
  match f with
  | FreqInt n => bool_decide (n = 1%Z)
  | FreqOffset _ => false
  end.

(** What [DataFrameProcessor.process] returns (the values apart). *)
Record Processed (V : Type) := {
  p_uids : list string;
  p_times : Column V;
  p_indptr : list nat;
  p_sort_idxs : option (list nat)
}.
Arguments p_uids {V} _.
Arguments p_times {V} _.
Arguments p_indptr {V} _.
Arguments p_sort_idxs {V} _.

(** The libraries the class calls into: pandas' joins and sorting, the
    calendar, numpy's casts and fresh memory ([np_empty_fill] is what
    [np.empty] finds there) and utilsforecast.  A time is an integer, the
    step of an integer column or the instant of a datetime column. *)
Class Extern (V : Type) := {
  pd_merge : Frame V → Frame V → option (list string) → string → res (Frame V);
  pd_sort_values : Frame V → list string → res (Frame V);
  pd_concat_columns : Frame V → Frame V → res (Frame V);
  offset_add : string → Z → Z → Z;
  date_attr : bool → string → list Z → res (Column V);
  np_astype : string → Column V → Column V;
  np_empty_fill : V;
  validate_format : Frame V → string → string → string → res ();
  process : Frame V → string → string → string → res (Processed V)
}.

(** [dates + k * freq]: integers step by an integer frequency and
    datetimes by an offset; pandas refuses the other combinations. *)
Definition dates_add `{Extern V} (f : Freq) (k : Z) (dates : Column V) : res (Column V) :=
  match f, dates with
  | FreqInt n, ColInt l => Ok (ColInt ((λ t, t + k * n)%Z <$> l))
  | FreqOffset a, ColDatetime l => Ok (ColDatetime (offset_add a k <$> l))
  | _, _ => Raise (Exception "TypeError" "unsupported operand types for dates and freq")
  end.

(** A target transform, by its contract. *)
Record TargetTransform (V : Type) := {
  tt_fit_transform : Frame V → string → string → string → res (Frame V);
  tt_inverse_transform : option (list nat) → Frame V → res (Frame V)
}.
Arguments tt_fit_transform {V} _ _ _ _ _.
Arguments tt_inverse_transform {V} _ _ _.

(** A date feature: the name of a calendar attribute or a named callable. *)
Inductive DateFeature (V : Type) :=
  | DFName (name : string)
  | DFCallable (name : string) (f : list Z → res (Column V)).
Arguments DFName {V} name.
Arguments DFCallable {V} name f.

(** A fitted model, or the list of per-horizon models of direct
    forecasting. *)
Inductive Model (V : Type) :=
  | Estimator (predict : Frame V → res (list V))
  | Estimators (models : list (Frame V → res (list V))).
Arguments Estimator {V} predict.
Arguments Estimators {V} models.

(** The thread pool: [completion t n] is the order in which the [n]
    futures of the [t]-th parallel run complete. *)
Class ThreadPool := {
  completion : nat → nat → list nat;
  completion_perm : ∀ t n, completion t n ≡ₚ seq 0 n
}.

(** ** Memory

    A numpy array is a location of the store; a [GroupedArray] object
    refers to its two arrays, which several objects may share. *)
Inductive ndarray (V : Type) :=
  | FloatArr (x : list V)
  | IntArr (x : list nat).
Arguments FloatArr {V} x.
Arguments IntArr {V} x.

Record GARef := {
  data_ref : nat;
  indptr_ref : nat
}.

Definition ga_load {V} (h : list (ndarray V)) (r : GARef) : GroupedArray V :=
  {| data := match h !! data_ref r with Some (FloatArr x) => x | _ => [] end;
     indptr := match h !! indptr_ref r with Some (IntArr x) => x | _ => [] end |}.

(** A method that returns a new [GroupedArray] allocates its arrays. *)
Definition ga_alloc {V} (h : list (ndarray V)) (g : GroupedArray V)
  : list (ndarray V) * GARef :=
  (h ++ [FloatArr (data g); IntArr (indptr g)],
   {| data_ref := length h; indptr_ref := S (length h) |}).

(** ** The state of a [TimeSeries] and its methods

    The attributes of [self], with the store of arrays, the warnings
    issued so far and the number of parallel runs so far.  An attribute
    that the code deletes or tests with [hasattr] is optional. *)
Record TimeSeries (V : Type) := {
  freq : Freq;
  lags : list Z;
  lag_transforms : list (Z * list (LagTransform V));
  date_features : list (DateFeature V);
  num_threads : Z;
  target_transforms : option (list (TargetTransform V));
  transforms : list (string * tspec V);
  id_col : string;
  time_col : string;
  target_col : string;
  keep_last_n : option Z;
  static_features : option (list string);
  uids : list string;
  last_dates : Column V;
  restore_idxs : list Z;
  ga : GARef;
  _ga : GARef;
  static_features_ : Frame V;
  features_order_ : list string;
  dropna : bool;
  max_horizon : option nat;
  _uids : option (list string);
  _idxs : option (option (list nat));
  curr_dates : option (Column V);
  test_dates : list (Column V);
  y_pred : option (list (list V));
  _h : nat;
  heap : list (ndarray V);
  warnings : list string;
  pool_runs : nat
}.
Arguments freq {V} _.
Arguments lags {V} _.
Arguments lag_transforms {V} _.
Arguments date_features {V} _.
Arguments num_threads {V} _.
Arguments target_transforms {V} _.
Arguments transforms {V} _.
Arguments id_col {V} _.
Arguments time_col {V} _.
Arguments target_col {V} _.
Arguments keep_last_n {V} _.
Arguments static_features {V} _.
Arguments uids {V} _.
Arguments last_dates {V} _.
Arguments restore_idxs {V} _.
Arguments ga {V} _.
Arguments _ga {V} _.
Arguments static_features_ {V} _.
Arguments features_order_ {V} _.
Arguments dropna {V} _.
Arguments max_horizon {V} _.
Arguments _uids {V} _.
Arguments _idxs {V} _.
Arguments curr_dates {V} _.
Arguments test_dates {V} _.
Arguments y_pred {V} _.
Arguments _h {V} _.
Arguments heap {V} _.
Arguments warnings {V} _.
Arguments pool_runs {V} _.

(** Attribute assignment, [self.x = v]. *)
Definition set_freq {V} (v : Freq) (self : TimeSeries V) : TimeSeries V :=
  {| freq := v; lags := lags self; lag_transforms := lag_transforms self; date_features
     := date_features self; num_threads := num_threads self; target_transforms :=
     target_transforms self; transforms := transforms self; id_col := id_col self;
     time_col := time_col self; target_col := target_col self; keep_last_n :=
     keep_last_n self; static_features := static_features self; uids := uids self;
     last_dates := last_dates self; restore_idxs := restore_idxs self; ga := ga self;
     _ga := _ga self; static_features_ := static_features_ self; features_order_ :=
     features_order_ self; dropna := dropna self; max_horizon := max_horizon self; _uids
     := _uids self; _idxs := _idxs self; curr_dates := curr_dates self; test_dates :=
     test_dates self; y_pred := y_pred self; _h := _h self; heap := heap self; warnings
     := warnings self; pool_runs := pool_runs self |}.
Definition set_id_col {V} (v : string) (self : TimeSeries V) : TimeSeries V :=
  {| freq := freq self; lags := lags self; lag_transforms := lag_transforms self;
     date_features := date_features self; num_threads := num_threads self;
     target_transforms := target_transforms self; transforms := transforms self; id_col
     := v; time_col := time_col self; target_col := target_col self; keep_last_n :=
     keep_last_n self; static_features := static_features self; uids := uids self;
     last_dates := last_dates self; restore_idxs := restore_idxs self; ga := ga self;
     _ga := _ga self; static_features_ := static_features_ self; features_order_ :=
     features_order_ self; dropna := dropna self; max_horizon := max_horizon self; _uids
     := _uids self; _idxs := _idxs self; curr_dates := curr_dates self; test_dates :=
     test_dates self; y_pred := y_pred self; _h := _h self; heap := heap self; warnings
     := warnings self; pool_runs := pool_runs self |}.
Definition set_time_col {V} (v : string) (self : TimeSeries V) : TimeSeries V :=
  {| freq := freq self; lags := lags self; lag_transforms := lag_transforms self;
     date_features := date_features self; num_threads := num_threads self;
     target_transforms := target_transforms self; transforms := transforms self; id_col
     := id_col self; time_col := v; target_col := target_col self; keep_last_n :=
     keep_last_n self; static_features := static_features self; uids := uids self;
     last_dates := last_dates self; restore_idxs := restore_idxs self; ga := ga self;
     _ga := _ga self; static_features_ := static_features_ self; features_order_ :=
     features_order_ self; dropna := dropna self; max_horizon := max_horizon self; _uids
     := _uids self; _idxs := _idxs self; curr_dates := curr_dates self; test_dates :=
     test_dates self; y_pred := y_pred self; _h := _h self; heap := heap self; warnings
     := warnings self; pool_runs := pool_runs self |}.
Definition set_target_col {V} (v : string) (self : TimeSeries V) : TimeSeries V :=
  {| freq := freq self; lags := lags self; lag_transforms := lag_transforms self;
     date_features := date_features self; num_threads := num_threads self;
     target_transforms := target_transforms self; transforms := transforms self; id_col
     := id_col self; time_col := time_col self; target_col := v; keep_last_n :=
     keep_last_n self; static_features := static_features self; uids := uids self;
     last_dates := last_dates self; restore_idxs := restore_idxs self; ga := ga self;
     _ga := _ga self; static_features_ := static_features_ self; features_order_ :=
     features_order_ self; dropna := dropna self; max_horizon := max_horizon self; _uids
     := _uids self; _idxs := _idxs self; curr_dates := curr_dates self; test_dates :=
     test_dates self; y_pred := y_pred self; _h := _h self; heap := heap self; warnings
     := warnings self; pool_runs := pool_runs self |}.
Definition set_keep_last_n {V} (v : option Z) (self : TimeSeries V) : TimeSeries V :=
  {| freq := freq self; lags := lags self; lag_transforms := lag_transforms self;
     date_features := date_features self; num_threads := num_threads self;
     target_transforms := target_transforms self; transforms := transforms self; id_col
     := id_col self; time_col := time_col self; target_col := target_col self;
     keep_last_n := v; static_features := static_features self; uids := uids self;
     last_dates := last_dates self; restore_idxs := restore_idxs self; ga := ga self;
     _ga := _ga self; static_features_ := static_features_ self; features_order_ :=
     features_order_ self; dropna := dropna self; max_horizon := max_horizon self; _uids
     := _uids self; _idxs := _idxs self; curr_dates := curr_dates self; test_dates :=
     test_dates self; y_pred := y_pred self; _h := _h self; heap := heap self; warnings
     := warnings self; pool_runs := pool_runs self |}.
Definition set_static_features {V} (v : option (list string)) (self : TimeSeries V) : TimeSeries V :=
  {| freq := freq self; lags := lags self; lag_transforms := lag_transforms self;
     date_features := date_features self; num_threads := num_threads self;
     target_transforms := target_transforms self; transforms := transforms self; id_col
     := id_col self; time_col := time_col self; target_col := target_col self;
     keep_last_n := keep_last_n self; static_features := v; uids := uids self;
     last_dates := last_dates self; restore_idxs := restore_idxs self; ga := ga self;
     _ga := _ga self; static_features_ := static_features_ self; features_order_ :=
     features_order_ self; dropna := dropna self; max_horizon := max_horizon self; _uids
     := _uids self; _idxs := _idxs self; curr_dates := curr_dates self; test_dates :=
     test_dates self; y_pred := y_pred self; _h := _h self; heap := heap self; warnings
     := warnings self; pool_runs := pool_runs self |}.
Definition set_uids {V} (v : list string) (self : TimeSeries V) : TimeSeries V :=
  {| freq := freq self; lags := lags self; lag_transforms := lag_transforms self;
     date_features := date_features self; num_threads := num_threads self;
     target_transforms := target_transforms self; transforms := transforms self; id_col
     := id_col self; time_col := time_col self; target_col := target_col self;
     keep_last_n := keep_last_n self; static_features := static_features self; uids :=
     v; last_dates := last_dates self; restore_idxs := restore_idxs self; ga := ga self;
     _ga := _ga self; static_features_ := static_features_ self; features_order_ :=
     features_order_ self; dropna := dropna self; max_horizon := max_horizon self; _uids
     := _uids self; _idxs := _idxs self; curr_dates := curr_dates self; test_dates :=
     test_dates self; y_pred := y_pred self; _h := _h self; heap := heap self; warnings
     := warnings self; pool_runs := pool_runs self |}.
Definition set_last_dates {V} (v : Column V) (self : TimeSeries V) : TimeSeries V :=
  {| freq := freq self; lags := lags self; lag_transforms := lag_transforms self;
     date_features := date_features self; num_threads := num_threads self;
     target_transforms := target_transforms self; transforms := transforms self; id_col
     := id_col self; time_col := time_col self; target_col := target_col self;
     keep_last_n := keep_last_n self; static_features := static_features self; uids :=
     uids self; last_dates := v; restore_idxs := restore_idxs self; ga := ga self; _ga
     := _ga self; static_features_ := static_features_ self; features_order_ :=
     features_order_ self; dropna := dropna self; max_horizon := max_horizon self; _uids
     := _uids self; _idxs := _idxs self; curr_dates := curr_dates self; test_dates :=
     test_dates self; y_pred := y_pred self; _h := _h self; heap := heap self; warnings
     := warnings self; pool_runs := pool_runs self |}.
Definition set_restore_idxs {V} (v : list Z) (self : TimeSeries V) : TimeSeries V :=
  {| freq := freq self; lags := lags self; lag_transforms := lag_transforms self;
     date_features := date_features self; num_threads := num_threads self;
     target_transforms := target_transforms self; transforms := transforms self; id_col
     := id_col self; time_col := time_col self; target_col := target_col self;
     keep_last_n := keep_last_n self; static_features := static_features self; uids :=
     uids self; last_dates := last_dates self; restore_idxs := v; ga := ga self; _ga :=
     _ga self; static_features_ := static_features_ self; features_order_ :=
     features_order_ self; dropna := dropna self; max_horizon := max_horizon self; _uids
     := _uids self; _idxs := _idxs self; curr_dates := curr_dates self; test_dates :=
     test_dates self; y_pred := y_pred self; _h := _h self; heap := heap self; warnings
     := warnings self; pool_runs := pool_runs self |}.
Definition set_ga {V} (v : GARef) (self : TimeSeries V) : TimeSeries V :=
  {| freq := freq self; lags := lags self; lag_transforms := lag_transforms self;
     date_features := date_features self; num_threads := num_threads self;
     target_transforms := target_transforms self; transforms := transforms self; id_col
     := id_col self; time_col := time_col self; target_col := target_col self;
     keep_last_n := keep_last_n self; static_features := static_features self; uids :=
     uids self; last_dates := last_dates self; restore_idxs := restore_idxs self; ga :=
     v; _ga := _ga self; static_features_ := static_features_ self; features_order_ :=
     features_order_ self; dropna := dropna self; max_horizon := max_horizon self; _uids
     := _uids self; _idxs := _idxs self; curr_dates := curr_dates self; test_dates :=
     test_dates self; y_pred := y_pred self; _h := _h self; heap := heap self; warnings
     := warnings self; pool_runs := pool_runs self |}.
Definition set__ga {V} (v : GARef) (self : TimeSeries V) : TimeSeries V :=
  {| freq := freq self; lags := lags self; lag_transforms := lag_transforms self;
     date_features := date_features self; num_threads := num_threads self;
     target_transforms := target_transforms self; transforms := transforms self; id_col
     := id_col self; time_col := time_col self; target_col := target_col self;
     keep_last_n := keep_last_n self; static_features := static_features self; uids :=
     uids self; last_dates := last_dates self; restore_idxs := restore_idxs self; ga :=
     ga self; _ga := v; static_features_ := static_features_ self; features_order_ :=
     features_order_ self; dropna := dropna self; max_horizon := max_horizon self; _uids
     := _uids self; _idxs := _idxs self; curr_dates := curr_dates self; test_dates :=
     test_dates self; y_pred := y_pred self; _h := _h self; heap := heap self; warnings
     := warnings self; pool_runs := pool_runs self |}.
Definition set_static_features_ {V} (v : Frame V) (self : TimeSeries V) : TimeSeries V :=
  {| freq := freq self; lags := lags self; lag_transforms := lag_transforms self;
     date_features := date_features self; num_threads := num_threads self;
     target_transforms := target_transforms self; transforms := transforms self; id_col
     := id_col self; time_col := time_col self; target_col := target_col self;
     keep_last_n := keep_last_n self; static_features := static_features self; uids :=
     uids self; last_dates := last_dates self; restore_idxs := restore_idxs self; ga :=
     ga self; _ga := _ga self; static_features_ := v; features_order_ := features_order_
     self; dropna := dropna self; max_horizon := max_horizon self; _uids := _uids self;
     _idxs := _idxs self; curr_dates := curr_dates self; test_dates := test_dates self;
     y_pred := y_pred self; _h := _h self; heap := heap self; warnings := warnings self;
     pool_runs := pool_runs self |}.
Definition set_features_order_ {V} (v : list string) (self : TimeSeries V) : TimeSeries V :=
  {| freq := freq self; lags := lags self; lag_transforms := lag_transforms self;
     date_features := date_features self; num_threads := num_threads self;
     target_transforms := target_transforms self; transforms := transforms self; id_col
     := id_col self; time_col := time_col self; target_col := target_col self;
     keep_last_n := keep_last_n self; static_features := static_features self; uids :=
     uids self; last_dates := last_dates self; restore_idxs := restore_idxs self; ga :=
     ga self; _ga := _ga self; static_features_ := static_features_ self;
     features_order_ := v; dropna := dropna self; max_horizon := max_horizon self; _uids
     := _uids self; _idxs := _idxs self; curr_dates := curr_dates self; test_dates :=
     test_dates self; y_pred := y_pred self; _h := _h self; heap := heap self; warnings
     := warnings self; pool_runs := pool_runs self |}.
Definition set_dropna {V} (v : bool) (self : TimeSeries V) : TimeSeries V :=
  {| freq := freq self; lags := lags self; lag_transforms := lag_transforms self;
     date_features := date_features self; num_threads := num_threads self;
     target_transforms := target_transforms self; transforms := transforms self; id_col
     := id_col self; time_col := time_col self; target_col := target_col self;
     keep_last_n := keep_last_n self; static_features := static_features self; uids :=
     uids self; last_dates := last_dates self; restore_idxs := restore_idxs self; ga :=
     ga self; _ga := _ga self; static_features_ := static_features_ self;
     features_order_ := features_order_ self; dropna := v; max_horizon := max_horizon
     self; _uids := _uids self; _idxs := _idxs self; curr_dates := curr_dates self;
     test_dates := test_dates self; y_pred := y_pred self; _h := _h self; heap := heap
     self; warnings := warnings self; pool_runs := pool_runs self |}.
Definition set_max_horizon {V} (v : option nat) (self : TimeSeries V) : TimeSeries V :=
  {| freq := freq self; lags := lags self; lag_transforms := lag_transforms self;
     date_features := date_features self; num_threads := num_threads self;
     target_transforms := target_transforms self; transforms := transforms self; id_col
     := id_col self; time_col := time_col self; target_col := target_col self;
     keep_last_n := keep_last_n self; static_features := static_features self; uids :=
     uids self; last_dates := last_dates self; restore_idxs := restore_idxs self; ga :=
     ga self; _ga := _ga self; static_features_ := static_features_ self;
     features_order_ := features_order_ self; dropna := dropna self; max_horizon := v;
     _uids := _uids self; _idxs := _idxs self; curr_dates := curr_dates self; test_dates
     := test_dates self; y_pred := y_pred self; _h := _h self; heap := heap self;
     warnings := warnings self; pool_runs := pool_runs self |}.
Definition set__uids {V} (v : option (list string)) (self : TimeSeries V) : TimeSeries V :=
  {| freq := freq self; lags := lags self; lag_transforms := lag_transforms self;
     date_features := date_features self; num_threads := num_threads self;
     target_transforms := target_transforms self; transforms := transforms self; id_col
     := id_col self; time_col := time_col self; target_col := target_col self;
     keep_last_n := keep_last_n self; static_features := static_features self; uids :=
     uids self; last_dates := last_dates self; restore_idxs := restore_idxs self; ga :=
     ga self; _ga := _ga self; static_features_ := static_features_ self;
     features_order_ := features_order_ self; dropna := dropna self; max_horizon :=
     max_horizon self; _uids := v; _idxs := _idxs self; curr_dates := curr_dates self;
     test_dates := test_dates self; y_pred := y_pred self; _h := _h self; heap := heap
     self; warnings := warnings self; pool_runs := pool_runs self |}.
Definition set__idxs {V} (v : option (option (list nat))) (self : TimeSeries V) : TimeSeries V :=
  {| freq := freq self; lags := lags self; lag_transforms := lag_transforms self;
     date_features := date_features self; num_threads := num_threads self;
     target_transforms := target_transforms self; transforms := transforms self; id_col
     := id_col self; time_col := time_col self; target_col := target_col self;
     keep_last_n := keep_last_n self; static_features := static_features self; uids :=
     uids self; last_dates := last_dates self; restore_idxs := restore_idxs self; ga :=
     ga self; _ga := _ga self; static_features_ := static_features_ self;
     features_order_ := features_order_ self; dropna := dropna self; max_horizon :=
     max_horizon self; _uids := _uids self; _idxs := v; curr_dates := curr_dates self;
     test_dates := test_dates self; y_pred := y_pred self; _h := _h self; heap := heap
     self; warnings := warnings self; pool_runs := pool_runs self |}.
Definition set_curr_dates {V} (v : option (Column V)) (self : TimeSeries V) : TimeSeries V :=
  {| freq := freq self; lags := lags self; lag_transforms := lag_transforms self;
     date_features := date_features self; num_threads := num_threads self;
     target_transforms := target_transforms self; transforms := transforms self; id_col
     := id_col self; time_col := time_col self; target_col := target_col self;
     keep_last_n := keep_last_n self; static_features := static_features self; uids :=
     uids self; last_dates := last_dates self; restore_idxs := restore_idxs self; ga :=
     ga self; _ga := _ga self; static_features_ := static_features_ self;
     features_order_ := features_order_ self; dropna := dropna self; max_horizon :=
     max_horizon self; _uids := _uids self; _idxs := _idxs self; curr_dates := v;
     test_dates := test_dates self; y_pred := y_pred self; _h := _h self; heap := heap
     self; warnings := warnings self; pool_runs := pool_runs self |}.
Definition set_test_dates {V} (v : list (Column V)) (self : TimeSeries V) : TimeSeries V :=
  {| freq := freq self; lags := lags self; lag_transforms := lag_transforms self;
     date_features := date_features self; num_threads := num_threads self;
     target_transforms := target_transforms self; transforms := transforms self; id_col
     := id_col self; time_col := time_col self; target_col := target_col self;
     keep_last_n := keep_last_n self; static_features := static_features self; uids :=
     uids self; last_dates := last_dates self; restore_idxs := restore_idxs self; ga :=
     ga self; _ga := _ga self; static_features_ := static_features_ self;
     features_order_ := features_order_ self; dropna := dropna self; max_horizon :=
     max_horizon self; _uids := _uids self; _idxs := _idxs self; curr_dates :=
     curr_dates self; test_dates := v; y_pred := y_pred self; _h := _h self; heap :=
     heap self; warnings := warnings self; pool_runs := pool_runs self |}.
Definition set_y_pred {V} (v : option (list (list V))) (self : TimeSeries V) : TimeSeries V :=
  {| freq := freq self; lags := lags self; lag_transforms := lag_transforms self;
     date_features := date_features self; num_threads := num_threads self;
     target_transforms := target_transforms self; transforms := transforms self; id_col
     := id_col self; time_col := time_col self; target_col := target_col self;
     keep_last_n := keep_last_n self; static_features := static_features self; uids :=
     uids self; last_dates := last_dates self; restore_idxs := restore_idxs self; ga :=
     ga self; _ga := _ga self; static_features_ := static_features_ self;
     features_order_ := features_order_ self; dropna := dropna self; max_horizon :=
     max_horizon self; _uids := _uids self; _idxs := _idxs self; curr_dates :=
     curr_dates self; test_dates := test_dates self; y_pred := v; _h := _h self; heap :=
     heap self; warnings := warnings self; pool_runs := pool_runs self |}.
Definition set__h {V} (v : nat) (self : TimeSeries V) : TimeSeries V :=
  {| freq := freq self; lags := lags self; lag_transforms := lag_transforms self;
     date_features := date_features self; num_threads := num_threads self;
     target_transforms := target_transforms self; transforms := transforms self; id_col
     := id_col self; time_col := time_col self; target_col := target_col self;
     keep_last_n := keep_last_n self; static_features := static_features self; uids :=
     uids self; last_dates := last_dates self; restore_idxs := restore_idxs self; ga :=
     ga self; _ga := _ga self; static_features_ := static_features_ self;
     features_order_ := features_order_ self; dropna := dropna self; max_horizon :=
     max_horizon self; _uids := _uids self; _idxs := _idxs self; curr_dates :=
     curr_dates self; test_dates := test_dates self; y_pred := y_pred self; _h := v;
     heap := heap self; warnings := warnings self; pool_runs := pool_runs self |}.
Definition set_heap {V} (v : list (ndarray V)) (self : TimeSeries V) : TimeSeries V :=
  {| freq := freq self; lags := lags self; lag_transforms := lag_transforms self;
     date_features := date_features self; num_threads := num_threads self;
     target_transforms := target_transforms self; transforms := transforms self; id_col
     := id_col self; time_col := time_col self; target_col := target_col self;
     keep_last_n := keep_last_n self; static_features := static_features self; uids :=
     uids self; last_dates := last_dates self; restore_idxs := restore_idxs self; ga :=
     ga self; _ga := _ga self; static_features_ := static_features_ self;
     features_order_ := features_order_ self; dropna := dropna self; max_horizon :=
     max_horizon self; _uids := _uids self; _idxs := _idxs self; curr_dates :=
     curr_dates self; test_dates := test_dates self; y_pred := y_pred self; _h := _h
     self; heap := v; warnings := warnings self; pool_runs := pool_runs self |}.
Definition set_warnings {V} (v : list string) (self : TimeSeries V) : TimeSeries V :=
  {| freq := freq self; lags := lags self; lag_transforms := lag_transforms self;
     date_features := date_features self; num_threads := num_threads self;
     target_transforms := target_transforms self; transforms := transforms self; id_col
     := id_col self; time_col := time_col self; target_col := target_col self;
     keep_last_n := keep_last_n self; static_features := static_features self; uids :=
     uids self; last_dates := last_dates self; restore_idxs := restore_idxs self; ga :=
     ga self; _ga := _ga self; static_features_ := static_features_ self;
     features_order_ := features_order_ self; dropna := dropna self; max_horizon :=
     max_horizon self; _uids := _uids self; _idxs := _idxs self; curr_dates :=
     curr_dates self; test_dates := test_dates self; y_pred := y_pred self; _h := _h
     self; heap := heap self; warnings := v; pool_runs := pool_runs self |}.
Definition set_pool_runs {V} (v : nat) (self : TimeSeries V) : TimeSeries V :=
  {| freq := freq self; lags := lags self; lag_transforms := lag_transforms self;
     date_features := date_features self; num_threads := num_threads self;
     target_transforms := target_transforms self; transforms := transforms self; id_col
     := id_col self; time_col := time_col self; target_col := target_col self;
     keep_last_n := keep_last_n self; static_features := static_features self; uids :=
     uids self; last_dates := last_dates self; restore_idxs := restore_idxs self; ga :=
     ga self; _ga := _ga self; static_features_ := static_features_ self;
     features_order_ := features_order_ self; dropna := dropna self; max_horizon :=
     max_horizon self; _uids := _uids self; _idxs := _idxs self; curr_dates :=
     curr_dates self; test_dates := test_dates self; y_pred := y_pred self; _h := _h
     self; heap := heap self; warnings := warnings self; pool_runs := v |}.
(** A method: it reads and updates [self] and returns or raises. *)
Definition M (V A : Type) : Type := TimeSeries V → res A * TimeSeries V.

Definition retM {V A} (a : A) : M V A := λ self, (Ok a, self).

Definition bindM {V A B} (m : M V A) (k : A → M V B) : M V B :=
  λ self, match m self with
          | (Ok a, self') => k a self'
          | (Raise e, self') => (Raise e, self')
          end.

Definition raiseM {V A} (e : exn) : M V A := λ self, (Raise e, self).
Definition liftM {V A} (r : res A) : M V A := λ self, (r, self).
Definition getM {V A} (f : TimeSeries V → A) : M V A := λ self, (Ok (f self), self).
Definition modifyM {V} (f : TimeSeries V → TimeSeries V) : M V () := λ self, (Ok (), f self).

(** [warnings.warn(msg)] *)
Definition warn {V} (msg : string) : M V () :=
  modifyM (λ self, set_warnings (warnings self ++ [msg]) self).

Notation "'let?' x := c1 'in' c2" := (res_bind c1 (λ x, c2))
  (at level 10, x pattern, c1 at level 100, c2 at level 200).
Notation "'let*' x := c1 'in' c2" := (bindM c1 (λ x, c2))
  (at level 10, x pattern, c1 at level 100, c2 at level 200).
Notation "c1 ;; c2" := (bindM c1 (λ _, c2))
  (at level 100, c2 at level 200, right associativity).

(** [for x in xs: self = body(x)] *)
Fixpoint forM {V A} (xs : list A) (body : A → M V ()) : M V () :=
  match xs with
  | [] => retM ()
  | x :: rest => body x ;; forM rest body
  end.

(** An attribute that may be absent. *)
Definition attr {V A} (name : string) (f : TimeSeries V → option A) : M V A :=
  λ self, match f self with
          | Some a => (Ok a, self)
          | None => (Raise (Exception "AttributeError" name), self)
          end.

(** [TimeSeries.__init__] (lines 125-170); [freq] is [None], a string
    that names an offset, an offset or an integer.  The attributes that
    [_fit] sets later are empty in the fresh object. *)
Definition is_lambda {V} (f : DateFeature V) : bool :=
  match f with
  | DFCallable name _ => bool_decide (name = "<lambda>")
  | DFName _ => false
  end.

Definition __init__ {V} (freq : option Freq) (lags : option (list Z))
    (lag_transforms : option (list (Z * list (LagTransform V))))
    (date_features : option (list (DateFeature V))) (num_threads : Z)
    (target_transforms : option (list (TargetTransform V))) : res (TimeSeries V) :=
  let freq := default (FreqInt 1) freq in
  let '(num_threads, warned) :=
    if decide (num_threads < 1)%Z then (1%Z, ["Setting num_threads to 1."])
    else (num_threads, []) in
  let lags := default [] lags in
  let lag_transforms := default [] lag_transforms in
  let date_features := default [] date_features in
  if existsb is_lambda date_features
  then Raise (ValueError "Can't use a lambda as a date feature because the function name gets used as the feature name.")
  else Ok {|
    freq := freq; lags := lags; lag_transforms := lag_transforms;
    date_features := date_features; num_threads := num_threads;
    target_transforms := target_transforms;
    transforms := init_transforms lags lag_transforms;
    id_col := EmptyString; time_col := EmptyString; target_col := EmptyString; keep_last_n := None;
    static_features := None; uids := []; last_dates := ColInt []; restore_idxs := [];
    ga := {| data_ref := 0; indptr_ref := 0 |};
    _ga := {| data_ref := 0; indptr_ref := 0 |};
    static_features_ := {| nrows := 0; cols := [] |}; features_order_ := [];
    dropna := true; max_horizon := None; _uids := None; _idxs := None;
    curr_dates := None; test_dates := []; y_pred := None; _h := 0;
    heap := []; warnings := warned; pool_runs := 0 |}.

Definition _date_feature_names {V} (self : TimeSeries V) : list string :=
  (λ f, match f with DFName n => n | DFCallable n _ => n end) <$> date_features self.

Definition features {V} (self : TimeSeries V) : list string :=
  od_keys (transforms self) ++ _date_feature_names self.

(** *** The transform engine *)

(** [offset = 1 if updates_only else 0] *)
Definition lag_offset (updates_only : bool) : Z := if updates_only then 1%Z else 0%Z.

(** The loop of [_apply_transforms] (lines 259-262). *)
Fixpoint _apply_transforms_loop `{Float V} (ga : GroupedArray V) (updates_only : bool)
    (items : list (string * tspec V)) (results : list (string * list V))
  : res (list (string * list V)) :=
  match items with
  | [] => Ok results
  | (tfm_name, spec) :: rest =>
      let? r := transform_series ga updates_only (ts_lag spec - lag_offset updates_only)
                                 (ts_tfm spec) (ts_args spec) in
      _apply_transforms_loop ga updates_only rest (od_set tfm_name r results)
  end.

Definition _apply_transforms `{Float V} (updates_only : bool) : M V (list (string * list V)) :=
  λ self, (_apply_transforms_loop (ga_load (heap self) (ga self)) updates_only
                                  (transforms self) [], self).

(** A future: its identity and what [future.result()] gives, the value
    or the exception of the call that was submitted.  The workers only
    read the array. *)
Record Future (V : Type) := {
  fut_id : nat;
  fut_result : res (list V)
}.
Arguments fut_id {V} _.
Arguments fut_result {V} _.

(** The first loop of [_apply_multithreaded_transforms] (lines 276-284):
    [future_to_result], in submission order. *)
Definition submit_all `{Float V} (ga : GroupedArray V) (updates_only : bool)
    (items : list (string * tspec V)) : list (Future V * string) :=
  imap (λ i '(tfm_name, spec),
          ({| fut_id := i;
              fut_result := transform_series ga updates_only
                              (ts_lag spec - lag_offset updates_only)
                              (ts_tfm spec) (ts_args spec) |}, tfm_name))
       items.

(** [concurrent.futures.as_completed(future_to_result)] *)
Definition as_completed {V} (order : list nat) (future_to_result : list (Future V * string))
  : list (Future V) :=
  omap (λ i, fst <$> future_to_result !! i) order.

(** The second loop (lines 285-287). *)
Fixpoint collect_results {V} (future_to_result : list (Future V * string))
    (completed : list (Future V)) (results : list (string * list V))
  : res (list (string * list V)) :=
  match completed with
  | [] => Ok results
  | future :: rest =>
      match list_find (λ fn, fut_id fn.1 = fut_id future) future_to_result with
      | None => Raise (KeyError "future")
      | Some (_, (_, tfm_name)) =>
          let? r := fut_result future in
          collect_results future_to_result rest (od_set tfm_name r results)
      end
  end.

Definition _apply_multithreaded_transforms `{Float V} `{ThreadPool} (updates_only : bool)
  : M V (list (string * list V)) :=
  λ self,
    let future_to_result :=
      submit_all (ga_load (heap self) (ga self)) updates_only (transforms self) in
    let order := completion (pool_runs self) (length future_to_result) in
    (collect_results future_to_result (as_completed order future_to_result) [],
     set_pool_runs (S (pool_runs self)) self).

Definition _compute_transforms `{Float V} `{ThreadPool} : M V (list (string * list V)) :=
  let* num_threads := getM num_threads in
  let* transforms := getM transforms in
  if decide (num_threads = 1%Z ∨ length transforms = 1)
  then _apply_transforms false
  else _apply_multithreaded_transforms false.

(** *** Date features *)

(** [date_features_dtypes] (lines 26-48). *)
Definition date_features_dtypes : list (string * string) :=
  [("year", "uint16"); ("month", "uint8"); ("day", "uint8"); ("hour", "uint8");
   ("minute", "uint8"); ("second", "uint8"); ("dayofyear", "uint16");
   ("day_of_year", "uint16"); ("weekofyear", "uint8"); ("week", "uint8");
   ("dayofweek", "uint8"); ("day_of_week", "uint8"); ("weekday", "uint8");
   ("quarter", "uint8"); ("daysinmonth", "uint8"); ("is_month_start", "uint8");
   ("is_month_end", "uint8"); ("is_quarter_start", "uint8");
   ("is_quarter_end", "uint8"); ("is_year_start", "uint8"); ("is_year_end", "uint8")].

(** [_compute_date_feature] (lines 298-311); the dtype table has no entry
    for a callable. *)
Definition _compute_date_feature `{Extern V} (dates : list Z) (feature : DateFeature V)
  : res (string * Column V) :=
  match feature with
  | DFCallable feat_name f =>
      let? feat_vals := f dates in Ok (feat_name, feat_vals)
  | DFName feature =>
      let iso := bool_decide (feature ∈ ["week"; "weekofyear"]) in
      let? feat_vals := date_attr iso feature dates in
      Ok (feature,
          match od_get feature date_features_dtypes with
          | Some feat_dtype => np_astype feat_dtype feat_vals
          | None => feat_vals
          end)
  end.

(** The times of a time column. *)
Definition col_times {V} (c : Column V) : res (list Z) :=
  match c with
  | ColInt l | ColDatetime l => Ok l
  | _ => Raise (Exception "TypeError" "not a time column")
  end.

(** *** Fitting *)

(** [column[idxs]] *)
Definition col_take {V} (idxs : list nat) (c : Column V) : res (Column V) :=
  match c with
  | ColStr l => let? l' := np_take l idxs in Ok (ColStr l')
  | ColInt l => let? l' := np_take l idxs in Ok (ColInt l')
  | ColDatetime l => let? l' := np_take l idxs in Ok (ColDatetime l')
  | ColFloat l => let? l' := np_take l idxs in Ok (ColFloat l')
  end.

(** [df.iloc[idxs]] *)
Definition frame_take {V} (idxs : list nat) (df : Frame V) : res (Frame V) :=
  let? cs := res_map (λ kc, let? c := col_take idxs kc.2 in Ok (kc.1, c)) (cols df) in
  Ok {| nrows := length idxs; cols := cs |}.

(** [column.values] as floats, cast to [float32] when of another dtype. *)
Definition col_floats `{Extern V} (c : Column V) : res (list V) :=
  match c with
  | ColFloat l => Ok l
  | _ => match np_astype "float32" c with
         | ColFloat l => Ok l
         | _ => Raise (ValueError "could not convert to float")
         end
  end.

(** [restore_idxs[sort_idxs] = np.arange(n)] on a fresh array of dtype
    [np.int32]: the positions are cast as they are stored. *)
Definition scatter_arange (n : nat) (sort_idxs : list nat) : res (list Z) :=
  if decide (length sort_idxs = n ∧ Forall (λ i, i < n) sort_idxs)
  then Ok (foldl (λ out '(i, s), <[s := int32 (Z.of_nat i)]> out) (replicate n 0%Z)
                 (zip (seq 0 n) sort_idxs))
  else Raise (IndexError "shape mismatch or index out of bounds").

(** The frequency check of [_fit] (lines 202-210). *)
Definition _fit_check_freq {V} (time_column : Column V) : M V () :=
  let* freq_ := getM freq in
  if is_datetime64_dtype time_column then
    if freq_is_one freq_
    then raiseM (ValueError "Must set frequency when using a timestamp type column.")
    else retM ()
  else
    if negb (freq_is_one freq_)
    then warn "Setting `freq=1` since time col is int." ;;
         modifyM (set_freq (FreqInt 1))
    else retM ().

(** The loop over the target transforms (lines 227-230). *)
Fixpoint fit_target_transforms {V} (tfms : list (TargetTransform V))
    (id_col time_col target_col : string) (sorted_df : Frame V) : res (Frame V) :=
  match tfms with
  | [] => Ok sorted_df
  | tfm :: rest =>
      let? sorted_df := tt_fit_transform tfm sorted_df id_col time_col target_col in
      fit_target_transforms rest id_col time_col target_col sorted_df
  end.

(** [GroupedArray(data, indptr)] on two fresh arrays. *)
Definition new_grouped_array {V} (g : GroupedArray V) : M V GARef :=
  λ self, let '(h, r) := ga_alloc (heap self) g in (Ok r, set_heap h self).

(** The rest of [_fit] once the table is validated (lines 211-250). *)
Definition _fit_store `{Float V} `{Extern V} (df : Frame V)
    (id_col time_col target_col : string) (static_features : option (list string))
    (keep_last_n : option Z) : M V () :=
  modifyM (set_id_col id_col) ;;
  modifyM (set_target_col target_col) ;;
  modifyM (set_time_col time_col) ;;
  modifyM (set_keep_last_n keep_last_n) ;;
  modifyM (set_static_features static_features) ;;
  let* sorted_df := liftM (frame_select [id_col; time_col; target_col] df) in
  let* p := liftM (process sorted_df id_col time_col target_col) in
  modifyM (set_uids (p_uids p)) ;;
  modifyM (set_last_dates (p_times p)) ;;
  let* sorted_df :=
    match p_sort_idxs p with
    | Some sort_idxs =>
        let* idxs := liftM (scatter_arange (nrows df) sort_idxs) in
        modifyM (set_restore_idxs idxs) ;;
        liftM (frame_take sort_idxs sorted_df)
    | None =>
        modifyM (set_restore_idxs (Z.of_nat <$> seq 0 (nrows df))) ;;
        retM sorted_df
    end in
  let* tfms := getM target_transforms in
  let* sorted_df :=
    liftM match tfms with
          | Some tfms => fit_target_transforms tfms id_col time_col target_col sorted_df
          | None => Ok sorted_df
          end in
  let* target_column := liftM (frame_get target_col sorted_df) in
  let* data := liftM (col_floats target_column) in
  let* r := new_grouped_array {| data := data; indptr := p_indptr p |} in
  modifyM (set_ga r) ;;
  modifyM (set__ga {| data_ref := data_ref r; indptr_ref := indptr_ref r |}) ;;
  let last_idxs_per_serie := pred <$> drop 1 (p_indptr p) in
  let* (static_features, to_drop) :=
    liftM match static_features with
          | None =>
              let? names := index_drop [time_col; target_col] (columns df) in
              Ok (names, [id_col; time_col; target_col])
          | Some names =>
              if decide (id_col ∈ names)
              then Ok (names, [time_col; target_col])
              else Ok (id_col :: names, [id_col; time_col; target_col])
          end in
  let* last_idxs_per_serie :=
    liftM match p_sort_idxs p with
          | Some sort_idxs => np_take sort_idxs last_idxs_per_serie
          | None => Ok last_idxs_per_serie
          end in
  let* last_rows := liftM (frame_take last_idxs_per_serie df) in
  let* statics := liftM (frame_select static_features last_rows) in
  modifyM (set_static_features_ statics) ;;
  let* kept := liftM (index_drop to_drop (columns df)) in
  let* feats := getM features in
  modifyM (set_features_order_ (kept ++ feats)).

(** [_fit] (lines 189-250). *)
Definition _fit `{Float V} `{Extern V} (df : Frame V) (id_col time_col target_col : string)
    (static_features : option (list string)) (keep_last_n : option Z) : M V () :=
  liftM (validate_format df id_col time_col target_col) ;;
  let* target_column := liftM (frame_get target_col df) in
  if existsb id (col_isnull target_column)
  then raiseM (ValueError (target_col +:+ " column contains null values."))
  else
  let* time_column := liftM (frame_get time_col df) in
  _fit_check_freq time_column ;;
  _fit_store df id_col time_col target_col static_features keep_last_n.

(** *** Building the training table *)

(** The target: one column, or one row of [max_horizon] values per
    observation in direct forecasting. *)
Inductive Target (V : Type) :=
  | Target1 (y : list V)
  | Target2 (y : list (list V)).
Arguments Target1 {V} y.
Arguments Target2 {V} y.

(** [feature_nulls] after the loop of lines 336-338. *)
Fixpoint feature_nulls_loop `{Float V} (values : list (list V)) (feature_nulls : list bool)
  : res (list bool) :=
  match values with
  | [] => Ok feature_nulls
  | feature_vals :: rest =>
      let? feature_nulls := np_ior feature_nulls (isnan <$> feature_vals) in
      feature_nulls_loop rest feature_nulls
  end.

(** [target_nulls] (lines 339-343): for a matrix, the rows whose values
    are all null. *)
Definition target_nulls `{Float V} (target : Target V) : list bool :=
  match target with
  | Target1 y => isnan <$> y
  | Target2 y => forallb isnan <$> y
  end.

(** [keep_rows] (lines 335-348). *)
Definition _transform_keep_rows `{Float V} (n : nat) (features : list (string * list V))
    (target : Target V) (dropna : bool) : res (list bool) :=
  if dropna then
    let? feature_nulls := feature_nulls_loop (od_values features) (replicate n false) in
    let? nulls := np_or feature_nulls (target_nulls target) in
    Ok (negb <$> nulls)
  else Ok (replicate n true).

(** [target[keep_rows]] *)
Definition target_mask {V} (keep_rows : list bool) (target : Target V) : res (Target V) :=
  match target with
  | Target1 y => let? y := np_mask_checked keep_rows y in Ok (Target1 y)
  | Target2 y => let? y := np_mask_checked keep_rows y in Ok (Target2 y)
  end.

(** The loop of lines 352-353. *)
Fixpoint add_lag_features `{Float V} (names : list string) (features : list (string * list V))
    (keep_rows : list bool) (df : Frame V) : res (Frame V) :=
  match names with
  | [] => Ok df
  | feat :: rest =>
      match od_get feat features with
      | None => Raise (KeyError feat)
      | Some vals =>
          let? vals := np_mask_checked keep_rows vals in
          let? df := frame_set feat (ColFloat vals) df in
          add_lag_features rest features keep_rows df
      end
  end.

(** The loop of lines 360-362. *)
Fixpoint add_date_features `{Float V} `{Extern V} (dates : list Z)
    (feats : list (DateFeature V)) (df : Frame V) : res (Frame V) :=
  match feats with
  | [] => Ok df
  | feature :: rest =>
      let? (feat_name, feat_vals) := _compute_date_feature dates feature in
      let? df := frame_set feat_name feat_vals df in
      add_date_features dates rest df
  end.

(** The loop of lines 368-369. *)
Fixpoint add_target_columns `{Float V} (target_col : string) (target : list (list V))
    (horizons : list nat) (df : Frame V) : res (Frame V) :=
  match horizons with
  | [] => Ok df
  | i :: rest =>
      let? df := frame_set (target_col +:+ pretty i)
                           (ColFloat ((λ row, default nan (row !! i)) <$> target)) df in
      add_target_columns target_col target rest df
  end.

(** [_transform] (lines 313-373). *)
Definition _transform `{Float V} `{Extern V} `{ThreadPool} (df : Frame V) (dropna : bool)
    (max_horizon : option nat) (return_X_y : bool) : M V (Frame V * option (Target V)) :=
  let* computed := _compute_transforms in
  let* idxs := getM restore_idxs in
  let* features :=
    liftM (res_map (λ kv, let? v := np_take_int kv.2 idxs in Ok (kv.1, v)) computed) in
  modifyM (set_max_horizon max_horizon) ;;
  let* g := getM (λ self, ga_load (heap self) (ga self)) in
  let* target :=
    liftM match max_horizon with
          | None => let? y := np_take_int (data g) idxs in Ok (Target1 y)
          | Some h =>
              let? y := np_take_int (ga_expand_target np_empty_fill g h) idxs in
              Ok (Target2 y)
          end in
  let* keep_rows := liftM (_transform_keep_rows (nrows df) features target dropna) in
  let* (df, target) :=
    liftM (if dropna
           then let? df := frame_mask keep_rows df in
                let? target := target_mask keep_rows target in
                Ok (df, target)
           else Ok (df, target)) in
  let* names := getM (λ self, od_keys (transforms self)) in
  let* df := liftM (add_lag_features names features keep_rows df) in
  let* feats := getM date_features in
  let* df :=
    match feats with
    | [] => retM df
    | _ =>
        let* tc := getM time_col in
        let* dates := liftM (let? c := frame_get tc df in col_times c) in
        liftM (add_date_features dates feats df)
    end in
  if return_X_y then retM (df, Some target)
  else
    let* tc := getM target_col in
    match target with
    | Target2 y =>
        let* df := liftM (add_target_columns tc y (seq 0 (default 0 max_horizon)) df) in
        retM (df, None)
    | Target1 y =>
        let* df := liftM (frame_set tc (ColFloat y) df) in
        retM (df, None)
    end.

(** [fit_transform] (lines 375-397). *)
Definition fit_transform `{Float V} `{Extern V} `{ThreadPool} (data : Frame V)
    (id_col time_col target_col : string) (static_features : option (list string))
    (dropna : bool) (keep_last_n : option Z) (max_horizon : option nat)
    (return_X_y : bool) : M V (Frame V * option (Target V)) :=
  modifyM (set_dropna dropna) ;;
  _fit data id_col time_col target_col static_features keep_last_n ;;
  _transform data dropna max_horizon return_X_y.

(** *** Forecasting *)

(** [_update_y] (lines 399-408). *)
Definition _update_y {V} (new : list V) : M V () :=
  let* yp := getM y_pred in
  modifyM (set_y_pred (Some (default [] yp ++ [new]))) ;;
  let* g := getM (λ self, ga_load (heap self) (ga self)) in
  let* g := liftM (ga_append g new) in
  let* r := new_grouped_array g in
  modifyM (set_ga r).

(** The loop of lines 423-425. *)
Fixpoint update_date_features `{Extern V} (dates : list Z) (feats : list (DateFeature V))
    (features : list (string * Column V)) : res (list (string * Column V)) :=
  match feats with
  | [] => Ok features
  | feature :: rest =>
      let? (feat_name, feat_vals) := _compute_date_feature dates feature in
      update_date_features dates rest (od_set feat_name feat_vals features)
  end.

(** [_update_features] (lines 410-430). *)
Definition _update_features `{Float V} `{Extern V} `{ThreadPool} : M V (Frame V) :=
  let* cd := getM curr_dates in
  match cd with
  | None =>
      let* ld := getM last_dates in
      modifyM (set_curr_dates (Some ld)) ;;
      modifyM (set_test_dates [])
  | Some _ => retM ()
  end ;;
  let* cd := attr "curr_dates" curr_dates in
  let* f := getM freq in
  let* cd := liftM (dates_add f 1 cd) in
  modifyM (set_curr_dates (Some cd)) ;;
  modifyM (λ self, set_test_dates (test_dates self ++ [cd]) self) ;;
  let* num_threads := getM num_threads in
  let* transforms := getM transforms in
  let* computed :=
    if decide (num_threads = 1%Z ∨ length transforms = 1)
    then _apply_transforms true
    else _apply_multithreaded_transforms true in
  let* names := getM features in
  let features := prod_map id ColFloat <$> computed in
  let* feats := getM date_features in
  let* features :=
    match feats with
    | [] => retM features
    | _ => liftM (let? dates := col_times cd in update_date_features dates feats features)
    end in
  let* features_df := liftM (frame_of_dict_columns features names) in
  let* ic := getM id_col in
  let* us := attr "_uids" _uids in
  let* features_df := liftM (frame_set ic (ColStr us) features_df) in
  let* tc := getM time_col in
  let* features_df := liftM (frame_set tc cd features_df) in
  let* statics := getM static_features_ in
  liftM (pd_merge statics features_df (Some [ic]) "inner").

(** [_get_raw_predictions] (line 433). *)
Definition _get_raw_predictions {V} : M V (list V) :=
  let* yp := attr "y_pred" y_pred in
  retM (ravel_F yp).

(** A column of the dtype of [c] with the times [l]. *)
Definition col_like {V} (c : Column V) (l : list Z) : Column V :=
  match c with
  | ColDatetime _ => ColDatetime l
  | _ => ColInt l
  end.

(** [np.array(test_dates).ravel("F")]: the dates in the dtype of the
    time column; without any date the array is an empty one of floats. *)
Definition ravel_dates {V} (test_dates : list (Column V)) (times : list (list Z))
  : Column V :=
  match test_dates with
  | [] => ColFloat []
  | c :: _ => col_like c (ravel_F times)
  end.

(** [np.repeat(x, n)] *)
Definition np_repeat {A} (x : list A) (n : nat) : list A :=
  concat (replicate n <$> x).

(** [_get_predictions] (lines 435-448). *)
Definition _get_predictions {V} : M V (Frame V) :=
  let* yp := attr "y_pred" y_pred in
  let n_preds := length yp in
  let* us := attr "_uids" _uids in
  let uids := np_repeat us n_preds in
  let* tds := getM test_dates in
  let* times := liftM (res_map col_times tds) in
  let* raw := _get_raw_predictions in
  let* ic := getM id_col in
  let* tc := getM time_col in
  let* yc := getM target_col in
  liftM (frame_of_dict
           (od_set (yc +:+ "_pred") (ColFloat raw)
              (od_set tc (ravel_dates tds times)
                 [(ic, ColStr uids)]))).

(** [_predict_setup] (lines 450-460). *)
Definition _predict_setup {V} : M V () :=
  modifyM (λ self, set_ga {| data_ref := data_ref (_ga self);
                             indptr_ref := indptr_ref (_ga self) |} self) ;;
  let* ld := getM last_dates in
  modifyM (set_curr_dates (Some ld)) ;;
  let* idxs := attr "_idxs" _idxs in
  match idxs with
  | Some idxs =>
      let* g := getM (λ self, ga_load (heap self) (ga self)) in
      let* g := liftM (ga_take g idxs) in
      let* r := new_grouped_array g in
      modifyM (set_ga r) ;;
      let* cd := liftM (col_take idxs ld) in
      modifyM (set_curr_dates (Some cd))
  | None => retM ()
  end ;;
  modifyM (set_test_dates []) ;;
  modifyM (set_y_pred (Some [])) ;;
  let* k := getM keep_last_n in
  match k with
  | Some k =>
      let* g := getM (λ self, ga_load (heap self) (ga self)) in
      let* r := new_grouped_array (ga_take_from_groups g (- k)) in
      modifyM (set_ga r)
  | None => retM ()
  end ;;
  modifyM (set__h 0).

(** The loop of lines 465-466. *)
Fixpoint merge_dynamic `{Extern V} (dynamic_dfs : list (Frame V)) (new_x : Frame V)
  : res (Frame V) :=
  match dynamic_dfs with
  | [] => Ok new_x
  | df :: rest =>
      let? new_x := pd_merge new_x df None "left" in
      merge_dynamic rest new_x
  end.

(** The names of the columns with a null, [nulls[nulls].index]. *)
Definition null_columns `{Float V} (df : Frame V) : list string :=
  od_keys (filter (λ kc, existsb id (col_isnull kc.2) = true) (cols df)).

(** [_get_features_for_next_step] (lines 462-476). *)
Definition _get_features_for_next_step `{Float V} `{Extern V} `{ThreadPool}
    (dynamic_dfs : list (Frame V)) (X_df : option (Frame V)) : M V (Frame V) :=
  let* new_x := _update_features in
  let* new_x :=
    match dynamic_dfs with
    | [] => retM new_x
    | _ =>
        let* new_x := liftM (merge_dynamic dynamic_dfs new_x) in
        let* ic := getM id_col in
        liftM (pd_sort_values new_x [ic])
    end in
  let* new_x :=
    match X_df with
    | Some X_df =>
        let* us := attr "_uids" _uids in
        let n_series := length us in
        let* h := getM _h in
        let X := frame_iloc (h * n_series) ((h + 1) * n_series) X_df in
        liftM (pd_concat_columns new_x X)
    | None => retM new_x
    end in
  match null_columns new_x with
  | [] => retM ()
  | nulls => warn ("Found null values in " +:+ join ", " nulls +:+ ".")
  end ;;
  modifyM (λ self, set__h (_h self + 1) self) ;;
  let* order := getM features_order_ in
  liftM (frame_select order new_x).

(** [model.predict(new_x)] *)
Definition model_predict {V} (model : Model V) (new_x : Frame V) : res (list V) :=
  match model with
  | Estimator predict => predict new_x
  | Estimators _ =>
      Raise (Exception "AttributeError" "'list' object has no attribute 'predict'")
  end.

(** [model[i].predict(new_x)] *)
Definition model_predict_at {V} (model : Model V) (i : nat) (new_x : Frame V)
  : res (list V) :=
  match model with
  | Estimators models =>
      match models !! i with
      | Some predict => predict new_x
      | None => Raise (IndexError "list index out of range")
      end
  | Estimator _ => Raise (Exception "TypeError" "object is not subscriptable")
  end.

(** [after_predict_callback(pd.Series(predictions, index=self._uids)).values] *)
Definition call_after {V} (after_predict_callback : list string → list V → res (list V))
    (uids : list string) (predictions : list V) : res (list V) :=
  if decide (length predictions = length uids)
  then after_predict_callback uids predictions
  else Raise (ValueError "Length of values does not match length of index").

(** One iteration of the inner loop of [_predict_recursive] (lines 493-500). *)
Definition _predict_recursive_step `{Float V} `{Extern V} `{ThreadPool}
    (model : Model V) (dynamic_dfs : list (Frame V))
    (before_predict_callback : option (Frame V → res (Frame V)))
    (after_predict_callback : option (list string → list V → res (list V)))
    (X_df : option (Frame V)) : M V () :=
  let* new_x := _get_features_for_next_step dynamic_dfs X_df in
  let* new_x :=
    liftM match before_predict_callback with
          | Some cb => cb new_x
          | None => Ok new_x
          end in
  let* predictions := liftM (model_predict model new_x) in
  let* predictions :=
    match after_predict_callback with
    | Some cb =>
        let* us := attr "_uids" _uids in
        liftM (call_after cb us predictions)
    | None => retM predictions
    end in
  _update_y predictions.

(** [for _ in range(n): body] *)
Fixpoint repeatM {V} (n : nat) (body : M V ()) : M V () :=
  match n with
  | 0 => retM ()
  | S n' => body ;; repeatM n' body
  end.

(** [preds.rename(columns={old: new})] *)
Definition frame_rename {V} (old new : string) (df : Frame V) : Frame V :=
  {| nrows := nrows df;
     cols := prod_map (λ k, if decide (k = old) then new else k) id <$> cols df |}.

(** The loop over the models of [_predict_recursive] (lines 490-507);
    [preds] is unbound until the first model is done. *)
Fixpoint _predict_recursive_models `{Float V} `{Extern V} `{ThreadPool}
    (models : list (string * Model V)) (horizon : nat) (dynamic_dfs : list (Frame V))
    (before_predict_callback : option (Frame V → res (Frame V)))
    (after_predict_callback : option (list string → list V → res (list V)))
    (X_df : option (Frame V)) (preds : option (Frame V)) : M V (option (Frame V)) :=
  match models with
  | [] => retM preds
  | (name, model) :: rest =>
      _predict_setup ;;
      repeatM horizon (_predict_recursive_step model dynamic_dfs before_predict_callback
                                              after_predict_callback X_df) ;;
      let* preds :=
        match preds with
        | None =>
            let* preds := _get_predictions in
            let* yc := getM target_col in
            retM (frame_rename (yc +:+ "_pred") name preds)
        | Some preds =>
            let* raw := _get_raw_predictions in
            liftM (frame_set name (ColFloat raw) preds)
        end in
      _predict_recursive_models rest horizon dynamic_dfs before_predict_callback
                                after_predict_callback X_df (Some preds)
  end.

(** [_predict_recursive] (lines 478-508). *)
Definition _predict_recursive `{Float V} `{Extern V} `{ThreadPool}
    (models : list (string * Model V)) (horizon : nat)
    (dynamic_dfs : option (list (Frame V)))
    (before_predict_callback : option (Frame V → res (Frame V)))
    (after_predict_callback : option (list string → list V → res (list V)))
    (X_df : option (Frame V)) : M V (Frame V) :=
  let dynamic_dfs := default [] dynamic_dfs in
  let* preds := _predict_recursive_models models horizon dynamic_dfs
                  before_predict_callback after_predict_callback X_df None in
  match preds with
  | Some preds => retM preds
  | None => raiseM (Exception "UnboundLocalError" "preds")
  end.

(** [date + k * freq] for one date of the index [like]. *)
Definition date_add `{Extern V} (f : Freq) (k : Z) (like : Column V) (date : Z) : res Z :=
  match f, like with
  | FreqInt n, ColInt _ => Ok (date + k * n)%Z
  | FreqOffset a, ColDatetime _ => Ok (offset_add a k date)
  | _, _ => Raise (Exception "TypeError" "unsupported operand types for dates and freq")
  end.

(** [np.hstack([date + (i + 1) * self.freq for date in self.last_dates
    for i in range(horizon)])] (lines 526-532); [np.hstack] refuses an
    empty list. *)
Definition _predict_multi_dates `{Extern V} (f : Freq) (horizon : nat) (last_dates : Column V)
  : res (Column V) :=
  let? times := col_times last_dates in
  let? dates := res_map (λ di, date_add f (Z.of_nat di.2 + 1) last_dates di.1)
                        (times ≫= λ date, (λ i, (date, i)) <$> seq 0 horizon) in
  match dates with
  | [] => Raise (ValueError "need at least one array to concatenate")
  | _ => Ok (col_like last_dates dates)
  end.

(** [predictions[:, i] = values]: one value per row, or a single value
    that is broadcast. *)
Definition set_column {A} (i : nat) (values : list A) (arr : list (list A))
  : res (list (list A)) :=
  if decide (length values = length arr)
  then Ok (zip_with (λ row v, <[i := v]> row) arr values)
  else match values with
       | [v] => Ok ((λ row, <[i := v]> row) <$> arr)
       | _ => Raise (ValueError "could not broadcast input array")
       end.

(** The loop of lines 540-541. *)
Fixpoint fill_predictions {V} (model : Model V) (new_x : Frame V) (horizons : list nat)
    (predictions : list (list V)) : res (list (list V)) :=
  match horizons with
  | [] => Ok predictions
  | i :: rest =>
      let? p := model_predict_at model i new_x in
      let? predictions := set_column i p predictions in
      fill_predictions model new_x rest predictions
  end.

(** The loop over the models of [_predict_multi] (lines 534-543). *)
Fixpoint _predict_multi_models `{Float V} `{Extern V} `{ThreadPool}
    (models : list (string * Model V)) (horizon : nat) (dynamic_dfs : list (Frame V))
    (before_predict_callback : option (Frame V → res (Frame V)))
    (X_df : option (Frame V)) (result : Frame V) : M V (Frame V) :=
  match models with
  | [] => retM result
  | (name, model) :: rest =>
      _predict_setup ;;
      let* new_x := _get_features_for_next_step dynamic_dfs X_df in
      let* new_x :=
        liftM match before_predict_callback with
              | Some cb => cb new_x
              | None => Ok new_x
              end in
      let* predictions :=
        liftM (fill_predictions model new_x (seq 0 horizon)
                                (np_empty np_empty_fill (nrows new_x) horizon)) in
      let raw_preds := concat predictions in
      let* result := liftM (frame_set name (ColFloat raw_preds) result) in
      _predict_multi_models rest horizon dynamic_dfs before_predict_callback X_df result
  end.

(** [_predict_multi] (lines 510-544). *)
Definition _predict_multi `{Float V} `{Extern V} `{ThreadPool}
    (models : list (string * Model V)) (horizon : nat)
    (dynamic_dfs : option (list (Frame V)))
    (before_predict_callback : option (Frame V → res (Frame V)))
    (X_df : option (Frame V)) : M V (Frame V) :=
  let* mh := getM max_horizon in
  match mh with
  | None => raiseM (Exception "AssertionError" EmptyString)
  | Some mh =>
      if decide (mh < horizon)
      then raiseM (ValueError ("horizon must be at most max_horizon ("
                               +:+ pretty mh +:+ ")"))
      else
        let dynamic_dfs := default [] dynamic_dfs in
        let* us := attr "_uids" _uids in
        let uids := np_repeat us horizon in
        let* ld := getM last_dates in
        let* f := getM freq in
        let* dates := liftM (_predict_multi_dates f horizon ld) in
        let* ic := getM id_col in
        let* tc := getM time_col in
        let* result := liftM (frame_of_dict (od_set tc dates [(ic, ColStr uids)])) in
        _predict_multi_models models horizon dynamic_dfs before_predict_callback X_df result
  end.

(** The positions of the elements of [x] that satisfy [p], [np.where(p(x))[0]]. *)
Definition np_where {A} (p : A → bool) (x : list A) : list nat :=
  (filter (λ ia, p ia.2 = true) (imap (λ i a, (i, a)) x)).*1.

(** The selection of the series to forecast in [predict] (lines 556-568);
    it returns the local [last_dates]. *)
Definition predict_select_ids {V} (ids : option (list string)) : M V (Column V) :=
  match ids with
  | Some ids =>
      let* us := getM uids in
      match filter (λ i, i ∉ us) ids with
      | [] =>
          let uids_ := filter (λ u, u ∈ ids) us in
          modifyM (set__uids (Some uids_)) ;;
          let idxs := np_where (λ u, bool_decide (u ∈ uids_)) us in
          modifyM (set__idxs (Some (Some idxs))) ;;
          let* ld := getM last_dates in
          liftM (col_take idxs ld)
      | unseen =>
          raiseM (ValueError
            ("The following ids weren't seen during training and thus can't be forecasted: "
             +:+ join ", " unseen))
      end
  | None =>
      let* us := getM uids in
      modifyM (set__uids (Some us)) ;;
      modifyM (set__idxs (Some None)) ;;
      getM last_dates
  end.

(** [times.between(starts, ends)] *)
Definition between (times starts ends : list Z) : list bool :=
  zip_with (λ t se, bool_decide (se.1 ≤ t ∧ t ≤ se.2)%Z) times (zip starts ends).

(** The rows of [X_df] for the requested ids within the forecast window
    (lines 585-593). *)
Definition X_df_window `{Float V} `{Extern V} (X_df : Frame V) (horizon : nat)
    (last_dates : Column V) : M V (Frame V) :=
  let* ic := getM id_col in
  let* tc := getM time_col in
  let* us := attr "_uids" _uids in
  let* f := getM freq in
  let* starts := liftM (dates_add f 1 last_dates) in
  let* ends := liftM (dates_add f (Z.of_nat horizon) last_dates) in
  let* dates_validation :=
    liftM (frame_of_dict (od_set "_end" ends (od_set "_start" starts [(ic, ColStr us)]))) in
  let* X_df := liftM (pd_merge X_df dates_validation (Some [ic]) "inner") in
  let* mask :=
    liftM (let? t := res_bind (frame_get tc X_df) col_times in
           let? s := res_bind (frame_get "_start" X_df) col_times in
           let? e := res_bind (frame_get "_end" X_df) col_times in
           Ok (between t s e)) in
  liftM (frame_mask mask X_df).

(** The validation of [X_df] in [predict] (lines 569-601). *)
Definition predict_check_X_df `{Float V} `{Extern V} (X_df : Frame V) (horizon : nat)
    (last_dates : Column V) : M V (Frame V) :=
  let* ic := getM id_col in
  let* tc := getM time_col in
  if decide (ic ∉ columns X_df ∨ tc ∉ columns X_df)
  then raiseM (ValueError ("X_df must have '" +:+ ic +:+ "' and '" +:+ tc +:+ "' columns."))
  else if decide (length (columns X_df) < 3)
  then raiseM (ValueError "Found no exogenous features in `X_df`.")
  else
    let* sf := getM static_features_ in
    let* statics := liftM (index_drop [ic] (columns sf)) in
    let* dynamics := liftM (index_drop [ic; tc] (columns X_df)) in
    match filter (λ c, c ∈ dynamics) statics with
    | (_ :: _) as common =>
        raiseM (ValueError
          ("The following features were provided through `X_df` but were considered as static during fit: "
           +:+ join ", " common))
    | [] =>
        let* us := attr "_uids" _uids in
        let* X_df := X_df_window X_df horizon last_dates in
        if decide (nrows X_df ≠ length us * horizon)
        then raiseM (ValueError "Found missing inputs in X_df. It should have one row per id and date for the complete forecasting horizon")
        else
          let* X_df := liftM (pd_sort_values X_df [ic; tc]) in
          liftM (frame_drop [ic; tc; "_start"; "_end"] X_df)
    end.

(** The loop of lines 620-623. *)
Fixpoint inverse_target_transforms {V} (tfms : list (TargetTransform V))
    (idxs : option (list nat)) (preds : Frame V) : res (Frame V) :=
  match tfms with
  | [] => Ok preds
  | tfm :: rest =>
      let? preds := tt_inverse_transform tfm idxs preds in
      inverse_target_transforms rest idxs preds
  end.

(** [predict] (lines 546-625). *)
Definition predict `{Float V} `{Extern V} `{ThreadPool}
    (models : list (string * Model V)) (horizon : nat)
    (dynamic_dfs : option (list (Frame V)))
    (before_predict_callback : option (Frame V → res (Frame V)))
    (after_predict_callback : option (list string → list V → res (list V)))
    (X_df : option (Frame V)) (ids : option (list string)) : M V (Frame V) :=
  let* last_dates := predict_select_ids ids in
  let* X_df :=
    match X_df with
    | Some X_df =>
        let* X_df := predict_check_X_df X_df horizon last_dates in
        retM (Some X_df)
    | None => retM None
    end in
  let* mh := getM max_horizon in
  let* preds :=
    match mh with
    | None => _predict_recursive models horizon dynamic_dfs before_predict_callback
                                 after_predict_callback X_df
    | Some _ => _predict_multi models horizon dynamic_dfs before_predict_callback X_df
    end in
  let* tfms := getM target_transforms in
  let* preds :=
    match tfms with
    | Some tfms =>
        let* idxs := attr "_idxs" _idxs in
        liftM (inverse_target_transforms (reverse tfms) idxs preds)
    | None => retM preds
    end in
  modifyM (set__uids None) ;;
  modifyM (set__idxs None) ;;
  retM preds.

(** ** A small world to run the methods in

    Floats that hold an integer or NaN, a thread pool whose futures
    complete in submission order and one where they complete in the
    reverse order, and stand-ins for pandas and utilsforecast on tables
    whose rows are already sorted by id and time. *)

#[global] Instance optZ_Float : Float (option Z) :=
  {| nan := None; isnan := λ v, bool_decide (v = None); isnan_nan := eq_refl |}.

Definition pool_in_order : ThreadPool :=
  {| completion := λ _ n, seq 0 n; completion_perm := λ _ n, reflexivity (seq 0 n) |}.

Definition pool_reversed : ThreadPool :=
  {| completion := λ _ n, reverse (seq 0 n);
     completion_perm := λ _ n, reverse_Permutation (seq 0 n) |}.

(** The ids of consecutive runs and the lengths of the runs. *)
Fixpoint runs (ids : list string) : list (string * nat) :=
  match ids with
  | [] => []
  | i :: rest =>
      match runs rest with
      | (j, n) :: rs => if decide (i = j) then (i, S n) :: rs else (i, 1) :: (j, n) :: rs
      | [] => [(i, 1)]
      end
  end.

Definition demo_process (df : Frame (option Z)) (id_col time_col target_col : string)
  : res (Processed (option Z)) :=
  let? ids := frame_get id_col df in
  let? times := frame_get time_col df in
  match ids with
  | ColStr ids =>
      let rs := runs ids in
      let indptr := offsets 0 rs.*2 in
      let? last_times := col_take (pred <$> drop 1 indptr) times in
      Ok {| p_uids := rs.*1; p_times := last_times; p_indptr := indptr;
            p_sort_idxs := None |}
  | _ => Raise (ValueError "ids")
  end.

#[global] Instance demo_extern : Extern (option Z) := {|
  pd_merge := λ left right _ _,
    if decide (nrows left = nrows right)
    then Ok {| nrows := nrows left;
               cols := cols left ++ filter (λ kc, kc.1 ∉ columns left) (cols right) |}
    else Raise (ValueError "merge");
  pd_sort_values := λ df _, Ok df;
  pd_concat_columns := λ a b, Ok {| nrows := nrows a; cols := cols a ++ cols b |};
  offset_add := λ _ k t, (t + k * 86400)%Z;
  date_attr := λ _ name _, Raise (Exception "AttributeError" name);
  np_astype := λ _ c, match c with ColInt l => ColFloat (Some <$> l) | _ => c end;
  np_empty_fill := Some 0%Z;
  validate_format := λ _ _ _ _, Ok ();
  process := demo_process
|}.

(** Two series, A = 1, 2, 3, 4 and B = 10, 20, 30, at integer times. *)
Definition demo_df : Frame (option Z) :=
  {| nrows := 7;
     cols := [("unique_id", ColStr ["A"; "A"; "A"; "A"; "B"; "B"; "B"]);
              ("ds", ColInt [1; 2; 3; 4; 1; 2; 3]%Z);
              ("y", ColFloat (Some <$> [1; 2; 3; 4; 10; 20; 30]%Z))] |}.

(** The object [__init__] returns, or an empty one should it raise. *)
Definition new_TimeSeries (freq : option Freq) (lags : option (list Z))
    (lag_transforms : option (list (Z * list (LagTransform (option Z)))))
    (num_threads : Z) : TimeSeries (option Z) :=
  match __init__ freq lags lag_transforms None num_threads None with
  | Ok ts => ts
  | Raise _ =>
      {| freq := FreqInt 1; lags := []; lag_transforms := []; date_features := [];
         num_threads := 1; target_transforms := None; transforms := [];
         id_col := EmptyString; time_col := EmptyString; target_col := EmptyString; keep_last_n := None;
         static_features := None; uids := []; last_dates := ColInt [];
         restore_idxs := []; ga := {| data_ref := 0; indptr_ref := 0 |};
         _ga := {| data_ref := 0; indptr_ref := 0 |};
         static_features_ := {| nrows := 0; cols := [] |}; features_order_ := [];
         dropna := true; max_horizon := None; _uids := None; _idxs := None;
         curr_dates := None; test_dates := []; y_pred := None; _h := 0;
         heap := []; warnings := []; pool_runs := 0 |}
  end.

(** [TimeSeries(lags=[1])] *)
Definition demo_new : TimeSeries (option Z) := new_TimeSeries None (Some [1%Z]) None 1.

(** The same after [fit_transform(demo_df, "unique_id", "ds", "y")]. *)
Definition demo_fitted : TimeSeries (option Z) :=
  (@fit_transform _ _ _ pool_in_order demo_df "unique_id" "ds" "y" None true None None
                  false demo_new).2.

(** A model that predicts 0 for every row. *)
Definition zero_model : Model (option Z) :=
  Estimator (λ new_x, Ok (replicate (nrows new_x) (Some 0%Z))).

(** [TimeSeries(lags=[1, 2], num_threads=2)] after [_fit]. *)
Definition demo_two_lags : TimeSeries (option Z) :=
  (_fit demo_df "unique_id" "ds" "y" None None
        (new_TimeSeries None (Some [1%Z; 2%Z]) None 2)).2.

(** A transform that raises, and one that returns its input. *)
Definition boom : Callable (option Z) :=
  {| __name__ := "boom"; parameters := [("x", None)];
     call := λ _ _, Raise (ValueError "boom") |}.

Definition fine : Callable (option Z) :=
  {| __name__ := "fine"; parameters := [("x", None)]; call := λ x _, Ok x |}.

(** Two fitted objects with two transforms each, of which the first
    raises in the one and the second in the other. *)
Definition demo_first_fails : TimeSeries (option Z) :=
  (_fit demo_df "unique_id" "ds" "y" None None
        (new_TimeSeries None None (Some [(1%Z, [TfmFn boom]); (2%Z, [TfmFn fine])]) 2)).2.

Definition demo_second_fails : TimeSeries (option Z) :=
  (_fit demo_df "unique_id" "ds" "y" None None
        (new_TimeSeries None None (Some [(1%Z, [TfmFn fine]); (2%Z, [TfmFn boom])]) 2)).2.



(** [TimeSeries(lags=[1])] after
    [fit_transform(demo_df, "unique_id", "ds", "y", max_horizon=2)]. *)
Definition demo_direct : TimeSeries (option Z) :=
  (@fit_transform _ _ _ pool_in_order demo_df "unique_id" "ds" "y" None true None (Some 2)
                  false demo_new).2.

(** One model per horizon: the first predicts 1 for every row, the
    second 2. *)
Definition horizon_models : Model (option Z) :=
  Estimators [λ new_x, Ok (replicate (nrows new_x) (Some 1%Z));
              λ new_x, Ok (replicate (nrows new_x) (Some 2%Z))].

(** ** Notions used in the statements *)

(** The registrations of [__init__] in order, each with the name computed
    for it. *)
Definition registrations {V} (lags : list Z)
    (lag_transforms : list (Z * list (LagTransform V))) : list (string * tspec V) :=
  ((λ lag, ("lag" +:+ pretty lag, TSpec lag identity_tfm [])) <$> lags) ++
  (lag_transforms ≫= λ '(lag, tfms),
     (λ tfm_args, let '(tfm, args) := _as_tuple tfm_args in
                  (_build_transform_name lag tfm args, TSpec lag tfm args)) <$> tfms).

(** Registering a sequence of named entries in a dictionary. *)
Definition register_all {A} (regs d : list (string * A)) : list (string * A) :=
  foldl (λ t kv, od_set kv.1 kv.2 t) d regs.

(** The distinct names of a list in the order of their first occurrence. *)
Fixpoint first_occurrences (names : list string) : list string :=
  match names with
  | [] => []
  | x :: rest => x :: filter (λ y, y ≠ x) (first_occurrences rest)
  end.

(** The last entry with the given name. *)
Definition last_registered {A} (name : string) (regs : list (string * A)) : option A :=
  snd <$> last (filter (λ kv, kv.1 = name) regs).

(** How many of the names up to and including position [i] are [x]. *)
Definition occurrence (names : list string) (i : nat) (x : string) : nat :=
  length (filter (λ y, y = x) (take (S i) names)).

(** The name [_name_models] gives the [k]-th occurrence of [x]: [x] itself
    for the first one, [x] followed by [k] in decimal for the others. *)
Definition suffixed (names : list string) (i : nat) (x : string) : string :=
  let k := occurrence names i x in
  if decide (1 < k) then x +:+ pretty k else x.

(** The number of occurrences of [x]. *)
Definition count (x : string) (names : list string) : nat :=
  length (filter (λ y, y = x) names).

(** The names once the loop of [_name_models] has renamed the slots from
    [m] on. *)
Definition renamed_from (names : list string) (m : nat) : list string :=
  take m names ++ drop m (imap (suffixed names) names).

(** The invariant of that loop: the slots from [m] on are renamed and the
    counter of every name that still occurs before [m] is its number of
    occurrences there. *)
Definition loop_inv (names : list string) (m : nat)
    (st : gmap string nat * list string) : Prop :=
  st.2 = renamed_from names m ∧
  ∀ x, x ∈ take m names → ctr_get st.1 x = count x (take m names).

(** A transform [f(x, window_size=7)] for the examples. *)
Definition demo_f : Callable (option Z) :=
  {| __name__ := "f"; parameters := [("x", None); ("window_size", Some (PInt 7))];
     call := λ x _, Ok x |}.

(** Row [j] of the expanded target of one series: its values from offset
    [j] on, at most [h] of them, then NaN up to the width [h]. *)
Definition expand_row `{Float V} (h : nat) (serie : list V) (j : nat) : list V :=
  take h (drop j serie) ++ replicate (h - (length serie - j)) nan.

Definition expand_rows `{Float V} (h : nat) (serie : list V) : list (list V) :=
  expand_row h serie <$> seq 0 (length serie).

(** Writing a block of rows into [out] from row [n] on, and the row that
    follows the block. *)
Definition write_rows {A} (st : list (list A) * nat) (rows : list (list A))
  : list (list A) * nat :=
  (take st.2 st.1 ++ rows ++ drop (st.2 + length rows) st.1, st.2 + length rows).

(** What the call submitted for one registry entry gives. *)
Definition transform_task `{Float V} (ga : GroupedArray V) (updates_only : bool)
    (spec : tspec V) : res (list V) :=
  transform_series ga updates_only (ts_lag spec - lag_offset updates_only)
                   (ts_tfm spec) (ts_args spec).

(** Storing named outcomes in the given order, up to the first one that
    raised. *)
Fixpoint gather_results {V} (tasks : list (string * res (list V)))
    (results : list (string * list V)) : res (list (string * list V)) :=
  match tasks with
  | [] => Ok results
  | (name, r) :: rest => let? v := r in gather_results rest (od_set name v results)
  end.

(** The named outcomes of a parallel run in the order of completion. *)
Definition completed_tasks `{Float V} (pool : ThreadPool) (self : TimeSeries V)
    (updates_only : bool) : list (string * res (list V)) :=
  omap (λ i, prod_map id (transform_task (ga_load (heap self) (ga self)) updates_only)
               <$> transforms self !! i)
       (completion (pool_runs self) (length (transforms self))).

(** A method preserves a relation between the object before and after:
    the object after is related to the object before, whether the method
    returns or raises. *)
Definition preserves {V A} (R : relation (TimeSeries V)) (m : M V A) : Prop :=
  ∀ self, R self (m self).2.

(** The frequency is unchanged. *)
Definition same_freq {V} : relation (TimeSeries V) :=
  λ self self', freq self' = freq self.

(** The ground truth is unchanged: [self._ga] refers to the same arrays
    and every array that existed is still there with its content. *)
Definition same_ground_truth {V} : relation (TimeSeries V) :=
  λ self self', _ga self' = _ga self ∧ heap self `prefix_of` heap self'.

(** No warning is withdrawn. *)
Definition more_warnings {V} : relation (TimeSeries V) :=
  λ self self', warnings self `prefix_of` warnings self'.

(** The target of row [i] is null: the value is NaN or, for a matrix, the
    values of all horizons are. *)
Definition target_null `{Float V} (target : Target V) (i : nat) : Prop :=
  match target with
  | Target1 y => ∃ v, y !! i = Some v ∧ isnan v = true
  | Target2 y => ∃ row, y !! i = Some row ∧ Forall (λ v, isnan v = true) row
  end.

Definition target_length {V} (target : Target V) : nat :=
  match target with Target1 y => length y | Target2 y => length y end.

(** The values at the rows that a mask keeps, in their order. *)
Definition kept_rows {A} (keep_rows : list bool) (x : list A) : list A :=
  (filter (λ bx, bx.1 = true) (zip keep_rows x)).*2.

(** The target without the rows that the mask drops. *)
Definition target_kept {V} (keep_rows : list bool) (target : Target V) : Target V :=
  match target with
  | Target1 y => Target1 (kept_rows keep_rows y)
  | Target2 y => Target2 (kept_rows keep_rows y)
  end.

(** A column without the rows that the mask drops. *)
Definition col_kept {V} (keep_rows : list bool) (c : Column V) : Column V :=
  match c with
  | ColStr l => ColStr (kept_rows keep_rows l)
  | ColInt l => ColInt (kept_rows keep_rows l)
  | ColDatetime l => ColDatetime (kept_rows keep_rows l)
  | ColFloat l => ColFloat (kept_rows keep_rows l)
  end.


(** The columns that [_transform] writes the target to when it returns
    one table. *)
Definition target_columns {V} (self : TimeSeries V) (max_horizon : option nat)
  : list string :=
  match max_horizon with
  | None => [target_col self]
  | Some h => (λ i, target_col self +:+ pretty i) <$> seq 0 h
  end.

(** The arrays, the working copy, the predictions so far and what the
    setup of a simulation reads are unchanged. *)
Definition same_arrays {V} : relation (TimeSeries V) :=
  λ self self',
    heap self' = heap self ∧ ga self' = ga self ∧ _ga self' = _ga self ∧
    y_pred self' = y_pred self ∧ _idxs self' = _idxs self ∧
    keep_last_n self' = keep_last_n self.

(** The ground truth and what the setup of a simulation reads besides it
    are unchanged. *)
Definition same_setup {V} : relation (TimeSeries V) :=
  λ self self',
    same_ground_truth self self' ∧ _idxs self' = _idxs self ∧
    keep_last_n self' = keep_last_n self.

(** The arrays of the ground truth exist. *)
Definition ground_truth_valid {V} (self : TimeSeries V) : Prop :=
  data_ref (_ga self) < length (heap self) ∧ indptr_ref (_ga self) < length (heap self).

(** The working copy at the start of a simulation: the ground truth,
    restricted to the requested series and to the last [keep_last_n]
    values of each. *)
Definition working_copy {V} (self : TimeSeries V) : res (GroupedArray V) :=
  let g := ga_load (heap self) (_ga self) in
  let? g := match _idxs self with
            | Some (Some idxs) => ga_take g idxs
            | _ => Ok g
            end in
  Ok match keep_last_n self with
     | Some k => ga_take_from_groups g (- k)
     | None => g
     end.

(** The groups with the values of each step appended, one per group. *)
Definition extend_groups {V} (groups : list (list V)) (steps : list (list V))
  : list (list V) :=
  foldl (λ gs step, zip_with (λ g v, g ++ [v]) gs step) groups steps.

(** The values that an assignment to a column of [n] rows writes: the
    values themselves or, for a single value, [n] copies of it. *)
Definition broadcast_to {A} (n : nat) (values : list A) : list A :=
  if decide (length values = n) then values
  else match values with
       | [v] => replicate n v
       | _ => values
       end.

(** ** A table whose rows are not sorted

    A stand-in for utilsforecast that sorts: the positions of the rows in
    the order of id and time, rows of equal keys in their own order. *)

Fixpoint insert_sorted (le : nat → nat → bool) (i : nat) (l : list nat) : list nat :=
  match l with
  | [] => [i]
  | j :: rest => if le i j then i :: l else j :: insert_sorted le i rest
  end.

Definition argsort (le : nat → nat → bool) (n : nat) : list nat :=
  foldr (insert_sorted le) [] (seq 0 n).

Definition sorting_process (df : Frame (option Z)) (id_col time_col target_col : string)
  : res (Processed (option Z)) :=
  let? ids := frame_get id_col df in
  let? times := frame_get time_col df in
  match ids with
  | ColStr ids =>
      let? ts := col_times times in
      let le i j :=
        match ids !! i, ids !! j, ts !! i, ts !! j with
        | Some a, Some b, Some s, Some t =>
            if String.eqb a b then (s <=? t)%Z else String.leb a b
        | _, _, _, _ => true
        end in
      let sort_idxs := argsort le (nrows df) in
      let? sorted_ids := np_take ids sort_idxs in
      let? sorted_times := col_take sort_idxs times in
      let rs := runs sorted_ids in
      let indptr := offsets 0 rs.*2 in
      let? last_times := col_take (pred <$> drop 1 indptr) sorted_times in
      Ok {| p_uids := rs.*1; p_times := last_times; p_indptr := indptr;
            p_sort_idxs := if decide (sort_idxs = seq 0 (nrows df)) then None
                           else Some sort_idxs |}
  | _ => Raise (ValueError "ids")
  end.

Definition sorting_extern : Extern (option Z) := {|
  pd_merge := @pd_merge _ demo_extern;
  pd_sort_values := @pd_sort_values _ demo_extern;
  pd_concat_columns := @pd_concat_columns _ demo_extern;
  offset_add := @offset_add _ demo_extern;
  date_attr := @date_attr _ demo_extern;
  np_astype := @np_astype _ demo_extern;
  np_empty_fill := @np_empty_fill _ demo_extern;
  validate_format := @validate_format _ demo_extern;
  process := sorting_process
|}.

(** The rows of B = 10, 20 and A = 1, 2, 3 in no order. *)
Definition shuffled_df : Frame (option Z) :=
  {| nrows := 5;
     cols := [("unique_id", ColStr ["B"; "A"; "B"; "A"; "A"]);
              ("ds", ColInt [2; 1; 1; 2; 3]%Z);
              ("y", ColFloat (Some <$> [20; 1; 10; 2; 3]%Z))] |}.

(** [TimeSeries(lags=[1])] after [_fit(shuffled_df, "unique_id", "ds", "y")]. *)
Definition demo_shuffled : TimeSeries (option Z) :=
  (@_fit _ _ sorting_extern shuffled_df "unique_id" "ds" "y" None None demo_new).2.

(** ** What forecasting leaves alone *)

(** What the constructor configured and what fitting stored, the arrays
    apart. *)
Definition fit_fields {V} (self : TimeSeries V) :=
  (freq self, lags self, lag_transforms self, date_features self, num_threads self,
   target_transforms self, transforms self, id_col self, time_col self, target_col self,
   keep_last_n self, static_features self, uids self, last_dates self,
   restore_idxs self, static_features_ self, features_order_ self, dropna self,
   max_horizon self).

Definition same_fit {V} : relation (TimeSeries V) :=
  λ self self', fit_fields self' = fit_fields self.

(** The same, and the selection of the series to forecast. *)
Definition same_selection {V} : relation (TimeSeries V) :=
  λ self self', same_fit self self' ∧ _uids self' = _uids self ∧ _idxs self' = _idxs self.

(** What the computation of the features of a step leaves alone: what
    fitting stored, the selection, the arrays, the working copy and the
    predictions so far. *)
Definition step_fields {V} (self : TimeSeries V) :=
  (fit_fields self, _uids self, _idxs self, heap self, ga self, _ga self, y_pred self).

(** A model that predicts the last value of a series plus one. *)
Definition next_model : Model (option Z) :=
  Estimator (λ new_x,
    match frame_get "lag1" new_x with
    | Ok (ColFloat l) => Ok ((λ v : option Z, (λ z, z + 1)%Z <$> v) <$> l)
    | _ => Raise (ValueError "lag1")
    end).

(** The object in the middle of a forecast: the series are selected, the
    simulation is set up and two steps of that model are done. *)
Definition demo_two_steps : TimeSeries (option Z) :=
  ((predict_select_ids None ;;
    _predict_setup ;;
    repeatM 2 (@_predict_recursive_step _ _ _ pool_in_order next_model [] None None None))
     demo_fitted).2.

(** A second transform that raises, and a fitted object whose two
    transforms both raise, each its own error. *)
Definition bang : Callable (option Z) :=
  {| __name__ := "bang"; parameters := [("x", None)];
     call := λ _ _, Raise (ValueError "bang") |}.

Definition demo_both_fail : TimeSeries (option Z) :=
  (_fit demo_df "unique_id" "ds" "y" None None
        (new_TimeSeries None None (Some [(1%Z, [TfmFn boom]); (2%Z, [TfmFn bang])]) 2)).2.

(** The dates [k] steps after [dates]: the frequency is added once per
    step, as [self.curr_dates += self.freq] does. *)
Fixpoint dates_after `{Extern V} (f : Freq) (k : nat) (dates : Column V) : res (Column V) :=
  match k with
  | 0 => Ok dates
  | S k' => let? d := dates_after f k' dates in dates_add f 1 d
  end.

(** The dates a simulation starts from: the last dates of the series to
    forecast. *)
Definition start_dates {V} (self : TimeSeries V) : res (Column V) :=
  match _idxs self with
  | Some (Some idxs) => col_take idxs (last_dates self)
  | _ => Ok (last_dates self)
  end.

(** ** The table of a recursive forecast *)

(** The column of a model: the predictions of [h] steps for the series
    [us], the steps of a series together; every step is what the model
    gave for some features or, with a callback, what the callback
    returned for the ids and one value per id that the model gave. *)
Definition forecast_column {V} (model : Model V)
    (after : option (list string → list V → res (list V))) (us : list string) (h : nat)
    (col : Column V) : Prop :=
  ∃ steps,
    length steps = h ∧ Forall (λ step, length step = length us) steps ∧
    col = ColFloat (ravel_F steps) ∧
    ∀ k step, steps !! k = Some step →
      ∃ new_x raw, model_predict model new_x = Ok raw ∧
        match after with
        | Some cb => length raw = length us ∧ cb us raw = Ok step
        | None => step = raw
        end.

(** The time column: row [j * h + i] holds the date of series [j] at
    step [i], its start date with the frequency added [i + 1] times;
    without any step it is an empty column of floats. *)
Definition forecast_times `{Extern V} (f : Freq) (dates0 : Column V) (n h : nat)
    (col : Column V) : Prop :=
  match h with
  | 0 => col = ColFloat []
  | _ =>
      ∃ times,
        col_times col = Ok times ∧ length times = n * h ∧
        ∀ i j, i < h → j < n →
          ∃ d t, dates_after f (S i) dates0 = Ok d ∧ col_times d = Ok t ∧
                 times !! (j * h + i) = t !! j
  end.

(** A callback that doubles the predictions. *)
Definition double_predictions (uids : list string) (predictions : list (option Z))
  : res (list (option Z)) :=
  Ok ((λ v : option Z, (λ z, 2 * z)%Z <$> v) <$> predictions).

(** The table once the models [done] are through. *)
Definition forecast_table `{Extern V} (self : TimeSeries V)
    (after : option (list string → list V → res (list V))) (us : list string) (h : nat)
    (done : list (string * Model V)) (p : Frame V) : Prop :=
  nrows p = length us * h ∧
  columns p = [id_col self; time_col self] ++ done.*1 ∧
  od_get (id_col self) (cols p) = Some (ColStr (np_repeat us h)) ∧
  (∃ col dates0,
     od_get (time_col self) (cols p) = Some col ∧
     start_dates self = Ok dates0 ∧
     forecast_times (freq self) dates0 (length us) h col) ∧
  ∀ name model, (name, model) ∈ done →
    ∃ col, od_get name (cols p) = Some col ∧ forecast_column model after us h col.

(** * Properties *)

(** ** Insertion-ordered dictionaries *)

Section odict_facts.
Context {A : Type}.
Implicit Types (d : list (string * A)) (k : string) (v : A).

Lemma od_get_set_eq k v d : od_get k (od_set k v d) = Some v.
Proof.
  induction d as [|[k' v'] d IH]; simpl.
  - by rewrite decide_True.
  - destruct (decide (k' = k)) as [->|Hne]; simpl.
    + by rewrite decide_True.
    + by rewrite decide_False.
Qed.

Lemma od_get_set_ne k k' v d : k ≠ k' → od_get k' (od_set k v d) = od_get k' d.
Proof.
  intros Hne. induction d as [|[k0 v0] d IH]; simpl.
  - by rewrite decide_False.
  - destruct (decide (k0 = k)) as [->|Hne0]; simpl.
    + by rewrite !decide_False.
    + destruct (decide (k0 = k')); [done|apply IH].
Qed.

Lemma od_get_set k k' v d :
  od_get k' (od_set k v d) = if decide (k = k') then Some v else od_get k' d.
Proof.
  destruct (decide (k = k')) as [->|Hne].
  - apply od_get_set_eq.
  - by apply od_get_set_ne.
Qed.

Lemma od_keys_set_in k v d : k ∈ od_keys d → od_keys (od_set k v d) = od_keys d.
Proof.
  unfold od_keys. induction d as [|[k' v'] d IH]; simpl.
  - by intros ?%elem_of_nil.
  - intros Hin. destruct (decide (k' = k)) as [->|Hne]; simpl; [done|].
    f_equal. apply IH. apply elem_of_cons in Hin as [?|?]; [congruence|done].
Qed.

Lemma od_keys_set_notin k v d : k ∉ od_keys d → od_keys (od_set k v d) = od_keys d ++ [k].
Proof.
  unfold od_keys. induction d as [|[k' v'] d IH]; simpl; [done|].
  intros Hin. apply not_elem_of_cons in Hin as [Hne Hin].
  rewrite decide_False; [|done]. simpl. f_equal. by apply IH.
Qed.

Lemma od_get_None k d : od_get k d = None ↔ k ∉ od_keys d.
Proof.
  unfold od_keys. induction d as [|[k' v'] d IH]; simpl.
  - split; [intros _; apply not_elem_of_nil|done].
  - destruct (decide (k' = k)) as [->|Hne].
    + split; [done|]. intros []. by left.
    + rewrite IH, not_elem_of_cons. split; [intros ?; split; [congruence|done]|by intros [_ ?]].
Qed.

Lemma od_get_Some_in k v d : od_get k d = Some v → (k, v) ∈ d.
Proof.
  induction d as [|[k' v'] d IH]; simpl; [done|].
  destruct (decide (k' = k)) as [->|Hne].
  - intros [= ->]. by left.
  - intros ?. right. by apply IH.
Qed.

Lemma od_get_in_NoDup k v d : NoDup (od_keys d) → (k, v) ∈ d → od_get k d = Some v.
Proof.
  unfold od_keys. induction d as [|[k' v'] d IH]; simpl.
  - by intros _ ?%elem_of_nil.
  - intros [Hnotin Hnd]%NoDup_cons [Heq|Hin]%elem_of_cons.
    + injection Heq as -> ->. by rewrite decide_True.
    + destruct (decide (k' = k)) as [->|Hne]; [|by apply IH].
      exfalso. apply Hnotin. apply list_elem_of_fmap. by exists (k, v).
Qed.

Lemma od_set_NoDup k v d : NoDup (od_keys d) → NoDup (od_keys (od_set k v d)).
Proof.
  intros Hnd. destruct (decide (k ∈ od_keys d)) as [Hin|Hnotin].
  - by rewrite od_keys_set_in.
  - rewrite od_keys_set_notin by done. apply NoDup_app. split_and!; [done| |apply NoDup_singleton].
    intros x Hx ->%list_elem_of_singleton. done.
Qed.
End odict_facts.

(** ** The transform registry *)

Lemma filter_all {A} (P : A → Prop) `{∀ x, Decision (P x)} (l : list A) :
  Forall P l → filter P l = l.
Proof.
  induction 1 as [|x l Hx _ IH]; [done|].
  by rewrite filter_cons, decide_True, IH.
Qed.

Section registry.
Context {V : Type}.
Implicit Types (regs d : list (string * tspec V)).

Lemma register_all_app r1 r2 d :
  register_all (r1 ++ r2) d = register_all r2 (register_all r1 d).
Proof. apply foldl_app. Qed.

Lemma register_lags_all lags d :
  register_lags lags d =
  register_all ((λ lag, ("lag" +:+ pretty lag, TSpec lag identity_tfm [])) <$> lags) d.
Proof.
  unfold register_lags, register_all. revert d.
  induction lags as [|lag lags IH]; intros d; simpl; [done|apply IH].
Qed.

Lemma register_lag_transforms_all (lts : list (Z * list (LagTransform V))) d :
  register_lag_transforms lts d =
  register_all (lts ≫= λ '(lag, tfms),
     (λ tfm_args, let '(tfm, args) := _as_tuple tfm_args in
                  (_build_transform_name lag tfm args, TSpec lag tfm args)) <$> tfms) d.
Proof.
  unfold register_lag_transforms. revert d.
  induction lts as [|[lag tfms] lts IH]; intros d; simpl; [done|].
  rewrite register_all_app, IH. f_equal.
  clear IH. revert d. induction tfms as [|t tfms IH]; intros d; simpl; [done|].
  unfold register_all in *. simpl. rewrite <- IH.
  by destruct (_as_tuple t).
Qed.

Lemma init_transforms_registrations lags (lts : list (Z * list (LagTransform V))) :
  init_transforms lags lts = register_all (registrations lags lts) [].
Proof.
  unfold init_transforms, registrations.
  by rewrite register_all_app, register_lag_transforms_all, register_lags_all.
Qed.

Lemma register_all_NoDup regs d :
  NoDup (od_keys d) → NoDup (od_keys (register_all regs d)).
Proof.
  revert d. induction regs as [|[k v] regs IH]; intros d Hd; simpl; [done|].
  apply IH. by apply od_set_NoDup.
Qed.

Lemma filter_filter_ne_notin (k : string) (ks l : list string) :
  k ∈ ks → filter (λ y, y ∉ ks) (filter (λ y, y ≠ k) l) = filter (λ y, y ∉ ks) l.
Proof.
  intros Hk. induction l as [|y l IH]; [done|].
  rewrite (filter_cons (λ y, y ≠ k)), (filter_cons (λ y, y ∉ ks)).
  destruct (decide (y ≠ k)) as [Hy|Hy].
  - rewrite filter_cons. destruct (decide (y ∉ ks)); by rewrite IH.
  - apply dec_stable in Hy as ->. rewrite decide_False; [done|]. by intros [].
Qed.

Lemma filter_notin_snoc (k : string) (ks l : list string) :
  filter (λ y, y ∉ ks ++ [k]) l = filter (λ y, y ∉ ks) (filter (λ y, y ≠ k) l).
Proof.
  induction l as [|y l IH]; [done|].
  rewrite (filter_cons (λ y, y ≠ k)), (filter_cons (λ y, y ∉ ks ++ [k])).
  destruct (decide (y ≠ k)) as [Hy|Hy].
  - rewrite filter_cons. destruct (decide (y ∉ ks)) as [Hin|Hin].
    + rewrite decide_True, IH; [done|]. rewrite elem_of_app, list_elem_of_singleton. tauto.
    + rewrite decide_False, IH; [done|]. rewrite elem_of_app. tauto.
  - rewrite decide_False, IH; [done|]. apply dec_stable in Hy as ->.
    rewrite elem_of_app, list_elem_of_singleton. tauto.
Qed.

Lemma register_all_keys regs d :
  od_keys (register_all regs d) =
  od_keys d ++ filter (λ y, y ∉ od_keys d) (first_occurrences regs.*1).
Proof.
  revert d. induction regs as [|[k v] regs IH]; intros d; simpl.
  - by rewrite filter_nil, app_nil_r.
  - rewrite IH. rewrite filter_cons. simpl.
    destruct (decide (k ∈ od_keys d)) as [Hin|Hnotin].
    + rewrite (od_keys_set_in k v d Hin).
      destruct (decide (k ∉ od_keys d)) as [Hn|_]; [by destruct Hn|].
      rewrite filter_filter_ne_notin; done.
    + rewrite (od_keys_set_notin k v d Hnotin).
      destruct (decide (k ∉ od_keys d)) as [_|Hn]; [|by destruct Hn].
      rewrite <- app_assoc. simpl. by rewrite filter_notin_snoc.
Qed.

Lemma register_all_get name regs d :
  od_get name (register_all regs d) =
  match last_registered name regs with
  | Some spec => Some spec
  | None => od_get name d
  end.
Proof.
  unfold last_registered.
  revert d. induction regs as [|[k v] regs IH]; intros d; simpl; [done|].
  rewrite IH, filter_cons. simpl. rewrite od_get_set.
  destruct (decide (k = name)) as [->|Hne]; [|done].
  destruct (filter _ regs) as [|kv l] eqn:Hf; [done|].
  rewrite !last_cons. by destruct (last l).
Qed.
End registry.

(** ** [_name_models] *)

Section name_models.
Implicit Types (names : list string) (ctr : gmap string nat) (x : string).

Lemma count_app x l1 l2 : count x (l1 ++ l2) = count x l1 + count x l2.
Proof. unfold count. by rewrite filter_app, length_app. Qed.

Lemma count_pos x names : x ∈ names → 0 < count x names.
Proof.
  intros Hin. unfold count.
  assert (x ∈ filter (λ y, y = x) names) as Hf by (by apply list_elem_of_filter).
  destruct (filter _ names); [by apply elem_of_nil in Hf|simpl; lia].
Qed.

Lemma count_zero x names : x ∉ names → count x names = 0.
Proof.
  intros Hnotin. unfold count.
  destruct (filter _ names) as [|y l] eqn:Hf; [done|].
  assert (y ∈ filter (λ y, y = x) names) as [-> ?]%list_elem_of_filter
    by (rewrite Hf; by left).
  done.
Qed.

Lemma ctr_get_foldl x names ctr :
  ctr_get (foldl (λ c y, <[y := S (default 0 (c !! y))]> c) ctr names) x =
  ctr_get ctr x + count x names.
Proof.
  revert ctr. induction names as [|y names IH]; intros ctr; simpl.
  - unfold count. simpl. lia.
  - rewrite IH. unfold count at 2. rewrite filter_cons. unfold ctr_get.
    destruct (decide (y = x)) as [->|Hne].
    + rewrite lookup_insert_eq. simpl. fold (count x names). lia.
    + rewrite lookup_insert_ne by done. fold (count x names). lia.
Qed.

Lemma ctr_get_Counter x names : ctr_get (Counter names) x = count x names.
Proof. unfold Counter. rewrite ctr_get_foldl. unfold ctr_get. by rewrite lookup_empty. Qed.

Lemma Counter_lookup x names n : Counter names !! x = Some n → n = count x names.
Proof. intros Hn. rewrite <- ctr_get_Counter. unfold ctr_get. by rewrite Hn. Qed.

Lemma Counter_lookup_elem x names : x ∈ names → is_Some (Counter names !! x).
Proof.
  intros Hin%count_pos. rewrite <- ctr_get_Counter in Hin. unfold ctr_get in Hin.
  destruct (Counter names !! x); [by eexists|simpl in Hin; lia].
Qed.

Lemma Counter_empty names : Counter names = ∅ → names = [].
Proof.
  destruct names as [|x names]; [done|]. intros Hc.
  destruct (Counter_lookup_elem x (x :: names)) as [n Hn]; [by left|].
  by rewrite Hc, lookup_empty in Hn.
Qed.

Lemma occurrence_le names i x : occurrence names i x ≤ count x names.
Proof.
  unfold occurrence. rewrite <- (take_drop (S i) names) at 2.
  rewrite count_app. unfold count. lia.
Qed.

Lemma max_small_count names x :
  max_list ((map_to_list (Counter names)).*2) < 2 → count x names ≤ 1.
Proof.
  intros Hmax. destruct (decide (x ∈ names)) as [Hin|Hnotin].
  - destruct (Counter_lookup_elem x names Hin) as [n Hn].
    rewrite <- (Counter_lookup _ _ _ Hn).
    apply elem_of_map_to_list in Hn.
    assert (n ∈ (map_to_list (Counter names)).*2) as Hel
      by (apply list_elem_of_fmap; by exists (x, n)).
    apply max_list_elem_of_le in Hel. lia.
  - rewrite count_zero by done. lia.
Qed.

Lemma renamed_from_length names m : length (renamed_from names m) = length names.
Proof.
  unfold renamed_from. rewrite length_app, length_take, length_drop, length_imap. lia.
Qed.

Lemma renamed_from_step names m x :
  names !! m = Some x →
  <[m := suffixed names m x]> (renamed_from names (S m)) = renamed_from names m.
Proof.
  intros Hm. unfold renamed_from.
  assert (m < length names) as Hlt by (by eapply lookup_lt_Some).
  rewrite (take_S_r _ _ _ Hm), <- app_assoc. simpl.
  rewrite insert_app_r_alt by (rewrite length_take; lia).
  rewrite length_take, Nat.min_l, Nat.sub_diag by lia. simpl.
  f_equal. symmetry. apply drop_S.
  rewrite list_lookup_imap, Hm. done.
Qed.

Lemma _name_models_step_inv names m x st :
  names !! m = Some x →
  loop_inv names (S m) st →
  loop_inv names m (_name_models_step st (length names - m, x)).
Proof.
  intros Hm [Hnames Hctr]. destruct st as [ctr ns]. simpl in *.
  assert (m < length names) as Hlt by (by eapply lookup_lt_Some).
  assert (Hk : ctr_get ctr x = occurrence names m x).
  { rewrite Hctr; [done|]. rewrite (take_S_r _ _ _ Hm), elem_of_app, list_elem_of_singleton. by right. }
  assert (Hidx : length ns - (length names - m) = m).
  { rewrite Hnames, renamed_from_length. lia. }
  assert (Hocc : occurrence names m x = S (count x (take m names))).
  { unfold occurrence. rewrite (take_S_r _ _ _ Hm). fold (count x (take m names ++ [x])).
    rewrite count_app. unfold count at 2. rewrite filter_cons, decide_True by done. simpl. lia. }
  unfold _name_models_step. rewrite Hidx, Hk.
  destruct (decide (1 < occurrence names m x)) as [Hgt|Hle]; split; simpl.
  - rewrite Hnames, <- (renamed_from_step names m x Hm). unfold suffixed.
    by rewrite decide_True.
  - intros y Hy. unfold ctr_get. destruct (decide (x = y)) as [->|Hne].
    + rewrite lookup_insert_eq. simpl. lia.
    + rewrite lookup_insert_ne by done. fold (ctr_get ctr y).
      rewrite Hctr.
      * rewrite (take_S_r _ _ _ Hm), count_app. unfold count at 2.
        rewrite filter_cons, decide_False by done. simpl. lia.
      * rewrite (take_S_r _ _ _ Hm), elem_of_app. by left.
  - rewrite Hnames, <- (renamed_from_step names m x Hm). unfold suffixed.
    by rewrite decide_False.
  - intros y Hy. assert (x ≠ y) as Hne.
    { intros ->. apply count_pos in Hy. lia. }
    rewrite Hctr.
    * rewrite (take_S_r _ _ _ Hm), count_app. unfold count at 2.
      rewrite filter_cons, decide_False by done. simpl. lia.
    * rewrite (take_S_r _ _ _ Hm), elem_of_app. by left.
Qed.

Lemma _name_models_loop_inv names m st :
  m ≤ length names →
  loop_inv names m st →
  loop_inv names 0
    (foldl _name_models_step st
           (zip (seq (S (length names - m)) m) (reverse (take m names)))).
Proof.
  revert st. induction m as [|m IH]; intros st Hle Hinv; [done|].
  destruct (lookup_lt_is_Some_2 names m) as [x Hm]; [lia|].
  rewrite (take_S_r _ _ _ Hm), reverse_snoc. simpl.
  replace (S (length names - S m)) with (length names - m) by lia.
  apply IH; [lia|]. by apply _name_models_step_inv.
Qed.

Lemma _name_models_suffixed names : _name_models names = imap (suffixed names) names.
Proof.
  unfold _name_models.
  destruct (decide (Counter names = ∅)) as [->%Counter_empty|_]; [done|].
  destruct (decide (max_list _ < 2)) as [Hmax|_].
  - apply list_eq. intros i. rewrite list_lookup_imap.
    destruct (names !! i) as [x|] eqn:Hi; [|done]. simpl. f_equal.
    unfold suffixed. rewrite decide_False; [done|].
    pose proof (occurrence_le names i x). pose proof (max_small_count names x Hmax). lia.
  - pose proof (_name_models_loop_inv names (length names) (Counter names, names)) as Hl.
    rewrite Nat.sub_diag, firstn_all in Hl.
    destruct Hl as [-> _]; [lia| |].
    + split; simpl.
      * unfold renamed_from. rewrite firstn_all, drop_ge, app_nil_r; [done|].
        by rewrite length_imap.
      * intros x _. rewrite firstn_all. apply ctr_get_Counter.
    + unfold renamed_from. by rewrite take_0, drop_0.
Qed.
End name_models.

(** C1, as the code has it.  A registration whose computed name is already
    registered replaces that entry and keeps its slot, so the registered
    feature names are collision-free because each name is registered once:
    they are the distinct computed names in the order of their first
    registration, each with the transform of its last registration, and
    registering [(lag=1, f)] twice yields the single name [f_lag1].  The
    helper [_name_models] leaves the first occurrence of a name bare and
    gives its [k]-th occurrence, counted from the start, the name followed
    by [k] in decimal without a separator: two equal names [x] become [x]
    and [x2]. *)
Theorem registered_names_amended :
  (∀ V (lags : list Z) (lag_transforms : list (Z * list (LagTransform V))),
     let regs := registrations lags lag_transforms in
     let transforms := init_transforms lags lag_transforms in
     NoDup (od_keys transforms) ∧
     od_keys transforms = first_occurrences regs.*1 ∧
     ∀ name, od_get name transforms = last_registered name regs) ∧
  (∀ V (f : Callable V),
     od_keys (init_transforms [] [(1%Z, [TfmFn f; TfmFn f])]) = [__name__ f +:+ "_lag1"]) ∧
  (∀ names, _name_models names = imap (suffixed names) names) ∧
  (∀ x, _name_models [x; x] = [x; x +:+ "2"]).
Proof.
  split_and!.
  - intros V lags lts regs transforms. subst regs transforms.
    rewrite init_transforms_registrations. split_and!.
    + by apply register_all_NoDup, NoDup_nil.
    + rewrite register_all_keys. simpl. apply filter_all.
      apply Forall_forall. intros ? _. apply not_elem_of_nil.
    + intros name. rewrite register_all_get. simpl.
      by destruct (last_registered name _).
  - intros V f. unfold init_transforms, register_lags, register_lag_transforms. simpl.
    unfold _build_transform_name. simpl. by rewrite decide_True.
  - apply _name_models_suffixed.
  - intros x. rewrite _name_models_suffixed. simpl. unfold suffixed, occurrence. simpl.
    rewrite !filter_cons. destruct (decide (x = x)) as [_|?]; [|done]. reflexivity.
Qed.

(** C1, as stated, fails: registering [(lag=1, f)] twice leaves one
    feature, [f_lag1], not the two names [f_lag1] and [f_lag1_2]; and the
    suffix of [_name_models] has no underscore. *)
Lemma registered_names_counterexample :
  (∃ ts, __init__ None None (Some [(1%Z, [TfmFn demo_f; TfmFn demo_f])]) None 1 None = Ok ts ∧
         features ts = ["f_lag1"] ∧
         features ts ≠ ["f_lag1"; "f_lag1_2"]) ∧
  _name_models ["f_lag1"; "f_lag1"] = ["f_lag1"; "f_lag12"] ∧
  _name_models ["f_lag1"; "f_lag1"] ≠ ["f_lag1"; "f_lag1_2"].
Proof.
  split.
  - eexists. split; [reflexivity|]. split; [reflexivity|]. vm_compute. discriminate.
  - split; [by vm_compute|]. vm_compute. discriminate.
Qed.

(** ** GroupedArray: groups and offsets *)

Section grouped_array.
Context {V : Type}.
Implicit Types (ga : GroupedArray V) (g : list V) (gs : list (list V)).

Lemma py_slice_length {A} (x : list A) lo hi :
  lo ≤ hi → hi ≤ length x → length (py_slice x lo hi) = hi - lo.
Proof. intros. unfold py_slice. rewrite length_take, length_drop. lia. Qed.

Lemma ga_wf_lookup ga i :
  ga_wf ga → i ≤ n_groups ga → indptr ga !! i = Some (indptr ga !!! i).
Proof.
  intros (H0 & _ & _) Hi. unfold n_groups in Hi.
  destruct (lookup_lt_is_Some_2 (indptr ga) i) as [a Ha].
  - apply lookup_lt_Some in H0. lia.
  - by rewrite (list_lookup_total_correct _ _ _ Ha).
Qed.

Lemma ga_wf_last ga : ga_wf ga → indptr ga !!! n_groups ga = length (data ga).
Proof.
  intros (H0 & Hl & _). apply list_lookup_total_correct.
  rewrite last_lookup in Hl. unfold n_groups.
  by replace (length (indptr ga) - 1) with (pred (length (indptr ga))) by lia.
Qed.

Lemma ga_wf_mono ga i k :
  ga_wf ga → i ≤ k → k ≤ n_groups ga → indptr ga !!! i ≤ indptr ga !!! k.
Proof.
  intros Hwf Hik Hk. induction Hik as [|k Hik IH]; [done|].
  etrans; [apply IH; lia|].
  destruct Hwf as (H0 & Hl & Hmono).
  apply (Hmono k); apply ga_wf_lookup; try done; lia.
Qed.

Lemma ga_wf_bound ga i :
  ga_wf ga → i ≤ n_groups ga → indptr ga !!! i ≤ length (data ga).
Proof. intros Hwf Hi. rewrite <- (ga_wf_last ga Hwf). by apply ga_wf_mono. Qed.

Lemma ga_slice_length ga i :
  ga_wf ga → i < n_groups ga →
  length (ga_slice ga i) = indptr ga !!! (i + 1) - indptr ga !!! i.
Proof.
  intros Hwf Hi. apply py_slice_length.
  - apply ga_wf_mono; [done|lia..].
  - apply ga_wf_bound; [done|lia].
Qed.

Lemma ga_groups_prefix ga i :
  ga_wf ga → i ≤ n_groups ga →
  concat (ga_slice ga <$> seq 0 i) = take (indptr ga !!! i) (data ga).
Proof.
  intros Hwf. induction i as [|i IH]; intros Hi.
  - simpl. destruct Hwf as (H0 & _). by rewrite (list_lookup_total_correct _ _ _ H0).
  - rewrite seq_S, fmap_app, concat_app, IH by lia. simpl. rewrite app_nil_r.
    unfold ga_slice, py_slice. replace (i + 1) with (S i) by lia.
    pose proof (ga_wf_mono ga i (S i) Hwf) as Hm.
    rewrite take_take_drop. f_equal. lia.
Qed.

Lemma ga_groups_concat ga : ga_wf ga → concat (ga_groups ga) = data ga.
Proof.
  intros Hwf. unfold ga_groups. rewrite ga_groups_prefix, ga_wf_last by done.
  apply firstn_all.
Qed.

Lemma ga_groups_lookup ga i :
  i < n_groups ga → ga_groups ga !! i = Some (ga_slice ga i).
Proof.
  intros Hi. unfold ga_groups. rewrite list_lookup_fmap, lookup_seq_lt by done. done.
Qed.

Lemma ga_groups_length ga : length (ga_groups ga) = n_groups ga.
Proof. unfold ga_groups. by rewrite length_fmap, length_seq. Qed.
End grouped_array.

(** ** [_expand_target] *)

Section expand_target.
Context `{Float V}.
Implicit Types (row serie : list V) (out : list (list V)).

(** Writing [f k] to the slots [a], ..., [a + m - 1] of a row. *)
Lemma foldl_insert_seq (f : nat → V) row a m :
  a + m ≤ length row →
  foldl (λ r k, <[k := f k]> r) row (seq a m) =
  take a row ++ (f <$> seq a m) ++ drop (a + m) row.
Proof.
  revert a row. induction m as [|m IH]; intros a row Hlen; simpl.
  - by rewrite Nat.add_0_r, take_drop.
  - rewrite IH by (rewrite length_insert; lia).
    rewrite (take_S_r _ _ (f a)) by (apply list_lookup_insert_eq; lia).
    rewrite take_insert_ge, drop_insert_lt by lia.
    rewrite <- app_assoc. simpl. by replace (a + S m) with (S (a + m)) by lia.
Qed.

Lemma foldl_set2 (f : nat → V) n ks out :
  foldl (λ out k, set2 n k (f k) out) out ks =
  alter (λ row, foldl (λ r k, <[k := f k]> r) row ks) n out.
Proof.
  revert out. induction ks as [|k ks IH]; intros out; simpl.
  - symmetry. apply list_alter_id. done.
  - rewrite IH. unfold set2. by rewrite list_alter_alter_eq.
Qed.

Lemma fmap_const_seq (c : V) a m : (λ _, c) <$> seq a m = replicate m c.
Proof. revert a. induction m as [|m IH]; intros a; simpl; [done|by rewrite IH]. Qed.

Lemma values_from serie j h :
  (λ k, default nan (serie !! (j + k))) <$> seq 0 ((length serie - j) `min` h) =
  take h (drop j serie).
Proof.
  apply list_eq. intros k.
  rewrite list_lookup_fmap.
  destruct (decide (k < (length serie - j) `min` h)) as [Hk|Hk].
  - rewrite lookup_seq_lt by done. simpl.
    rewrite lookup_take_lt, lookup_drop by lia.
    destruct (lookup_lt_is_Some_2 serie (j + k)) as [v Hv]; [lia|].
    by rewrite Hv.
  - rewrite lookup_seq_ge by lia. simpl. symmetry.
    apply lookup_ge_None. rewrite length_take, length_drop. lia.
Qed.

(** The two inner loops write row [j] of the series, whatever the row
    held before. *)
Lemma fill_row serie j h row :
  length row = h →
  let upper := (length serie - j) `min` h in
  foldl (λ r k, <[k := nan]> r)
        (foldl (λ r k, <[k := default nan (serie !! (j + k))]> r) row (seq 0 upper))
        (seq upper (h - upper)) =
  expand_row h serie j.
Proof.
  intros Hrow upper.
  rewrite (foldl_insert_seq (λ k, default nan (serie !! (j + k))) row 0 upper) by lia.
  simpl. unfold upper at 1. rewrite values_from. fold upper.
  assert (length (take h (drop j serie)) = upper) as Hvals
    by (rewrite length_take, length_drop; lia).
  rewrite (foldl_insert_seq (λ _, nan)) by (rewrite length_app, length_drop; lia).
  rewrite take_app_length' by done.
  rewrite (drop_ge (take h (drop j serie) ++ drop upper row))
    by (rewrite length_app, length_drop; lia).
  rewrite app_nil_r, fmap_const_seq. unfold expand_row. do 2 f_equal. lia.
Qed.

Lemma expand_row_length h serie j : length (expand_row h serie j) = h.
Proof.
  unfold expand_row. rewrite length_app, length_take, length_drop, length_replicate. lia.
Qed.

Lemma expand_rows_length h serie : length (expand_rows h serie) = length serie.
Proof. unfold expand_rows. by rewrite length_fmap, length_seq. Qed.

Lemma expand_rows_shape h serie : Forall (λ row, length row = h) (expand_rows h serie).
Proof.
  unfold expand_rows. apply Forall_fmap, Forall_forall. intros j _. apply expand_row_length.
Qed.

Lemma write_rows_app out n (r1 r2 : list (list V)) :
  n + length r1 + length r2 ≤ length out →
  write_rows (write_rows (out, n) r1) r2 = write_rows (out, n) (r1 ++ r2).
Proof.
  intros Hcap. unfold write_rows. simpl. rewrite length_app. f_equal; [|lia].
  assert (length (take n out ++ r1) = n + length r1) as Hl
    by (rewrite length_app, length_take; lia).
  rewrite (app_assoc (take n out) r1).
  rewrite <- Hl at 1. rewrite take_app_length.
  rewrite <- Hl at 1. rewrite drop_app_add, drop_drop.
  rewrite <- !app_assoc. by rewrite Nat.add_assoc.
Qed.

Lemma write_rows_nil out n : n ≤ length out → write_rows (out, n) ([] : list (list V)) = (out, n).
Proof.
  intros. unfold write_rows. simpl. rewrite !Nat.add_0_r. by rewrite take_drop.
Qed.

Lemma write_rows_shape (P : list V → Prop) out n rows :
  Forall P out → Forall P rows → n + length rows ≤ length out →
  Forall P (write_rows (out, n) rows).1 ∧
  length (write_rows (out, n) rows).1 = length out.
Proof.
  intros Ho Hr Hcap. unfold write_rows. simpl. split.
  - rewrite !Forall_app. split_and!; [by apply Forall_take|done|by apply Forall_drop].
  - rewrite !length_app, length_take, length_drop. lia.
Qed.

(** A loop whose every iteration writes a block of rows writes the
    blocks one after the other. *)
Lemma foldl_write_rows {A} h (step : list (list V) * nat → A → list (list V) * nat)
    (g : A → list (list V)) (l : list A) out n :
  (∀ out n a, a ∈ l → Forall (λ row, length row = h) out →
     n + length (g a) ≤ length out → step (out, n) a = write_rows (out, n) (g a)) →
  (∀ a, a ∈ l → Forall (λ row, length row = h) (g a)) →
  Forall (λ row, length row = h) out →
  n + length (concat (g <$> l)) ≤ length out →
  foldl step (out, n) l = write_rows (out, n) (concat (g <$> l)).
Proof.
  revert out n. induction l as [|a l IH]; intros out n Hstep Hg Hout Hcap; simpl in *.
  - rewrite write_rows_nil; [done|lia].
  - rewrite length_app in Hcap.
    rewrite Hstep; [|by left|done|lia].
    destruct (write_rows_shape (λ row, length row = h) out n (g a)) as [Hs Hl];
      [done|apply Hg; by left|lia|].
    rewrite <- write_rows_app by lia.
    destruct (write_rows (out, n) (g a)) as [out' n'] eqn:Hw.
    assert (n' = n + length (g a)) as ->
      by (unfold write_rows in Hw; simpl in Hw; congruence).
    simpl in Hs, Hl. apply IH.
    + intros. apply Hstep; [by right|done..].
    + intros. apply Hg. by right.
    + done.
    + change (list_fmap A (list (list V)) g l) with (g <$> l) in Hcap. lia.
Qed.

Lemma alter_insert (f : list V → list V) n row out :
  out !! n = Some row → alter f n out = <[n := f row]> out.
Proof.
  intros Hn. apply list_eq. intros i. destruct (decide (i = n)) as [->|Hne].
  - rewrite list_lookup_alter_eq, Hn. simpl. symmetry. apply list_lookup_insert_eq.
    by eapply lookup_lt_Some.
  - by rewrite list_lookup_alter_ne, list_lookup_insert_ne.
Qed.

(** One iteration of the loop over [j] writes row [j] of the series. *)
Lemma expand_step serie h out n j :
  Forall (λ row, length row = h) out → n + 1 ≤ length out →
  (let upper := (length serie - j) `min` h in
   let out := foldl (λ out k, set2 n k (default nan (serie !! (j + k))) out)
                    out (seq 0 upper) in
   let out := foldl (λ out k, set2 n k nan out) out (seq upper (h - upper)) in
   (out, S n)) = write_rows (out, n) [expand_row h serie j].
Proof.
  intros Hshape Hcap. cbv zeta.
  rewrite (foldl_set2 (λ k, default nan (serie !! (j + k)))).
  rewrite (foldl_set2 (λ _, nan)), list_alter_alter_eq.
  destruct (lookup_lt_is_Some_2 out n) as [row Hrow]; [lia|].
  rewrite (alter_insert _ n row) by done. simpl.
  rewrite fill_row.
  - unfold write_rows. simpl. f_equal; [|lia].
    rewrite insert_take_drop by lia. do 3 f_equal. lia.
  - eapply Forall_lookup_1 in Hshape; [|done]. done.
Qed.

Lemma concat_singletons {A B} (f : A → B) (l : list A) : concat ((λ a, [f a]) <$> l) = f <$> l.
Proof. induction l as [|a l IH]; [done|]. rewrite !fmap_cons. simpl. by rewrite IH. Qed.

(** The loop over [j] writes the rows of the series. *)
Lemma expand_serie serie h out n :
  Forall (λ row, length row = h) out → n + length serie ≤ length out →
  foldl (λ '(out, n) j,
      let upper := (length serie - j) `min` h in
      let out := foldl (λ out k, set2 n k (default nan (serie !! (j + k))) out)
                       out (seq 0 upper) in
      let out := foldl (λ out k, set2 n k nan out)
                       out (seq upper (h - upper)) in
      (out, S n))
    (out, n) (seq 0 (length serie)) = write_rows (out, n) (expand_rows h serie).
Proof.
  intros Hshape Hcap.
  rewrite (foldl_write_rows h _ (λ j, [expand_row h serie j])).
  - by rewrite concat_singletons.
  - intros out' n' j _ Hs Hc. by apply expand_step.
  - intros j _. apply Forall_singleton, expand_row_length.
  - done.
  - by rewrite concat_singletons, length_fmap, length_seq.
Qed.

Lemma expand_concat_length h (gs : list (list V)) :
  length (concat (expand_rows h <$> gs)) = length (concat gs).
Proof.
  induction gs as [|g gs IH]; csimpl; [done|].
  by rewrite !length_app, IH, expand_rows_length.
Qed.

(** The whole of [_expand_target]: the rows of every series in turn. *)
Lemma _expand_target_concat out0 (ga : GroupedArray V) h :
  ga_wf ga → length out0 = length (data ga) →
  Forall (λ row, length row = h) out0 →
  _expand_target out0 (data ga) (indptr ga) h = concat (expand_rows h <$> ga_groups ga).
Proof.
  intros Hwf Hlen Hshape. unfold _expand_target.
  assert (Hall : concat ((λ i, expand_rows h (ga_slice ga i)) <$> seq 0 (n_groups ga)) =
                 concat (expand_rows h <$> ga_groups ga)).
  { unfold ga_groups. by rewrite <- list_fmap_compose. }
  assert (Hcap : length (concat (expand_rows h <$> ga_groups ga)) = length out0).
  { rewrite expand_concat_length, ga_groups_concat by done. lia. }
  fold (n_groups ga).
  rewrite (foldl_write_rows h _ (λ i, expand_rows h (ga_slice ga i))).
  - rewrite Hall. unfold write_rows. simpl.
    rewrite drop_ge, app_nil_r; [done|lia].
  - intros out n i _ Hs Hc. rewrite expand_rows_length in Hc.
    by apply expand_serie.
  - intros i _. apply expand_rows_shape.
  - done.
  - rewrite Hall. lia.
Qed.
End expand_target.

Lemma concat_lookup_block {A} (Ls : list (list A)) i L j x :
  Ls !! i = Some L → L !! j = Some x →
  concat Ls !! (length (concat (take i Ls)) + j) = Some x.
Proof.
  intros Hi Hj. remember (length (concat (take i Ls))) as n eqn:Hn.
  rewrite <- (take_drop_middle Ls i L Hi). subst n.
  rewrite concat_app, lookup_app_r by lia.
  replace (length (concat (take i Ls)) + j - length (concat (take i Ls))) with j by lia.
  simpl. rewrite lookup_app_l by (by eapply lookup_lt_Some). done.
Qed.

Lemma concat_fmap_fmap {A B} (f : A → B) (Ls : list (list A)) :
  concat ((λ L : list A, f <$> L) <$> Ls) = f <$> concat Ls.
Proof. induction Ls as [|L Ls IH]; csimpl; [done|]. by rewrite fmap_app, IH. Qed.

Section expand_target_rows.
Context `{Float V}.

Lemma expand_rows_1 (serie : list V) : expand_rows 1 serie = (λ y, [y]) <$> serie.
Proof.
  unfold expand_rows. apply list_eq. intros j. rewrite !list_lookup_fmap.
  destruct (serie !! j) as [y|] eqn:Hj.
  - rewrite lookup_seq_lt by (by eapply lookup_lt_Some). simpl. f_equal.
    unfold expand_row. rewrite (drop_S _ _ _ Hj). simpl.
    apply lookup_lt_Some in Hj. by replace (1 - (length serie - j)) with 0 by lia.
  - rewrite lookup_seq_ge; [done|]. by apply lookup_ge_None.
Qed.

Lemma expand_prefix_length (ga : GroupedArray V) h i :
  ga_wf ga → i ≤ n_groups ga →
  length (concat (take i (expand_rows h <$> ga_groups ga))) = indptr ga !!! i.
Proof.
  intros Hwf Hi. rewrite <- fmap_take, expand_concat_length.
  unfold ga_groups. rewrite <- fmap_take, take_seq, Nat.min_l by done.
  rewrite ga_groups_prefix, length_take by done.
  pose proof (ga_wf_bound ga i Hwf Hi). lia.
Qed.

(** C6.  For every well-formed grouped array and every width [h],
    [_expand_target] on a fresh array of one row of width [h] per
    observation returns one row of width [h] per observation; the row of
    the observation at offset [j] of series [i] holds the values of that
    series from offset [j] on, at most [h] of them, followed by NaN up
    to the width; for [h = 1] the single column is the target itself. *)
Theorem expand_target_rows (out0 : list (list V)) (ga : GroupedArray V) (h : nat) :
  ga_wf ga →
  length out0 = length (data ga) →
  Forall (λ row, length row = h) out0 →
  let out := _expand_target out0 (data ga) (indptr ga) h in
  length out = length (data ga) ∧
  Forall (λ row, length row = h) out ∧
  (∀ i j, i < n_groups ga → j < length (ga_slice ga i) →
     out !! (indptr ga !!! i + j) =
     Some (take h (drop j (ga_slice ga i)) ++
           replicate (h - (length (ga_slice ga i) - j)) nan)) ∧
  (h = 1 → out = (λ y, [y]) <$> data ga).
Proof.
  intros Hwf Hlen Hshape out. subst out.
  rewrite _expand_target_concat by done. split_and!.
  - by rewrite expand_concat_length, ga_groups_concat.
  - apply Forall_concat, Forall_fmap, Forall_forall. intros g _. apply expand_rows_shape.
  - intros i j Hi Hj.
    rewrite <- (expand_prefix_length ga h i) by (done || lia).
    apply (concat_lookup_block _ i (expand_rows h (ga_slice ga i))).
    + by rewrite list_lookup_fmap, ga_groups_lookup.
    + unfold expand_rows. by rewrite list_lookup_fmap, lookup_seq_lt.
  - intros ->. rewrite <- (ga_groups_concat ga Hwf) at 1.
    rewrite <- concat_fmap_fmap. f_equal.
    apply list_fmap_ext. intros _ g _. apply expand_rows_1.
Qed.
End expand_target_rows.

(** C6 on the two series A = 1, 2, 3, 4 and B = 10, 20, 30 with two
    horizons. *)
Lemma expand_target_rows_witness :
  let ga := {| data := Some <$> [1; 2; 3; 4; 10; 20; 30]%Z; indptr := [0; 4; 7] |} in
  let out := _expand_target (np_empty (Some 9%Z) 7 2) (data ga) (indptr ga) 2 in
  length out = 7 ∧
  Forall (λ row, length row = 2) out ∧
  (∀ i j, i < n_groups ga → j < length (ga_slice ga i) →
     out !! (indptr ga !!! i + j) =
     Some (take 2 (drop j (ga_slice ga i)) ++
           replicate (2 - (length (ga_slice ga i) - j)) nan)) ∧
  (2 = 1 → out = (λ y, [y]) <$> data ga).
Proof.
  intros ga.
  apply (expand_target_rows (np_empty (Some 9%Z) 7 2) ga 2).
  - split_and!; [reflexivity|reflexivity|].
    intros [|[|[|i]]] a b; simpl; intros [= <-] [= <-]; lia.
  - reflexivity.
  - repeat constructor.
Defined.

(** ** The transform engine *)

Section engine.
Context `{Float V}.
Implicit Types (tasks : list (string * res (list V))) (results : list (string * list V)).

Lemma gather_results_Ok tasks results :
  Forall (λ t, is_Ok t.2 = true) tasks ↔ ∃ r, gather_results tasks results = Ok r.
Proof.
  revert results. induction tasks as [|[name [v|e]] tasks IH]; intros results; simpl.
  - split; [by eexists|constructor].
  - rewrite <- IH, Forall_cons. simpl. tauto.
  - split; [intros [[=] _]%Forall_cons|intros [r [=]]].
Qed.

(** The exception of a failed run is that of the first task, in the
    order of the list, that raised. *)
Lemma gather_results_Raise tasks results e :
  gather_results tasks results = Raise e ↔
  ∃ pre name post, tasks = pre ++ (name, Raise e) :: post ∧
                   Forall (λ t, is_Ok t.2 = true) pre.
Proof.
  revert results. induction tasks as [|[name [v|e']] tasks IH]; intros results; simpl.
  - split; [done|]. intros (pre & ? & ? & Heq & _). by destruct pre.
  - rewrite IH. split.
    + intros (pre & n & post & -> & Hpre). exists ((name, Ok v) :: pre), n, post.
      split; [done|]. by constructor.
    + intros (pre & n & post & Heq & Hpre). destruct pre as [|p pre]; [done|].
      injection Heq as <- ->. apply Forall_cons in Hpre as [_ Hpre]. by exists pre, n, post.
  - split.
    + intros [= ->]. exists [], name, tasks. split; [done|constructor].
    + intros (pre & n & post & Heq & Hpre). destruct pre as [|p pre].
      * by injection Heq as <- <- <-.
      * injection Heq as <- ->. by apply Forall_cons in Hpre as [[=] _].
Qed.

Lemma gather_results_get tasks results r name v :
  NoDup tasks.*1 →
  gather_results tasks results = Ok r →
  od_get name r = Some v ↔
  (name, Ok v) ∈ tasks ∨ ((name ∉ tasks.*1) ∧ od_get name results = Some v).
Proof.
  revert results. induction tasks as [|[n [w|e]] tasks IH]; intros results Hnd Hr; simpl in *.
  - injection Hr as <-. split; [intros ?; right; split; [apply not_elem_of_nil|done]|].
    intros [?%elem_of_nil|[_ ?]]; done.
  - apply NoDup_cons in Hnd as [Hn Hnd]. rewrite (IH _ Hnd Hr), od_get_set.
    rewrite elem_of_cons, not_elem_of_cons. destruct (decide (n = name)) as [->|Hne].
    + split.
      * intros [Hin|[_ [= ->]]]; [|by left; left].
        exfalso. apply Hn, list_elem_of_fmap. by exists (name, Ok v).
      * intros [[[= ->]|Hin]|[[? _] _]]; [by right| |done].
        exfalso. apply Hn, list_elem_of_fmap. by exists (name, Ok v).
    + split.
      * intros [?|[? ?]]; [left; by right|right; done].
      * intros [[[= ? ?]|?]|[[_ ?] ?]]; [done|by left|by right].
  - done.
Qed.

Lemma gather_results_keys tasks results r :
  NoDup tasks.*1 → (∀ k, k ∈ tasks.*1 → k ∉ od_keys results) →
  gather_results tasks results = Ok r →
  od_keys r = od_keys results ++ tasks.*1.
Proof.
  revert results. induction tasks as [|[n [w|e]] tasks IH]; intros results Hnd Hfresh Hr;
    simpl in *.
  - injection Hr as <-. by rewrite app_nil_r.
  - apply NoDup_cons in Hnd as [Hn Hnd].
    rewrite (IH (od_set n w results) Hnd); [| |done].
    + rewrite od_keys_set_notin by (apply Hfresh; by left). by rewrite <- app_assoc.
    + intros k Hk. rewrite od_keys_set_notin by (apply Hfresh; by left).
      rewrite elem_of_app, list_elem_of_singleton. intros [Hin| ->]; [|done].
      revert Hin. apply Hfresh. by right.
  - done.
Qed.

(** The sequential loop stores the outcomes in registration order. *)
Lemma _apply_transforms_loop_gather ga updates_only (items : list (string * tspec V))
    results :
  _apply_transforms_loop ga updates_only items results =
  gather_results (prod_map id (transform_task ga updates_only) <$> items) results.
Proof.
  revert results. induction items as [|[name spec] items IH]; intros results; csimpl;
    [done|].
  unfold transform_task at 1. destruct (transform_series _ _ _ _ _); simpl; [apply IH|done].
Qed.

Lemma submit_all_lookup ga updates_only (items : list (string * tspec V)) i :
  submit_all ga updates_only items !! i =
  (λ '(name, spec), ({| fut_id := i; fut_result := transform_task ga updates_only spec |},
                     name)) <$> items !! i.
Proof.
  unfold submit_all. rewrite list_lookup_imap. by destruct (items !! i) as [[??]|].
Qed.

Lemma submit_all_find ga updates_only (items : list (string * tspec V)) i name spec :
  items !! i = Some (name, spec) →
  list_find (λ fn : Future V * string, fut_id fn.1 = i) (submit_all ga updates_only items) =
  Some (i, ({| fut_id := i; fut_result := transform_task ga updates_only spec |}, name)).
Proof.
  intros Hi. apply list_find_Some. split_and!.
  - by rewrite submit_all_lookup, Hi.
  - done.
  - intros j [fut n] Hj Hlt. rewrite submit_all_lookup in Hj.
    destruct (items !! j) as [[??]|]; [|done]. injection Hj as <- <-. simpl. lia.
Qed.

(** The collecting loop stores the outcomes in completion order. *)
Lemma collect_results_gather ga updates_only (items : list (string * tspec V)) order
    results :
  Forall (λ i, i < length items) order →
  collect_results (submit_all ga updates_only items)
                  (as_completed order (submit_all ga updates_only items)) results =
  gather_results
    (omap (λ i, prod_map id (transform_task ga updates_only) <$> items !! i) order) results.
Proof.
  revert results. induction order as [|i order IH]; intros results Hord; [done|].
  apply Forall_cons in Hord as [Hi Hord].
  destruct (lookup_lt_is_Some_2 items i Hi) as [[name spec] Hspec].
  unfold as_completed in *. simpl.
  rewrite submit_all_lookup, Hspec. simpl.
  rewrite (submit_all_find _ _ _ _ _ _ Hspec). simpl.
  destruct (transform_task ga updates_only spec); simpl; [by apply IH|done].
Qed.

Lemma omap_ext_in {A B} (f g : A → option B) (l : list A) :
  (∀ x, x ∈ l → f x = g x) → omap f l = omap g l.
Proof.
  induction l as [|x l IH]; intros Hfg; csimpl; [done|].
  rewrite (Hfg x) by (by left). rewrite IH; [done|]. intros. apply Hfg. by right.
Qed.

Lemma omap_lookup_seq {A} (l : list A) : omap (λ i, l !! i) (seq 0 (length l)) = l.
Proof.
  induction l as [|a l IH] using rev_ind; [done|].
  rewrite length_app. simpl. rewrite Nat.add_1_r, seq_S, omap_app. simpl.
  rewrite lookup_app_r, Nat.sub_diag by done. simpl. f_equal.
  rewrite <- IH at 2. apply omap_ext_in.
  intros i Hi%elem_of_seq. apply lookup_app_l. lia.
Qed.

Lemma omap_lookup_Permutation {A B} (f : A → B) (l : list A) order :
  order ≡ₚ seq 0 (length l) → omap (λ i, f <$> l !! i) order ≡ₚ f <$> l.
Proof.
  intros ->. pose proof (omap_lookup_seq (f <$> l)) as Hl. rewrite length_fmap in Hl.
  rewrite (omap_ext_in (λ i, f <$> l !! i) (λ i, (f <$> l) !! i)); [by rewrite Hl|].
  intros i _. by rewrite list_lookup_fmap.
Qed.
End engine.

Section engine_claims.
Context `{Float V}.

Lemma named_tasks_keys ga updates_only (items : list (string * tspec V)) :
  (prod_map id (transform_task ga updates_only) <$> items).*1 = od_keys items.
Proof.
  unfold od_keys. rewrite <- list_fmap_compose. apply list_fmap_ext. by intros _ [??] _.
Qed.

Lemma completion_valid (pool : ThreadPool) t n : Forall (λ i, i < n) (completion t n).
Proof.
  rewrite (completion_perm t n). apply Forall_forall. intros i Hi%elem_of_seq. lia.
Qed.

Lemma submit_all_length ga updates_only (items : list (string * tspec V)) :
  length (submit_all ga updates_only items) = length items.
Proof. unfold submit_all. apply length_imap. Qed.

Lemma _apply_multithreaded_transforms_gather (pool : ThreadPool) (self : TimeSeries V)
    updates_only :
  (_apply_multithreaded_transforms updates_only self).1 =
  gather_results (completed_tasks pool self updates_only) [].
Proof.
  unfold _apply_multithreaded_transforms, completed_tasks. simpl.
  rewrite submit_all_length. apply collect_results_gather, completion_valid.
Qed.

Lemma completed_tasks_Permutation (pool : ThreadPool) (self : TimeSeries V) updates_only :
  completed_tasks pool self updates_only ≡ₚ
  prod_map id (transform_task (ga_load (heap self) (ga self)) updates_only)
    <$> transforms self.
Proof. apply omap_lookup_Permutation, completion_perm. Qed.

(** C2.  On the same object, hence the same registry and the same
    grouped array, the sequential and the multithreaded application of
    the transforms either both raise or both return, and then return
    the same mapping: every feature name is bound to the same buffer in
    both results and the two have the same keys, whatever the order in
    which the futures complete. *)
Theorem sequential_parallel_agree (pool : ThreadPool) (self : TimeSeries V)
    (updates_only : bool) :
  NoDup (od_keys (transforms self)) →
  match (_apply_transforms updates_only self).1,
        (@_apply_multithreaded_transforms V _ pool updates_only self).1 with
  | Ok sequential, Ok parallel =>
      (∀ name, od_get name parallel = od_get name sequential) ∧
      od_keys parallel ≡ₚ od_keys sequential
  | Raise _, Raise _ => True
  | _, _ => False
  end.
Proof.
  intros Hnd. rewrite _apply_multithreaded_transforms_gather.
  unfold _apply_transforms. simpl. rewrite _apply_transforms_loop_gather.
  pose proof (completed_tasks_Permutation pool self updates_only) as Hp.
  set (ga := ga_load (heap self) (ga self)) in *.
  set (tasks := prod_map id (transform_task ga updates_only) <$> transforms self) in *.
  set (tasks' := completed_tasks pool self updates_only) in *.
  assert (NoDup tasks.*1) as Hnd1 by (subst tasks; by rewrite named_tasks_keys).
  assert (NoDup tasks'.*1) as Hnd2 by (by rewrite Hp).
  destruct (gather_results tasks []) as [s|e] eqn:Hs;
    destruct (gather_results tasks' []) as [p|e'] eqn:Hpar; [|exfalso..|done].
  - split.
    + intros name. apply option_eq. intros v.
      rewrite (gather_results_get _ _ _ name v Hnd1 Hs).
      rewrite (gather_results_get _ _ _ name v Hnd2 Hpar).
      rewrite !list_elem_of_In. by rewrite Hp.
    + rewrite (gather_results_keys tasks [] s Hnd1 (λ k _, not_elem_of_nil k) Hs).
      rewrite (gather_results_keys tasks' [] p Hnd2 (λ k _, not_elem_of_nil k) Hpar).
      simpl. by rewrite Hp.
  - assert (Forall (λ t, is_Ok t.2 = true) tasks') as Hall
      by (rewrite Hp; apply (gather_results_Ok tasks []); by eexists).
    apply (gather_results_Ok tasks' []) in Hall as [r Hr]. congruence.
  - assert (Forall (λ t, is_Ok t.2 = true) tasks) as Hall
      by (rewrite <- Hp; apply (gather_results_Ok tasks' []); by eexists).
    apply (gather_results_Ok tasks []) in Hall as [r Hr]. congruence.
Qed.
End engine_claims.

(** C2 on two lags and a pool whose futures complete in reverse order. *)
Lemma sequential_parallel_agree_witness :
  match (_apply_transforms false demo_two_lags).1,
        (@_apply_multithreaded_transforms _ _ pool_reversed false demo_two_lags).1 with
  | Ok sequential, Ok parallel =>
      (∀ name, od_get name parallel = od_get name sequential) ∧
      od_keys parallel ≡ₚ od_keys sequential
  | Raise _, Raise _ => True
  | _, _ => False
  end.
Proof.
  apply (sequential_parallel_agree pool_reversed demo_two_lags false).
  apply (bool_decide_unpack _). vm_compute. exact I.
Defined.

(** ** GroupedArray: arrays built from groups *)

Section of_groups.
Context {V : Type}.
Implicit Types (gs : list (list V)) (pre g : list V).

Lemma offsets_length start sizes : length (offsets start sizes) = S (length sizes).
Proof. revert start. induction sizes as [|n sizes IH]; intros start; simpl; [done|by rewrite IH]. Qed.

Lemma offsets_head start sizes : offsets start sizes !!! 0 = start.
Proof. by destruct sizes. Qed.

Lemma n_groups_of_groups gs : n_groups (ga_of_groups gs) = length gs.
Proof. unfold n_groups. simpl. rewrite offsets_length, length_fmap. lia. Qed.

Lemma slices_of_groups pre gs :
  let ip := offsets (length pre) (length <$> gs) in
  (λ i, py_slice (pre ++ concat gs) (ip !!! i) (ip !!! (i + 1))) <$> seq 0 (length gs) = gs.
Proof.
  revert pre. induction gs as [|g gs IH]; intros pre; [done|].
  cbv zeta. csimpl. f_equal.
  - rewrite offsets_head. unfold py_slice.
    replace (length pre + length g - length pre) with (length g) by lia.
    by rewrite drop_app_length, take_app_length.
  - rewrite <- fmap_S_seq, <- list_fmap_compose.
    specialize (IH (pre ++ g)). cbv zeta in IH. rewrite length_app, <- app_assoc in IH.
    rewrite <- IH at 2. apply list_fmap_ext. intros _ i _. simpl. done.
Qed.

Lemma ga_groups_of_groups gs : ga_groups (ga_of_groups gs) = gs.
Proof.
  unfold ga_groups. rewrite n_groups_of_groups. unfold ga_slice. simpl.
  apply (slices_of_groups [] gs).
Qed.

Lemma ga_append_groups (ga : GroupedArray V) values ga' :
  ga_append ga values = Ok ga' →
  length values = n_groups ga ∧
  ga_groups ga' = zip_with (λ g v, g ++ [v]) (ga_groups ga) values.
Proof.
  unfold ga_append. destruct (decide (length values = n_groups ga)) as [Hl|]; [|done].
  intros [= <-]. split; [done|apply ga_groups_of_groups].
Qed.

Lemma ga_load_alloc (h : list (ndarray V)) (g : GroupedArray V) :
  ga_load (ga_alloc h g).1 (ga_alloc h g).2 = g.
Proof.
  unfold ga_load, ga_alloc. simpl.
  rewrite lookup_app_r, Nat.sub_diag by done. simpl.
  rewrite lookup_app_r by lia. replace (S (length h) - length h) with 1 by lia.
  by destruct g.
Qed.

(** Allocation leaves the arrays that exist where they are. *)
Lemma ga_alloc_lookup (h : list (ndarray V)) (g : GroupedArray V) l :
  l < length h → (ga_alloc h g).1 !! l = h !! l.
Proof. intros Hl. unfold ga_alloc. simpl. by rewrite lookup_app_l. Qed.
End of_groups.

Section failure.
Context `{Float V}.

Lemma omap_lookup_total {A B} (g : A → option B) (l : list A) k :
  Forall (λ a, is_Some (g a)) l → omap g l !! k = l !! k ≫= g.
Proof.
  revert k. induction l as [|a l IH]; intros k Hall; [done|].
  apply Forall_cons in Hall as [[b Hb] Hall]. csimpl. rewrite Hb.
  destruct k as [|k]; simpl; [done|by apply IH].
Qed.

Lemma completed_tasks_lookup (pool : ThreadPool) (self : TimeSeries V) updates_only k :
  completed_tasks pool self updates_only !! k =
  completion (pool_runs self) (length (transforms self)) !! k ≫= λ i,
    prod_map id (transform_task (ga_load (heap self) (ga self)) updates_only)
      <$> transforms self !! i.
Proof.
  unfold completed_tasks. apply omap_lookup_total.
  eapply Forall_impl; [apply completion_valid|]. intros i Hi. simpl in Hi.
  destruct (lookup_lt_is_Some_2 (transforms self) i Hi) as [x ->]. by eexists.
Qed.

(** C7, as the code has it.  When some transform raises, the
    multithreaded application raises too and returns no results: its
    exception is, unchanged, the one raised by the transform of the
    first future in completion order that failed.  It carries what the
    transform put in it and nothing that names the feature. *)
Theorem multithreaded_failure_amended (pool : ThreadPool) (self : TimeSeries V)
    (updates_only : bool) :
  let ga := ga_load (heap self) (ga self) in
  let order := completion (pool_runs self) (length (transforms self)) in
  (∃ name spec, (name, spec) ∈ transforms self ∧
                is_Ok (transform_task ga updates_only spec) = false) →
  ∃ e k i name spec,
    (@_apply_multithreaded_transforms V _ pool updates_only self).1 = Raise e ∧
    order !! k = Some i ∧
    transforms self !! i = Some (name, spec) ∧
    transform_task ga updates_only spec = Raise e ∧
    ∀ k' i' name' spec',
      k' < k → order !! k' = Some i' → transforms self !! i' = Some (name', spec') →
      is_Ok (transform_task ga updates_only spec') = true.
Proof.
  intros ga order (name & spec & Hin & Hfail).
  rewrite _apply_multithreaded_transforms_gather.
  pose proof (completed_tasks_Permutation pool self updates_only) as Hp.
  fold ga in Hp.
  destruct (gather_results (completed_tasks pool self updates_only) []) as [r|e] eqn:Hr.
  - exfalso.
    assert (Forall (λ t, is_Ok t.2 = true) (completed_tasks pool self updates_only)) as Hall
      by (apply (gather_results_Ok _ []); by eexists).
    rewrite Hp in Hall. rewrite Forall_forall in Hall.
    specialize (Hall (name, transform_task ga updates_only spec)). simpl in Hall.
    rewrite Hall in Hfail; [done|]. apply list_elem_of_fmap. by exists (name, spec).
  - apply gather_results_Raise in Hr as (pre & n & post & Heq & Hpre).
    assert (completed_tasks pool self updates_only !! length pre = Some (n, Raise e)) as Hk.
    { rewrite Heq. by apply list_lookup_middle. }
    rewrite completed_tasks_lookup in Hk. fold ga order in Hk.
    destruct (order !! length pre) as [i|] eqn:Hi; [|done]. simpl in Hk.
    destruct (transforms self !! i) as [[n' spec']|] eqn:Hspec; [|done].
    injection Hk as -> Hk.
    exists e, (length pre), i, n, spec'. split_and!; [done..|].
    intros k' i' name' spec'' Hlt Hi' Hs'.
    assert (completed_tasks pool self updates_only !! k' =
            Some (name', transform_task ga updates_only spec'')) as Hk'.
    { rewrite completed_tasks_lookup. fold ga order. rewrite Hi'. simpl. by rewrite Hs'. }
    rewrite Heq, lookup_app_l in Hk' by done.
    rewrite Forall_forall in Hpre. apply (Hpre (name', _)).
    by eapply list_elem_of_lookup_2.
Qed.
End failure.

(** C7 on an object whose first transform raises, with a pool whose
    futures complete in reverse order. *)
Lemma multithreaded_failure_amended_witness :
  let self := demo_first_fails in
  let ga := ga_load (heap self) (ga self) in
  let order := @completion pool_reversed (pool_runs self) (length (transforms self)) in
  ∃ e k i name spec,
    (@_apply_multithreaded_transforms _ _ pool_reversed false self).1 = Raise e ∧
    order !! k = Some i ∧
    transforms self !! i = Some (name, spec) ∧
    transform_task ga false spec = Raise e ∧
    ∀ k' i' name' spec',
      k' < k → order !! k' = Some i' → transforms self !! i' = Some (name', spec') →
      is_Ok (transform_task ga false spec') = true.
Proof.
  apply (multithreaded_failure_amended pool_reversed demo_first_fails false).
  exists "boom_lag1", (TSpec 1 boom []). split; [|reflexivity].
  apply list_elem_of_In. left. reflexivity.
Defined.

(** C7, as stated, fails: no reading of the reported error gives the name
    of a failing feature.  Two objects whose failing features have
    different names report the same error. *)
Lemma multithreaded_failure_counterexample :
  ¬ ∃ name_of : exn → string,
      ∀ (pool : ThreadPool) (self : TimeSeries (option Z)) e,
        (@_apply_multithreaded_transforms _ _ pool false self).1 = Raise e →
        ∃ spec, (name_of e, spec) ∈ transforms self ∧
                transform_task (ga_load (heap self) (ga self)) false spec = Raise e.
Proof.
  intros [name_of Hname].
  destruct (Hname pool_in_order demo_first_fails (ValueError "boom") eq_refl)
    as (spec1 & Hin1 & Hr1).
  destruct (Hname pool_in_order demo_second_fails (ValueError "boom") eq_refl)
    as (spec2 & Hin2 & Hr2).
  change (transforms demo_first_fails)
    with [("boom_lag1", TSpec 1 boom []); ("fine_lag2", TSpec 2 (@fine) [])] in Hin1.
  change (transforms demo_second_fails)
    with [("fine_lag1", TSpec 1 (@fine) []); ("boom_lag2", TSpec 2 boom [])] in Hin2.
  apply elem_of_cons in Hin1 as [Heq1|Hin1]; [|apply list_elem_of_singleton in Hin1 as Heq1].
  - apply elem_of_cons in Hin2 as [Heq2|Hin2]; [|apply list_elem_of_singleton in Hin2 as Heq2].
    + injection Heq2 as _ ->. vm_compute in Hr2. discriminate.
    + injection Heq1 as Hn1 _. injection Heq2 as Hn2 _. congruence.
  - injection Heq1 as _ ->. vm_compute in Hr1. discriminate.
Qed.

Section updates_only.
Context `{Float V}.

Lemma transform_groups_updates_length lag (tfm : Callable V) args gs v :
  transform_groups true lag tfm args gs = Ok v → length v = length gs.
Proof.
  revert v. induction gs as [|g gs IH]; intros v; simpl.
  - by intros [= <-].
  - destruct (call tfm _ args) as [out|]; [|done]. simpl.
    destruct (transform_groups true lag tfm args gs) as [outs|]; [|done]. simpl.
    intros [= <-]. simpl. f_equal. by apply IH.
Qed.

Lemma shift_array_0 (x : list V) : shift_array 0 x = x.
Proof. unfold shift_array. simpl. by rewrite Nat.sub_0_r, firstn_all. Qed.

(** The newest value of every group by way of the identity at lag 0. *)
Lemma transform_groups_appended (gs : list (list V)) values :
  length values = length gs →
  transform_groups true 0 identity_tfm [] (zip_with (λ g v, g ++ [v]) gs values) = Ok values.
Proof.
  revert values. induction gs as [|g gs IH]; intros [|v values] Hlen; try done.
  simpl. rewrite shift_array_0. unfold _identity. rewrite last_snoc. simpl.
  rewrite IH by (simpl in Hlen; lia). done.
Qed.

Lemma _update_y_appends (values : list V) (self self' : TimeSeries V) :
  _update_y values self = (Ok (), self') →
  ga_append (ga_load (heap self) (ga self)) values = Ok (ga_load (heap self') (ga self')) ∧
  transforms self' = transforms self.
Proof.
  unfold _update_y, bindM, getM, modifyM, liftM, new_grouped_array. simpl.
  destruct (ga_append _ values) as [g|e] eqn:Hg; simpl; [|done].
  intros [= <-]. simpl. split; [|done]. f_equal.
  symmetry. apply (ga_load_alloc (heap self) g).
Qed.

Lemma applied_get (pool : ThreadPool) (self : TimeSeries V) updates_only name spec r :
  NoDup (od_keys (transforms self)) →
  od_get name (transforms self) = Some spec →
  (_apply_transforms updates_only self).1 = Ok r ∨
  (@_apply_multithreaded_transforms V _ pool updates_only self).1 = Ok r →
  ∃ v, transform_task (ga_load (heap self) (ga self)) updates_only spec = Ok v ∧
       od_get name r = Some v.
Proof.
  intros Hnd Hspec Hr.
  set (ga := ga_load (heap self) (ga self)).
  set (tasks := prod_map id (transform_task ga updates_only) <$> transforms self).
  assert (NoDup tasks.*1) as Hnd1 by (subst tasks; by rewrite named_tasks_keys).
  assert ((name, transform_task ga updates_only spec) ∈ tasks) as Hin.
  { apply list_elem_of_fmap. exists (name, spec). split; [done|by apply od_get_Some_in]. }
  assert (∃ tasks', tasks' ≡ₚ tasks ∧ gather_results tasks' [] = Ok r) as (tasks' & Hp & Hg).
  { destruct Hr as [Hr|Hr].
    - exists tasks. split; [done|]. unfold _apply_transforms in Hr. simpl in Hr.
      by rewrite _apply_transforms_loop_gather in Hr.
    - exists (completed_tasks pool self updates_only).
      split; [apply completed_tasks_Permutation|].
      by rewrite _apply_multithreaded_transforms_gather in Hr. }
  assert (Forall (λ t, is_Ok t.2 = true) tasks') as Hall
    by (apply (gather_results_Ok _ []); by eexists).
  rewrite Hp, Forall_forall in Hall. specialize (Hall _ Hin). simpl in Hall.
  destruct (transform_task ga updates_only spec) as [v|] eqn:Hv; [|done].
  exists v. split; [done|].
  apply (gather_results_get tasks' [] r name v); [by rewrite Hp|done|].
  left. by rewrite Hp.
Qed.

(** C5.  For every registered transform with lag [L], the sequential
    and the multithreaded application both bind its name, in
    updates-only mode, to what the grouped array's transform gives for
    lag [L - 1], which is one value per group, and in full-history mode
    to what it gives for lag [L].  Hence, once [_update_y] has appended
    [values], the updates-only feature of the identity at lag 1 is
    [values]. *)
Theorem updates_only_lag (pool : ThreadPool) (self : TimeSeries V) :
  NoDup (od_keys (transforms self)) →
  let arr := ga_load (heap self) (ga self) in
  (∀ name spec r,
     od_get name (transforms self) = Some spec →
     (_apply_transforms true self).1 = Ok r ∨
     (@_apply_multithreaded_transforms V _ pool true self).1 = Ok r →
     ∃ v, transform_series arr true (ts_lag spec - 1) (ts_tfm spec) (ts_args spec) = Ok v ∧
          od_get name r = Some v ∧ length v = n_groups arr) ∧
  (∀ name spec r,
     od_get name (transforms self) = Some spec →
     (_apply_transforms false self).1 = Ok r ∨
     (@_apply_multithreaded_transforms V _ pool false self).1 = Ok r →
     ∃ v, transform_series arr false (ts_lag spec) (ts_tfm spec) (ts_args spec) = Ok v ∧
          od_get name r = Some v) ∧
  (∀ name values self',
     od_get name (transforms self) = Some (TSpec 1 identity_tfm []) →
     _update_y values self = (Ok (), self') →
     transform_series (ga_load (heap self') (ga self')) true (1 - 1) identity_tfm []
       = Ok values ∧
     ∀ r, (_apply_transforms true self').1 = Ok r ∨
          (@_apply_multithreaded_transforms V _ pool true self').1 = Ok r →
          od_get name r = Some values).
Proof.
  intros Hnd arr. split_and!.
  - intros name spec r Hspec Hr.
    destruct (applied_get pool self true name spec r Hnd Hspec Hr) as (v & Hv & Hget).
    exists v. split_and!; [done..|].
    unfold transform_task, transform_series in Hv.
    apply transform_groups_updates_length in Hv. by rewrite ga_groups_length in Hv.
  - intros name spec r Hspec Hr.
    destruct (applied_get pool self false name spec r Hnd Hspec Hr) as (v & Hv & Hget).
    exists v. split; [|done]. unfold transform_task in Hv. simpl in Hv.
    by rewrite Z.sub_0_r in Hv.
  - intros name values self' Hspec Hup.
    apply _update_y_appends in Hup as [Happ Htr].
    apply ga_append_groups in Happ as [Hlen Hgs].
    assert (transform_series (ga_load (heap self') (ga self')) true (1 - 1)
                             identity_tfm [] = Ok values) as Hv.
    { unfold transform_series. rewrite Hgs. apply transform_groups_appended.
      by rewrite ga_groups_length. }
    split; [done|]. intros r Hr.
    destruct (applied_get pool self' true name (TSpec 1 identity_tfm []) r)
      as (v & Hv' & Hget); [by rewrite Htr..|done|].
    unfold transform_task in Hv'. simpl in Hv'. rewrite Hv in Hv'. congruence.
Qed.
End updates_only.

(** C5 on two lags: after appending 5 to A and 40 to B, the updates-only
    feature [lag1] is 5 and 40, and [lag2] the values before, from a pool
    whose futures complete in reverse order as well. *)
Lemma updates_only_lag_witness :
  ∃ self' r,
    _update_y [Some 5%Z; Some 40%Z] demo_two_lags = (Ok (), self') ∧
    (@_apply_multithreaded_transforms _ _ pool_reversed true self').1 = Ok r ∧
    od_get "lag1" r = Some [Some 5%Z; Some 40%Z] ∧
    od_get "lag2" r = Some [Some 4%Z; Some 30%Z].
Proof.
  eexists _, _. split; [reflexivity|]. split; [reflexivity|]. split.
  - refine (proj2 (proj2 (proj2 (updates_only_lag pool_reversed demo_two_lags _))
                     "lag1" [Some 5%Z; Some 40%Z] _ eq_refl eq_refl) _ (or_intror eq_refl)).
    apply (bool_decide_unpack _). vm_compute. exact I.
  - reflexivity.
Defined.

(** ** What a method leaves alone *)

Section frame.
Context {V : Type} (R : relation (TimeSeries V)) `{!PreOrder R}.

Lemma preserves_ret {A} (a : A) : preserves R (retM a).
Proof. intros self. reflexivity. Qed.

Lemma preserves_raise {A} e : preserves R (@raiseM V A e).
Proof. intros self. reflexivity. Qed.

Lemma preserves_lift {A} (r : res A) : preserves R (liftM r).
Proof. intros self. reflexivity. Qed.

Lemma preserves_get {A} (f : TimeSeries V → A) : preserves R (getM f).
Proof. intros self. reflexivity. Qed.

Lemma preserves_attr {A} name (f : TimeSeries V → option A) : preserves R (attr name f).
Proof. intros self. unfold attr. destruct (f self); reflexivity. Qed.

Lemma preserves_modify (f : TimeSeries V → TimeSeries V) :
  (∀ self, R self (f self)) → preserves R (modifyM f).
Proof. intros Hf self. apply Hf. Qed.

Lemma preserves_bind {A B} (m : M V A) (k : A → M V B) :
  preserves R m → (∀ a, preserves R (k a)) → preserves R (bindM m k).
Proof.
  intros Hm Hk self. unfold bindM. specialize (Hm self).
  destruct (m self) as [[a|e] self']; simpl in *; [|done].
  etrans; [exact Hm|apply Hk].
Qed.

Lemma preserves_forM {A} (xs : list A) (body : A → M V ()) :
  (∀ x, preserves R (body x)) → preserves R (forM xs body).
Proof.
  intros Hb. induction xs as [|x xs IH]; simpl.
  - apply preserves_ret.
  - apply preserves_bind; [apply Hb|intros _; apply IH].
Qed.

Lemma preserves_repeatM n (body : M V ()) :
  preserves R body → preserves R (repeatM n body).
Proof.
  intros Hb. induction n as [|n IH]; simpl.
  - apply preserves_ret.
  - apply preserves_bind; [apply Hb|intros _; apply IH].
Qed.

Lemma preserves_fun {A} (m : M V A) :
  (∀ self, R self (m self).2) → preserves R m.
Proof. done. Qed.
End frame.

#[global] Instance same_freq_preorder {V} : PreOrder (@same_freq V).
Proof. split; [by intros ?|]. intros x y z. unfold same_freq. congruence. Qed.

#[global] Instance same_ground_truth_preorder {V} : PreOrder (@same_ground_truth V).
Proof.
  split; [by intros ?|]. intros x y z [H1 P1] [H2 P2]. split; [congruence|by etrans].
Qed.

(** One step of a proof that a method preserves a relation: through the
    monad, through the case distinctions of the method, and by the
    lemmas of the hint database for the methods it calls. *)
Create HintDb preserves discriminated.

Ltac preserves_leaf :=
  unfold same_freq, more_warnings, same_setup, same_ground_truth, same_arrays; simpl;
  first [done | reflexivity | repeat split; first [done | reflexivity]].

Ltac preserves_step :=
  lazymatch goal with
  | |- PreOrder _ => typeclasses eauto
  | |- preserves _ (bindM _ _) => apply preserves_bind; [| |intros ?]
  | |- preserves _ (retM _) => apply preserves_ret
  | |- preserves _ (raiseM _) => apply preserves_raise
  | |- preserves _ (liftM _) => apply preserves_lift
  | |- preserves _ (getM _) => apply preserves_get
  | |- preserves _ (attr _ _) => apply preserves_attr
  | |- preserves _ (repeatM _ _) => apply preserves_repeatM
  | |- preserves _ (forM _ _) => apply preserves_forM; [|intros ?]
  | |- preserves _ (match ?x with _ => _ end) => destruct x
  | |- preserves _ (modifyM _) => apply preserves_modify; intros ?; preserves_leaf
  | |- preserves _ (warn _) => apply preserves_modify; intros ?; preserves_leaf
  | |- _ => solve [eauto with preserves]
  end.

Ltac preserves_tac := repeat preserves_step.

(** ** Fitting: the time column and the frequency *)

Section fit_freq.
Context `{Float V} `{Extern V}.

Lemma new_grouped_array_same_freq (g : GroupedArray V) :
  preserves same_freq (new_grouped_array g).
Proof. by intros self. Qed.

Lemma _fit_store_same_freq df id_col time_col target_col static_features keep_last_n :
  preserves same_freq
    (_fit_store df id_col time_col target_col static_features keep_last_n).
Proof.
  pose proof new_grouped_array_same_freq.
  unfold _fit_store. preserves_tac.
Qed.
End fit_freq.

#[global] Instance more_warnings_preorder {V} : PreOrder (@more_warnings V).
Proof.
  split; [intros ?; unfold more_warnings; reflexivity|].
  intros x y z. unfold more_warnings. by etrans.
Qed.

Section fit_claims.
Context `{Float V} `{Extern V}.

Lemma _fit_store_more_warnings df id_col time_col target_col static_features keep_last_n :
  preserves more_warnings
    (_fit_store df id_col time_col target_col static_features keep_last_n).
Proof.
  assert (∀ g : GroupedArray V, preserves more_warnings (new_grouped_array g))
    by (intros g self; unfold more_warnings; simpl; reflexivity).
  unfold _fit_store. preserves_tac.
Qed.

(** C9.  When the time column is not a datetime column, as an integer
    column is not, and the configured frequency is not 1, the frequency
    check of [_fit] does not raise: it issues the warning and sets the
    frequency to 1, and [_fit] goes on from there with the rest of its
    work; the frequency is still 1 and the warning still recorded when
    [_fit] is over, however it ends.  The check raises only for a
    datetime column, when the frequency is 1, and then with the error
    that asks for a frequency. *)
Theorem fit_integer_time_column (df : Frame V) (id_col time_col target_col : string)
    (static_features : option (list string)) (keep_last_n : option Z)
    (self : TimeSeries V) (target_column time_column : Column V) :
  validate_format df id_col time_col target_col = Ok () →
  frame_get target_col df = Ok target_column →
  existsb id (col_isnull target_column) = false →
  frame_get time_col df = Ok time_column →
  is_datetime64_dtype time_column = false →
  freq_is_one (freq self) = false →
  let msg := "Setting `freq=1` since time col is int." in
  let warned := set_freq (FreqInt 1) (set_warnings (warnings self ++ [msg]) self) in
  let fitted := (_fit df id_col time_col target_col static_features keep_last_n self).2 in
  _fit_check_freq time_column self = (Ok (), warned) ∧
  _fit df id_col time_col target_col static_features keep_last_n self =
    _fit_store df id_col time_col target_col static_features keep_last_n warned ∧
  freq fitted = FreqInt 1 ∧
  msg ∈ warnings fitted ∧
  (∀ (c : Column V) (s : TimeSeries V) e,
     (_fit_check_freq c s).1 = Raise e ↔
     is_datetime64_dtype c = true ∧ freq_is_one (freq s) = true ∧
     e = ValueError "Must set frequency when using a timestamp type column.").
Proof.
  intros Hval Htarget Hnull Htime Hdt Hfreq msg warned fitted.
  assert (Hcheck : _fit_check_freq time_column self = (Ok (), warned)).
  { unfold _fit_check_freq, bindM, getM. simpl. by rewrite Hdt, Hfreq. }
  assert (Hfit : _fit df id_col time_col target_col static_features keep_last_n self =
                 _fit_store df id_col time_col target_col static_features keep_last_n warned).
  { unfold _fit, bindM at 1 2 3 4, liftM. rewrite Hval, Htarget, Hnull, Htime.
    by rewrite Hcheck. }
  split_and!; [done..| | |].
  - subst fitted. rewrite Hfit. apply _fit_store_same_freq.
  - subst fitted. rewrite Hfit.
    pose proof (_fit_store_more_warnings df id_col time_col target_col static_features
                  keep_last_n warned) as Hw.
    eapply elem_of_prefix; [|exact Hw]. simpl. apply elem_of_app. right. by left.
  - intros c s e. unfold _fit_check_freq, bindM, getM. simpl.
    destruct (is_datetime64_dtype c), (freq_is_one (freq s)); simpl; split;
      try done; try (by intros (? & ? & ?)).
    + intros [= <-]. done.
    + by intros (_ & _ & ->).
Qed.
End fit_claims.

(** C9 on the two series with integer times and an object configured
    with the offset [D]. *)
Lemma fit_integer_time_column_witness :
  let self := new_TimeSeries (Some (FreqOffset "D")) (Some [1%Z]) None 1 in
  let fitted := (_fit demo_df "unique_id" "ds" "y" None None self).2 in
  (_fit demo_df "unique_id" "ds" "y" None None self).1 = Ok () ∧
  freq fitted = FreqInt 1 ∧
  warnings fitted = ["Setting `freq=1` since time col is int."].
Proof.
  intros self fitted.
  pose proof (fit_integer_time_column demo_df "unique_id" "ds" "y" None None self
                (ColFloat (Some <$> [1; 2; 3; 4; 10; 20; 30]%Z))
                (ColInt [1; 2; 3; 4; 1; 2; 3]%Z)
                eq_refl eq_refl eq_refl eq_refl eq_refl eq_refl)
    as (_ & _ & Hfreq & _ & _).
  split; [reflexivity|]. split; [exact Hfreq|reflexivity].
Defined.

(** ** The rows that [_transform] keeps *)

Lemma bindM_Ok {V A B} (m : M V A) (k : A → M V B) self b self' :
  bindM m k self = (Ok b, self') ↔
  ∃ a self1, m self = (Ok a, self1) ∧ k a self1 = (Ok b, self').
Proof.
  unfold bindM. destruct (m self) as [[a|e] self1]; split.
  - intros Hk. by exists a, self1.
  - by intros (? & ? & [= <- <-] & ?).
  - done.
  - by intros (? & ? & [= ] & ?).
Qed.

Lemma liftM_Ok {V A} (r : res A) (self self' : TimeSeries V) a :
  liftM r self = (Ok a, self') ↔ r = Ok a ∧ self' = self.
Proof. unfold liftM. split; [by intros [= -> ->]|by intros [-> ->]]. Qed.

Lemma getM_Ok {V A} (f : TimeSeries V → A) (self self' : TimeSeries V) a :
  getM f self = (Ok a, self') ↔ a = f self ∧ self' = self.
Proof. unfold getM. split; [by intros [= -> ->]|by intros [-> ->]]. Qed.

Lemma modifyM_Ok {V} (f : TimeSeries V → TimeSeries V) (self self' : TimeSeries V) u :
  modifyM f self = (Ok u, self') ↔ self' = f self.
Proof. unfold modifyM. destruct u. split; [by intros [= ->]|by intros ->]. Qed.

Lemma retM_Ok {V A} (a b : A) (self self' : TimeSeries V) :
  retM a self = (Ok b, self') ↔ b = a ∧ self' = self.
Proof. unfold retM. split; [by intros [= -> ->]|by intros [-> ->]]. Qed.

Lemma res_bind_Ok {A B} (r : res A) (k : A → res B) b :
  res_bind r k = Ok b ↔ ∃ a, r = Ok a ∧ k a = Ok b.
Proof.
  destruct r as [a|e]; simpl; split; [by exists a|by intros (? & [= <-] & ?)|done|].
  by intros (? & [=] & _).
Qed.

Section np_facts.
Context {A : Type}.

Lemma np_take_length (x : list A) idxs out :
  np_take x idxs = Ok out → length out = length idxs.
Proof.
  revert out. induction idxs as [|i idxs IH]; intros out; simpl.
  - by intros [= <-].
  - destruct (x !! i); [|done]. destruct (np_take x idxs); [|done]. simpl.
    intros [= <-]. simpl. f_equal. by apply IH.
Qed.

Lemma np_take_int_length (x : list A) idxs out :
  np_take_int x idxs = Ok out → length out = length idxs.
Proof.
  revert out. induction idxs as [|i idxs IH]; intros out; simpl.
  - by intros [= <-].
  - destruct (np_position (length x) i ≫= (x !!.)); [|done].
    destruct (np_take_int x idxs); [|done]. simpl.
    intros [= <-]. simpl. f_equal. by apply IH.
Qed.

Lemma forallb_Forall (f : A → bool) (l : list A) :
  forallb f l = true ↔ Forall (λ a, f a = true) l.
Proof.
  induction l as [|a l IH]; simpl; [split; [constructor|done]|].
  rewrite andb_true_iff, Forall_cons, IH. done.
Qed.

Lemma np_mask_length (mask : list bool) (x : list A) :
  length mask = length x → length (np_mask mask x) = length (filter (λ b, b = true) mask).
Proof.
  revert x. induction mask as [|b mask IH]; intros [|a x] Hl; try done.
  simpl in Hl. destruct b.
  - rewrite filter_cons_True by done. simpl. f_equal. apply IH. lia.
  - rewrite filter_cons_False by done. simpl. apply IH. lia.
Qed.
End np_facts.

Section kept.
Context {A : Type}.

Lemma np_mask_kept_rows (mask : list bool) (x : list A) : np_mask mask x = kept_rows mask x.
Proof.
  unfold kept_rows. revert x. induction mask as [|b mask IH]; intros [|a x]; try done.
  simpl. destruct b.
  - rewrite filter_cons_True by done. csimpl. by rewrite IH.
  - rewrite filter_cons_False by done. apply IH.
Qed.
End kept.

Lemma col_map_np_mask {V} (mask : list bool) (c : Column V) :
  col_map (λ B, np_mask mask) c = col_kept mask c.
Proof. destruct c; simpl; by rewrite np_mask_kept_rows. Qed.

Lemma frame_mask_kept {V} (mask : list bool) (df : Frame V) :
  length mask = nrows df →
  frame_mask mask df = Ok {| nrows := length (filter (λ b, b = true) mask);
                             cols := prod_map id (col_kept mask) <$> cols df |}.
Proof.
  intros Hlen. unfold frame_mask. rewrite decide_True by done. do 2 f_equal.
  apply list_fmap_ext. intros i [k c] _. simpl. by rewrite col_map_np_mask.
Qed.

Lemma kept_rows_length {A} (mask : list bool) (x : list A) :
  length mask = length x →
  length (kept_rows mask x) = length (filter (λ b, b = true) mask).
Proof. intros Hlen. rewrite <- np_mask_kept_rows. by apply np_mask_length. Qed.

Lemma kept_rows_all {A} (mask : list bool) (x : list A) :
  length mask = length x → Forall (λ b, b = true) mask → kept_rows mask x = x.
Proof.
  rewrite <- np_mask_kept_rows. revert x.
  induction mask as [|b mask IH]; intros [|a x] Hlen Hall; try done.
  apply Forall_cons in Hall as [-> Hall]. simpl. f_equal. apply IH; [|done].
  simpl in Hlen. lia.
Qed.

Section keep_rows.
Context `{Float V}.

Lemma feature_nulls_loop_spec (values : list (list V)) (acc : list bool) n :
  length acc = n → Forall (λ vals, length vals = n) values →
  ∃ out, feature_nulls_loop values acc = Ok out ∧ length out = n ∧
    ∀ i, out !! i = Some true ↔
         acc !! i = Some true ∨
         ∃ vals v, vals ∈ values ∧ vals !! i = Some v ∧ isnan v = true.
Proof.
  revert acc. induction values as [|vals values IH]; intros acc Hacc Hall; simpl.
  - exists acc. split_and!; [done..|]. intros i. split; [by left|].
    intros [?|(? & ? & ?%elem_of_nil & _)]; done.
  - apply Forall_cons in Hall as [Hvals Hall].
    unfold np_ior. rewrite decide_True by (rewrite length_fmap; lia). simpl.
    destruct (IH (zip_with orb acc (isnan <$> vals))) as (out & Hout & Hlen & Hspec);
      [by rewrite length_zip_with, length_fmap; lia|done|].
    exists out. split_and!; [done..|]. intros i. rewrite Hspec.
    rewrite lookup_zip_with, list_lookup_fmap. split.
    + intros [Hz|(vs & v & Hin & Hv & Hnan)].
      * destruct (acc !! i) as [a|] eqn:Ha; [|done]. simpl in Hz.
        destruct (vals !! i) as [v|] eqn:Hv; [|done]. simpl in Hz.
        injection Hz as Hz. apply orb_true_iff in Hz as [->|Hnan]; [by left|].
        right. exists vals, v. split_and!; [by left|done..].
      * right. exists vs, v. split_and!; [by right|done..].
    + intros [Ha|(vs & v & Hin & Hv & Hnan)].
      * left. rewrite Ha. simpl.
        destruct (lookup_lt_is_Some_2 vals i) as [v ->]; [|done].
        apply lookup_lt_Some in Ha. lia.
      * apply elem_of_cons in Hin as [->|Hin]; [|right; by exists vs, v].
        left. rewrite Hv. simpl. rewrite Hnan.
        destruct (lookup_lt_is_Some_2 acc i) as [a ->]; [|simpl; by rewrite orb_true_r].
        apply lookup_lt_Some in Hv. lia.
Qed.

Lemma target_nulls_spec (target : Target V) i :
  target_nulls target !! i = Some true ↔ target_null target i.
Proof.
  destruct target as [y|y]; simpl; rewrite list_lookup_fmap.
  - destruct (y !! i) as [v|]; simpl; [|split; [done|by intros (? & ? & _)]].
    split; [intros [= ?]; by exists v|by intros (? & [= <-] & ->)].
  - destruct (y !! i) as [row|]; simpl; [|split; [done|by intros (? & ? & _)]].
    split.
    + intros [= Hall]. exists row. split; [done|]. by apply forallb_Forall.
    + intros (? & [= <-] & Hall). f_equal. by apply forallb_Forall.
Qed.

Lemma target_nulls_length (target : Target V) :
  length (target_nulls target) = target_length target.
Proof. destruct target; simpl; apply length_fmap. Qed.

Lemma _transform_keep_rows_spec n (features : list (string * list V)) (target : Target V)
    dropna :
  Forall (λ kv, length kv.2 = n) features → target_length target = n →
  ∃ keep_rows,
    _transform_keep_rows n features target dropna = Ok keep_rows ∧
    length keep_rows = n ∧
    ∀ i, keep_rows !! i = Some false ↔
         dropna = true ∧
         ((∃ name vals v, (name, vals) ∈ features ∧ vals !! i = Some v ∧ isnan v = true)
          ∨ target_null target i).
Proof.
  intros Hfeat Htarget. unfold _transform_keep_rows. destruct dropna.
  - destruct (feature_nulls_loop_spec (od_values features) (replicate n false) n)
      as (fn & -> & Hlen & Hspec); [apply length_replicate| |].
    { unfold od_values. by apply Forall_fmap. }
    simpl. unfold np_or. rewrite decide_True by (rewrite target_nulls_length; lia). simpl.
    eexists. split_and!; [done| |].
    + rewrite length_fmap, length_zip_with, target_nulls_length. lia.
    + intros i. rewrite list_lookup_fmap, lookup_zip_with.
      pose proof (Hspec i) as Hf. pose proof (target_nulls_spec target i) as Ht.
      assert (Hrep : replicate n false !! i = Some true ↔ False).
      { split; [|done]. by intros [? _]%lookup_replicate. }
      rewrite Hrep in Hf.
      assert (Hfeatures : (∃ vals v, vals ∈ od_values features ∧ vals !! i = Some v ∧
                                     isnan v = true) ↔
                          ∃ name vals v, (name, vals) ∈ features ∧ vals !! i = Some v ∧
                                         isnan v = true).
      { unfold od_values. split.
        - intros (vals & v & ([name vals'] & -> & Hin)%list_elem_of_fmap & Hv & Hnan).
          by exists name, vals', v.
        - intros (name & vals & v & Hin & Hv & Hnan). exists vals, v. split_and!; [|done..].
          apply list_elem_of_fmap. by exists (name, vals). }
      rewrite <- Hfeatures, <- Ht.
      assert (Hf' : fn !! i = Some true ↔
                    ∃ vals v, vals ∈ od_values features ∧ vals !! i = Some v ∧
                              isnan v = true) by (rewrite Hf; tauto).
      rewrite <- Hf'. clear Hf Hf' Hfeatures Ht Hrep Hspec.
      destruct (fn !! i) as [a|] eqn:Ha, (target_nulls target !! i) as [b|] eqn:Hb; simpl.
      * destruct a, b; simpl; intuition congruence.
      * apply lookup_lt_Some in Ha. apply lookup_ge_None in Hb.
        rewrite target_nulls_length in Hb. lia.
      * apply lookup_ge_None in Ha. apply lookup_lt_Some in Hb.
        rewrite target_nulls_length in Hb. lia.
      * intuition congruence.
  - exists (replicate n true). split_and!; [done|apply length_replicate|].
    intros i. split; [by intros [? _]%lookup_replicate|by intros [? _]].
Qed.
End keep_rows.

Section dropna.
Context `{Float V} `{Extern V}.

Lemma reindexed_lengths (computed features : list (string * list V)) idxs :
  res_map (λ kv, let? v := np_take_int kv.2 idxs in Ok (kv.1, v)) computed = Ok features →
  Forall (λ kv, length kv.2 = length idxs) features.
Proof.
  revert features. induction computed as [|[k v] computed IH]; intros features; simpl.
  - intros [= <-]. constructor.
  - destruct (np_take_int v idxs) as [v'|] eqn:Hv; [|done]. simpl.
    destruct (res_map _ computed) as [rest|]; [|done]. simpl.
    intros [= <-]. constructor; [by eapply np_take_int_length|by apply IH].
Qed.

Lemma od_get_fmap {A B} (f : A → B) name (d : list (string * A)) :
  od_get name (prod_map id f <$> d) = f <$> od_get name d.
Proof.
  induction d as [|[k v] d IH]; csimpl; [done|].
  destruct (decide (k = name)); [done|apply IH].
Qed.

Lemma _compute_transforms_state (pool : ThreadPool) (self self' : TimeSeries V) r :
  @_compute_transforms V _ pool self = (r, self') →
  self' = self ∨ self' = set_pool_runs (S (pool_runs self)) self.
Proof.
  unfold _compute_transforms, bindM, getM. simpl. destruct (decide _).
  - intros [= _ <-]. by left.
  - intros [= _ <-]. by right.
Qed.

Lemma add_lag_features_spec names (features : list (string * list V)) keep_rows
    (df out : Frame V) :
  Forall (λ kv, length kv.2 = length keep_rows) features →
  nrows df = length (filter (λ b, b = true) keep_rows) →
  add_lag_features names features keep_rows df = Ok out →
  nrows out = nrows df ∧
  ∀ name, od_get name (cols out) =
          if decide (name ∈ names)
          then (λ vals, ColFloat (np_mask keep_rows vals)) <$> od_get name features
          else od_get name (cols df).
Proof.
  intros Hfeat. revert df. induction names as [|feat names IH]; intros df Hrows; simpl.
  - intros [= <-]. split; [done|]. intros name.
    by destruct (decide (name ∈ [])) as [?%elem_of_nil|].
  - destruct (od_get feat features) as [vals|] eqn:Hvals; [|done].
    assert (length vals = length keep_rows) as Hlen.
    { apply od_get_Some_in in Hvals. rewrite Forall_forall in Hfeat.
      apply (Hfeat (feat, vals) Hvals). }
    unfold np_mask_checked. rewrite decide_True by done. simpl.
    unfold frame_set. simpl. rewrite decide_True by (rewrite np_mask_length; lia). simpl.
    intros Hout. apply IH in Hout as [Hn Hget]; [|done]. simpl in *.
    split; [done|]. intros name. rewrite Hget, od_get_set.
    destruct (decide (name ∈ names)) as [Hin|Hnotin].
    + rewrite decide_True; [done|by right].
    + destruct (decide (feat = name)) as [->|Hne].
      * rewrite decide_True by (by left). by rewrite Hvals.
      * rewrite decide_False; [done|]. intros [?|?]%elem_of_cons; congruence.
Qed.

Lemma frame_set_rows (name : string) (c : Column V) (df : Frame V) :
  col_len c = nrows df →
  frame_set name c df = Ok {| nrows := nrows df; cols := od_set name c (cols df) |}.
Proof. intros Hlen. unfold frame_set. by rewrite decide_True. Qed.

Lemma frame_set_nonempty (name : string) (c : Column V) (df out : Frame V) :
  nrows df ≠ 0 → frame_set name c df = Ok out →
  out = {| nrows := nrows df; cols := od_set name c (cols df) |}.
Proof.
  unfold frame_set. intros Hn. destruct (decide (col_len c = nrows df)); [by intros [= <-]|].
  by rewrite decide_False.
Qed.

Lemma _compute_date_feature_name (dates : list Z) (feature : DateFeature V) name vals :
  _compute_date_feature dates feature = Ok (name, vals) →
  name = match feature with DFName n => n | DFCallable n _ => n end.
Proof.
  destruct feature as [n|n f]; simpl.
  - destruct (date_attr _ n dates); [|done]. simpl. by intros [= <- _].
  - destruct (f dates); [|done]. simpl. by intros [= <- _].
Qed.

(** The date features leave the other columns of a table with rows as
    they are. *)
Lemma add_date_features_spec (dates : list Z) (feats : list (DateFeature V))
    (df out : Frame V) :
  nrows df ≠ 0 →
  add_date_features dates feats df = Ok out →
  nrows out = nrows df ∧
  ∀ name, name ∉ (λ f, match f with DFName n => n | DFCallable n _ => n end) <$> feats →
          od_get name (cols out) = od_get name (cols df).
Proof.
  revert df. induction feats as [|feature feats IH]; intros df Hn; simpl.
  - by intros [= <-].
  - destruct (_compute_date_feature dates feature) as [[n vals]|] eqn:Hc; [|done]. simpl.
    apply _compute_date_feature_name in Hc as ->.
    destruct (frame_set _ vals df) as [df'|] eqn:Hset; [|done]. simpl.
    apply frame_set_nonempty in Hset as ->; [|done].
    intros Hout. apply IH in Hout as [Hrows Hget]; [|done]. simpl in *.
    split; [done|]. intros name [Hne Hnotin]%not_elem_of_cons.
    rewrite Hget by done. by apply od_get_set_ne.
Qed.

(** On a table without rows a date feature with values gives the table
    rows; otherwise the date features leave the other columns as they
    are. *)
Lemma add_date_features_rows (dates : list Z) (feats : list (DateFeature V))
    (df out : Frame V) :
  add_date_features dates feats df = Ok out →
  (nrows out = nrows df ∧
   ∀ name, name ∉ (λ f, match f with DFName n => n | DFCallable n _ => n end) <$> feats →
           od_get name (cols out) = od_get name (cols df)) ∨
  (nrows df = 0 ∧ nrows out ≠ 0).
Proof.
  destruct (decide (nrows df = 0)) as [Hzero|Hn];
    [|intros Hout; left; by apply (add_date_features_spec dates)].
  revert df Hzero. induction feats as [|feature feats IH]; intros df Hzero; simpl.
  - intros [= <-]. by left.
  - destruct (_compute_date_feature dates feature) as [[n vals]|] eqn:Hc; [|done]. simpl.
    apply _compute_date_feature_name in Hc as ->.
    destruct (frame_set _ vals df) as [df'|] eqn:Hset; [|done]. simpl.
    unfold frame_set in Hset. destruct (decide (col_len vals = nrows df)) as [Hlen|Hlen].
    + injection Hset as <-. intros Hout.
      apply IH in Hout; [|done]. simpl in Hout.
      destruct Hout as [[Hrows Hget]|[_ Hrows]]; [|by right].
      left. split; [done|]. intros name [Hne Hnotin]%not_elem_of_cons.
      rewrite Hget by done. by apply od_get_set_ne.
    + rewrite decide_True in Hset by done. injection Hset as <-. intros Hout.
      apply add_date_features_spec in Hout as [Hrows _]; simpl in *; [|lia].
      right. split; [done|]. lia.
Qed.

Lemma add_target_columns_nonempty (tc : string) (target : list (list V))
    (horizons : list nat) (df out : Frame V) :
  nrows df ≠ 0 → add_target_columns tc target horizons df = Ok out → nrows out = nrows df.
Proof.
  revert df. induction horizons as [|h horizons IH]; intros df Hn; simpl.
  - by intros [= <-].
  - destruct (frame_set _ _ df) as [df'|] eqn:Hset; [|done]. simpl.
    apply frame_set_nonempty in Hset as ->; [|done]. intros Hout.
    by apply IH in Hout.
Qed.

Lemma kept_row_exists (keep_rows : list bool) :
  length (filter (λ b, b = true) keep_rows) ≠ 0 ↔ ∃ i, keep_rows !! i = Some true.
Proof.
  split.
  - intros Hn. destruct (filter (λ b, b = true) keep_rows) as [|b l] eqn:Hf; [done|].
    assert (b ∈ filter (λ b, b = true) keep_rows) as [-> Hb]%list_elem_of_filter
      by (rewrite Hf; by left).
    by apply list_elem_of_lookup.
  - intros [i Hi] Hzero. apply length_zero_iff_nil in Hzero.
    assert (true ∈ filter (λ b, b = true) keep_rows) as Hin.
    { apply list_elem_of_filter. split; [done|]. by eapply list_elem_of_lookup_2. }
    rewrite Hzero in Hin. by apply elem_of_nil in Hin.
Qed.

(** The target columns of direct forecasting: one per horizon, the other
    columns as they are. *)
Lemma add_target_columns_spec (tc : string) (target : list (list V)) (horizons : list nat)
    (df out : Frame V) :
  length target = nrows df →
  add_target_columns tc target horizons df = Ok out →
  nrows out = nrows df ∧
  (∀ name, name ∉ (λ i, tc +:+ pretty i) <$> horizons →
           od_get name (cols out) = od_get name (cols df)) ∧
  (NoDup horizons →
   ∀ i, i ∈ horizons →
        od_get (tc +:+ pretty i) (cols out)
        = Some (ColFloat ((λ row, default nan (row !! i)) <$> target))).
Proof.
  intros Hlen. revert df Hlen.
  induction horizons as [|h horizons IH]; intros df Hlen; simpl.
  - intros [= <-]. split; [done|]. split; [done|]. by intros _ i ?%elem_of_nil.
  - rewrite frame_set_rows by (simpl; by rewrite length_fmap). simpl.
    intros Hout. apply IH in Hout as (Hrows & Hget & Hcols); [|done]. simpl in *.
    split; [done|]. split.
    + intros name [Hne Hnotin]%not_elem_of_cons. rewrite Hget by done.
      by apply od_get_set_ne.
    + intros [Hh Hnd]%NoDup_cons i [->|Hin]%elem_of_cons; [|by apply Hcols].
      rewrite Hget; [apply od_get_set_eq|].
      intros (j & Heq & Hj)%list_elem_of_fmap.
      apply (inj (String.app tc)) in Heq. apply (inj pretty) in Heq. by subst j.
Qed.

(** C4.  When [_transform] returns, the row mask it used keeps row [i]
    unless rows are to be dropped and some feature is NaN in row [i] or
    the target of row [i] is null, which for a matrix target means that
    the values of all its horizons are NaN; when rows are not to be
    dropped the mask keeps every row.  The target is the target at the
    rows that the mask keeps, in their order: it is what is returned
    beside the table when [return_X_y] is set and what is written to the
    target column, or to one column per horizon, of the table when it is
    not.  Without date features, or with a mask that keeps some row, the
    table has as many rows as the mask keeps; and a table of that many
    rows has the rows that the mask keeps, in their order, in every
    column of the input and in every lag feature, unless a later feature
    or the target is written to a column of that name.  What is left
    out is the table that a date feature with values has given rows
    after the mask had kept none. *)
Theorem dropna_rows (pool : ThreadPool) (df : Frame V) (dropna : bool)
    (max_horizon : option nat) (return_X_y : bool) (self self' : TimeSeries V)
    (out : Frame V) (tgt : option (Target V)) :
  length (restore_idxs self) = nrows df →
  @_transform V _ _ pool df dropna max_horizon return_X_y self = (Ok (out, tgt), self') →
  ∃ computed features target keep_rows,
    (@_compute_transforms V _ pool self).1 = Ok computed ∧
    res_map (λ kv, let? v := np_take_int kv.2 (restore_idxs self) in Ok (kv.1, v)) computed
      = Ok features ∧
    match max_horizon with
    | None => ∃ y, np_take_int (data (ga_load (heap self) (ga self))) (restore_idxs self)
                   = Ok y ∧ target = Target1 y
    | Some h => ∃ y, np_take_int (ga_expand_target np_empty_fill
                                    (ga_load (heap self) (ga self)) h)
                                 (restore_idxs self) = Ok y ∧
                     target = Target2 y
    end ∧
    _transform_keep_rows (nrows df) features target dropna = Ok keep_rows ∧
    length keep_rows = nrows df ∧
    (∀ i, keep_rows !! i = Some false ↔
          dropna = true ∧
          ((∃ name vals v, (name, vals) ∈ features ∧ vals !! i = Some v ∧ isnan v = true)
           ∨ target_null target i)) ∧
    (dropna = false → keep_rows = replicate (nrows df) true) ∧
    tgt = (if return_X_y then Some (target_kept keep_rows target) else None) ∧
    (date_features self = [] ∨ (∃ i, keep_rows !! i = Some true) →
     nrows out = length (filter (λ b, b = true) keep_rows)) ∧
    (nrows out = length (filter (λ b, b = true) keep_rows) →
     (∀ name c,
        od_get name (cols df) = Some c →
        name ∉ od_keys (transforms self) ++ _date_feature_names self →
        (return_X_y = false → name ∉ target_columns self max_horizon) →
        od_get name (cols out) = Some (if dropna then col_kept keep_rows c else c)) ∧
     (∀ name vals,
        od_get name features = Some vals →
        name ∈ od_keys (transforms self) →
        name ∉ _date_feature_names self →
        (return_X_y = false → name ∉ target_columns self max_horizon) →
        od_get name (cols out) = Some (ColFloat (kept_rows keep_rows vals))) ∧
     (return_X_y = false →
      match target_kept keep_rows target with
      | Target1 y => od_get (target_col self) (cols out) = Some (ColFloat y)
      | Target2 y =>
          ∀ i, i < default 0 max_horizon →
               od_get (target_col self +:+ pretty i) (cols out)
               = Some (ColFloat ((λ row, default nan (row !! i)) <$> y))
      end)).
Proof.
  intros Hidx Hrun. unfold _transform in Hrun.
  apply bindM_Ok in Hrun as (computed & self1 & Hcomp & Hrun).
  assert (Hfields : restore_idxs self1 = restore_idxs self ∧ heap self1 = heap self ∧
                    ga self1 = ga self ∧ transforms self1 = transforms self ∧
                    date_features self1 = date_features self ∧
                    target_col self1 = target_col self).
  { by destruct (_compute_transforms_state pool self self1 _ Hcomp) as [->| ->]. }
  destruct Hfields as (Hf1 & Hf2 & Hf3 & Hf4 & Hf5 & Hf6).
  apply bindM_Ok in Hrun as (idxs & ? & [-> ->]%getM_Ok & Hrun).
  apply bindM_Ok in Hrun as (features & ? & [Hfeat ->]%liftM_Ok & Hrun).
  apply bindM_Ok in Hrun as ([] & ? & ->%modifyM_Ok & Hrun).
  apply bindM_Ok in Hrun as (g & ? & [-> ->]%getM_Ok & Hrun).
  apply bindM_Ok in Hrun as (target & ? & [Htarget ->]%liftM_Ok & Hrun).
  apply bindM_Ok in Hrun as (keep_rows & ? & [Hkeep ->]%liftM_Ok & Hrun).
  apply bindM_Ok in Hrun as ([df1 target1] & ? & [Hmask ->]%liftM_Ok & Hrun).
  apply bindM_Ok in Hrun as (names & ? & [-> ->]%getM_Ok & Hrun).
  apply bindM_Ok in Hrun as (df2 & ? & [Hlags ->]%liftM_Ok & Hrun).
  apply bindM_Ok in Hrun as (feats & ? & [-> ->]%getM_Ok & Hrun).
  apply bindM_Ok in Hrun as (df3 & self3 & Hdates & Hrun).
  simpl in *. rewrite Hf1, Hf2, Hf3 in *. rewrite Hf4 in Hlags. rewrite Hf5 in Hdates.
  pose proof (reindexed_lengths _ _ _ Hfeat) as Hlens. rewrite Hidx in Hlens.
  assert (target_length target = nrows df) as Htl.
  { destruct max_horizon as [h|].
    - apply res_bind_Ok in Htarget as (y & Hy & [= <-]). simpl.
      apply np_take_int_length in Hy. lia.
    - apply res_bind_Ok in Htarget as (y & Hy & [= <-]). simpl.
      apply np_take_int_length in Hy. lia. }
  destruct (_transform_keep_rows_spec (nrows df) features target dropna Hlens Htl)
    as (keep' & Hkeep' & Hklen & Hkspec).
  rewrite Hkeep in Hkeep'. injection Hkeep' as <-.
  assert (dropna = false → keep_rows = replicate (nrows df) true) as Hall.
  { intros ->. unfold _transform_keep_rows in Hkeep. by injection Hkeep as <-. }
  assert (target1 = target_kept keep_rows target ∧
          nrows df1 = length (filter (λ b, b = true) keep_rows) ∧
          ∀ name, od_get name (cols df1) =
                  (λ c, if dropna then col_kept keep_rows c else c)
                    <$> od_get name (cols df)) as (-> & Hrows1 & Hcols1).
  { destruct dropna.
    - apply res_bind_Ok in Hmask as (dfm & Hdfm & Hmask).
      apply res_bind_Ok in Hmask as (tm & Htm & [= <- <-]).
      rewrite frame_mask_kept in Hdfm by done. injection Hdfm as <-. simpl.
      split; [|split; [done|intros name; apply od_get_fmap]].
      unfold target_mask, np_mask_checked in Htm. destruct target as [y|y]; simpl in *.
      + rewrite decide_True in Htm by lia. simpl in Htm. injection Htm as <-.
        by rewrite np_mask_kept_rows.
      + rewrite decide_True in Htm by lia. simpl in Htm. injection Htm as <-.
        by rewrite np_mask_kept_rows.
    - injection Hmask as <- <-. rewrite (Hall eq_refl).
      assert (Forall (λ b, b = true) (replicate (nrows df) true)) as Htrue.
      { apply Forall_forall. by intros b [-> _]%elem_of_replicate. }
      split_and!.
      + destruct target as [y|y]; simpl in *;
          by rewrite kept_rows_all by (by rewrite ?length_replicate).
      + by rewrite filter_all, length_replicate.
      + intros name. by destruct (od_get name (cols df)). }
  rewrite <- Hklen in Hlens.
  destruct (add_lag_features_spec _ _ _ _ _ Hlens Hrows1 Hlags) as [Hrows2 Hcols2].
  assert (target_length (target_kept keep_rows target)
          = length (filter (λ b, b = true) keep_rows)) as Htl1.
  { destruct target as [y|y]; simpl in *; apply kept_rows_length; lia. }
  assert (self3 = set_max_horizon max_horizon self1 ∧
          ((nrows df3 = nrows df2 ∧
            ∀ name, name ∉ _date_feature_names self →
                    od_get name (cols df3) = od_get name (cols df2)) ∨
           (date_features self ≠ [] ∧ nrows df2 = 0 ∧ nrows df3 ≠ 0))) as [-> Hcols3].
  { destruct (date_features self) as [|feature feats] eqn:Hfeats.
    - apply retM_Ok in Hdates as [-> ->]. split; [done|]. by left.
    - apply bindM_Ok in Hdates as (tc & ? & [-> ->]%getM_Ok & Hdates).
      apply bindM_Ok in Hdates as (dates & ? & [_ ->]%liftM_Ok & Hdates).
      apply liftM_Ok in Hdates as [Hdates ->]. split; [done|].
      unfold _date_feature_names. rewrite Hfeats.
      apply add_date_features_rows in Hdates as [?|[? ?]]; [by left|by right]. }
  assert (nrows df2 = length (filter (λ b, b = true) keep_rows)) as Hrows2'
    by (by rewrite Hrows2).
  exists computed, features, target, keep_rows. split_and!.
  - by rewrite Hcomp.
  - done.
  - destruct max_horizon as [h|].
    + apply res_bind_Ok in Htarget as (y & Hy & [= <-]). by exists y.
    + apply res_bind_Ok in Htarget as (y & Hy & [= <-]). by exists y.
  - done.
  - done.
  - done.
  - done.
  - destruct return_X_y.
    + by apply retM_Ok in Hrun as [[= _ <-] _].
    + apply bindM_Ok in Hrun as (tc & ? & [-> ->]%getM_Ok & Hrun).
      destruct (target_kept keep_rows target) as [y|y].
      * apply bindM_Ok in Hrun as (df4 & ? & [_ ->]%liftM_Ok & Hrun).
        by apply retM_Ok in Hrun as [[= _ <-] _].
      * apply bindM_Ok in Hrun as (df4 & ? & [_ ->]%liftM_Ok & Hrun).
        by apply retM_Ok in Hrun as [[= _ <-] _].
  - intros Hpremise. destruct Hcols3 as [[Hrows3 _]|(Hdf & Hzero & Hrows3)].
    + destruct return_X_y.
      * apply retM_Ok in Hrun as [[= <- _] _]. by rewrite Hrows3.
      * apply bindM_Ok in Hrun as (tc & ? & [-> ->]%getM_Ok & Hrun).
        destruct (target_kept keep_rows target) as [y|y]; simpl in Htl1.
        -- apply bindM_Ok in Hrun as (df4 & ? & [Htc ->]%liftM_Ok & Hrun).
           apply retM_Ok in Hrun as [[= <- _] _].
           rewrite frame_set_rows in Htc by (simpl; by rewrite Hrows3, Hrows2').
           injection Htc as <-. simpl. by rewrite Hrows3.
        -- apply bindM_Ok in Hrun as (df4 & ? & [Htc ->]%liftM_Ok & Hrun).
           apply retM_Ok in Hrun as [[= <- _] _].
           apply add_target_columns_spec in Htc as (Hrows4 & _);
             [|by rewrite Hrows3, Hrows2'].
           by rewrite Hrows4, Hrows3.
    + destruct Hpremise as [?|Hkept%kept_row_exists]; [done|]. by rewrite <- Hrows2' in Hkept.
  - intros Hout. destruct Hcols3 as [[Hrows3 Hget3]|(Hdf & Hzero & Hrows3)].
    2: { exfalso. rewrite <- Hrows2', Hzero in Hout. destruct return_X_y.
         - apply retM_Ok in Hrun as [[= <- _] _]. done.
         - apply bindM_Ok in Hrun as (tc & ? & [-> ->]%getM_Ok & Hrun).
           destruct (target_kept keep_rows target) as [y|y].
           + apply bindM_Ok in Hrun as (df4 & ? & [Htc ->]%liftM_Ok & Hrun).
             apply retM_Ok in Hrun as [[= <- _] _].
             apply frame_set_nonempty in Htc as ->; done.
           + apply bindM_Ok in Hrun as (df4 & ? & [Htc ->]%liftM_Ok & Hrun).
             apply retM_Ok in Hrun as [[= <- _] _].
             apply add_target_columns_nonempty in Htc; [|done]. by rewrite Htc in Hout. }
    assert (∀ name c, od_get name (cols df) = Some c →
                      name ∉ od_keys (transforms self) ++ _date_feature_names self →
                      od_get name (cols df3)
                      = Some (if dropna then col_kept keep_rows c else c)) as Hinput.
    { intros name c Hc [Hn1 Hn2]%not_elem_of_app.
      rewrite Hget3 by done. rewrite Hcols2, decide_False by done.
      by rewrite Hcols1, Hc. }
    assert (∀ name vals, od_get name features = Some vals →
                         name ∈ od_keys (transforms self) →
                         name ∉ _date_feature_names self →
                         od_get name (cols df3)
                         = Some (ColFloat (kept_rows keep_rows vals))) as Hlag.
    { intros name vals Hvals Hin Hn. rewrite Hget3 by done.
      rewrite Hcols2, decide_True by done. rewrite Hvals. simpl.
      by rewrite np_mask_kept_rows. }
    destruct return_X_y.
    + apply retM_Ok in Hrun as [[= <- _] _]. split_and!.
      * intros name c Hc Hn _. by apply Hinput.
      * intros name vals Hvals Hin Hn _. by apply Hlag.
      * done.
    + apply bindM_Ok in Hrun as (tc & ? & [-> ->]%getM_Ok & Hrun).
      simpl in Hrun. rewrite Hf6 in Hrun.
      destruct max_horizon as [h|].
      * apply res_bind_Ok in Htarget as (y & Hy & [= <-]). simpl in *.
        apply bindM_Ok in Hrun as (df4 & ? & [Htc ->]%liftM_Ok & Hrun).
        apply retM_Ok in Hrun as [[= <- _] _].
        apply add_target_columns_spec in Htc as (Hrows4 & Hget4 & Hcols4);
          [|by rewrite Hrows3, Hrows2'].
        split_and!.
        -- intros name c Hc Hn Ht. rewrite Hget4 by (by apply Ht). by apply Hinput.
        -- intros name vals Hvals Hin Hn Ht. rewrite Hget4 by (by apply Ht). by apply Hlag.
        -- intros _ i Hi. apply Hcols4; [apply NoDup_seq|]. apply elem_of_seq. lia.
      * apply res_bind_Ok in Htarget as (y & Hy & [= <-]). simpl in *.
        apply bindM_Ok in Hrun as (df4 & ? & [Htc ->]%liftM_Ok & Hrun).
        apply retM_Ok in Hrun as [[= <- _] _].
        rewrite frame_set_rows in Htc by (simpl; by rewrite Hrows3, Hrows2').
        injection Htc as <-. simpl.
        split_and!.
        -- intros name c Hc Hn Ht. rewrite od_get_set_ne; [by apply Hinput|].
           intros <-. apply (Ht eq_refl). by left.
        -- intros name vals Hvals Hin Hn Ht. rewrite od_get_set_ne; [by apply Hlag|].
           intros <-. apply (Ht eq_refl). by left.
        -- intros _. apply od_get_set_eq.
Qed.
End dropna.

(** C4 on the two series with the lag 1, rows dropped and one table
    returned: the first row of each series has no lag and goes, in the
    columns of the input, in the lag and in the target. *)
Lemma dropna_rows_witness :
  let run := @_transform _ _ _ pool_in_order demo_df true None false demo_fitted in
  ∃ out keep_rows,
    run.1 = Ok (out, None) ∧
    keep_rows = [false; true; true; true; false; true; true] ∧
    nrows out = 5 ∧
    od_get "unique_id" (cols out) = Some (ColStr ["A"; "A"; "A"; "B"; "B"]) ∧
    od_get "ds" (cols out) = Some (ColInt [2; 3; 4; 2; 3]%Z) ∧
    od_get "lag1" (cols out) = Some (ColFloat [Some 1; Some 2; Some 3; Some 10; Some 20]%Z) ∧
    od_get "y" (cols out) = Some (ColFloat [Some 2; Some 3; Some 4; Some 20; Some 30]%Z).
Proof.
  intros run.
  set (out := {| nrows := 5;
                 cols := [("unique_id", ColStr ["A"; "A"; "A"; "B"; "B"]);
                          ("ds", ColInt [2; 3; 4; 2; 3]%Z);
                          ("y", ColFloat [Some 2; Some 3; Some 4; Some 20; Some 30]%Z);
                          ("lag1", ColFloat [Some 1; Some 2; Some 3; Some 10; Some 20]%Z)] |}
        : Frame (option Z)).
  assert (@_transform _ _ _ pool_in_order demo_df true None false demo_fitted
          = (Ok (out, None), run.2)) as Hrun by (vm_compute; reflexivity).
  assert (length (restore_idxs demo_fitted) = nrows demo_df) as Hidx
    by (vm_compute; reflexivity).
  destruct (dropna_rows pool_in_order demo_df true None false demo_fitted run.2 out None
              Hidx Hrun)
    as (computed & features & target & keep_rows & Hcomp & Hfeat & Htarget & Hkeep & Hlen
        & Hspec & _ & Htgt & Hrows & Htable).
  vm_compute in Hcomp. injection Hcomp as <-.
  vm_compute in Hfeat. injection Hfeat as <-.
  destruct Htarget as (y & Hy & ->). vm_compute in Hy. injection Hy as <-.
  vm_compute in Hkeep. injection Hkeep as <-.
  specialize (Hrows (or_introl eq_refl)).
  destruct (Htable Hrows) as (Hinput & Hlag & Htarget).
  assert (∀ name : string,
            name ∈ ["unique_id"; "ds"] →
            (name ∉ od_keys (transforms demo_fitted) ++ _date_feature_names demo_fitted) ∧
            (false = false → name ∉ target_columns demo_fitted None)) as Hfree.
  { intros name Hname. split; [|intros _].
    - assert (od_keys (transforms demo_fitted) ++ _date_feature_names demo_fitted = ["lag1"])
        as -> by (vm_compute; reflexivity).
      revert Hname. rewrite !elem_of_cons, !elem_of_nil. intros [->|[->|[]]]; intuition congruence.
    - assert (target_columns demo_fitted None = ["y"]) as -> by (vm_compute; reflexivity).
      revert Hname. rewrite !elem_of_cons, !elem_of_nil. intros [->|[->|[]]]; intuition congruence. }
  exists out, [false; true; true; true; false; true; true].
  split; [vm_compute; reflexivity|]. split; [reflexivity|]. split; [exact Hrows|].
  split_and!.
  - destruct (Hfree "unique_id") as [H1 H2]; [by left|].
    assert (od_get "unique_id" (cols demo_df)
            = Some (ColStr ["A"; "A"; "A"; "A"; "B"; "B"; "B"])) as Hc
      by (vm_compute; reflexivity).
    exact (Hinput _ _ Hc H1 H2).
  - destruct (Hfree "ds") as [H1 H2]; [right; by left|].
    assert (od_get "ds" (cols demo_df) = Some (ColInt [1; 2; 3; 4; 1; 2; 3]%Z)) as Hc
      by (vm_compute; reflexivity).
    exact (Hinput _ _ Hc H1 H2).
  - apply (Hlag "lag1" [None; Some 1; Some 2; Some 3; None; Some 10; Some 20]%Z).
    + vm_compute. reflexivity.
    + apply (bool_decide_unpack _). vm_compute. exact I.
    + apply (bool_decide_unpack _). vm_compute. exact I.
    + intros _. apply (bool_decide_unpack _). vm_compute. exact I.
  - exact (Htarget eq_refl).
Defined.

(** ** [predict]: the window of the exogenous table *)

Section exogenous.
Context `{Float V} `{Extern V}.

Lemma X_df_window_state (X_df : Frame V) horizon last_dates (self : TimeSeries V) :
  (X_df_window X_df horizon last_dates self).2 = self.
Proof.
  unfold X_df_window, bindM, getM, attr, liftM. simpl.
  destruct (_uids self); [|done]. simpl.
  destruct (dates_add _ 1 _); [|done]. simpl.
  destruct (dates_add _ _ _); [|done]. simpl.
  destruct (frame_of_dict _); [|done]. simpl.
  destruct (pd_merge _ _ _ _); [|done]. simpl.
  by destruct (res_bind _ _).
Qed.
End exogenous.

(** ** Forecasting: what is left alone *)

#[global] Instance same_arrays_preorder {V} : PreOrder (@same_arrays V).
Proof.
  split; [intros ?; unfold same_arrays; by split_and!|].
  intros x y z (? & ? & ? & ? & ? & ?) (? & ? & ? & ? & ? & ?).
  unfold same_arrays. split_and!; congruence.
Qed.

#[global] Instance same_setup_preorder {V} : PreOrder (@same_setup V).
Proof.
  split; [intros ?; split; [reflexivity|done]|].
  intros x y z (? & ? & ?) (? & ? & ?). unfold same_setup. split_and!; [by etrans|congruence..].
Qed.

Lemma same_arrays_setup {V A} (m : M V A) :
  preserves same_arrays m → preserves same_setup m.
Proof.
  intros Hm self. destruct (Hm self) as (Hh & _ & Hg & _ & Hi & Hk).
  unfold same_setup, same_ground_truth. split_and!; [done|rewrite Hh; reflexivity|done..].
Qed.

Lemma same_setup_ground_truth {V A} (m : M V A) :
  preserves same_setup m → preserves same_ground_truth m.
Proof. intros Hm self. by destruct (Hm self) as [? _]. Qed.

Lemma ga_load_prefix {V} (h h' : list (ndarray V)) (r : GARef) :
  data_ref r < length h → indptr_ref r < length h → h `prefix_of` h' →
  ga_load h' r = ga_load h r.
Proof.
  intros Hd Hi Hp. unfold ga_load.
  destruct (lookup_lt_is_Some_2 h _ Hd) as [x Hx].
  destruct (lookup_lt_is_Some_2 h _ Hi) as [y Hy].
  by rewrite Hx, Hy, (prefix_lookup_Some _ _ _ _ Hx Hp), (prefix_lookup_Some _ _ _ _ Hy Hp).
Qed.

Section predict_frame.
Context `{Float V} `{Extern V} (pool : ThreadPool).

Lemma new_grouped_array_same_setup (g : GroupedArray V) :
  preserves same_setup (new_grouped_array g).
Proof.
  intros self. unfold new_grouped_array, ga_alloc, same_setup, same_ground_truth. simpl.
  split_and!; [done|by apply prefix_app_r|done..].
Qed.

Lemma _apply_transforms_same_arrays updates_only :
  preserves same_arrays (_apply_transforms updates_only).
Proof. by intros self. Qed.

Lemma _apply_multithreaded_transforms_same_arrays updates_only :
  preserves same_arrays (@_apply_multithreaded_transforms V _ pool updates_only).
Proof. by intros self. Qed.

Hint Resolve new_grouped_array_same_setup _apply_transforms_same_arrays
  _apply_multithreaded_transforms_same_arrays : preserves.

Lemma _update_features_same_arrays :
  preserves same_arrays (@_update_features V _ _ pool).
Proof. unfold _update_features. preserves_tac. Qed.

Hint Resolve _update_features_same_arrays : preserves.

Lemma _get_features_for_next_step_same_arrays dynamic_dfs X_df :
  preserves same_arrays (@_get_features_for_next_step V _ _ pool dynamic_dfs X_df).
Proof. unfold _get_features_for_next_step. preserves_tac. Qed.

Lemma _get_raw_predictions_same_arrays : preserves same_arrays (@_get_raw_predictions V).
Proof. unfold _get_raw_predictions. preserves_tac. Qed.

Hint Resolve _get_features_for_next_step_same_arrays _get_raw_predictions_same_arrays
  : preserves.

Lemma _get_predictions_same_arrays : preserves same_arrays (@_get_predictions V).
Proof. unfold _get_predictions. preserves_tac. Qed.

Lemma _update_y_same_setup (new : list V) : preserves same_setup (_update_y new).
Proof. unfold _update_y. preserves_tac. Qed.

Lemma _predict_setup_same_setup : preserves same_setup (@_predict_setup V).
Proof. unfold _predict_setup. preserves_tac. Qed.

Hint Resolve _get_predictions_same_arrays _update_y_same_setup _predict_setup_same_setup
  same_arrays_setup : preserves.

Lemma _predict_recursive_step_same_setup model dynamic_dfs before after X_df :
  preserves same_setup
    (@_predict_recursive_step V _ _ pool model dynamic_dfs before after X_df).
Proof. unfold _predict_recursive_step. preserves_tac. Qed.

Hint Resolve _predict_recursive_step_same_setup : preserves.

Lemma _predict_recursive_models_same_setup models horizon dynamic_dfs before after X_df
    preds :
  preserves same_setup
    (@_predict_recursive_models V _ _ pool models horizon dynamic_dfs before after X_df
       preds).
Proof.
  revert preds. induction models as [|[name model] models IH]; intros preds; simpl.
  - preserves_tac.
  - preserves_tac.
Qed.

Hint Resolve _predict_recursive_models_same_setup : preserves.

Lemma _predict_recursive_same_setup models horizon dynamic_dfs before after X_df :
  preserves same_setup
    (@_predict_recursive V _ _ pool models horizon dynamic_dfs before after X_df).
Proof. unfold _predict_recursive. preserves_tac. Qed.

Lemma _predict_multi_models_same_setup models horizon dynamic_dfs before X_df result :
  preserves same_setup
    (@_predict_multi_models V _ _ pool models horizon dynamic_dfs before X_df result).
Proof.
  revert result. induction models as [|[name model] models IH]; intros result; simpl.
  - preserves_tac.
  - preserves_tac.
Qed.

Hint Resolve _predict_multi_models_same_setup : preserves.

Lemma _predict_multi_same_setup models horizon dynamic_dfs before X_df :
  preserves same_setup
    (@_predict_multi V _ _ pool models horizon dynamic_dfs before X_df).
Proof. unfold _predict_multi. preserves_tac. Qed.

Lemma predict_select_ids_same_ground_truth ids :
  preserves same_ground_truth (@predict_select_ids V ids).
Proof. unfold predict_select_ids. preserves_tac. Qed.

Lemma X_df_window_same_ground_truth X_df horizon last_dates :
  preserves same_ground_truth (X_df_window X_df horizon last_dates).
Proof. unfold X_df_window. preserves_tac. Qed.

Hint Resolve X_df_window_same_ground_truth : preserves.

Lemma predict_check_X_df_same_ground_truth X_df horizon last_dates :
  preserves same_ground_truth (predict_check_X_df X_df horizon last_dates).
Proof. unfold predict_check_X_df. preserves_tac. Qed.

Hint Resolve predict_select_ids_same_ground_truth predict_check_X_df_same_ground_truth
  _predict_recursive_same_setup _predict_multi_same_setup same_setup_ground_truth
  : preserves.

(** [predict] leaves the ground truth alone, however it ends. *)
Lemma predict_same_ground_truth models horizon dynamic_dfs before after X_df ids :
  preserves same_ground_truth
    (@predict V _ _ pool models horizon dynamic_dfs before after X_df ids).
Proof. unfold predict. preserves_tac. Qed.
End predict_frame.

(** ** Forecasting: what the recursion appends *)

Section recursion.
Context `{Float V} `{Extern V} (pool : ThreadPool).

Lemma ga_load_alloc_eq (h : list (ndarray V)) (g : GroupedArray V) :
  ga_load (h ++ [FloatArr (data g); IntArr (indptr g)])
          {| data_ref := length h; indptr_ref := S (length h) |} = g.
Proof. apply (ga_load_alloc h g). Qed.

Lemma attr_Ok {A} name (f : TimeSeries V → option A) (self self' : TimeSeries V) a :
  attr name f self = (Ok a, self') ↔ f self = Some a ∧ self' = self.
Proof.
  unfold attr. destruct (f self); split; try done.
  - by intros [= -> ->].
  - by intros [[= ->] ->].
  - by intros [? _].
Qed.

Lemma new_grouped_array_Ok (g : GroupedArray V) (self self' : TimeSeries V) r :
  new_grouped_array g self = (Ok r, self') →
  r = {| data_ref := length (heap self); indptr_ref := S (length (heap self)) |} ∧
  self' = set_heap (heap self ++ [FloatArr (data g); IntArr (indptr g)]) self.
Proof. unfold new_grouped_array, ga_alloc. by intros [= <- <-]. Qed.

(** The setup leaves the working copy of the ground truth and no
    predictions. *)
Lemma _predict_setup_Ok (self self1 : TimeSeries V) u :
  _predict_setup self = (Ok u, self1) →
  ∃ start, working_copy self = Ok start ∧
           ga_load (heap self1) (ga self1) = start ∧
           y_pred self1 = Some [].
Proof.
  unfold _predict_setup, working_copy. intros Hrun.
  apply bindM_Ok in Hrun as ([] & ? & ->%modifyM_Ok & Hrun).
  apply bindM_Ok in Hrun as (ld & ? & [-> ->]%getM_Ok & Hrun).
  apply bindM_Ok in Hrun as ([] & ? & ->%modifyM_Ok & Hrun).
  apply bindM_Ok in Hrun as (idxs & ? & [Hidxs ->]%attr_Ok & Hrun).
  apply bindM_Ok in Hrun as ([] & self2 & Htake & Hrun).
  apply bindM_Ok in Hrun as ([] & ? & ->%modifyM_Ok & Hrun).
  apply bindM_Ok in Hrun as ([] & ? & ->%modifyM_Ok & Hrun).
  apply bindM_Ok in Hrun as (k & ? & [-> ->]%getM_Ok & Hrun).
  apply bindM_Ok in Hrun as ([] & self3 & Hkeep & Hrun).
  apply modifyM_Ok in Hrun as ->.
  simpl in Hidxs. rewrite Hidxs.
  assert (∃ g, match idxs with
               | Some idxs => ga_take (ga_load (heap self) (_ga self)) idxs
               | None => Ok (ga_load (heap self) (_ga self))
               end = Ok g ∧
               ga_load (heap self2) (ga self2) = g ∧
               keep_last_n self2 = keep_last_n self) as (g & -> & Hg & Hk).
  { destruct idxs as [idxs|].
    - apply bindM_Ok in Htake as (g0 & ? & [-> ->]%getM_Ok & Htake).
      apply bindM_Ok in Htake as (g & ? & [Hg ->]%liftM_Ok & Htake).
      apply bindM_Ok in Htake as (r & ? & [-> ->]%new_grouped_array_Ok & Htake).
      apply bindM_Ok in Htake as ([] & ? & ->%modifyM_Ok & Htake).
      apply bindM_Ok in Htake as (cd & ? & [_ ->]%liftM_Ok & Htake).
      apply modifyM_Ok in Htake as ->.
      exists g. split_and!; [exact Hg| |done]. simpl. apply ga_load_alloc_eq.
    - apply retM_Ok in Htake as [_ ->]. eexists. by split_and!. }
  simpl in Hkeep. rewrite Hk in Hkeep. simpl.
  destruct (keep_last_n self) as [k|].
  - apply bindM_Ok in Hkeep as (g0 & ? & [-> ->]%getM_Ok & Hkeep).
    apply bindM_Ok in Hkeep as (r & ? & [-> ->]%new_grouped_array_Ok & Hkeep).
    apply modifyM_Ok in Hkeep as ->.
    eexists. split_and!; [done| |done].
    cbn -[ga_take_from_groups ga_load]. rewrite ga_load_alloc_eq. by rewrite Hg.
  - apply retM_Ok in Hkeep as [_ ->]. simpl. eexists. by split_and!.
Qed.

Lemma _update_y_Ok (values : list V) (self self' : TimeSeries V) u :
  _update_y values self = (Ok u, self') →
  ga_append (ga_load (heap self) (ga self)) values = Ok (ga_load (heap self') (ga self')) ∧
  y_pred self' = Some (default [] (y_pred self) ++ [values]).
Proof.
  destruct u. unfold _update_y, bindM, getM, modifyM, liftM, new_grouped_array. simpl.
  destruct (ga_append _ values) as [g|e] eqn:Hg; simpl; [|done].
  intros [= <-]. simpl. split; [|done]. f_equal.
  symmetry. apply ga_load_alloc_eq.
Qed.

Lemma _predict_recursive_step_Ok model dynamic_dfs before after X_df
    (self self' : TimeSeries V) u :
  @_predict_recursive_step V _ _ pool model dynamic_dfs before after X_df self
    = (Ok u, self') →
  ∃ predictions,
    ga_append (ga_load (heap self) (ga self)) predictions
      = Ok (ga_load (heap self') (ga self')) ∧
    y_pred self' = Some (default [] (y_pred self) ++ [predictions]).
Proof.
  unfold _predict_recursive_step. intros Hrun.
  apply bindM_Ok in Hrun as (new_x & self1 & Hfeat & Hrun).
  pose proof (_get_features_for_next_step_same_arrays pool dynamic_dfs X_df self) as Hsame.
  rewrite Hfeat in Hsame. destruct Hsame as (Hh & Hg & _ & Hy & _).
  apply bindM_Ok in Hrun as (new_x' & ? & [_ ->]%liftM_Ok & Hrun).
  apply bindM_Ok in Hrun as (p & ? & [_ ->]%liftM_Ok & Hrun).
  apply bindM_Ok in Hrun as (predictions & self2 & Hafter & Hrun).
  assert (self2 = self1) as ->.
  { destruct after as [cb|].
    - apply bindM_Ok in Hafter as (us & s & Hattr & Hafter).
      apply liftM_Ok in Hafter as [_ ->].
      unfold attr in Hattr. destruct (_uids self1); by injection Hattr as _ <-.
    - by apply retM_Ok in Hafter as [_ ->]. }
  apply _update_y_Ok in Hrun as [Happ Hyp]. simpl in *.
  exists predictions. by rewrite <- Hh, <- Hg, <- Hy.
Qed.

Lemma extend_groups_snoc (groups : list (list V)) steps step :
  extend_groups groups (steps ++ [step]) =
  zip_with (λ g v, g ++ [v]) (extend_groups groups steps) step.
Proof. unfold extend_groups. by rewrite foldl_app. Qed.

Lemma extend_groups_length (groups : list (list V)) steps :
  Forall (λ step, length step = length groups) steps →
  length (extend_groups groups steps) = length groups.
Proof.
  induction steps as [|step steps IH] using rev_ind; intros Hall; [done|].
  apply Forall_app in Hall as [Hall [Hstep _]%Forall_cons].
  rewrite extend_groups_snoc, length_zip_with, IH by done. lia.
Qed.

(** The steps of one simulation append one value per step to every
    group. *)
Lemma repeat_steps_Ok model dynamic_dfs before after X_df n (groups : list (list V)) :
  ∀ (self self' : TimeSeries V) steps u,
    y_pred self = Some steps →
    Forall (λ step, length step = length groups) steps →
    ga_groups (ga_load (heap self) (ga self)) = extend_groups groups steps →
    repeatM n (@_predict_recursive_step V _ _ pool model dynamic_dfs before after X_df) self
      = (Ok u, self') →
    ∃ steps', y_pred self' = Some (steps ++ steps') ∧ length steps' = n ∧
              Forall (λ step, length step = length groups) steps' ∧
              ga_groups (ga_load (heap self') (ga self')) =
              extend_groups groups (steps ++ steps').
Proof.
  induction n as [|n IH]; intros self self' steps u Hy Hall Hg Hrun; simpl in Hrun.
  - apply retM_Ok in Hrun as [_ ->]. exists []. rewrite app_nil_r. by split_and!.
  - apply bindM_Ok in Hrun as ([] & self1 & Hstep & Hrun).
    apply _predict_recursive_step_Ok in Hstep as (p & Happ & Hy1).
    apply ga_append_groups in Happ as [Hlen Hg1].
    rewrite <- ga_groups_length, Hg in Hlen.
    rewrite extend_groups_length in Hlen by done.
    rewrite Hy in Hy1. simpl in Hy1.
    destruct (IH self1 self' (steps ++ [p]) u) as (steps' & Hy' & Hn & Hall' & Hg');
      [done| | |done|].
    + apply Forall_app. split; [done|]. by apply Forall_singleton.
    + by rewrite Hg1, Hg, extend_groups_snoc.
    + exists (p :: steps'). rewrite <- app_assoc in Hy', Hg'. simpl in *.
      split_and!; [done|lia| |done]. by constructor.
Qed.
End recursion.

Section recursion_claim.
Context `{Float V} `{Extern V} (pool : ThreadPool).

Hint Resolve _get_predictions_same_arrays _get_raw_predictions_same_arrays : preserves.

Lemma working_copy_same_setup (self self' : TimeSeries V) :
  same_setup self self' → ground_truth_valid self →
  working_copy self' = working_copy self ∧ ground_truth_valid self'.
Proof.
  intros ([Hg Hp] & Hi & Hk) [Hd Hip].
  pose proof (prefix_length _ _ Hp) as Hlen.
  unfold working_copy, ground_truth_valid.
  rewrite Hg, Hi, Hk, (ga_load_prefix _ _ _ Hd Hip Hp). split; [done|lia].
Qed.

Lemma extend_groups_lookup (groups : list (list V)) steps i g :
  Forall (λ step, length step = length groups) steps →
  groups !! i = Some g →
  extend_groups groups steps !! i = Some (g ++ omap (λ step, step !! i) steps) ∧
  length (omap (λ step : list V, step !! i) steps) = length steps.
Proof.
  intros Hall Hg. induction steps as [|step steps IH] using rev_ind.
  - simpl. by rewrite app_nil_r.
  - apply Forall_app in Hall as [Hall [Hstep _]%Forall_cons].
    destruct (IH Hall) as [IH1 IH2].
    destruct (lookup_lt_is_Some_2 step i) as [v Hv].
    { apply lookup_lt_Some in Hg. lia. }
    rewrite extend_groups_snoc, lookup_zip_with, IH1, omap_app. simpl.
    rewrite Hv. simpl. rewrite length_app, IH2, app_assoc, length_app. simpl. done.
Qed.

(** After the loop over the models the working copy is the one set up
    from the ground truth with the steps of the last model appended. *)
Lemma _predict_recursive_models_Ok models horizon dynamic_dfs before after X_df :
  ∀ preds0 (self self' : TimeSeries V) preds,
    models ≠ [] →
    ground_truth_valid self →
    @_predict_recursive_models V _ _ pool models horizon dynamic_dfs before after X_df
      preds0 self = (Ok preds, self') →
    ∃ start steps,
      working_copy self = Ok start ∧
      y_pred self' = Some steps ∧ length steps = horizon ∧
      Forall (λ step, length step = n_groups start) steps ∧
      ga_groups (ga_load (heap self') (ga self')) = extend_groups (ga_groups start) steps.
Proof.
  induction models as [|[name model] models IH]; intros preds0 self self' preds Hne Hvalid Hrun;
    [done|].
  simpl in Hrun.
  apply bindM_Ok in Hrun as ([] & self1 & Hsetup & Hrun).
  apply bindM_Ok in Hrun as ([] & self2 & Hsteps & Hrun).
  apply bindM_Ok in Hrun as (preds1 & self3 & Hassemble & Hrun).
  assert (same_arrays self2 self3) as Hsame23.
  { assert (preserves same_arrays
              (match preds0 with
               | Some preds2 =>
                   let* raw := _get_raw_predictions in
                   liftM (frame_set name (ColFloat raw) preds2)
               | None =>
                   let* preds2 := _get_predictions in
                   let* yc := getM target_col in
                   retM (frame_rename (yc +:+ "_pred") name preds2)
               end)) as Hp by preserves_tac.
    specialize (Hp self2). by rewrite Hassemble in Hp. }
  destruct models as [|m models].
  - destruct Hsame23 as (Hh & Hg & _ & Hy & _).
    simpl in Hrun. apply retM_Ok in Hrun as [_ ->].
    destruct (_predict_setup_Ok _ _ _ Hsetup) as (start & Hstart & Hload & Hy1).
    destruct (repeat_steps_Ok pool model dynamic_dfs before after X_df horizon
                (ga_groups start) self1 self2 [] () Hy1) as (steps & Hy2 & Hn & Hall & Hg2);
      [constructor|by rewrite Hload|done|].
    exists start, steps. rewrite Hh, Hg, Hy. split_and!; [done..| |done].
    by rewrite <- ga_groups_length.
  - assert (same_setup self self3) as Hsame.
    { etrans; [|etrans].
      - pose proof (_predict_setup_same_setup self) as Hs. by rewrite Hsetup in Hs.
      - pose proof (preserves_repeatM same_setup horizon _
                      (_predict_recursive_step_same_setup pool model dynamic_dfs before
                         after X_df) self1) as Hs.
        by rewrite Hsteps in Hs.
      - destruct Hsame23 as (Hh & _ & Hga & _ & Hi & Hk).
        unfold same_setup, same_ground_truth. rewrite Hh. by split_and!. }
    destruct (working_copy_same_setup _ _ Hsame Hvalid) as [Hwc Hvalid3].
    destruct (IH (Some preds1) self3 self' preds) as (start & steps & Hstart & Hrest);
      [done..|].
    exists start, steps. by rewrite <- Hwc.
Qed.

Lemma predict_check_X_df_state (X_df : Frame V) horizon last_dates (self : TimeSeries V) :
  (predict_check_X_df X_df horizon last_dates self).2 = self.
Proof.
  unfold predict_check_X_df. unfold bindM at 1 2. unfold getM at 1 2.
  destruct (decide _); [done|]. destruct (decide _); [done|].
  unfold bindM at 1 2 3. unfold getM at 1. unfold liftM at 1 2.
  destruct (index_drop _ _); [|done]. simpl. destruct (index_drop _ _); [|done]. simpl.
  destruct (filter _ _); [|done].
  unfold bindM at 1 2. unfold attr. destruct (_uids self); [|done].
  pose proof (X_df_window_state X_df horizon last_dates self) as Hw.
  destruct (X_df_window X_df horizon last_dates self) as [[w|] s]; simpl in Hw; subst s;
    [|done].
  destruct (decide _); [done|]. unfold bindM, liftM.
  by destruct (pd_sort_values _ _).
Qed.

Lemma predict_select_ids_state ids (self ready : TimeSeries V) last_dates :
  predict_select_ids ids self = (Ok last_dates, ready) →
  same_ground_truth self ready ∧ max_horizon ready = max_horizon self ∧
  target_transforms ready = target_transforms self ∧
  keep_last_n ready = keep_last_n self.
Proof.
  intros Hsel. split.
  - pose proof (predict_select_ids_same_ground_truth ids self) as Hs.
    by rewrite Hsel in Hs.
  - revert Hsel. unfold predict_select_ids. destruct ids as [ids|].
    + unfold bindM at 1. unfold getM at 1. destruct (filter _ ids); [|done].
      unfold bindM, modifyM, getM, liftM. simpl.
      destruct (col_take _ _); [|done]. by intros [= _ <-].
    + unfold bindM, modifyM, getM. simpl. by intros [= _ <-].
Qed.

(** C3.  A recursive [predict] on a fitted object leaves the ground
    truth as it was, however it ends: [self._ga] refers to the same
    arrays and they hold what they held.  When it returns, the working
    copy is the copy that the setup takes from the ground truth for the
    requested series, with the [horizon] steps of the last model
    appended, one value per series and step: every series of the
    working copy has exactly [horizon] values more. *)
Theorem recursive_predict_appends (models : list (string * Model V)) (horizon : nat)
    (dynamic_dfs : option (list (Frame V)))
    (before_predict_callback : option (Frame V → res (Frame V)))
    (after_predict_callback : option (list string → list V → res (list V)))
    (X_df : option (Frame V)) (ids : option (list string))
    (self self' : TimeSeries V) (r : res (Frame V)) :
  ground_truth_valid self →
  max_horizon self = None →
  @predict V _ _ pool models horizon dynamic_dfs before_predict_callback
           after_predict_callback X_df ids self = (r, self') →
  (_ga self' = _ga self ∧
   ga_load (heap self') (_ga self') = ga_load (heap self) (_ga self)) ∧
  (∀ preds, r = Ok preds →
     ∃ start steps,
       working_copy (predict_select_ids ids self).2 = Ok start ∧
       y_pred self' = Some steps ∧
       length steps = horizon ∧
       Forall (λ step, length step = n_groups start) steps ∧
       ga_groups (ga_load (heap self') (ga self')) = extend_groups (ga_groups start) steps ∧
       n_groups (ga_load (heap self') (ga self')) = n_groups start ∧
       ∀ i g, ga_groups start !! i = Some g →
         ∃ appended,
           ga_groups (ga_load (heap self') (ga self')) !! i = Some (g ++ appended) ∧
           length appended = horizon).
Proof.
  intros Hvalid Hmh Hrun. split.
  - pose proof (predict_same_ground_truth pool models horizon dynamic_dfs
                  before_predict_callback after_predict_callback X_df ids self) as [Hg Hp].
    rewrite Hrun in Hg, Hp. simpl in Hg, Hp. split; [done|].
    destruct Hvalid as [Hd Hi]. by rewrite Hg, (ga_load_prefix _ _ _ Hd Hi Hp).
  - intros preds ->. unfold predict in Hrun.
    apply bindM_Ok in Hrun as (last_dates & ready & Hsel & Hrun).
    destruct (predict_select_ids_state _ _ _ _ Hsel) as (Hgt & Hmh' & _ & _).
    rewrite Hsel. simpl.
    apply bindM_Ok in Hrun as (X_df' & ready' & Hcheck & Hrun).
    assert (ready' = ready) as ->.
    { destruct X_df as [X|].
      - apply bindM_Ok in Hcheck as (X' & s & Hcheck & [_ ->]%retM_Ok).
        pose proof (predict_check_X_df_state X horizon last_dates ready) as Hs.
        by rewrite Hcheck in Hs.
      - by apply retM_Ok in Hcheck as [_ ->]. }
    apply bindM_Ok in Hrun as (mh & ? & [-> ->]%getM_Ok & Hrun).
    rewrite Hmh', Hmh in Hrun.
    apply bindM_Ok in Hrun as (preds1 & self1 & Hrec & Hrun).
    unfold _predict_recursive in Hrec.
    apply bindM_Ok in Hrec as (po & self2 & Hloop & Hrec).
    destruct po as [p|]; [|done]. apply retM_Ok in Hrec as [_ ->].
    assert (models ≠ []) as Hne.
    { intros ->. simpl in Hloop. by apply retM_Ok in Hloop as [[=] _]. }
    assert (ground_truth_valid ready) as Hvalid'.
    { destruct Hgt as [Hg Hp]. destruct Hvalid as [Hd Hi].
      pose proof (prefix_length _ _ Hp). unfold ground_truth_valid. rewrite Hg. lia. }
    destruct (_predict_recursive_models_Ok _ _ _ _ _ _ _ _ _ _ Hne Hvalid' Hloop)
      as (start & steps & Hstart & Hy & Hn & Hall & Hgroups).
    assert (heap self' = heap self2 ∧ ga self' = ga self2 ∧ y_pred self' = y_pred self2)
      as (Hh & Hg & Hyp).
    { apply bindM_Ok in Hrun as (tfms & ? & [-> ->]%getM_Ok & Hrun).
      apply bindM_Ok in Hrun as (preds2 & self3 & Hinv & Hrun).
      assert (self3 = self2) as ->.
      { destruct (target_transforms self2).
        - apply bindM_Ok in Hinv as (idxs & ? & [_ ->]%attr_Ok & Hinv).
          by apply liftM_Ok in Hinv as [_ ->].
        - by apply retM_Ok in Hinv as [_ ->]. }
      apply bindM_Ok in Hrun as ([] & ? & ->%modifyM_Ok & Hrun).
      apply bindM_Ok in Hrun as ([] & ? & ->%modifyM_Ok & Hrun).
      by apply retM_Ok in Hrun as [_ ->]. }
    exists start, steps. rewrite Hh, Hg, Hyp. split_and!; [done..| |].
    + rewrite <- !ga_groups_length, Hgroups. apply extend_groups_length.
      by rewrite ga_groups_length.
    + intros i g Hi. rewrite Hgroups.
      destruct (extend_groups_lookup (ga_groups start) steps i g) as [Hl Hlen];
        [by rewrite ga_groups_length|done|].
      eexists. split; [exact Hl|]. by rewrite Hlen.
Qed.
End recursion_claim.

(** C3 on the fitted two series, two steps ahead with a model that
    predicts 0: A and B have two values more and the ground truth is as
    it was. *)
Lemma recursive_predict_appends_witness :
  let run := @predict _ _ _ pool_in_order [("m", zero_model)] 2 None None None None None
                      demo_fitted in
  ga_load (heap run.2) (_ga run.2) = ga_load (heap demo_fitted) (_ga demo_fitted) ∧
  ∃ start steps,
    working_copy (predict_select_ids None demo_fitted).2 = Ok start ∧
    y_pred run.2 = Some steps ∧
    length steps = 2 ∧
    ga_groups (ga_load (heap run.2) (ga run.2)) = extend_groups (ga_groups start) steps.
Proof.
  intros run.
  edestruct (recursive_predict_appends pool_in_order [("m", zero_model)] 2 None None None
               None None demo_fitted) as [[_ Hframe] Happ].
  - split; vm_compute; lia.
  - reflexivity.
  - vm_compute. reflexivity.
  - split; [exact Hframe|].
    destruct (Happ _ eq_refl) as (start & steps & Hstart & Hy & Hn & _ & Hg & _).
    exists start, steps. split; [exact Hstart|]. split; [exact Hy|]. split; [exact Hn|exact Hg].
Defined.

(** ** Direct forecasting *)

Section direct.
Context `{Float V} `{Extern V} (pool : ThreadPool).

Lemma set_column_Ok {A} i (values : list A) (arr arr' : list (list A)) :
  set_column i values arr = Ok arr' →
  length (broadcast_to (length arr) values) = length arr ∧
  arr' = zip_with (λ row v, <[i := v]> row) arr (broadcast_to (length arr) values).
Proof.
  unfold set_column, broadcast_to.
  destruct (decide (length values = length arr)) as [Hl|Hl].
  - by intros [= <-].
  - destruct values as [|v [|??]]; try done. intros [= <-].
    rewrite length_replicate. split; [done|].
    clear Hl. induction arr as [|row arr IH]; [done|]. csimpl. by rewrite IH.
Qed.

(** The loop over the horizons writes column [i] from the output of the
    model of horizon [i] and leaves the other columns alone. *)
Lemma fill_predictions_Ok (model : Model V) (new_x : Frame V) horizons :
  ∀ arr rows,
    NoDup horizons →
    fill_predictions model new_x horizons arr = Ok rows →
    length rows = length arr ∧
    ∀ j row', rows !! j = Some row' →
      ∃ row, arr !! j = Some row ∧ length row' = length row ∧
        ∀ i, (i ∈ horizons → i < length row →
              ∃ raw, model_predict_at model i new_x = Ok raw ∧
                     row' !! i = broadcast_to (length arr) raw !! j) ∧
             (i ∉ horizons → row' !! i = row !! i).
Proof.
  induction horizons as [|i0 horizons IH]; intros arr rows Hnd Hrun; simpl in Hrun.
  - injection Hrun as <-. split; [done|]. intros j row' Hj. exists row'.
    split_and!; [done..|]. intros i. split; [by intros ?%elem_of_nil|done].
  - apply NoDup_cons in Hnd as [Hi0 Hnd].
    apply res_bind_Ok in Hrun as (raw & Hraw & Hrun).
    apply res_bind_Ok in Hrun as (arr1 & Hset & Hrun).
    apply set_column_Ok in Hset as [Hblen ->].
    destruct (IH _ _ Hnd Hrun) as [Hlen Hrows].
    rewrite length_zip_with, Hblen, Nat.min_id in Hlen.
    split; [done|]. intros j row' Hj.
    destruct (Hrows j row' Hj) as (row1 & Hrow1 & Hl1 & Hcols).
    apply lookup_zip_with_Some in Hrow1 as (row & v & -> & Hrow & Hv).
    exists row. rewrite length_insert in Hl1. split_and!; [done..|].
    intros i. destruct (Hcols i) as [Hin Hout].
    rewrite length_zip_with, Hblen, Nat.min_id, length_insert in Hin.
    split.
    + intros [->|Hi]%elem_of_cons Hlt.
      * exists raw. split; [done|]. rewrite Hout by done.
        by rewrite list_lookup_insert_eq, Hv.
      * by apply Hin.
    + intros [Hne Hi]%not_elem_of_cons. rewrite Hout by done.
      by rewrite list_lookup_insert_ne.
Qed.

Lemma frame_set_Ok name (c : Column V) (df df' : Frame V) :
  nrows df ≠ 0 → frame_set name c df = Ok df' →
  nrows df' = nrows df ∧ cols df' = od_set name c (cols df).
Proof.
  intros Hn. unfold frame_set. destruct (decide (col_len c = nrows df)).
  - by intros [= <-].
  - by rewrite decide_False.
Qed.

Lemma np_empty_shape (junk : V) n h :
  length (np_empty junk n h) = n ∧
  ∀ j row, np_empty junk n h !! j = Some row → length row = h.
Proof.
  unfold np_empty. split; [apply length_replicate|].
  intros j row [-> _]%lookup_replicate. apply length_replicate.
Qed.

(** What the loop of [_predict_multi] stores for every model: the rows
    of the outputs of its per-horizon models, flattened. *)
Lemma _predict_multi_models_Ok horizon dynamic_dfs before X_df models :
  ∀ (result out : Frame V) (self self' : TimeSeries V),
    NoDup (od_keys models) → nrows result ≠ 0 →
    @_predict_multi_models V _ _ pool models horizon dynamic_dfs before X_df result self
      = (Ok out, self') →
    nrows out = nrows result ∧
    (∀ name, name ∉ od_keys models → od_get name (cols out) = od_get name (cols result)) ∧
    ∀ name model, (name, model) ∈ models →
      ∃ new_x rows,
        od_get name (cols out) = Some (ColFloat (concat rows)) ∧
        length rows = nrows new_x ∧
        ∀ i, i < horizon →
          ∃ raw, model_predict_at model i new_x = Ok raw ∧
                 ∀ j row, rows !! j = Some row →
                          row !! i = broadcast_to (nrows new_x) raw !! j.
Proof.
  induction models as [|[name model] models IH]; intros result out self self' Hnd Hrows Hrun;
    simpl in Hrun.
  - apply retM_Ok in Hrun as [-> ->]. split_and!; [done..|].
    by intros ? ? ?%elem_of_nil.
  - unfold od_keys in Hnd. simpl in Hnd. apply NoDup_cons in Hnd as [Hname Hnd].
    apply bindM_Ok in Hrun as ([] & self1 & _ & Hrun).
    apply bindM_Ok in Hrun as (new_x0 & self2 & _ & Hrun).
    apply bindM_Ok in Hrun as (new_x & ? & [_ ->]%liftM_Ok & Hrun).
    apply bindM_Ok in Hrun as (predictions & ? & [Hfill ->]%liftM_Ok & Hrun).
    apply bindM_Ok in Hrun as (result1 & ? & [Hset ->]%liftM_Ok & Hrun).
    apply frame_set_Ok in Hset as [Hn1 Hc1]; [|done].
    destruct (IH _ _ _ _ Hnd (eq_ind_r (λ n, n ≠ 0) Hrows Hn1) Hrun) as (Hn & Hother & Hmodels).
    split_and!.
    + by rewrite Hn.
    + intros k [Hne Hk]%not_elem_of_cons. rewrite (Hother k Hk), Hc1.
      by apply od_get_set_ne.
    + intros k m [[= -> ->]|Hin]%elem_of_cons; [|by apply Hmodels].
      exists new_x, predictions. rewrite (Hother name Hname), Hc1, od_get_set_eq.
      destruct (np_empty_shape np_empty_fill (nrows new_x) horizon) as [Hlen Hshape].
      destruct (fill_predictions_Ok model new_x (seq 0 horizon) _ _ (NoDup_seq 0 horizon)
                  Hfill) as [Hlen' Hcols].
      rewrite Hlen in Hlen', Hcols. split_and!; [done..|].
      intros i Hi.
      assert (∃ raw, model_predict_at model i new_x = Ok raw) as [raw Hraw].
      { destruct horizon as [|h]; [lia|].
        destruct (nrows new_x) as [|n] eqn:Hnx.
        - clear Hcols. revert Hfill. generalize (np_empty np_empty_fill 0 (S h)).
          assert (i ∈ seq 0 (S h)) as Hin by (apply elem_of_seq; lia).
          revert Hin. generalize (seq 0 (S h)). intros hs.
          induction hs as [|i0 hs IHh]; intros Hin arr Hf; [by apply elem_of_nil in Hin|].
          simpl in Hf. apply res_bind_Ok in Hf as (raw & Hraw & Hf).
          apply res_bind_Ok in Hf as (arr1 & _ & Hf).
          apply elem_of_cons in Hin as [->|Hin]; [by exists raw|by eapply IHh].
        - destruct (lookup_lt_is_Some_2 predictions 0) as [row' Hrow']; [lia|].
          destruct (Hcols 0 row' Hrow') as (row & Hrow & _ & Hi0).
          destruct (Hi0 i) as [Hin _].
          destruct Hin as (raw & Hraw & _); [apply elem_of_seq; lia| |by exists raw].
          by rewrite (Hshape _ _ Hrow). }
      exists raw. split; [done|]. intros j row' Hj.
      destruct (Hcols j row' Hj) as (row & Hrow & _ & Hij).
      destruct (Hij i) as [Hin _].
      destruct Hin as (raw' & Hraw' & Heq); [apply elem_of_seq; lia| |].
      * by rewrite (Hshape _ _ Hrow).
      * rewrite Hraw in Hraw'. by injection Hraw' as <-.
Qed.
End direct.

Section direct_claim.
Context `{Float V} `{Extern V} (pool : ThreadPool).

Lemma bindM_ext_state {A B} (m : M V A) (k k' : A → M V B) (self : TimeSeries V) :
  (∀ a self', m self = (Ok a, self') → k a self' = k' a self') →
  bindM m k self = bindM m k' self.
Proof. intros Hk. unfold bindM. destruct (m self) as [[a|e] self']; [by apply Hk|done]. Qed.

Lemma frame_of_dict_rows (d : list (string * Column V)) (df : Frame V) k c :
  frame_of_dict d = Ok df → (k, c) ∈ d → col_len c = nrows df.
Proof.
  unfold frame_of_dict. destruct d as [|[k0 c0] d]; [by intros _ ?%elem_of_nil|].
  destruct (decide _) as [Hall|]; [|done]. intros [= <-] Hin. simpl.
  rewrite Forall_forall in Hall. apply (Hall (k, c) Hin).
Qed.

Lemma _predict_multi_dates_nonempty f horizon (last_dates dates : Column V) :
  _predict_multi_dates f horizon last_dates = Ok dates → col_len dates ≠ 0.
Proof.
  unfold _predict_multi_dates. intros Hd.
  apply res_bind_Ok in Hd as (times & _ & Hd).
  apply res_bind_Ok in Hd as ([|d ds] & _ & Hd); [done|].
  injection Hd as <-. by destruct last_dates.
Qed.

Lemma _predict_multi_Ok models horizon dynamic_dfs before X_df
    (self self' : TimeSeries V) (out : Frame V) :
  NoDup (od_keys models) →
  @_predict_multi V _ _ pool models horizon dynamic_dfs before X_df self = (Ok out, self') →
  ∀ name model, (name, model) ∈ models →
    ∃ new_x rows,
      od_get name (cols out) = Some (ColFloat (concat rows)) ∧
      length rows = nrows new_x ∧
      ∀ i, i < horizon →
        ∃ raw, model_predict_at model i new_x = Ok raw ∧
               ∀ j row, rows !! j = Some row →
                        row !! i = broadcast_to (nrows new_x) raw !! j.
Proof.
  intros Hnd Hrun. unfold _predict_multi in Hrun.
  apply bindM_Ok in Hrun as ([mh|] & ? & [_ ->]%getM_Ok & Hrun); [|done].
  destruct (decide (mh < horizon)); [done|]. cbv zeta in Hrun.
  apply bindM_Ok in Hrun as (us & ? & [_ ->]%attr_Ok & Hrun).
  apply bindM_Ok in Hrun as (ld & ? & [_ ->]%getM_Ok & Hrun).
  apply bindM_Ok in Hrun as (f & ? & [_ ->]%getM_Ok & Hrun).
  apply bindM_Ok in Hrun as (dates & ? & [Hdates ->]%liftM_Ok & Hrun).
  apply bindM_Ok in Hrun as (ic & ? & [_ ->]%getM_Ok & Hrun).
  apply bindM_Ok in Hrun as (tc & ? & [_ ->]%getM_Ok & Hrun).
  apply bindM_Ok in Hrun as (result & ? & [Hresult ->]%liftM_Ok & Hrun).
  assert (nrows result ≠ 0) as Hrows.
  { rewrite <- (frame_of_dict_rows _ _ tc dates Hresult).
    - by eapply _predict_multi_dates_nonempty.
    - apply od_get_Some_in, od_get_set_eq. }
  by destruct (_predict_multi_models_Ok pool _ _ _ _ _ _ _ _ _ Hnd Hrows Hrun) as (_ & _ & ?).
Qed.
End direct_claim.

(** * Further properties *)

(** ** Names of transforms and models *)

Lemma string_app_nil_r (s : string) : s +:+ EmptyString = s.
Proof.
  induction s as [|a s IH]; [done|].
  change (String a (s +:+ EmptyString) = String a s). by rewrite IH.
Qed.

Lemma string_app_ne (s : string) (a : Ascii.ascii) (t : string) : s +:+ String a t ≠ s.
Proof.
  intros Heq.
  assert (s +:+ String a t = s +:+ EmptyString) as Heq' by (by rewrite string_app_nil_r).
  by apply String.app_inj in Heq'.
Qed.

Lemma filter_none {A} (P : A → Prop) `{∀ x, Decision (P x)} (l : list A) :
  Forall (λ x, ¬ P x) l → filter P l = [].
Proof. induction 1 as [|x l Hx _ IH]; [done|]. by rewrite filter_cons, decide_False. Qed.

Lemma default_differs_false (dflt : option pyval) (value : pyval) :
  default_differs dflt value = false ↔ dflt = Some value.
Proof.
  destruct dflt as [d|]; simpl; [|done].
  rewrite bool_decide_eq_false. split.
  - intros Hnn. f_equal. by destruct (decide (d = value)).
  - intros [= ->]. by intros ?.
Qed.

Lemma omap_nil_Forall {A B} (f : A → option B) (l : list A) :
  omap f l = [] ↔ Forall (λ x, f x = None) l.
Proof.
  induction l as [|x l IH]; csimpl; [by split|].
  destruct (f x) eqn:Hx; split.
  - done.
  - intros Hall. apply Forall_cons in Hall as [? _]. congruence.
  - intros Hl. apply Forall_cons. split; [done|by apply IH].
  - intros Hall. apply Forall_cons in Hall as [_ ?]. by apply IH.
Qed.

(** X1.  The name of a transform is [<name>_lag<lag>] alone exactly when
    every argument passed for a parameter of the function after the
    first equals that parameter's default; arguments beyond the
    parameters of the function are not looked at.  So passing a default
    explicitly gives the name that passing nothing gives. *)
Theorem transform_name_shows_changed_arguments {V} (lag : Z) (tfm : Callable V)
    (args : list pyval) :
  _build_transform_name lag tfm args = __name__ tfm +:+ "_lag" +:+ pretty lag ↔
  Forall (λ va, va.2.2 = Some va.1) (zip args (drop 1 (parameters tfm))).
Proof.
  unfold _build_transform_name.
  set (f := λ '(value, (name, dflt)),
              if default_differs dflt value then Some (name +:+ py_str value) else None).
  assert (∀ va : pyval * (string * option pyval), f va = None ↔ va.2.2 = Some va.1) as Hf.
  { intros [value [name dflt]]. simpl. rewrite <- default_differs_false.
    destruct (default_differs dflt value); split; done. }
  rewrite <- (Forall_iff (λ va, f va = None)) by (intros va; apply Hf).
  rewrite <- omap_nil_Forall.
  destruct (omap f _) as [|p ps]; [done|]. split; [|done].
  intros Heq. exfalso.
  exact (string_app_ne _ _ (join "_" (p :: ps)) Heq).
Qed.

(** X2.  [_name_models] returns as many names as it is given; a name
    that did not occur before its position stays as it is, so a list
    without repetitions is returned unchanged. *)
Theorem name_models_keeps_first_occurrences (names : list string) :
  length (_name_models names) = length names ∧
  (∀ i x, names !! i = Some x → x ∉ take i names → _name_models names !! i = Some x) ∧
  (NoDup names → _name_models names = names).
Proof.
  rewrite _name_models_suffixed.
  assert (∀ i x, names !! i = Some x → x ∉ take i names → suffixed names i x = x) as Hfirst.
  { intros i x Hi Hnotin. unfold suffixed, occurrence.
    rewrite (take_S_r _ _ _ Hi), filter_app, length_app.
    replace (filter (λ y, y = x) (take i names)) with (@nil string).
    - rewrite filter_cons, (decide_True (P := x = x)) by done. simpl.
      first [done | by rewrite decide_False by lia].
    - symmetry. apply filter_none, Forall_forall. by intros y Hy ->. }
  split_and!.
  - by rewrite length_imap.
  - intros i x Hi Hnotin. rewrite list_lookup_imap, Hi. simpl. f_equal. by apply Hfirst.
  - intros Hnd. apply list_eq. intros i. rewrite list_lookup_imap.
    destruct (names !! i) as [x|] eqn:Hi; [|done]. simpl. f_equal. apply Hfirst; [done|].
    intros Hin. apply list_elem_of_lookup in Hin as [j Hj].
    apply lookup_take_Some in Hj as [Hj Hlt].
    pose proof (NoDup_lookup _ _ _ _ Hnd Hi Hj). lia.
Qed.

(** X3.  The names that [_name_models] returns need not be distinct: a
    name [x] given twice and followed by the name [x2] comes back as
    [x], [x2], [x2]. *)
Theorem name_models_may_collide (x : string) :
  _name_models [x; x; x +:+ "2"] = [x; x +:+ "2"; x +:+ "2"] ∧
  ¬ NoDup (_name_models [x; x; x +:+ "2"]).
Proof.
  assert (_name_models [x; x; x +:+ "2"] = [x; x +:+ "2"; x +:+ "2"]) as ->.
  { rewrite _name_models_suffixed. simpl. unfold suffixed, occurrence. simpl.
    assert (x ≠ x +:+ "2") as Hne by (intros Heq; by eapply string_app_ne).
    rewrite !filter_cons, filter_nil.
    rewrite !(decide_True (P := x = x)) by done.
    rewrite !(decide_False (P := x = x +:+ "2")) by done.
    rewrite !(decide_True (P := x +:+ "2" = x +:+ "2")) by done.
    simpl. reflexivity. }
  split; [done|]. intros Hnd. apply NoDup_cons in Hnd as [_ Hnd].
  apply NoDup_cons in Hnd as [Hnotin _]. apply Hnotin. by left.
Qed.

(** ** Fitting: what [_fit] stores *)

Section fit_facts.
Context `{Float V} `{Extern V}.

(** A run of [_fit_store] that returns, step by step. *)
Lemma _fit_store_Ok (df : Frame V) (ic tc yc : string) (sf : option (list string))
    (k : option Z) (self self' : TimeSeries V) u :
  _fit_store df ic tc yc sf k self = (Ok u, self') →
  ∃ sorted0 p sorted1 sorted data names to_drop last_idxs last_rows statics kept,
    frame_select [ic; tc; yc] df = Ok sorted0 ∧
    process sorted0 ic tc yc = Ok p ∧
    match p_sort_idxs p with
    | Some sort_idxs =>
        scatter_arange (nrows df) sort_idxs = Ok (restore_idxs self') ∧
        frame_take sort_idxs sorted0 = Ok sorted1 ∧
        np_take sort_idxs (pred <$> drop 1 (p_indptr p)) = Ok last_idxs
    | None =>
        restore_idxs self' = (Z.of_nat <$> seq 0 (nrows df)) ∧ sorted1 = sorted0 ∧
        last_idxs = pred <$> drop 1 (p_indptr p)
    end ∧
    match target_transforms self with
    | Some tfms => fit_target_transforms tfms ic tc yc sorted1
    | None => Ok sorted1
    end = Ok sorted ∧
    res_bind (frame_get yc sorted) col_floats = Ok data ∧
    match sf with
    | None => index_drop [tc; yc] (columns df) = Ok names ∧ to_drop = [ic; tc; yc]
    | Some given =>
        if decide (ic ∈ given) then names = given ∧ to_drop = [tc; yc]
        else names = ic :: given ∧ to_drop = [ic; tc; yc]
    end ∧
    frame_take last_idxs df = Ok last_rows ∧
    frame_select names last_rows = Ok statics ∧
    index_drop to_drop (columns df) = Ok kept ∧
    self' =
      set_features_order_ (kept ++ features self)
        (set_static_features_ statics
           (set__ga {| data_ref := length (heap self); indptr_ref := S (length (heap self)) |}
              (set_ga {| data_ref := length (heap self);
                         indptr_ref := S (length (heap self)) |}
                 (set_heap (heap self ++ [FloatArr data; IntArr (p_indptr p)])
                    (set_restore_idxs (restore_idxs self')
                       (set_last_dates (p_times p)
                          (set_uids (p_uids p)
                             (set_static_features sf
                                (set_keep_last_n k
                                   (set_time_col tc
                                      (set_target_col yc (set_id_col ic self)))))))))))).
Proof.
  unfold _fit_store. intros Hrun.
  apply bindM_Ok in Hrun as ([] & ? & ->%modifyM_Ok & Hrun).
  apply bindM_Ok in Hrun as ([] & ? & ->%modifyM_Ok & Hrun).
  apply bindM_Ok in Hrun as ([] & ? & ->%modifyM_Ok & Hrun).
  apply bindM_Ok in Hrun as ([] & ? & ->%modifyM_Ok & Hrun).
  apply bindM_Ok in Hrun as ([] & ? & ->%modifyM_Ok & Hrun).
  apply bindM_Ok in Hrun as (sorted0 & ? & [Hsel ->]%liftM_Ok & Hrun).
  apply bindM_Ok in Hrun as (p & ? & [Hp ->]%liftM_Ok & Hrun).
  apply bindM_Ok in Hrun as ([] & ? & ->%modifyM_Ok & Hrun).
  apply bindM_Ok in Hrun as ([] & ? & ->%modifyM_Ok & Hrun).
  apply bindM_Ok in Hrun as (sorted1 & s1 & Hsort & Hrun).
  apply bindM_Ok in Hrun as (tfms & ? & [-> ->]%getM_Ok & Hrun).
  apply bindM_Ok in Hrun as (sorted & ? & [Htfms ->]%liftM_Ok & Hrun).
  apply bindM_Ok in Hrun as (target_column & ? & [Hget ->]%liftM_Ok & Hrun).
  apply bindM_Ok in Hrun as (data & ? & [Hdata ->]%liftM_Ok & Hrun).
  apply bindM_Ok in Hrun as (r & ? & [-> ->]%new_grouped_array_Ok & Hrun).
  apply bindM_Ok in Hrun as ([] & ? & ->%modifyM_Ok & Hrun).
  apply bindM_Ok in Hrun as ([] & ? & ->%modifyM_Ok & Hrun).
  apply bindM_Ok in Hrun as ([names to_drop] & ? & [Hnames ->]%liftM_Ok & Hrun).
  apply bindM_Ok in Hrun as (last_idxs & ? & [Hlast ->]%liftM_Ok & Hrun).
  apply bindM_Ok in Hrun as (last_rows & ? & [Hrows ->]%liftM_Ok & Hrun).
  apply bindM_Ok in Hrun as (statics & ? & [Hstatics ->]%liftM_Ok & Hrun).
  apply bindM_Ok in Hrun as ([] & ? & ->%modifyM_Ok & Hrun).
  apply bindM_Ok in Hrun as (kept & ? & [Hkept ->]%liftM_Ok & Hrun).
  apply bindM_Ok in Hrun as (feats & ? & [-> ->]%getM_Ok & Hrun).
  apply modifyM_Ok in Hrun as ->.
  exists sorted0, p, sorted1, sorted, data, names, to_drop, last_idxs, last_rows, statics, kept.
  assert (∃ idxs,
            s1 = set_restore_idxs idxs
                   (set_last_dates (p_times p)
                      (set_uids (p_uids p)
                         (set_static_features sf
                            (set_keep_last_n k
                               (set_time_col tc (set_target_col yc (set_id_col ic self))))))) ∧
            match p_sort_idxs p with
            | Some sort_idxs =>
                scatter_arange (nrows df) sort_idxs = Ok idxs ∧
                frame_take sort_idxs sorted0 = Ok sorted1
            | None => idxs = (Z.of_nat <$> seq 0 (nrows df)) ∧ sorted1 = sorted0
            end) as (idxs & -> & Hidxs).
  { destruct (p_sort_idxs p) as [sort_idxs|].
    - apply bindM_Ok in Hsort as (idxs & ? & [Hsc ->]%liftM_Ok & Hsort).
      apply bindM_Ok in Hsort as ([] & ? & ->%modifyM_Ok & Hsort).
      apply liftM_Ok in Hsort as [Htake ->]. by exists idxs.
    - apply bindM_Ok in Hsort as ([] & ? & ->%modifyM_Ok & Hsort).
      apply retM_Ok in Hsort as [-> ->]. by eexists. }
  simpl in *. split_and!; try done.
  - clear Hsort. destruct (p_sort_idxs p); destruct Hidxs as [? ?]; split_and!; congruence.
  - by rewrite Hget.
  - destruct sf as [given|].
    + destruct (decide (ic ∈ given)); by injection Hnames as <- <-.
    + apply res_bind_Ok in Hnames as (ns & Hns & [= <- <-]). done.
Qed.
End fit_facts.

(** ** Fitting: sorting and restoring the order of the rows *)

Section restore.
Context {A : Type}.
Implicit Types (x out : list A) (idxs : list nat).

Lemma np_take_Forall2 x idxs out :
  np_take x idxs = Ok out ↔ Forall2 (λ i a, x !! i = Some a) idxs out.
Proof.
  revert out. induction idxs as [|i idxs IH]; intros out; simpl.
  - split; [intros [= <-]; constructor|]. by intros ->%Forall2_nil_inv_l.
  - destruct (x !! i) as [a|] eqn:Hi; simpl.
    + destruct (np_take x idxs) as [out'|e]; simpl.
      * split.
        -- intros [= <-]. constructor; [done|]. by apply IH.
        -- intros (a' & out'' & Ha & Hout & ->)%Forall2_cons_inv_l.
           apply IH in Hout. congruence.
      * split; [done|].
        intros (a' & out'' & Ha & Hout & ->)%Forall2_cons_inv_l. by apply IH in Hout.
    + split; [done|]. intros (a' & out'' & Ha & _)%Forall2_cons_inv_l. congruence.
Qed.

Lemma np_take_total x idxs :
  Forall (λ i, i < length x) idxs → ∃ out, np_take x idxs = Ok out.
Proof.
  induction 1 as [|i idxs Hi _ [out IH]]; simpl; [by eexists|].
  destruct (lookup_lt_is_Some_2 x i Hi) as [a ->]. rewrite IH. simpl. by eexists.
Qed.

Lemma np_take_lookup x idxs out i j :
  np_take x idxs = Ok out → idxs !! i = Some j → out !! i = x !! j.
Proof.
  intros Hout%np_take_Forall2 Hi.
  destruct (Forall2_lookup_l _ _ _ _ _ Hout Hi) as (a & -> & Ha). done.
Qed.

Lemma np_take_seq x : np_take x (seq 0 (length x)) = Ok x.
Proof.
  apply np_take_Forall2, Forall2_same_length_lookup. split; [by rewrite length_seq|].
  intros i j a Hj Ha. apply lookup_seq in Hj as [-> _]. done.
Qed.
Lemma np_position_of_nat (n i : nat) : i < n → np_position n (Z.of_nat i) = Some i.
Proof.
  intros Hi. unfold np_position. rewrite decide_True by lia. by rewrite Nat2Z.id.
Qed.

Lemma np_take_int_Forall2 x (idxs : list Z) out :
  np_take_int x idxs = Ok out ↔
  Forall2 (λ i a, np_position (length x) i ≫= (x !!.) = Some a) idxs out.
Proof.
  revert out. induction idxs as [|i idxs IH]; intros out; simpl.
  - split; [intros [= <-]; constructor|]. by intros ->%Forall2_nil_inv_l.
  - destruct (np_position (length x) i ≫= (x !!.)) as [a|] eqn:Hi; simpl.
    + destruct (np_take_int x idxs) as [out'|e]; simpl.
      * split.
        -- intros [= <-]. constructor; [done|]. by apply IH.
        -- intros (a' & out'' & Ha & Hout & ->)%Forall2_cons_inv_l.
           apply IH in Hout. congruence.
      * split; [done|].
        intros (a' & out'' & Ha & Hout & ->)%Forall2_cons_inv_l. by apply IH in Hout.
    + split; [done|]. intros (a' & out'' & Ha & _)%Forall2_cons_inv_l. congruence.
Qed.

Lemma np_take_int_arange x : np_take_int x (Z.of_nat <$> seq 0 (length x)) = Ok x.
Proof.
  apply np_take_int_Forall2, Forall2_same_length_lookup.
  split; [by rewrite length_fmap, length_seq|].
  intros i j a Hj Ha. rewrite list_lookup_fmap in Hj.
  destruct (seq 0 (length x) !! i) as [k|] eqn:Hk; [|done]. injection Hj as <-.
  apply lookup_seq in Hk as [-> Hlt]. by rewrite np_position_of_nat.
Qed.
End restore.

Section scatter.
Implicit Types (out : list Z) (sort_idxs : list nat).

Lemma int32_small (z : Z) : (- 2 ^ 31 ≤ z < 2 ^ 31)%Z → int32 z = z.
Proof. intros Hz. unfold int32. rewrite Z.mod_small; lia. Qed.

Lemma scatter_length (pairs : list (nat * nat)) out :
  length (foldl (λ out '(i, s), <[s := int32 (Z.of_nat i)]> out) out pairs) = length out.
Proof.
  revert out. induction pairs as [|[i s] pairs IH]; intros out; simpl; [done|].
  by rewrite IH, length_insert.
Qed.

Lemma scatter_untouched (pairs : list (nat * nat)) out s :
  s ∉ pairs.*2 →
  foldl (λ out '(i, s), <[s := int32 (Z.of_nat i)]> out) out pairs !! s = out !! s.
Proof.
  revert out. induction pairs as [|[i s'] pairs IH]; intros out Hs; simpl; [done|].
  simpl in Hs. apply not_elem_of_cons in Hs as [Hne Hs].
  rewrite IH by done. by rewrite list_lookup_insert_ne.
Qed.

Lemma scatter_lookup sort_idxs k out i s :
  NoDup sort_idxs → Forall (λ s, s < length out) sort_idxs →
  sort_idxs !! i = Some s →
  foldl (λ out '(i, s), <[s := int32 (Z.of_nat i)]> out) out
        (zip (seq k (length sort_idxs)) sort_idxs) !! s
  = Some (int32 (Z.of_nat (k + i))).
Proof.
  revert k out i. induction sort_idxs as [|a l IH]; intros k out i Hnd Hall Hi; [done|].
  apply NoDup_cons in Hnd as [Hnotin Hnd]. apply Forall_cons in Hall as [Ha Hall].
  simpl. destruct i as [|i]; simpl in Hi.
  - injection Hi as ->. rewrite scatter_untouched.
    + rewrite list_lookup_insert_eq by done. do 3 f_equal. lia.
    + by rewrite snd_zip by (rewrite length_seq; lia).
  - rewrite (IH (S k) _ i); [do 3 f_equal; lia|done| |done].
    eapply Forall_impl; [exact Hall|]. intros ? ?. simpl. by rewrite length_insert.
Qed.

(** The scatter of [_fit] on a permutation of the row positions gives the
    inverse permutation, every position as an [int32]. *)
Lemma scatter_arange_inverse (n : nat) sort_idxs :
  sort_idxs ≡ₚ seq 0 n →
  ∃ restore, scatter_arange n sort_idxs = Ok restore ∧ length restore = n ∧
             ∀ i s, sort_idxs !! i = Some s → restore !! s = Some (int32 (Z.of_nat i)).
Proof.
  intros Hp.
  assert (length sort_idxs = n) as Hlen by (by rewrite Hp, length_seq).
  assert (Forall (λ i, i < n) sort_idxs) as Hall.
  { rewrite Hp. apply Forall_forall. intros i Hi%elem_of_seq. lia. }
  assert (NoDup sort_idxs) as Hnd by (rewrite Hp; apply NoDup_seq).
  unfold scatter_arange. rewrite decide_True by done. eexists. split; [done|]. split.
  - by rewrite scatter_length, length_replicate.
  - intros i s Hi. rewrite <- Hlen.
    rewrite (scatter_lookup sort_idxs 0 _ i s); [done|done| |done].
    by rewrite length_replicate, Hlen.
Qed.

Lemma restore_round_trip {A} (n : nat) sort_idxs restore (x : list A) :
  sort_idxs ≡ₚ seq 0 n → length x = n → (Z.of_nat n ≤ 2 ^ 31)%Z →
  scatter_arange n sort_idxs = Ok restore →
  ∃ sorted, np_take x sort_idxs = Ok sorted ∧ np_take_int sorted restore = Ok x.
Proof.
  intros Hp Hx Hn Hrestore.
  destruct (scatter_arange_inverse n sort_idxs Hp) as (r & Hr & Hlen & Hinv).
  assert (r = restore) as -> by congruence.
  destruct (np_take_total x sort_idxs) as [sorted Hsorted].
  { rewrite Hp, Hx. apply Forall_forall. intros i Hi%elem_of_seq. lia. }
  assert (length sorted = n) as Hls.
  { apply np_take_Forall2, Forall2_length in Hsorted. by rewrite <- Hsorted, Hp, length_seq. }
  exists sorted. split; [done|].
  apply np_take_int_Forall2, Forall2_same_length_lookup. split; [lia|].
  intros s z a Hs Ha.
  assert (s ∈ sort_idxs) as [i Hi]%list_elem_of_lookup.
  { rewrite Hp. apply elem_of_seq. apply lookup_lt_Some in Ha. lia. }
  rewrite (Hinv _ _ Hi) in Hs. injection Hs as <-.
  assert (i < n) as Hlt.
  { apply lookup_lt_Some in Hi. by rewrite Hp, length_seq in Hi. }
  rewrite int32_small by lia. rewrite Hls, np_position_of_nat by done. simpl.
  by rewrite (np_take_lookup _ _ _ _ _ Hsorted Hi).
Qed.
End scatter.

(** ** Tables: selecting columns and rows *)

Section frames.
Context {V : Type}.
Implicit Types (df : Frame V) (d cs : list (string * Column V)) (names : list string).

Lemma select_cols_keys names d cs :
  select_cols names d = Ok cs → od_keys cs = names.
Proof.
  revert cs. induction names as [|n names IH]; intros cs; simpl; [by intros [= <-]|].
  destruct (od_get n d); [|done].
  destruct (select_cols names d) as [cs'|]; [|done]. simpl.
  intros [= <-]. unfold od_keys in *. simpl. f_equal. by apply IH.
Qed.

Lemma select_cols_get names d cs n :
  select_cols names d = Ok cs → n ∈ names → od_get n cs = od_get n d.
Proof.
  revert cs. induction names as [|n' names IH]; intros cs; simpl.
  - by intros _ ?%elem_of_nil.
  - destruct (od_get n' d) as [c|] eqn:Hc; [|done].
    destruct (select_cols names d) as [cs'|]; [|done]. simpl.
    intros [= <-] Hin. simpl. destruct (decide (n' = n)) as [->|Hne]; [done|].
    apply elem_of_cons in Hin as [->|Hin]; [done|]. by apply IH.
Qed.

Lemma select_cols_in names d cs n c :
  select_cols names d = Ok cs → od_get n cs = Some c → n ∈ names.
Proof.
  intros Hsel Hget. rewrite <- (select_cols_keys _ _ _ Hsel).
  apply od_get_Some_in in Hget. unfold od_keys. apply list_elem_of_fmap. by exists (n, c).
Qed.

Lemma frame_select_Ok names df out :
  frame_select names df = Ok out →
  nrows out = nrows df ∧ columns out = names ∧
  ∀ n c, od_get n (cols out) = Some c → n ∈ names ∧ od_get n (cols df) = Some c.
Proof.
  unfold frame_select. intros (cs & Hsel & [= <-])%res_bind_Ok. simpl.
  split; [done|]. split; [by eapply select_cols_keys|].
  intros n c Hget. assert (n ∈ names) as Hin by (by eapply select_cols_in).
  split; [done|]. by rewrite <- (select_cols_get _ _ _ _ Hsel Hin).
Qed.

Lemma frame_select_get names df out n :
  frame_select names df = Ok out → n ∈ names → frame_get n out = frame_get n df.
Proof.
  unfold frame_select, frame_get. intros (cs & Hsel & [= <-])%res_bind_Ok Hin. simpl.
  by rewrite (select_cols_get _ _ _ _ Hsel Hin).
Qed.

Lemma take_cols_get (idxs : list nat) d cs n :
  res_map (λ kc, let? c := col_take idxs kc.2 in Ok (kc.1, c)) d = Ok cs →
  od_keys cs = od_keys d ∧
  match od_get n d with
  | Some c0 => ∃ c, od_get n cs = Some c ∧ col_take idxs c0 = Ok c
  | None => od_get n cs = None
  end.
Proof.
  revert cs. induction d as [|[k c0] d IH]; intros cs; simpl.
  - by intros [= <-].
  - destruct (col_take idxs c0) as [c|] eqn:Hc; [|done]. simpl.
    destruct (res_map _ d) as [cs'|]; [|done]. simpl. intros [= <-].
    destruct (IH cs' eq_refl) as [Hkeys Hget]. split.
    + unfold od_keys in *. simpl. by f_equal.
    + simpl. destruct (decide (k = n)); [by exists c|done].
Qed.

Lemma frame_take_Ok (idxs : list nat) df out :
  frame_take idxs df = Ok out →
  nrows out = length idxs ∧ columns out = columns df ∧
  ∀ n, match od_get n (cols df) with
       | Some c0 => ∃ c, od_get n (cols out) = Some c ∧ col_take idxs c0 = Ok c
       | None => od_get n (cols out) = None
       end.
Proof.
  unfold frame_take. intros (cs & Hcs & [= <-])%res_bind_Ok. simpl.
  split; [done|]. split; [by apply (take_cols_get idxs _ _ EmptyString)|].
  intros n. by apply take_cols_get.
Qed.

Lemma index_drop_Ok (labels index kept : list string) :
  index_drop labels index = Ok kept →
  kept = filter (λ c, c ∉ labels) index ∧ Forall (λ l, l ∈ index) labels.
Proof.
  unfold index_drop. destruct (list_find _ labels) as [[i l]|] eqn:Hfind; [done|].
  intros [= <-]. split; [done|].
  apply Forall_forall. intros l Hl.
  rewrite list_find_None in Hfind. rewrite Forall_forall in Hfind.
  specialize (Hfind l Hl). by destruct (decide (l ∈ index)).
Qed.
End frames.

(** ** Fitting: errors, the stored series and the static features *)

Section fit_claims.
Context `{Float V} `{Extern V}.

Lemma _fit_check_freq_Ok (time_column : Column V) (self s0 : TimeSeries V) u :
  _fit_check_freq time_column self = (Ok u, s0) →
  heap s0 = heap self ∧ target_transforms s0 = target_transforms self ∧
  features s0 = features self.
Proof.
  unfold _fit_check_freq, bindM, getM, warn, modifyM, raiseM, retM. simpl.
  destruct (is_datetime64_dtype time_column), (freq_is_one (freq self)); simpl;
    first [by intros [= _ <-] | by intros [=]].
Qed.

Lemma _fit_Ok (df : Frame V) (ic tc yc : string) (sf : option (list string))
    (k : option Z) (self self' : TimeSeries V) u :
  _fit df ic tc yc sf k self = (Ok u, self') →
  ∃ s0, _fit_store df ic tc yc sf k s0 = (Ok u, self') ∧
        heap s0 = heap self ∧ target_transforms s0 = target_transforms self ∧
        features s0 = features self.
Proof.
  unfold _fit. intros Hrun.
  apply bindM_Ok in Hrun as ([] & ? & [_ ->]%liftM_Ok & Hrun).
  apply bindM_Ok in Hrun as (target_column & ? & [_ ->]%liftM_Ok & Hrun).
  destruct (existsb id (col_isnull target_column)); [done|].
  apply bindM_Ok in Hrun as (time_column & ? & [_ ->]%liftM_Ok & Hrun).
  apply bindM_Ok in Hrun as ([] & s0 & Hcheck & Hrun).
  exists s0. split; [done|]. by eapply _fit_check_freq_Ok.
Qed.

(** X4.  [_fit] raises before it stores anything when the validation of
    the table raises and when the target column holds a null, then with
    a [ValueError] that names the column: the object is as it was.
    [fit_transform] raises the same error, with [dropna] already
    stored. *)
Theorem fit_rejects_null_target (pool : ThreadPool) (df : Frame V) (ic tc yc : string)
    (sf : option (list string)) (k : option Z) (self : TimeSeries V) :
  (∀ e, validate_format df ic tc yc = Raise e →
        _fit df ic tc yc sf k self = (Raise e, self)) ∧
  (∀ target_column,
     validate_format df ic tc yc = Ok () →
     frame_get yc df = Ok target_column →
     existsb id (col_isnull target_column) = true →
     let e := ValueError (yc +:+ " column contains null values.") in
     _fit df ic tc yc sf k self = (Raise e, self) ∧
     ∀ dropna max_horizon return_X_y,
       @fit_transform V _ _ pool df ic tc yc sf dropna k max_horizon return_X_y self =
       (Raise e, set_dropna dropna self)).
Proof.
  split.
  - intros e He. unfold _fit, bindM, liftM. by rewrite He.
  - intros target_column Hv Hget Hnull e.
    assert (∀ s : TimeSeries V, _fit df ic tc yc sf k s = (Raise e, s)) as Hfit.
    { intros s. unfold _fit, bindM, liftM, raiseM. by rewrite Hv, Hget, Hnull. }
    split; [apply Hfit|]. intros dropna mh rxy.
    unfold fit_transform. unfold bindM at 1. unfold modifyM at 1.
    unfold bindM at 1. by rewrite Hfit.
Qed.

(** X5.  After a [_fit] that returned, [restore_idxs] has one integer
    per row of the table.  When the rows were sorted by a permutation,
    the entry of a row is its position in the sorted order as a signed
    32-bit integer, and for a table of at most 2^31 rows it undoes the
    sorting: taking the rows of an array in sorted order and then at
    [restore_idxs] gives the array back.  When the rows were in order
    already, taking an array at [restore_idxs] gives the array. *)
Theorem fit_restore_idxs_undo_sorting (df : Frame V) (ic tc yc : string)
    (sf : option (list string)) (k : option Z) (self self' : TimeSeries V) :
  _fit df ic tc yc sf k self = (Ok (), self') →
  ∃ sorted0 p,
    frame_select [ic; tc; yc] df = Ok sorted0 ∧
    process sorted0 ic tc yc = Ok p ∧
    length (restore_idxs self') = nrows df ∧
    match p_sort_idxs p with
    | Some sort_idxs =>
        sort_idxs ≡ₚ seq 0 (nrows df) →
        (∀ i s, sort_idxs !! i = Some s →
                restore_idxs self' !! s
                = Some ((Z.of_nat i + 2 ^ 31) `mod` 2 ^ 32 - 2 ^ 31)%Z) ∧
        ((Z.of_nat (nrows df) ≤ 2 ^ 31)%Z →
         ∀ A (x : list A), length x = nrows df →
           ∃ sorted, np_take x sort_idxs = Ok sorted ∧
                     np_take_int sorted (restore_idxs self') = Ok x)
    | None =>
        ∀ A (x : list A), length x = nrows df →
          np_take_int x (restore_idxs self') = Ok x
    end.
Proof.
  intros Hrun. apply _fit_Ok in Hrun as (s0 & Hstore & _).
  apply _fit_store_Ok in Hstore
    as (sorted0 & p & sorted1 & sorted & values & names & to_drop & last_idxs & last_rows
        & statics & kept & Hsel & Hp & Hsort & _).
  exists sorted0, p. split; [done|]. split; [done|].
  destruct (p_sort_idxs p) as [sort_idxs|].
  - destruct Hsort as (Hrestore & _). split.
    + revert Hrestore. unfold scatter_arange. destruct (decide _); [|done].
      intros [= <-]. by rewrite scatter_length, length_replicate.
    + intros Hperm. split.
      * destruct (scatter_arange_inverse _ _ Hperm) as (r & Hr & _ & Hinv).
        assert (r = restore_idxs self') as -> by congruence. exact Hinv.
      * intros Hn A x Hx. by eapply restore_round_trip.
  - destruct Hsort as (-> & _). split; [by rewrite length_fmap, length_seq|].
    intros A x <-. apply np_take_int_arange.
Qed.

(** X6.  After a [_fit] that returned, the ids and the last dates are
    those of the processed table, the working copy and the ground
    truth are one pair of arrays, which exist, and no array that
    existed has changed.  The group index is the one of the processed
    table, and for a float target and without target transforms the
    values are the target column in sorted order. *)
Theorem fit_stores_the_series (df : Frame V) (ic tc yc : string)
    (sf : option (list string)) (k : option Z) (self self' : TimeSeries V) :
  _fit df ic tc yc sf k self = (Ok (), self') →
  ∃ sorted0 p,
    frame_select [ic; tc; yc] df = Ok sorted0 ∧
    process sorted0 ic tc yc = Ok p ∧
    id_col self' = ic ∧ time_col self' = tc ∧ target_col self' = yc ∧
    uids self' = p_uids p ∧ last_dates self' = p_times p ∧
    _ga self' = ga self' ∧ ground_truth_valid self' ∧
    heap self `prefix_of` heap self' ∧
    indptr (ga_load (heap self') (ga self')) = p_indptr p ∧
    ∀ y, frame_get yc df = Ok (ColFloat y) → target_transforms self = None →
         match p_sort_idxs p with
         | Some sort_idxs => np_take y sort_idxs = Ok (data (ga_load (heap self') (ga self')))
         | None => data (ga_load (heap self') (ga self')) = y
         end.
Proof.
  intros Hrun. apply _fit_Ok in Hrun as (s0 & Hstore & Hheap & Htt & _).
  apply _fit_store_Ok in Hstore
    as (sorted0 & p & sorted1 & sorted & values & names & to_drop & last_idxs & last_rows
        & statics & kept & Hsel & Hp & Hsort & Htfms & Hdata & _ & _ & _ & _ & Hself).
  assert (ga_load (heap self') (ga self') = {| data := values; indptr := p_indptr p |})
    as Hload.
  { rewrite Hself. simpl. exact (ga_load_alloc_eq (heap s0) {| data := values |}). }
  rewrite Hload. rewrite Hself. simpl. rewrite Hheap in *. rewrite Htt in Htfms.
  exists sorted0, p. split_and!; try done.
  - unfold ground_truth_valid. simpl. rewrite length_app. simpl. lia.
  - by apply prefix_app_r.
  - intros y Hy Hnone.
    rewrite Hnone in Htfms. injection Htfms as <-.
    apply res_bind_Ok in Hdata as (c & Hc & Hfloats).
    assert (frame_get yc sorted0 = Ok (ColFloat y)) as Hy0.
    { rewrite (frame_select_get _ _ _ yc Hsel); [done|]. set_solver. }
    destruct (p_sort_idxs p) as [sort_idxs|].
    + destruct Hsort as (_ & Htake & _).
      destruct (frame_take_Ok _ _ _ Htake) as (_ & _ & Hget). specialize (Hget yc).
      unfold frame_get in Hy0, Hc.
      destruct (od_get yc (cols sorted0)) as [c0|]; [|done]. injection Hy0 as ->.
      destruct Hget as (c' & Hc' & Hcol). rewrite Hc' in Hc. injection Hc as ->.
      simpl in Hcol. destruct (np_take y sort_idxs) as [y'|]; [|done].
      injection Hcol as <-. simpl in Hfloats. by injection Hfloats as ->.
    + destruct Hsort as (_ & -> & _). rewrite Hy0 in Hc. injection Hc as <-.
      simpl in Hfloats. by injection Hfloats as ->.
Qed.
End fit_claims.

Section fit_statics.
Context `{Float V} `{Extern V}.

(** X7.  After a [_fit] that returned, the table of static features has
    one row per series and the columns that [static_features] names,
    with the id column put first when it is not among them, or, when
    no static features are given, every column of the input but the
    time and the target.  Each column holds the values of the input at
    the last row of each series. *)
Theorem fit_static_features (df : Frame V) (ic tc yc : string)
    (sf : option (list string)) (k : option Z) (self self' : TimeSeries V) :
  _fit df ic tc yc sf k self = (Ok (), self') →
  ∃ sorted0 p last_idxs,
    frame_select [ic; tc; yc] df = Ok sorted0 ∧
    process sorted0 ic tc yc = Ok p ∧
    match p_sort_idxs p with
    | Some sort_idxs => np_take sort_idxs (pred <$> drop 1 (p_indptr p)) = Ok last_idxs
    | None => last_idxs = pred <$> drop 1 (p_indptr p)
    end ∧
    nrows (static_features_ self') = length (p_indptr p) - 1 ∧
    columns (static_features_ self') =
      match sf with
      | None => filter (λ c, c ∉ [tc; yc]) (columns df)
      | Some given => if decide (ic ∈ given) then given else ic :: given
      end ∧
    ∀ name c, od_get name (cols (static_features_ self')) = Some c →
              ∃ c0, od_get name (cols df) = Some c0 ∧ col_take last_idxs c0 = Ok c.
Proof.
  intros Hrun. apply _fit_Ok in Hrun as (s0 & Hstore & _).
  apply _fit_store_Ok in Hstore
    as (sorted0 & p & sorted1 & sorted & values & names & to_drop & last_idxs & last_rows
        & statics & kept & Hsel & Hp & Hsort & _ & _ & Hnames & Hrows & Hstatics & _ & ->).
  simpl. exists sorted0, p, last_idxs.
  destruct (frame_take_Ok _ _ _ Hrows) as (Hn & _ & Hget).
  destruct (frame_select_Ok _ _ _ Hstatics) as (Hn' & Hcols & Hget').
  assert (length last_idxs = length (p_indptr p) - 1) as Hlen.
  { destruct (p_sort_idxs p) as [sort_idxs|].
    - destruct Hsort as (_ & _ & Htake). apply np_take_length in Htake.
      by rewrite Htake, length_fmap, length_drop.
    - destruct Hsort as (_ & _ & ->). by rewrite length_fmap, length_drop. }
  split_and!; try done.
  - destruct (p_sort_idxs p); by destruct Hsort as (_ & _ & ?).
  - congruence.
  - rewrite Hcols. destruct sf as [given|].
    + by destruct (decide (ic ∈ given)); destruct Hnames as [-> _].
    + destruct Hnames as [Hdrop _]. by apply index_drop_Ok in Hdrop as [-> _].
  - intros name c Hc. apply Hget' in Hc as [_ Hc]. specialize (Hget name).
    destruct (od_get name (cols df)) as [c0|]; [|congruence].
    destruct Hget as (c' & Hc' & Htake). exists c0. split; [done|]. congruence.
Qed.

(** X8.  After a [_fit] that returned, the order of the features is
    the columns of the input in their order, without the time and the
    target and, unless [static_features] lists the id column, without
    the id, followed by the names of the computed features. *)
Theorem fit_features_order (df : Frame V) (ic tc yc : string)
    (sf : option (list string)) (k : option Z) (self self' : TimeSeries V) :
  _fit df ic tc yc sf k self = (Ok (), self') →
  let to_drop :=
    match sf with
    | Some given => if decide (ic ∈ given) then [tc; yc] else [ic; tc; yc]
    | None => [ic; tc; yc]
    end in
  features_order_ self' = filter (λ c, c ∉ to_drop) (columns df) ++ features self ∧
  features self' = features self ∧
  Forall (λ c, c ∈ columns df) to_drop.
Proof.
  intros Hrun to_drop. apply _fit_Ok in Hrun as (s0 & Hstore & _ & _ & Hfeats).
  apply _fit_store_Ok in Hstore
    as (sorted0 & p & sorted1 & sorted & values & names & to_drop' & last_idxs & last_rows
        & statics & kept & _ & _ & _ & _ & _ & Hnames & _ & _ & Hkept & ->).
  assert (to_drop' = to_drop) as ->.
  { subst to_drop. destruct sf as [given|].
    - by destruct (decide (ic ∈ given)); destruct Hnames as [_ ->].
    - by destruct Hnames as [_ ->]. }
  apply index_drop_Ok in Hkept as [-> Hall]. simpl. by rewrite Hfeats.
Qed.
End fit_statics.

(** X4 on the two series with a null in the target of B. *)
Lemma fit_rejects_null_target_witness :
  let df := {| nrows := 2;
               cols := [("unique_id", ColStr ["A"; "B"]); ("ds", ColInt [1; 1]%Z);
                        ("y", ColFloat [Some 1%Z; None])] |} in
  _fit df "unique_id" "ds" "y" None None demo_new =
  (Raise (ValueError "y column contains null values."), demo_new).
Proof.
  intros df.
  destruct (fit_rejects_null_target pool_in_order df "unique_id" "ds" "y" None None demo_new)
    as [_ Hnull].
  destruct (Hnull (ColFloat [Some 1%Z; None])) as [Hfit _]; [reflexivity..|].
  exact Hfit.
Defined.

(** X5 on the shuffled rows of A and B: the labels of the rows, taken in
    sorted order and then at [restore_idxs], are back in place. *)
Lemma fit_restore_idxs_undo_sorting_witness :
  restore_idxs demo_shuffled = [4; 0; 3; 1; 2]%Z ∧
  ∃ sorted, np_take ["b2"; "a1"; "b1"; "a2"; "a3"] [1; 3; 4; 2; 0] = Ok sorted ∧
            np_take_int sorted (restore_idxs demo_shuffled)
            = Ok ["b2"; "a1"; "b1"; "a2"; "a3"].
Proof.
  split; [vm_compute; reflexivity|].
  destruct (@fit_restore_idxs_undo_sorting _ _ sorting_extern shuffled_df "unique_id" "ds" "y"
              None None demo_new demo_shuffled) as (sorted0 & p & Hsel & Hp & _ & Hback).
  - vm_compute. reflexivity.
  - vm_compute in Hsel. injection Hsel as <-.
    vm_compute in Hp. injection Hp as <-.
    destruct Hback as [_ Hback]; [simpl; solve_Permutation|].
    apply (Hback ltac:(vm_compute; discriminate) string ["b2"; "a1"; "b1"; "a2"; "a3"] eq_refl).
Defined.

(** X6 on the shuffled rows: the stored values are the target in sorted
    order. *)
Lemma fit_stores_the_series_witness :
  uids demo_shuffled = ["A"; "B"] ∧
  _ga demo_shuffled = ga demo_shuffled ∧
  np_take (Some <$> [20; 1; 10; 2; 3]%Z) [1; 3; 4; 2; 0] =
  Ok (data (ga_load (heap demo_shuffled) (ga demo_shuffled))).
Proof.
  destruct (@fit_stores_the_series _ _ sorting_extern shuffled_df "unique_id" "ds" "y"
              None None demo_new demo_shuffled)
    as (sorted0 & p & Hsel & Hp & _ & _ & _ & Huids & _ & Hga & _ & _ & _ & Hdata).
  - vm_compute. reflexivity.
  - vm_compute in Hsel. injection Hsel as <-.
    vm_compute in Hp. injection Hp as <-.
    split; [exact Huids|]. split; [exact Hga|].
    exact (Hdata (Some <$> [20; 1; 10; 2; 3]%Z) eq_refl eq_refl).
Defined.

(** X7 on the shuffled rows: one row per series, with the id. *)
Lemma fit_static_features_witness :
  nrows (static_features_ demo_shuffled) = 2 ∧
  columns (static_features_ demo_shuffled) = ["unique_id"].
Proof.
  destruct (@fit_static_features _ _ sorting_extern shuffled_df "unique_id" "ds" "y"
              None None demo_new demo_shuffled)
    as (sorted0 & p & last_idxs & Hsel & Hp & _ & Hn & Hcols & _).
  - vm_compute. reflexivity.
  - vm_compute in Hsel. injection Hsel as <-.
    vm_compute in Hp. injection Hp as <-.
    split; [exact Hn|exact Hcols].
Defined.

(** X8 on the shuffled rows: no column of the input is a feature, the
    lag is. *)
Lemma fit_features_order_witness :
  features_order_ demo_shuffled = ["lag1"].
Proof.
  destruct (@fit_features_order _ _ sorting_extern shuffled_df "unique_id" "ds" "y"
              None None demo_new demo_shuffled) as (Horder & _).
  - vm_compute. reflexivity.
  - exact Horder.
Defined.

(** ** Forecasting: what fitting stored is left alone *)

#[global] Instance same_fit_preorder {V} : PreOrder (@same_fit V).
Proof. split; [by intros ?|]. intros x y z. unfold same_fit. congruence. Qed.

#[global] Instance same_selection_preorder {V} : PreOrder (@same_selection V).
Proof.
  split; [by intros ?|]. intros x y z (? & ? & ?) (? & ? & ?).
  split; [by etrans|]. split; congruence.
Qed.

Lemma same_selection_fit {V} {A} (m : M V A) :
  preserves same_selection m → preserves same_fit m.
Proof. intros Hm self. by destruct (Hm self). Qed.

Ltac preserves_leaf ::=
  unfold same_freq, more_warnings, same_setup, same_ground_truth, same_arrays,
    same_selection, same_fit, fit_fields;
  simpl;
  first [done | reflexivity | repeat split; first [done | reflexivity]].

Section selection_frame.
Context `{Float V} `{Extern V} (pool : ThreadPool).

Lemma new_grouped_array_same_selection (g : GroupedArray V) :
  preserves same_selection (new_grouped_array g).
Proof. by intros self. Qed.

Lemma _apply_transforms_same_selection updates_only :
  preserves same_selection (_apply_transforms updates_only).
Proof. by intros self. Qed.

Lemma _apply_multithreaded_transforms_same_selection updates_only :
  preserves same_selection (@_apply_multithreaded_transforms V _ pool updates_only).
Proof. by intros self. Qed.

Hint Resolve new_grouped_array_same_selection _apply_transforms_same_selection
  _apply_multithreaded_transforms_same_selection : preserves.

Lemma _update_features_same_selection :
  preserves same_selection (@_update_features V _ _ pool).
Proof. unfold _update_features. preserves_tac. Qed.

Hint Resolve _update_features_same_selection : preserves.

Lemma _get_features_for_next_step_same_selection dynamic_dfs X_df :
  preserves same_selection (@_get_features_for_next_step V _ _ pool dynamic_dfs X_df).
Proof. unfold _get_features_for_next_step. preserves_tac. Qed.

Lemma _get_raw_predictions_same_selection :
  preserves same_selection (@_get_raw_predictions V).
Proof. unfold _get_raw_predictions. preserves_tac. Qed.

Hint Resolve _get_features_for_next_step_same_selection
  _get_raw_predictions_same_selection : preserves.

Lemma _get_predictions_same_selection : preserves same_selection (@_get_predictions V).
Proof. unfold _get_predictions. preserves_tac. Qed.

Lemma _update_y_same_selection (new : list V) : preserves same_selection (_update_y new).
Proof. unfold _update_y. preserves_tac. Qed.

Lemma _predict_setup_same_selection : preserves same_selection (@_predict_setup V).
Proof. unfold _predict_setup. preserves_tac. Qed.

Hint Resolve _get_predictions_same_selection _update_y_same_selection
  _predict_setup_same_selection : preserves.

Lemma _predict_recursive_step_same_selection model dynamic_dfs before after X_df :
  preserves same_selection
    (@_predict_recursive_step V _ _ pool model dynamic_dfs before after X_df).
Proof. unfold _predict_recursive_step. preserves_tac. Qed.

Hint Resolve _predict_recursive_step_same_selection : preserves.

Lemma _predict_recursive_models_same_selection models horizon dynamic_dfs before after
    X_df preds :
  preserves same_selection
    (@_predict_recursive_models V _ _ pool models horizon dynamic_dfs before after X_df
       preds).
Proof.
  revert preds. induction models as [|[name model] models IH]; intros preds; simpl.
  - preserves_tac.
  - preserves_tac.
Qed.

Hint Resolve _predict_recursive_models_same_selection : preserves.

Lemma _predict_recursive_same_selection models horizon dynamic_dfs before after X_df :
  preserves same_selection
    (@_predict_recursive V _ _ pool models horizon dynamic_dfs before after X_df).
Proof. unfold _predict_recursive. preserves_tac. Qed.

Lemma _predict_multi_models_same_selection models horizon dynamic_dfs before X_df result :
  preserves same_selection
    (@_predict_multi_models V _ _ pool models horizon dynamic_dfs before X_df result).
Proof.
  revert result. induction models as [|[name model] models IH]; intros result; simpl.
  - preserves_tac.
  - preserves_tac.
Qed.

Hint Resolve _predict_multi_models_same_selection : preserves.

Lemma _predict_multi_same_selection models horizon dynamic_dfs before X_df :
  preserves same_selection
    (@_predict_multi V _ _ pool models horizon dynamic_dfs before X_df).
Proof. unfold _predict_multi. preserves_tac. Qed.

Lemma X_df_window_same_selection X_df horizon last_dates :
  preserves same_selection (X_df_window X_df horizon last_dates).
Proof. unfold X_df_window. preserves_tac. Qed.

Hint Resolve X_df_window_same_selection : preserves.

Lemma predict_check_X_df_same_selection X_df horizon last_dates :
  preserves same_selection (predict_check_X_df X_df horizon last_dates).
Proof. unfold predict_check_X_df. preserves_tac. Qed.

Lemma predict_select_ids_same_fit ids : preserves same_fit (@predict_select_ids V ids).
Proof. unfold predict_select_ids. preserves_tac. Qed.

Hint Resolve predict_check_X_df_same_selection _predict_recursive_same_selection
  _predict_multi_same_selection : preserves.

(** [predict] after the selection of the series and before the selection
    is deleted. *)
Lemma predict_body_same_selection models horizon dynamic_dfs before after X_df last_dates
    {A} (k : Frame V → M V A) :
  (∀ preds, preserves same_selection (k preds)) →
  preserves same_selection
    (let* X_df :=
       match X_df with
       | Some X_df =>
           let* X_df := predict_check_X_df X_df horizon last_dates in
           retM (Some X_df)
       | None => retM None
       end in
     let* mh := getM max_horizon in
     let* preds :=
       match mh with
       | None => @_predict_recursive V _ _ pool models horizon dynamic_dfs before after X_df
       | Some _ => @_predict_multi V _ _ pool models horizon dynamic_dfs before X_df
       end in
     let* tfms := getM target_transforms in
     let* preds :=
       match tfms with
       | Some tfms =>
           let* idxs := attr "_idxs" _idxs in
           liftM (inverse_target_transforms (reverse tfms) idxs preds)
       | None => retM preds
       end in
     k preds).
Proof. intros Hk. preserves_tac. Qed.
End selection_frame.

Section predict_claims.
Context `{Float V} `{Extern V} (pool : ThreadPool).

Hint Resolve predict_check_X_df_same_selection _predict_recursive_same_selection
  _predict_multi_same_selection predict_select_ids_same_fit same_selection_fit : preserves.

Lemma bindM_run {A B} (m : M V A) (k : A → M V B) (self self' : TimeSeries V) r :
  bindM m k self = (r, self') →
  (∃ a s, m self = (Ok a, s) ∧ k a s = (r, self')) ∨
  (∃ e, m self = (Raise e, self') ∧ r = Raise e).
Proof.
  unfold bindM. destruct (m self) as [[a|e] s]; intros Hrun.
  - left. by exists a, s.
  - right. exists e. by injection Hrun as <- <-.
Qed.

Lemma preserves_run {A} (R : relation (TimeSeries V)) (m : M V A) (self self' : TimeSeries V)
    r :
  preserves R m → m self = (r, self') → R self self'.
Proof. intros Hm Hrun. specialize (Hm self). by rewrite Hrun in Hm. Qed.

(** X9.  [predict] changes nothing of what the constructor configured
    and of what fitting stored, however it ends: the frequency, the
    lags and transforms, the date features, the number of threads, the
    target transforms, the names of the columns, [keep_last_n], the
    static features, the ids and last dates of the series, the order of
    the features, [dropna] and [max_horizon] are as they were. *)
Theorem predict_keeps_what_fit_stored (models : list (string * Model V)) (horizon : nat)
    (dynamic_dfs : option (list (Frame V)))
    (before_predict_callback : option (Frame V → res (Frame V)))
    (after_predict_callback : option (list string → list V → res (list V)))
    (X_df : option (Frame V)) (ids : option (list string)) (self : TimeSeries V) :
  same_fit self
    (@predict V _ _ pool models horizon dynamic_dfs before_predict_callback
              after_predict_callback X_df ids self).2.
Proof.
  revert self. change (preserves same_fit
    (@predict V _ _ pool models horizon dynamic_dfs before_predict_callback
              after_predict_callback X_df ids)).
  unfold predict. preserves_tac.
Qed.

(** X10.  A [predict] that returns has deleted the selection of the
    series, [_uids] and [_idxs].  A [predict] that raises has not: when
    the ids are refused the object is as it was, and when the error
    comes later the selection stays on the object, the ids to forecast
    in the order of the fitted ids. *)
Theorem predict_deletes_the_selection (models : list (string * Model V)) (horizon : nat)
    (dynamic_dfs : option (list (Frame V)))
    (before_predict_callback : option (Frame V → res (Frame V)))
    (after_predict_callback : option (list string → list V → res (list V)))
    (X_df : option (Frame V)) (ids : option (list string)) (self self' : TimeSeries V)
    (r : res (Frame V)) :
  @predict V _ _ pool models horizon dynamic_dfs before_predict_callback
           after_predict_callback X_df ids self = (r, self') →
  match r with
  | Ok _ => _uids self' = None ∧ _idxs self' = None
  | Raise e =>
      match ids with
      | Some ids =>
          if decide (Forall (λ i, i ∈ uids self) ids)
          then _uids self' = Some (filter (λ u, u ∈ ids) (uids self))
          else self' = self
      | None => _uids self' = Some (uids self)
      end
  end.
Proof.
  unfold predict. intros Hrun.
  apply bindM_run in Hrun as [(ld & ready & Hsel & Hrun)|(e & Hsel & ->)].
  - assert (_uids ready = Some match ids with
                                | Some ids => filter (λ u, u ∈ ids) (uids self)
                                | None => uids self
                                end ∧
            match ids with
            | Some ids => Forall (λ i, i ∈ uids self) ids
            | None => True
            end) as [Hready Hids].
    { revert Hsel. unfold predict_select_ids. destruct ids as [ids|].
      - unfold bindM at 1. unfold getM at 1.
        destruct (filter (λ i, i ∉ uids self) ids) as [|i unseen] eqn:Hunseen; [|done].
        unfold bindM, modifyM, getM, liftM. simpl. intros [= _ <-]. split; [done|].
        apply Forall_forall. intros i Hi.
        destruct (decide (i ∈ uids self)) as [|Hnotin]; [done|].
        assert (i ∈ filter (λ i, i ∉ uids self) ids) as Hin
          by (by apply list_elem_of_filter).
        rewrite Hunseen in Hin. by apply elem_of_nil in Hin.
      - unfold bindM, modifyM, getM. simpl. by intros [= _ <-]. }
    assert (match r with
            | Ok _ => _uids self' = None ∧ _idxs self' = None
            | Raise _ => same_selection ready self'
            end) as Hend.
    { apply bindM_run in Hrun as [(X & s1 & H1 & Hrun)|(e & H1 & ->)].
      2: { eapply preserves_run; [|exact H1]. preserves_tac. }
      assert (same_selection ready s1) as R1
        by (eapply preserves_run; [|exact H1]; preserves_tac).
      apply bindM_run in Hrun as [(mh & s2 & [-> ->]%getM_Ok & Hrun)|(e & [=] & _)].
      apply bindM_run in Hrun as [(preds & s3 & H3 & Hrun)|(e & H3 & ->)].
      2: { etrans; [exact R1|]. eapply preserves_run; [|exact H3]. preserves_tac. }
      assert (same_selection s1 s3) as R3
        by (eapply preserves_run; [|exact H3]; preserves_tac).
      apply bindM_run in Hrun as [(tfms & s4 & [-> ->]%getM_Ok & Hrun)|(e & [=] & _)].
      apply bindM_run in Hrun as [(preds' & s5 & H5 & Hrun)|(e & H5 & ->)].
      2: { etrans; [exact R1|]. etrans; [exact R3|].
           eapply preserves_run; [|exact H5]. preserves_tac. }
      unfold bindM, modifyM, retM in Hrun. by injection Hrun as <- <-. }
    destruct r as [preds|e]; [done|].
    destruct Hend as (_ & Hu & _). rewrite Hu, Hready.
    destruct ids as [ids|]; [|done]. by rewrite decide_True.
  - revert Hsel. unfold predict_select_ids. destruct ids as [ids|].
    + unfold bindM at 1. unfold getM at 1.
      destruct (filter (λ i, i ∉ uids self) ids) as [|i unseen] eqn:Hunseen.
      * unfold bindM, modifyM, getM, liftM. simpl. intros [= Htake <-].
        by rewrite decide_True
          by (apply Forall_forall; intros i Hi; destruct (decide (i ∈ uids self)) as [|Hn];
              [done|];
              assert (i ∈ filter (λ i, i ∉ uids self) ids) as Hin
                by (by apply list_elem_of_filter);
              rewrite Hunseen in Hin; by apply elem_of_nil in Hin).
      * unfold raiseM. intros [= _ <-]. rewrite decide_False; [done|].
        intros Hall. rewrite Forall_forall in Hall.
        assert (i ∈ filter (λ i, i ∉ uids self) ids) as Hin by (rewrite Hunseen; by left).
        apply list_elem_of_filter in Hin as [Hnotin Hin]. by apply Hnotin, Hall.
    + unfold bindM, modifyM, getM. simpl. by intros [=].
Qed.
End predict_claims.

(** X10 on the fitted two series: a forecast with a model that is a list,
    where recursive forecasting wants one estimator, raises and leaves
    the selection behind. *)
Lemma predict_deletes_the_selection_witness :
  let run := @predict _ _ _ pool_in_order [("m", horizon_models)] 1 None None None None None
                      demo_fitted in
  run.1 = Raise (Exception "AttributeError" "'list' object has no attribute 'predict'") ∧
  _uids run.2 = Some (uids demo_fitted) ∧
  uids demo_fitted = ["A"; "B"].
Proof.
  intros run.
  assert (@predict _ _ _ pool_in_order [("m", horizon_models)] 1 None None None None None
                   demo_fitted
          = (Raise (Exception "AttributeError" "'list' object has no attribute 'predict'"),
             run.2)) as Hrun by (vm_compute; reflexivity).
  split; [vm_compute; reflexivity|]. split; [|vm_compute; reflexivity].
  exact (predict_deletes_the_selection pool_in_order [("m", horizon_models)] 1 None None None
           None None demo_fitted run.2 _ Hrun).
Defined.

(** ** Forecasting: the selection of the series *)

Section np_where_facts.
Context {A : Type}.

Lemma np_where_aux (p : A → bool) (x : list A) :
  ∀ pre, Forall2 (λ i a, (pre ++ x) !! i = Some a)
           (filter (λ ia, p ia.2 = true) (imap (λ i a, (length pre + i, a)) x)).*1
           (filter (λ a, p a = true) x).
Proof.
  induction x as [|a x IH]; intros pre; [constructor|].
  rewrite imap_cons.
  assert (imap ((λ i b, (length pre + i, b)) ∘ S) x
          = imap (λ i b, (length (pre ++ [a]) + i, b)) x) as ->.
  { apply imap_ext. intros i b _. simpl. rewrite length_app. simpl. f_equal. lia. }
  specialize (IH (pre ++ [a])). rewrite <- app_assoc in IH. simpl in IH.
  rewrite !filter_cons. simpl. destruct (decide (p a = true)); [|done].
  simpl. constructor; [|done].
  rewrite lookup_app_r by lia. by replace (length pre + 0 - length pre) with 0 by lia.
Qed.

Lemma np_take_where (p : A → bool) (x : list A) :
  np_take x (np_where p x) = Ok (filter (λ a, p a = true) x).
Proof. apply np_take_Forall2. apply (np_where_aux p x []). Qed.
End np_where_facts.

Section select_claims.
Context `{Float V} `{Extern V} (pool : ThreadPool).

Lemma filter_ext_in {A} (P Q : A → Prop) `{∀ x, Decision (P x)} `{∀ x, Decision (Q x)}
    (l : list A) :
  (∀ x, x ∈ l → P x ↔ Q x) → filter P l = filter Q l.
Proof.
  induction l as [|a l IH]; intros Hext; [done|].
  rewrite !filter_cons.
  assert (P a ↔ Q a) as Ha by (apply Hext; by left).
  rewrite IH by (intros x Hx; apply Hext; by right).
  destruct (decide (P a)), (decide (Q a)); tauto.
Qed.

Lemma selected_positions (ids us : list string) :
  np_take us (np_where (λ u, bool_decide (u ∈ filter (λ u, u ∈ ids) us)) us)
  = Ok (filter (λ u, u ∈ ids) us).
Proof.
  rewrite np_take_where. f_equal. apply filter_ext_in. intros u Hu.
  rewrite bool_decide_eq_true, list_elem_of_filter. tauto.
Qed.

(** X11.  [predict] for a list of ids of which one was not fitted raises
    a [ValueError] and leaves the object as it was.  When all were
    fitted the series to forecast are the fitted ids that the list
    holds, in the order of the fitted ids and each once, at the
    positions of these ids among the fitted ids; so two lists with the
    same ids select the same. *)
Theorem predict_selects_in_fitted_order (ids : list string) (self : TimeSeries V) :
  let unseen := filter (λ i, i ∉ uids self) ids in
  let selected := filter (λ u, u ∈ ids) (uids self) in
  (unseen ≠ [] →
   ∀ models horizon dynamic_dfs before_predict_callback after_predict_callback X_df,
   ∃ msg,
     @predict V _ _ pool models horizon dynamic_dfs before_predict_callback
              after_predict_callback X_df (Some ids) self = (Raise (ValueError msg), self)) ∧
  (unseen = [] →
   ∃ idxs,
     predict_select_ids (Some ids) self =
       (col_take idxs (last_dates self),
        set__idxs (Some (Some idxs)) (set__uids (Some selected) self)) ∧
     np_take (uids self) idxs = Ok selected ∧
     ∀ ids', (∀ u, u ∈ ids ↔ u ∈ ids') →
             predict_select_ids (Some ids') self = predict_select_ids (Some ids) self).
Proof.
  intros unseen selected.
  assert (∀ ids0, filter (λ i, i ∉ uids self) ids0 = [] →
            predict_select_ids (Some ids0) self =
            (col_take (np_where (λ u, bool_decide (u ∈ filter (λ u, u ∈ ids0) (uids self)))
                                (uids self))
                      (last_dates self),
             set__idxs (Some (Some (np_where
                          (λ u, bool_decide (u ∈ filter (λ u, u ∈ ids0) (uids self)))
                          (uids self))))
               (set__uids (Some (filter (λ u, u ∈ ids0) (uids self))) self))) as Hselect.
  { intros ids0 Hnil. unfold predict_select_ids, bindM, getM, modifyM, liftM.
    by rewrite Hnil. }
  split.
  - intros Hne models horizon dynamic_dfs before after X_df.
    unfold predict, predict_select_ids, bindM, getM, raiseM.
    subst unseen. destruct (filter _ ids); [done|]. by eexists.
  - intros Hnil. eexists. split_and!.
    + by apply Hselect.
    + apply selected_positions.
    + intros ids' Hsame. rewrite !Hselect; [|done|].
      * by rewrite (filter_ext_in (λ u, u ∈ ids') (λ u, u ∈ ids) (uids self))
          by (intros u _; symmetry; apply Hsame).
      * apply filter_none, Forall_forall. intros i Hi Hnotin. apply Hnotin.
        destruct (decide (i ∈ uids self)) as [|Hn]; [done|].
        assert (i ∈ unseen) as Hin.
        { apply list_elem_of_filter. split; [done|]. by apply Hsame. }
        rewrite Hnil in Hin. by apply elem_of_nil in Hin.
Qed.
End select_claims.

(** ** Forecasting: the horizon and the models at the edges *)

Section edges.
Context `{Float V} `{Extern V} (pool : ThreadPool).

Hint Resolve predict_check_X_df_same_selection _predict_recursive_same_selection
  _predict_multi_same_selection predict_select_ids_same_fit same_selection_fit : preserves.

Lemma same_fit_max_horizon (self self' : TimeSeries V) :
  same_fit self self' → max_horizon self' = max_horizon self.
Proof. unfold same_fit, fit_fields. intros [=]. assumption. Qed.

Lemma same_fit_target_transforms (self self' : TimeSeries V) :
  same_fit self self' → target_transforms self' = target_transforms self.
Proof. unfold same_fit, fit_fields. intros [=]. assumption. Qed.

(** X12.  In direct forecasting a horizon beyond [max_horizon] is
    refused: [_predict_multi] raises a [ValueError] that gives
    [max_horizon] before it does anything, and so does [predict]
    without exogenous table once the series are selected. *)
Theorem direct_horizon_is_bounded (models : list (string * Model V)) (horizon : nat)
    (dynamic_dfs : option (list (Frame V)))
    (before_predict_callback : option (Frame V → res (Frame V)))
    (after_predict_callback : option (list string → list V → res (list V)))
    (ids : option (list string)) (self ready : TimeSeries V) (mh : nat)
    (last_dates : Column V) :
  max_horizon self = Some mh →
  mh < horizon →
  predict_select_ids ids self = (Ok last_dates, ready) →
  let e := ValueError ("horizon must be at most max_horizon (" +:+ pretty mh +:+ ")") in
  (∀ X_df, @_predict_multi V _ _ pool models horizon dynamic_dfs before_predict_callback
                           X_df self = (Raise e, self)) ∧
  @predict V _ _ pool models horizon dynamic_dfs before_predict_callback
           after_predict_callback None ids self = (Raise e, ready).
Proof.
  intros Hmh Hlt Hsel e.
  assert (∀ X_df (s : TimeSeries V), max_horizon s = Some mh →
            @_predict_multi V _ _ pool models horizon dynamic_dfs before_predict_callback
                            X_df s = (Raise e, s)) as Hmulti.
  { intros X_df s Hs. unfold _predict_multi, bindM, getM, raiseM. rewrite Hs.
    by rewrite decide_True. }
  split; [intros X_df; by apply Hmulti|].
  assert (max_horizon ready = Some mh) as Hready.
  { rewrite <- Hmh. apply same_fit_max_horizon.
    eapply preserves_run; [|exact Hsel]. preserves_tac. }
  unfold predict. unfold bindM at 1. rewrite Hsel.
  unfold bindM at 1. unfold retM at 1. unfold bindM at 1. unfold getM at 1.
  rewrite Hready. unfold bindM at 1. by rewrite Hmulti.
Qed.

(** X13.  Without models, recursive forecasting raises for want of a
    table of predictions once the series are selected, after no
    simulation at all; direct forecasting, when it returns, returns the
    table of the ids and the dates alone. *)
Theorem predict_without_models (horizon : nat)
    (dynamic_dfs : option (list (Frame V)))
    (before_predict_callback : option (Frame V → res (Frame V)))
    (after_predict_callback : option (list string → list V → res (list V)))
    (ids : option (list string)) (self ready : TimeSeries V) (last_dates : Column V) :
  predict_select_ids ids self = (Ok last_dates, ready) →
  (max_horizon self = None →
   @predict V _ _ pool [] horizon dynamic_dfs before_predict_callback
            after_predict_callback None ids self
   = (Raise (Exception "UnboundLocalError" "preds"), ready)) ∧
  (∀ X_df out self',
     @_predict_multi V _ _ pool [] horizon dynamic_dfs before_predict_callback X_df ready
     = (Ok out, self') →
     self' = ready ∧
     columns out = if decide (id_col ready = time_col ready) then [id_col ready]
                   else [id_col ready; time_col ready]).
Proof.
  intros Hsel. split.
  - intros Hmh.
    assert (max_horizon ready = None) as Hready.
    { rewrite <- Hmh. apply same_fit_max_horizon.
      eapply preserves_run; [|exact Hsel]. preserves_tac. }
    unfold predict. unfold bindM at 1. rewrite Hsel.
    unfold bindM at 1. unfold retM at 1. unfold bindM at 1. unfold getM at 1.
    rewrite Hready. reflexivity.
  - intros X_df out self' Hrun. unfold _predict_multi in Hrun.
    apply bindM_Ok in Hrun as ([mh|] & ? & [_ ->]%getM_Ok & Hrun); [|done].
    destruct (decide (mh < horizon)); [done|]. cbv zeta in Hrun.
    apply bindM_Ok in Hrun as (us & ? & [_ ->]%attr_Ok & Hrun).
    apply bindM_Ok in Hrun as (ld & ? & [_ ->]%getM_Ok & Hrun).
    apply bindM_Ok in Hrun as (f & ? & [_ ->]%getM_Ok & Hrun).
    apply bindM_Ok in Hrun as (dates & ? & [_ ->]%liftM_Ok & Hrun).
    apply bindM_Ok in Hrun as (ic & ? & [-> ->]%getM_Ok & Hrun).
    apply bindM_Ok in Hrun as (tc & ? & [-> ->]%getM_Ok & Hrun).
    apply bindM_Ok in Hrun as (result & ? & [Hresult ->]%liftM_Ok & Hrun).
    simpl in Hrun. apply retM_Ok in Hrun as [-> ->]. split; [done|].
    assert (columns result
            = od_keys (od_set (time_col ready) dates
                         [(id_col ready, ColStr (np_repeat us horizon))])) as ->.
    { unfold frame_of_dict in Hresult.
      destruct (od_set _ _ _) as [|[k c] d]; [by injection Hresult as <-|].
      destruct (decide _); [|done]. by injection Hresult as <-. }
    simpl. destruct (decide (id_col ready = time_col ready)) as [Heq|Hne]; [|done].
    unfold od_keys. simpl. by rewrite Heq.
Qed.
End edges.

(** X12 on the object fitted with [max_horizon = 2]: three steps are
    refused. *)
Lemma direct_horizon_is_bounded_witness :
  (@predict _ _ _ pool_in_order [("m", horizon_models)] 3 None None None None None
            demo_direct).1
  = Raise (ValueError "horizon must be at most max_horizon (2)").
Proof.
  edestruct (direct_horizon_is_bounded pool_in_order [("m", horizon_models)] 3 None None None
               None demo_direct) as [_ Hpredict].
  - reflexivity.
  - lia.
  - reflexivity.
  - by rewrite Hpredict.
Defined.

(** X13 on the fitted two series. *)
Lemma predict_without_models_witness :
  (@predict _ _ _ pool_in_order [] 2 None None None None None demo_fitted).1
  = Raise (Exception "UnboundLocalError" "preds").
Proof.
  edestruct (predict_without_models pool_in_order 2 None None None None demo_fitted)
    as [Hrec _].
  - reflexivity.
  - by rewrite Hrec.
Defined.

(** ** Forecasting: the state after a step *)

Section steps.
Context `{Float V} `{Extern V} (pool : ThreadPool).

Lemma _update_features_Ok (self self' : TimeSeries V) (new_x : Frame V) :
  @_update_features V _ _ pool self = (Ok new_x, self') →
  ∃ cd cd',
    match curr_dates self with
    | Some cd0 => cd = cd0
    | None => cd = last_dates self
    end ∧
    dates_add (freq self) 1 cd = Ok cd' ∧
    curr_dates self' = Some cd' ∧
    test_dates self' = match curr_dates self with
                       | Some _ => test_dates self
                       | None => []
                       end ++ [cd'] ∧
    _h self' = _h self ∧ warnings self' = warnings self ∧
    step_fields self' = step_fields self.
Proof.
  unfold _update_features. intros Hrun.
  apply bindM_Ok in Hrun as (cd0 & ? & [-> ->]%getM_Ok & Hrun).
  apply bindM_Ok in Hrun as ([] & s1 & Hinit & Hrun).
  assert (∃ cd, match curr_dates self with
                | Some cd0 => cd = cd0
                | None => cd = last_dates self
                end ∧
                curr_dates s1 = Some cd ∧
                test_dates s1 = match curr_dates self with
                                | Some _ => test_dates self
                                | None => []
                                end ∧
                freq s1 = freq self ∧ _h s1 = _h self ∧ warnings s1 = warnings self ∧
                num_threads s1 = num_threads self ∧ transforms s1 = transforms self ∧
                step_fields s1 = step_fields self) as (cd & Hcd & Hcd1 & Htd1 & Hf & Hh & Hw & Hn & Ht & Hs).
  { destruct (curr_dates self) as [cd0|] eqn:Hcur.
    - apply retM_Ok in Hinit as [_ ->]. exists cd0. by split_and!.
    - apply bindM_Ok in Hinit as (ld & ? & [-> ->]%getM_Ok & Hinit).
      apply bindM_Ok in Hinit as ([] & ? & ->%modifyM_Ok & Hinit).
      apply modifyM_Ok in Hinit as ->. exists (last_dates self). by split_and!. }
  apply bindM_Ok in Hrun as (cd1 & ? & [Hattr ->]%attr_Ok & Hrun).
  apply bindM_Ok in Hrun as (f & ? & [-> ->]%getM_Ok & Hrun).
  apply bindM_Ok in Hrun as (cd' & ? & [Hadd ->]%liftM_Ok & Hrun).
  apply bindM_Ok in Hrun as ([] & ? & ->%modifyM_Ok & Hrun).
  apply bindM_Ok in Hrun as ([] & ? & ->%modifyM_Ok & Hrun).
  apply bindM_Ok in Hrun as (nt & ? & [-> ->]%getM_Ok & Hrun).
  apply bindM_Ok in Hrun as (tfms & ? & [-> ->]%getM_Ok & Hrun).
  apply bindM_Ok in Hrun as (computed & s2 & Hcomp & Hrun).
  set (s := set_test_dates (test_dates (set_curr_dates (Some cd') s1) ++ [cd'])
              (set_curr_dates (Some cd') s1)) in *.
  assert (s2 = s ∨ s2 = set_pool_runs (S (pool_runs s)) s) as Hs2.
  { simpl in Hcomp. destruct (decide _).
    - left. unfold _apply_transforms in Hcomp. by injection Hcomp as _ <-.
    - right. unfold _apply_multithreaded_transforms in Hcomp. by injection Hcomp as _ <-. }
  apply bindM_Ok in Hrun as (names & ? & [-> ->]%getM_Ok & Hrun).
  apply bindM_Ok in Hrun as (feats & ? & [-> ->]%getM_Ok & Hrun).
  apply bindM_Ok in Hrun as (features & s3 & Hfeat & Hrun).
  assert (s3 = s2) as ->.
  { destruct (date_features s2).
    - by apply retM_Ok in Hfeat as [_ ->].
    - by apply liftM_Ok in Hfeat as [_ ->]. }
  apply bindM_Ok in Hrun as (features_df & ? & [_ ->]%liftM_Ok & Hrun).
  apply bindM_Ok in Hrun as (ic & ? & [-> ->]%getM_Ok & Hrun).
  apply bindM_Ok in Hrun as (us & ? & [_ ->]%attr_Ok & Hrun).
  apply bindM_Ok in Hrun as (features_df' & ? & [_ ->]%liftM_Ok & Hrun).
  apply bindM_Ok in Hrun as (tc & ? & [-> ->]%getM_Ok & Hrun).
  apply bindM_Ok in Hrun as (features_df'' & ? & [_ ->]%liftM_Ok & Hrun).
  apply bindM_Ok in Hrun as (statics & ? & [-> ->]%getM_Ok & Hrun).
  apply liftM_Ok in Hrun as [_ ->].
  simpl in Hattr. rewrite Hcd1 in Hattr. injection Hattr as <-.
  exists cd, cd'. rewrite <- Hf.
  destruct Hs2 as [-> | ->]; subst s; simpl; rewrite Htd1; by split_and!.
Qed.
End steps.

Section next_step.
Context `{Float V} `{Extern V} (pool : ThreadPool).

Lemma step_fields_fit (self self' : TimeSeries V) :
  step_fields self' = step_fields self → fit_fields self' = fit_fields self.
Proof. unfold step_fields. intros [=]. unfold fit_fields. congruence. Qed.

Lemma fit_fields_features_order (self self' : TimeSeries V) :
  fit_fields self' = fit_fields self → features_order_ self' = features_order_ self.
Proof. unfold fit_fields. intros [=]. assumption. Qed.

Lemma _get_features_for_next_step_Ok dynamic_dfs X_df (self self' : TimeSeries V)
    (new_x : Frame V) :
  @_get_features_for_next_step V _ _ pool dynamic_dfs X_df self = (Ok new_x, self') →
  ∃ cd cd',
    match curr_dates self with
    | Some cd0 => cd = cd0
    | None => cd = last_dates self
    end ∧
    dates_add (freq self) 1 cd = Ok cd' ∧
    curr_dates self' = Some cd' ∧
    test_dates self' = match curr_dates self with
                       | Some _ => test_dates self
                       | None => []
                       end ++ [cd'] ∧
    _h self' = _h self + 1 ∧
    warnings self `prefix_of` warnings self' ∧
    step_fields self' = step_fields self ∧
    columns new_x = features_order_ self.
Proof.
  unfold _get_features_for_next_step. intros Hrun.
  apply bindM_Ok in Hrun as (x0 & s1 & Hupd & Hrun).
  apply _update_features_Ok in Hupd as (cd & cd' & Hcd & Hadd & Hcur & Htd & Hh & Hw & Hs).
  apply bindM_Ok in Hrun as (x1 & s2 & Hdyn & Hrun).
  assert (s2 = s1) as ->.
  { destruct dynamic_dfs.
    - by apply retM_Ok in Hdyn as [_ ->].
    - apply bindM_Ok in Hdyn as (? & ? & [_ ->]%liftM_Ok & Hdyn).
      apply bindM_Ok in Hdyn as (? & ? & [_ ->]%getM_Ok & Hdyn).
      by apply liftM_Ok in Hdyn as [_ ->]. }
  apply bindM_Ok in Hrun as (x2 & s2 & HX & Hrun).
  assert (s2 = s1) as ->.
  { destruct X_df.
    - apply bindM_Ok in HX as (? & ? & [_ ->]%attr_Ok & HX).
      apply bindM_Ok in HX as (? & ? & [_ ->]%getM_Ok & HX).
      by apply liftM_Ok in HX as [_ ->].
    - by apply retM_Ok in HX as [_ ->]. }
  apply bindM_Ok in Hrun as ([] & s2 & Hwarn & Hrun).
  assert (∃ msgs, s2 = set_warnings (warnings s1 ++ msgs) s1) as [msgs ->].
  { destruct (null_columns x2).
    - apply retM_Ok in Hwarn as [_ ->]. exists []. rewrite app_nil_r. by destruct s1.
    - apply modifyM_Ok in Hwarn as ->. by eexists. }
  apply bindM_Ok in Hrun as ([] & ? & ->%modifyM_Ok & Hrun).
  apply bindM_Ok in Hrun as (order & ? & [-> ->]%getM_Ok & Hrun).
  apply liftM_Ok in Hrun as [Hsel ->].
  exists cd, cd'. simpl.
  split_and!; try done.
  - lia.
  - rewrite <- Hw. by apply prefix_app_r.
  - destruct (frame_select_Ok _ _ _ Hsel) as (_ & -> & _). simpl.
    by apply fit_fields_features_order, step_fields_fit.
Qed.

(** X14.  The features of the next step come in the order of the
    features that fitting stored, and nothing else comes with them; the
    step counter goes up by one, the dates of the step are the current
    dates (the last dates, when there are none yet) plus the frequency,
    no warning is withdrawn, and what fitting stored, the selection,
    the arrays and the predictions so far are as they were. *)
Theorem next_step_features_in_fitted_order (dynamic_dfs : list (Frame V))
    (X_df : option (Frame V)) (self self' : TimeSeries V) (new_x : Frame V) :
  @_get_features_for_next_step V _ _ pool dynamic_dfs X_df self = (Ok new_x, self') →
  columns new_x = features_order_ self ∧
  _h self' = _h self + 1 ∧
  (∃ dates, dates_add (freq self) 1 (default (last_dates self) (curr_dates self)) = Ok dates ∧
            curr_dates self' = Some dates ∧
            test_dates self' = match curr_dates self with
                               | Some _ => test_dates self
                               | None => []
                               end ++ [dates]) ∧
  warnings self `prefix_of` warnings self' ∧
  step_fields self' = step_fields self.
Proof.
  intros Hrun.
  apply _get_features_for_next_step_Ok in Hrun
    as (cd & cd' & Hcd & Hadd & Hcur & Htd & Hh & Hw & Hs & Hcols).
  split_and!; try done. exists cd'. split_and!; try done.
  by destruct (curr_dates self); subst cd.
Qed.
End next_step.

(** X14 on the fitted two series once the simulation is set up: the
    first step gives the lag alone, as the order of the features has
    it. *)
Lemma next_step_features_in_fitted_order_witness :
  let ready := ((predict_select_ids None ;; _predict_setup) demo_fitted).2 in
  let run := @_get_features_for_next_step _ _ _ pool_in_order [] None ready in
  let new_x := {| nrows := 2; cols := [("lag1", ColFloat [Some 4; Some 30]%Z)] |} in
  run.1 = Ok new_x ∧
  columns new_x = features_order_ ready ∧
  _h run.2 = _h ready + 1.
Proof.
  intros ready run new_x.
  assert (@_get_features_for_next_step _ _ _ pool_in_order [] None ready = (Ok new_x, run.2))
    as Hrun by (vm_compute; reflexivity).
  destruct (next_step_features_in_fitted_order pool_in_order [] None ready run.2 new_x Hrun)
    as (Hcols & Hh & _).
  split; [vm_compute; reflexivity|]. split; [exact Hcols|exact Hh].
Defined.

(** ** [predict]: the validation of the exogenous table *)



Section exogenous_claim.
Context `{Float V} `{Extern V}.



End exogenous_claim.



(** ** Forecasting: the table of the predictions *)

Section layout.
Context {A : Type}.
Implicit Types (rows Ls : list (list A)).

Lemma concat_uniform Ls h :
  Forall (λ L, length L = h) Ls →
  length (concat Ls) = length Ls * h ∧
  ∀ j i, i < h → concat Ls !! (j * h + i) = Ls !! j ≫= (.!! i).
Proof.
  induction 1 as [|L Ls HL _ [IH1 IH2]]; simpl; [done|]. split.
  - rewrite length_app. lia.
  - intros [|j] i Hi; simpl.
    + rewrite lookup_app_l by lia. done.
    + rewrite lookup_app_r by lia. rewrite <- (IH2 j i Hi). f_equal. lia.
Qed.

Lemma np_repeat_lookup (x : list A) h :
  length (np_repeat x h) = length x * h ∧
  ∀ j i, i < h → np_repeat x h !! (j * h + i) = x !! j.
Proof.
  unfold np_repeat.
  destruct (concat_uniform (replicate h <$> x) h) as [Hlen Hget].
  { apply Forall_fmap, Forall_forall. intros a _. simpl. apply length_replicate. }
  rewrite length_fmap in Hlen. split; [done|].
  intros j i Hi. rewrite Hget by done. rewrite list_lookup_fmap.
  destruct (x !! j) as [a|]; simpl; [|done]. by apply lookup_replicate.
Qed.

Lemma column_of_rows rows n j :
  Forall (λ row, length row = n) rows → j < n →
  length (omap (λ row, row !! j) rows) = length rows ∧
  ∀ i, omap (λ row, row !! j) rows !! i = rows !! i ≫= (.!! j).
Proof.
  intros Hall Hj. induction Hall as [|row rows Hrow _ [IH1 IH2]]; csimpl; [done|].
  destruct (lookup_lt_is_Some_2 row j) as [a Ha]; [lia|]. rewrite Ha. csimpl.
  split; [by rewrite IH1|]. intros [|i]; csimpl; [by rewrite Ha|apply IH2].
Qed.

(** [np.array(rows).ravel("F")] goes through the rows column by column. *)
Lemma ravel_F_lookup rows n :
  Forall (λ row, length row = n) rows →
  length (ravel_F rows) = n * length rows ∧
  ∀ i j, i < length rows → j < n →
         ravel_F rows !! (j * length rows + i) = rows !! i ≫= (.!! j).
Proof.
  intros Hall. destruct rows as [|r rows']; [simpl; split; [lia|intros; lia]|].
  assert (length r = n) as Hr by (by apply Forall_cons in Hall as [? _]).
  change (ravel_F (r :: rows'))
    with (concat ((λ j, omap (λ row, row !! j) (r :: rows')) <$> seq 0 (length r))).
  rewrite Hr. remember (r :: rows') as rows eqn:Hrows.
  destruct (concat_uniform ((λ j, omap (λ row, row !! j) rows) <$> seq 0 n) (length rows))
    as [Hlen Hget].
  { apply Forall_fmap, Forall_forall. intros j Hj%elem_of_seq. simpl.
    apply column_of_rows with (n := n); [done|lia]. }
  rewrite length_fmap, length_seq in Hlen. split; [done|].
  intros i j Hi Hj. rewrite Hget by done.
  rewrite list_lookup_fmap, lookup_seq_lt by done. simpl.
  by apply column_of_rows with (n := n).
Qed.
End layout.

Section predictions.
Context {V : Type}.

Lemma od_set_fresh {B} (k : string) (v : B) (d : list (string * B)) :
  k ∉ od_keys d → od_set k v d = d ++ [(k, v)].
Proof.
  induction d as [|[k' v'] d IH]; intros Hk; simpl; [done|].
  unfold od_keys in Hk. simpl in Hk. apply not_elem_of_cons in Hk as [Hne Hk].
  rewrite decide_False by done. by rewrite IH.
Qed.

Lemma col_len_col_like (c : Column V) (l : list Z) : col_len (col_like c l) = length l.
Proof. by destruct c. Qed.

Lemma col_times_col_like (c : Column V) (l : list Z) : col_times (col_like c l) = Ok l.
Proof. by destruct c. Qed.

(** X15.  The table of the predictions so far has one row per series
    to forecast and step, the rows of a series together and in the
    order of the steps: row [j * h + i] holds the id of series [j], its
    date at step [i] and the value predicted for it at step [i].  The
    time column has the dtype of the dates of the steps; before the
    first step it is an empty column of floats. *)
Theorem predictions_are_aligned (self : TimeSeries V) (us : list string)
    (rows : list (list V)) (times : list (list Z)) :
  _uids self = Some us →
  y_pred self = Some rows →
  res_map col_times (test_dates self) = Ok times →
  length times = length rows →
  Forall (λ row, length row = length us) rows →
  Forall (λ t, length t = length us) times →
  NoDup [id_col self; time_col self; target_col self +:+ "_pred"] →
  let h := length rows in
  ∃ out ids dates preds,
    _get_predictions self = (Ok out, self) ∧
    nrows out = length us * h ∧
    cols out = [(id_col self, ColStr ids);
                (time_col self, match test_dates self with
                                | [] => ColFloat []
                                | c :: _ => col_like c dates
                                end);
                (target_col self +:+ "_pred", ColFloat preds)] ∧
    length ids = length us * h ∧ length dates = length us * h ∧
    length preds = length us * h ∧
    ∀ i j, i < h → j < length us →
           ids !! (j * h + i) = us !! j ∧
           dates !! (j * h + i) = times !! i ≫= (.!! j) ∧
           preds !! (j * h + i) = rows !! i ≫= (.!! j).
Proof.
  intros Hus Hy Htimes Hlen Hrows Hdates Hnd h.
  apply NoDup_cons in Hnd as [Hic Hnd]. apply NoDup_cons in Hnd as [Htc _].
  apply not_elem_of_cons in Hic as [Hic1 Hic2].
  apply not_elem_of_cons in Hic2 as [Hic2 _]. apply not_elem_of_cons in Htc as [Htc _].
  destruct (np_repeat_lookup us h) as [Hl1 Hg1].
  destruct (ravel_F_lookup times (length us) Hdates) as [Hl2 Hg2].
  destruct (ravel_F_lookup rows (length us) Hrows) as [Hl3 Hg3].
  rewrite Hlen in Hl2, Hg2. fold h in Hl2, Hl3, Hg2, Hg3.
  exists {| nrows := length us * h;
            cols := [(id_col self, ColStr (np_repeat us h));
                     (time_col self, ravel_dates (test_dates self) times);
                     (target_col self +:+ "_pred", ColFloat (ravel_F rows))] |},
    (np_repeat us h), (ravel_F times), (ravel_F rows).
  assert (col_len (ravel_dates (test_dates self) times) = length us * h) as Hl2'.
  { unfold ravel_dates. destruct (test_dates self) as [|c tds].
    - simpl in Htimes. injection Htimes as <-. unfold h. rewrite <- Hlen. simpl. lia.
    - by rewrite col_len_col_like. }
  split_and!; [| |by unfold ravel_dates; destruct (test_dates self)|done..|].
  - unfold _get_predictions, _get_raw_predictions, bindM, attr, getM, liftM, retM.
    do 3 (cbv beta iota; rewrite ?Hy, ?Hus, ?Htimes). cbv beta iota. f_equal. fold h.
    rewrite (od_set_fresh (time_col self))
      by (unfold od_keys; simpl; rewrite !elem_of_cons, elem_of_nil; intuition congruence).
    rewrite (od_set_fresh (target_col self +:+ "_pred"))
      by (unfold od_keys; simpl; rewrite !elem_of_cons, elem_of_nil; intuition congruence).
    unfold frame_of_dict. simpl. rewrite decide_True; [by rewrite Hl1|].
    repeat constructor; simpl; rewrite ?Hl2'; lia.
  - done.
  - intros i j Hi Hj. split_and!; [by apply Hg1|by apply Hg2|by apply Hg3].
Qed.
End predictions.

(** X15 on the two series after two steps of the model that adds one:
    the rows of A, then the rows of B. *)
Lemma predictions_are_aligned_witness :
  (_get_predictions demo_two_steps).1 =
    Ok {| nrows := 4;
          cols := [("unique_id", ColStr ["A"; "A"; "B"; "B"]);
                   ("ds", ColInt [5; 6; 4; 5]%Z);
                   ("y_pred", ColFloat [Some 5; Some 6; Some 31; Some 32]%Z)] |} ∧
  ∃ out ids dates preds,
    _get_predictions demo_two_steps = (Ok out, demo_two_steps) ∧
    nrows out = 2 * 2 ∧
    cols out = [(id_col demo_two_steps, ColStr ids);
                (time_col demo_two_steps,
                 match test_dates demo_two_steps with
                 | [] => ColFloat []
                 | c :: _ => col_like c dates
                 end);
                (target_col demo_two_steps +:+ "_pred", ColFloat preds)].
Proof.
  split; [vm_compute; reflexivity|].
  assert (_uids demo_two_steps = Some ["A"; "B"]) as Hus by (vm_compute; reflexivity).
  assert (y_pred demo_two_steps = Some [[Some 5; Some 31]; [Some 6; Some 32]]%Z) as Hy
    by (vm_compute; reflexivity).
  assert (res_map col_times (test_dates demo_two_steps) = Ok [[5; 4]; [6; 5]]%Z) as Ht
    by (vm_compute; reflexivity).
  assert (NoDup [id_col demo_two_steps; time_col demo_two_steps;
                 target_col demo_two_steps +:+ "_pred"]) as Hnd
    by (apply (bool_decide_unpack _); vm_compute; exact I).
  destruct (predictions_are_aligned demo_two_steps ["A"; "B"]
              [[Some 5; Some 31]; [Some 6; Some 32]]%Z [[5; 4]; [6; 5]]%Z Hus Hy Ht eq_refl)
    as (out & ids & dates & preds & Hrun & Hn & Hcols & _);
    [by repeat constructor|by repeat constructor|exact Hnd|].
  exists out, ids, dates, preds. split; [exact Hrun|]. split; [exact Hn|exact Hcols].
Defined.

(** ** The transform engine: which error a sequential run reports *)

Section sequential_failure.
Context `{Float V}.

(** X16.  The sequential application of the transforms leaves the
    object as it is, and it raises an error exactly when some transform
    raises it while all the transforms registered before it return:
    the error reported is the one of the first transform, in the order
    of registration, that fails. *)
Theorem sequential_failure_is_first_registered (self : TimeSeries V) (updates_only : bool)
    (e : exn) :
  let arr := ga_load (heap self) (ga self) in
  (_apply_transforms updates_only self).2 = self ∧
  ((_apply_transforms updates_only self).1 = Raise e ↔
   ∃ k name spec,
     transforms self !! k = Some (name, spec) ∧
     transform_task arr updates_only spec = Raise e ∧
     ∀ k' name' spec',
       k' < k → transforms self !! k' = Some (name', spec') →
       is_Ok (transform_task arr updates_only spec') = true).
Proof.
  intros arr. split; [done|].
  unfold _apply_transforms. simpl. fold arr.
  rewrite _apply_transforms_loop_gather, gather_results_Raise.
  set (tasks := prod_map id (transform_task arr updates_only) <$> transforms self).
  split.
  - intros (pre & name & post & Heq & Hpre).
    assert (tasks !! length pre = Some (name, Raise e)) as Hk
      by (rewrite Heq; by apply list_lookup_middle).
    subst tasks. rewrite list_lookup_fmap in Hk.
    destruct (transforms self !! length pre) as [[name0 spec]|] eqn:Hspec; [|done].
    simpl in Hk. injection Hk as -> Hk.
    exists (length pre), name, spec. split_and!; [done..|].
    intros k' name' spec' Hlt Hk'.
    assert ((prod_map id (transform_task arr updates_only) <$> transforms self) !! k'
            = Some (name', transform_task arr updates_only spec')) as Ht
      by (by rewrite list_lookup_fmap, Hk').
    rewrite Heq, lookup_app_l in Ht by done.
    rewrite Forall_forall in Hpre. apply (Hpre (name', _)).
    by eapply list_elem_of_lookup_2.
  - intros (k & name & spec & Hk & He & Hbefore).
    assert (tasks !! k = Some (name, Raise e)) as Ht.
    { subst tasks. rewrite list_lookup_fmap, Hk. simpl. by rewrite He. }
    exists (take k tasks), name, (drop (S k) tasks). split.
    + by rewrite take_drop_middle.
    + apply Forall_forall. intros [name' r] Hin.
      apply list_elem_of_lookup in Hin as [k' Hk'].
      apply lookup_take_Some in Hk' as [Hk' Hlt].
      subst tasks. rewrite list_lookup_fmap in Hk'.
      destruct (transforms self !! k') as [[n' spec']|] eqn:Hspec'; [|done].
      simpl in Hk'. injection Hk' as -> <-. simpl. by eapply Hbefore.
Qed.
End sequential_failure.

(** X16 on the object whose two transforms raise: the sequential run
    reports the error of the first, a parallel run whose second future
    completes first the error of the second. *)
Lemma sequential_failure_is_first_registered_witness :
  (_apply_transforms false demo_both_fail).1 = Raise (ValueError "boom") ∧
  (@_apply_multithreaded_transforms _ _ pool_reversed false demo_both_fail).1
  = Raise (ValueError "bang").
Proof.
  split; [|vm_compute; reflexivity].
  apply (sequential_failure_is_first_registered demo_both_fail false (ValueError "boom")).
  exists 0, "boom_lag1", (TSpec 1 boom []).
  split; [vm_compute; reflexivity|]. split; [vm_compute; reflexivity|].
  intros k' name' spec' Hlt. lia.
Defined.

(** ** Forecasting: the steps of a simulation *)

Section simulation.
Context `{Float V} `{Extern V} (pool : ThreadPool).

Lemma _update_y_run (values : list V) (self self' : TimeSeries V) u :
  _update_y values self = (Ok u, self') →
  ga_append (ga_load (heap self) (ga self)) values = Ok (ga_load (heap self') (ga self')) ∧
  y_pred self' = Some (default [] (y_pred self) ++ [values]) ∧
  curr_dates self' = curr_dates self ∧ test_dates self' = test_dates self ∧
  fit_fields self' = fit_fields self ∧ _uids self' = _uids self ∧
  _idxs self' = _idxs self ∧ _ga self' = _ga self ∧
  heap self `prefix_of` heap self'.
Proof.
  destruct u. unfold _update_y, bindM, getM, modifyM, liftM, new_grouped_array. simpl.
  destruct (ga_append _ values) as [g|e] eqn:Hg; simpl; [|done].
  intros [= <-]. simpl. split_and!; try done.
  - f_equal. symmetry. apply ga_load_alloc_eq.
  - by apply prefix_app_r.
Qed.

(** One step of a simulation that returned. *)
Lemma _predict_recursive_step_run model dynamic_dfs before after X_df
    (self self' : TimeSeries V) u :
  @_predict_recursive_step V _ _ pool model dynamic_dfs before after X_df self
    = (Ok u, self') →
  ∃ new_x raw predictions dates,
    model_predict model new_x = Ok raw ∧
    match after with
    | Some cb => ∃ us, _uids self = Some us ∧ length raw = length us ∧
                       cb us raw = Ok predictions
    | None => predictions = raw
    end ∧
    dates_add (freq self) 1 (default (last_dates self) (curr_dates self)) = Ok dates ∧
    curr_dates self' = Some dates ∧
    test_dates self' = match curr_dates self with
                       | Some _ => test_dates self
                       | None => []
                       end ++ [dates] ∧
    ga_append (ga_load (heap self) (ga self)) predictions
      = Ok (ga_load (heap self') (ga self')) ∧
    y_pred self' = Some (default [] (y_pred self) ++ [predictions]) ∧
    fit_fields self' = fit_fields self ∧ _uids self' = _uids self ∧
    _idxs self' = _idxs self ∧ _ga self' = _ga self ∧
    heap self `prefix_of` heap self'.
Proof.
  unfold _predict_recursive_step. intros Hrun.
  apply bindM_Ok in Hrun as (x0 & s1 & Hfeat & Hrun).
  apply _get_features_for_next_step_Ok in Hfeat
    as (cd & cd' & Hcd & Hadd & Hcur & Htd & _ & _ & Hs & _).
  apply bindM_Ok in Hrun as (new_x & ? & [_ ->]%liftM_Ok & Hrun).
  apply bindM_Ok in Hrun as (raw & ? & [Hraw ->]%liftM_Ok & Hrun).
  apply bindM_Ok in Hrun as (predictions & s2 & Hafter & Hrun).
  unfold step_fields in Hs.
  assert (fit_fields s1 = fit_fields self ∧ _uids s1 = _uids self ∧ _idxs s1 = _idxs self ∧
          heap s1 = heap self ∧ ga s1 = ga self ∧ _ga s1 = _ga self ∧
          y_pred s1 = y_pred self) as (Hfit & Hu & Hi & Hh & Hg & Hgt & Hy).
  { apply step_fields_fit in Hs as Hfit. injection Hs as _ ? ? ? ? ? ?. by split_and!. }
  assert (s2 = s1 ∧
          match after with
          | Some cb => ∃ us, _uids self = Some us ∧ length raw = length us ∧
                             cb us raw = Ok predictions
          | None => predictions = raw
          end) as [-> Hcb].
  { destruct after as [cb|].
    - apply bindM_Ok in Hafter as (us & ? & [Hus ->]%attr_Ok & Hafter).
      apply liftM_Ok in Hafter as [Hcall ->]. split; [done|]. exists us.
      unfold call_after in Hcall. destruct (decide (length raw = length us)); [|done].
      by rewrite <- Hu.
    - by apply retM_Ok in Hafter as [-> ->]. }
  apply _update_y_run in Hrun
    as (Happ & Hy' & Hcur' & Htd' & Hfit' & Hu' & Hi' & Hgt' & Hpre).
  exists new_x, raw, predictions, cd'.
  rewrite Hcur', Htd', Hfit', Hu', Hi', Hgt', Hy', Hy, <- Hh, <- Hg.
  split_and!; try done.
  by destruct (curr_dates self); subst cd.
Qed.

(** The steps of one simulation: the dates advance by the frequency once
    per step, and each step appends its predictions. *)
Lemma repeat_steps_run model dynamic_dfs before after X_df n :
  ∀ (self self' : TimeSeries V) start steps0 u,
    curr_dates self = Some start →
    y_pred self = Some steps0 →
    repeatM n (@_predict_recursive_step V _ _ pool model dynamic_dfs before after X_df) self
      = (Ok u, self') →
    ∃ dates steps,
      length dates = n ∧ length steps = n ∧
      test_dates self' = test_dates self ++ dates ∧
      y_pred self' = Some (steps0 ++ steps) ∧
      (∀ k d, dates !! k = Some d → dates_after (freq self) (S k) start = Ok d) ∧
      (∀ k step, steps !! k = Some step →
         ∃ new_x raw, model_predict model new_x = Ok raw ∧
           match after with
           | Some cb => ∃ us, _uids self = Some us ∧ length raw = length us ∧
                              cb us raw = Ok step
           | None => step = raw
           end) ∧
      (n ≠ 0 → ∃ last, dates_after (freq self) n start = Ok last ∧
                       curr_dates self' = Some last) ∧
      fit_fields self' = fit_fields self ∧ _uids self' = _uids self ∧
      _idxs self' = _idxs self.
Proof.
  induction n as [|n IH]; intros self self' start steps0 u Hcur Hy Hrun; simpl in Hrun.
  - apply retM_Ok in Hrun as [_ ->]. exists [], []. rewrite !app_nil_r.
    split_and!; try done.
  - apply bindM_Ok in Hrun as ([] & s1 & Hstep & Hrun).
    apply _predict_recursive_step_run in Hstep
      as (new_x & raw & p & d & Hraw & Hcb & Hadd & Hcur1 & Htd1 & _ & Hy1 & Hfit1 & Hu1
          & Hi1 & _).
    rewrite Hcur in Hadd, Htd1. rewrite Hy in Hy1.
    change (dates_add (freq self) 1 start = Ok d) in Hadd.
    change (y_pred s1 = Some (steps0 ++ [p])) in Hy1.
    assert (freq s1 = freq self) as Hf by (revert Hfit1; unfold fit_fields; by intros [=]).
    destruct (IH s1 self' d (steps0 ++ [p]) u Hcur1 Hy1 Hrun)
      as (dates & steps & Hn1 & Hn2 & Htd & Hy' & Hdates & Hsteps & Hlast & Hfit & Hu & Hi).
    assert (∀ k, dates_after (freq self) k d = dates_after (freq self) (S k) start) as Hshift.
    { induction k as [|k IHk]; [symmetry; exact Hadd|].
      change (dates_after (freq self) (S k) d)
        with (res_bind (dates_after (freq self) k d) (dates_add (freq self) 1)).
      by rewrite IHk. }
    exists (d :: dates), (p :: steps). rewrite Hf in *.
    split_and!; try (by simpl; f_equal).
    + rewrite Htd, Htd1. by rewrite <- app_assoc.
    + rewrite Hy'. by rewrite <- app_assoc.
    + intros [|k] d' Hk; simpl in Hk.
      * injection Hk as <-. exact Hadd.
      * rewrite <- Hshift. by apply Hdates.
    + intros [|k] step Hk; simpl in Hk.
      * injection Hk as <-. exists new_x, raw. done.
      * destruct (Hsteps k step Hk) as (nx & r & Hr & Hc). exists nx, r. split; [done|].
        destruct after; [|done]. destruct Hc as (us & Hus & Hc). exists us.
        split; [congruence|done].
    + intros _. destruct n as [|n].
      * simpl in Hrun. apply retM_Ok in Hrun as [_ ->]. exists d.
        split; [exact Hadd|exact Hcur1].
      * destruct Hlast as (last & Hl & Hc); [done|]. exists last.
        rewrite <- Hshift. done.
    + congruence.
    + congruence.
    + congruence.
Qed.
End simulation.

(** ** Forecasting: the dates of a simulation *)

Section dates.
Context `{Float V} `{Extern V}.

Lemma dates_add_Ok (f : Freq) (k : Z) (dates dates' : Column V) :
  dates_add f k dates = Ok dates' →
  col_len dates' = col_len dates ∧ ∃ times, col_times dates' = Ok times.
Proof.
  unfold dates_add. destruct f, dates; try done; intros [= <-]; simpl;
    rewrite length_fmap; (split; [done|by eexists]).
Qed.

Lemma dates_after_Ok (f : Freq) (k : nat) (dates dates' : Column V) :
  dates_after f (S k) dates = Ok dates' →
  col_len dates' = col_len dates ∧ ∃ times, col_times dates' = Ok times.
Proof.
  revert dates'. induction k as [|k IH]; intros dates'.
  - intros Hd. change (dates_add f 1 dates = Ok dates') in Hd.
    by apply (dates_add_Ok f 1 dates).
  - intros Hd.
    change (res_bind (dates_after f (S k) dates) (dates_add f 1) = Ok dates') in Hd.
    apply res_bind_Ok in Hd as (d & Hd & Hadd).
    destruct (IH d Hd) as [Hlen _]. apply dates_add_Ok in Hadd as [Hlen' Ht].
    split; [congruence|done].
Qed.

(** With an integer frequency the dates of step [k] are the start dates
    plus [k] times the frequency. *)
Lemma dates_after_int (n : Z) (k : nat) (l : list Z) :
  dates_after (FreqInt n) k (ColInt l : Column V)
  = Ok (ColInt ((λ t, t + Z.of_nat k * n)%Z <$> l)).
Proof.
  induction k as [|k IH].
  - simpl. f_equal. f_equal. induction l as [|t l IHl]; csimpl; [done|].
    f_equal; [lia|done].
  - change (dates_after (FreqInt n) (S k) (ColInt l : Column V))
      with (res_bind (dates_after (FreqInt n) k (ColInt l : Column V))
                     (dates_add (FreqInt n) 1)).
    rewrite IH. simpl. f_equal. f_equal. rewrite <- list_fmap_compose.
    apply list_fmap_ext. intros _ t _. simpl. lia.
Qed.

Lemma res_map_col_times (dates : list (Column V)) (n : nat) :
  Forall (λ d, col_len d = n ∧ ∃ times, col_times d = Ok times) dates →
  ∃ times, res_map col_times dates = Ok times ∧
           Forall2 (λ d t, col_times d = Ok t) dates times ∧
           Forall (λ t, length t = n) times.
Proof.
  induction 1 as [|d dates [Hlen [t Ht]] _ (times & Hts & Hall & Hlens)]; simpl.
  - exists []. by split_and!.
  - rewrite Ht, Hts. simpl. exists (t :: times). split_and!; [done|by constructor|].
    constructor; [|done]. destruct d; simpl in *; try done; by injection Ht as <-.
Qed.

(** The setup of a simulation that returned. *)
Lemma _predict_setup_run (self self1 : TimeSeries V) u :
  _predict_setup self = (Ok u, self1) →
  ∃ start dates0,
    working_copy self = Ok start ∧
    ga_load (heap self1) (ga self1) = start ∧
    start_dates self = Ok dates0 ∧
    curr_dates self1 = Some dates0 ∧ test_dates self1 = [] ∧ y_pred self1 = Some [] ∧
    fit_fields self1 = fit_fields self ∧ _uids self1 = _uids self ∧
    _idxs self1 = _idxs self.
Proof.
  intros Hrun.
  destruct (_predict_setup_Ok _ _ _ Hrun) as (start & Hstart & Hload & Hy).
  pose proof (preserves_run same_selection _ self self1 (Ok u)
                _predict_setup_same_selection Hrun) as (Hfit & Hu & Hi).
  assert (∃ dates0, start_dates self = Ok dates0 ∧ curr_dates self1 = Some dates0 ∧
                    test_dates self1 = []) as (dates0 & Hd & Hcur & Htd).
  { revert Hrun. unfold _predict_setup, start_dates. intros Hrun.
    apply bindM_Ok in Hrun as ([] & ? & ->%modifyM_Ok & Hrun).
    apply bindM_Ok in Hrun as (ld & ? & [-> ->]%getM_Ok & Hrun).
    apply bindM_Ok in Hrun as ([] & ? & ->%modifyM_Ok & Hrun).
    apply bindM_Ok in Hrun as (idxs & ? & [Hidxs ->]%attr_Ok & Hrun).
    apply bindM_Ok in Hrun as ([] & s2 & Htake & Hrun).
    apply bindM_Ok in Hrun as ([] & ? & ->%modifyM_Ok & Hrun).
    apply bindM_Ok in Hrun as ([] & ? & ->%modifyM_Ok & Hrun).
    apply bindM_Ok in Hrun as (k & ? & [-> ->]%getM_Ok & Hrun).
    apply bindM_Ok in Hrun as ([] & s3 & Hkeep & Hrun).
    apply modifyM_Ok in Hrun as ->.
    simpl in Hidxs. rewrite Hidxs.
    assert (∃ dates0, match idxs with
                      | Some idxs => col_take idxs (last_dates self)
                      | None => Ok (last_dates self)
                      end = Ok dates0 ∧ curr_dates s2 = Some dates0) as (dates0 & Hd & Hc).
    { destruct idxs as [idxs|].
      - apply bindM_Ok in Htake as (g0 & ? & [-> ->]%getM_Ok & Htake).
        apply bindM_Ok in Htake as (g & ? & [_ ->]%liftM_Ok & Htake).
        apply bindM_Ok in Htake as (r & ? & [-> ->]%new_grouped_array_Ok & Htake).
        apply bindM_Ok in Htake as ([] & ? & ->%modifyM_Ok & Htake).
        apply bindM_Ok in Htake as (cd & ? & [Hcd ->]%liftM_Ok & Htake).
        apply modifyM_Ok in Htake as ->. by exists cd.
      - apply retM_Ok in Htake as [_ ->]. by eexists. }
    exists dates0. split; [done|].
    assert (curr_dates s3 = curr_dates (set_y_pred (Some []) (set_test_dates [] s2)) ∧
            test_dates s3 = test_dates (set_y_pred (Some []) (set_test_dates [] s2)))
      as [Hc3 Ht3].
    { simpl in Hkeep. destruct (keep_last_n s2).
      - apply bindM_Ok in Hkeep as (g0 & ? & [-> ->]%getM_Ok & Hkeep).
        apply bindM_Ok in Hkeep as (r & ? & [-> ->]%new_grouped_array_Ok & Hkeep).
        by apply modifyM_Ok in Hkeep as ->.
      - by apply retM_Ok in Hkeep as [_ ->]. }
    simpl. by rewrite Hc3, Ht3. }
  exists start, dates0. by split_and!.
Qed.
End dates.

Section simulation_dates.
Context `{Float V} `{Extern V} (pool : ThreadPool).

(** X17.  In a simulation of [horizon] steps the dates of the steps are
    the last dates of the series to forecast with the frequency added
    once per step; with an integer frequency [n] on integer dates, the
    dates of step [k] (from 0) are the last dates plus [(k + 1) * n]. *)
Theorem simulation_dates (model : Model V) (dynamic_dfs : list (Frame V))
    (before_predict_callback : option (Frame V → res (Frame V)))
    (after_predict_callback : option (list string → list V → res (list V)))
    (X_df : option (Frame V)) (horizon : nat) (self self1 self2 : TimeSeries V) :
  _predict_setup self = (Ok (), self1) →
  repeatM horizon (@_predict_recursive_step V _ _ pool model dynamic_dfs
                     before_predict_callback after_predict_callback X_df) self1
    = (Ok (), self2) →
  ∃ dates0,
    start_dates self = Ok dates0 ∧
    length (test_dates self2) = horizon ∧
    (∀ k d, test_dates self2 !! k = Some d →
            dates_after (freq self) (S k) dates0 = Ok d) ∧
    (∀ n l k, freq self = FreqInt n → dates0 = ColInt l → k < horizon →
              test_dates self2 !! k
              = Some (ColInt ((λ t, t + (Z.of_nat k + 1) * n)%Z <$> l))).
Proof.
  intros Hsetup Hsteps.
  apply _predict_setup_run in Hsetup
    as (start & dates0 & _ & _ & Hd & Hcur & Htd & Hy & Hfit & _).
  destruct (repeat_steps_run pool model dynamic_dfs before_predict_callback
              after_predict_callback X_df horizon self1 self2 dates0 [] () Hcur Hy Hsteps)
    as (dates & steps & Hn & _ & Htd2 & _ & Hdates & _).
  assert (freq self1 = freq self) as Hf by (revert Hfit; unfold fit_fields; by intros [=]).
  rewrite Htd in Htd2. simpl in Htd2. rewrite Htd2, Hf in *.
  exists dates0. split_and!; [done..|].
  intros n l k Hfreq -> Hk.
  destruct (lookup_lt_is_Some_2 dates k) as [d Hdk]; [lia|].
  rewrite Hdk. f_equal. specialize (Hdates k d Hdk).
  rewrite Hfreq, dates_after_int in Hdates. injection Hdates as <-.
  f_equal. apply list_fmap_ext. intros _ t _. simpl. lia.
Qed.
End simulation_dates.

(** X17 on the fitted two series, whose last dates are 4 and 3: the two
    steps have the dates 5, 4 and 6, 5. *)
Lemma simulation_dates_witness :
  ∃ self self1,
    _predict_setup self = (Ok (), self1) ∧
    test_dates demo_two_steps = [ColInt [5; 4]%Z; ColInt [6; 5]%Z] ∧
    ∃ dates0,
      start_dates self = Ok dates0 ∧
      length (test_dates demo_two_steps) = 2 ∧
      ∀ k d, test_dates demo_two_steps !! k = Some d →
             dates_after (freq self) (S k) dates0 = Ok d.
Proof.
  exists (predict_select_ids None demo_fitted).2,
         ((predict_select_ids None ;; _predict_setup) demo_fitted).2.
  assert (_predict_setup (predict_select_ids None demo_fitted).2
          = (Ok (), ((predict_select_ids None ;; _predict_setup) demo_fitted).2)) as Hsetup
    by (vm_compute; reflexivity).
  assert (repeatM 2 (@_predict_recursive_step _ _ _ pool_in_order next_model [] None None None)
                  ((predict_select_ids None ;; _predict_setup) demo_fitted).2
          = (Ok (), demo_two_steps)) as Hsteps by (vm_compute; reflexivity).
  split; [exact Hsetup|]. split; [vm_compute; reflexivity|].
  destruct (simulation_dates pool_in_order next_model [] None None None 2 _ _ _ Hsetup Hsteps)
    as (dates0 & Hd & Hlen & Hdates & _).
  exists dates0. split; [exact Hd|]. split; [exact Hlen|exact Hdates].
Defined.

(** ** Forecasting: the table of a recursive forecast *)

Section table_parts.
Context `{Float V} `{Extern V}.

Lemma _get_raw_predictions_inv (self self' : TimeSeries V) raw :
  _get_raw_predictions self = (Ok raw, self') →
  self' = self ∧ ∃ yp, y_pred self = Some yp ∧ raw = ravel_F yp.
Proof.
  unfold _get_raw_predictions. intros Hrun.
  apply bindM_Ok in Hrun as (yp & ? & [Hy ->]%attr_Ok & Hrun).
  apply retM_Ok in Hrun as [Hraw ->]. split; [done|]. by exists yp.
Qed.

Lemma _get_predictions_inv (self self' : TimeSeries V) (out : Frame V) :
  _get_predictions self = (Ok out, self') →
  self' = self ∧
  ∃ us yp times,
    _uids self = Some us ∧ y_pred self = Some yp ∧
    res_map col_times (test_dates self) = Ok times ∧
    frame_of_dict
      (od_set (target_col self +:+ "_pred") (ColFloat (ravel_F yp))
         (od_set (time_col self) (ravel_dates (test_dates self) times)
            [(id_col self, ColStr (np_repeat us (length yp)))])) = Ok out.
Proof.
  unfold _get_predictions. intros Hrun.
  apply bindM_Ok in Hrun as (yp & ? & [Hy ->]%attr_Ok & Hrun).
  apply bindM_Ok in Hrun as (us & ? & [Hus ->]%attr_Ok & Hrun).
  apply bindM_Ok in Hrun as (tds & ? & [-> ->]%getM_Ok & Hrun).
  apply bindM_Ok in Hrun as (times & ? & [Ht ->]%liftM_Ok & Hrun).
  apply bindM_Ok in Hrun as (raw & s & Hraw & Hrun).
  apply _get_raw_predictions_inv in Hraw as (-> & yp' & Hy' & ->).
  assert (yp' = yp) as -> by congruence.
  apply bindM_Ok in Hrun as (ic & ? & [-> ->]%getM_Ok & Hrun).
  apply bindM_Ok in Hrun as (tc & ? & [-> ->]%getM_Ok & Hrun).
  apply bindM_Ok in Hrun as (yc & ? & [-> ->]%getM_Ok & Hrun).
  apply liftM_Ok in Hrun as [Hframe ->]. split; [done|]. by exists us, yp, times.
Qed.

Lemma frame_of_dict_Ok (d : list (string * Column V)) (p : Frame V) :
  frame_of_dict d = Ok p →
  cols p = d ∧ ∀ k c, (k, c) ∈ d → col_len c = nrows p.
Proof.
  intros Hp. split.
  - revert Hp. unfold frame_of_dict. destruct d as [|[k c] d]; [by intros [= <-]|].
    destruct (decide _); [|done]. by intros [= <-].
  - intros k c Hin. by eapply frame_of_dict_rows.
Qed.

Lemma fit_fields_names (self self' : TimeSeries V) :
  fit_fields self' = fit_fields self →
  id_col self' = id_col self ∧ time_col self' = time_col self ∧
  target_col self' = target_col self ∧ freq self' = freq self ∧
  last_dates self' = last_dates self.
Proof. unfold fit_fields. intros [=]. by split_and!. Qed.

Lemma same_selection_start_dates (self self' : TimeSeries V) :
  same_selection self self' → start_dates self' = start_dates self.
Proof.
  intros (Hfit & _ & Hi). apply fit_fields_names in Hfit as (_ & _ & _ & _ & Hld).
  unfold start_dates. by rewrite Hi, Hld.
Qed.

Lemma od_get_snoc {B} (k n : string) (c : B) (d : list (string * B)) :
  od_get k (d ++ [(n, c)]) =
  match od_get k d with
  | Some v => Some v
  | None => if decide (n = k) then Some c else None
  end.
Proof.
  induction d as [|[k' v'] d IH]; simpl; [done|].
  destruct (decide (k' = k)); [done|apply IH].
Qed.

Lemma res_map_unique {A B} (f : A → res B) (xs : list A) (ys ys' : list B) :
  res_map f xs = Ok ys → Forall2 (λ x y, f x = Ok y) xs ys' → ys' = ys.
Proof.
  revert ys ys'. induction xs as [|x xs IH]; intros ys ys'; simpl.
  - intros [= <-] Hall. by apply Forall2_nil_inv_l in Hall.
  - destruct (f x) as [y|] eqn:Hx; [|done]. simpl.
    destruct (res_map f xs) as [ys0|]; [|done]. simpl. intros [= <-] Hall.
    apply Forall2_cons_inv_l in Hall as (y' & ys1 & Hy' & Hall & ->).
    f_equal; [congruence|]. by apply IH.
Qed.

(** The times of the dates of [h] steps, column by column. *)
Lemma forecast_times_of_dates (f : Freq) (dates0 : Column V) (n h : nat)
    (dates : list (Column V)) (times : list (list Z)) :
  length dates = h →
  (∀ k d, dates !! k = Some d → dates_after f (S k) dates0 = Ok d) →
  res_map col_times dates = Ok times →
  col_len (ravel_dates dates times) = n * h →
  forecast_times f dates0 n h (ravel_dates dates times).
Proof.
  intros Hlen Hdates Htimes Hravel.
  destruct dates as [|like dates']; [by subst h|].
  set (dates := like :: dates') in *.
  assert (ravel_dates dates times = col_like like (ravel_F times)) as Hcol by done.
  rewrite Hcol in *. rewrite col_len_col_like in Hravel.
  destruct h as [|h']; [done|]. set (h := S h') in *.
  destruct (res_map_col_times dates (col_len dates0)) as (times' & _ & Hall & Hlens).
  { apply Forall_forall. intros d [k Hk]%list_elem_of_lookup.
    by apply (dates_after_Ok f k dates0), Hdates. }
  assert (times' = times) as -> by (by eapply res_map_unique).
  assert (length times = h) as Hlt
    by (rewrite <- Hlen; symmetry; by eapply Forall2_length).
  destruct (ravel_F_lookup times (col_len dates0) Hlens) as [Hl Hg].
  rewrite Hlt in Hl, Hg.
  exists (ravel_F times). split; [apply col_times_col_like|]. split; [done|].
  intros i j Hi Hj.
  assert (col_len dates0 = n) as Hn by nia.
  destruct (lookup_lt_is_Some_2 dates i) as [d Hd]; [lia|].
  destruct (Forall2_lookup_l _ _ _ _ _ Hall Hd) as (t & Ht & Hdt).
  exists d, t. split; [by apply Hdates|]. split; [done|].
  rewrite Hg by lia. by rewrite Ht.
Qed.
End table_parts.

Section table_loop.
Context `{Float V} `{Extern V} (pool : ThreadPool).

(** The simulation of one model: setup and steps. *)
Lemma simulation_run model dynamic_dfs before after X_df h
    (self0 self s1 s2 : TimeSeries V) (us : list string) :
  ground_truth_valid self0 → same_selection self0 self → same_setup self0 self →
  _uids self0 = Some us →
  _predict_setup self = (Ok (), s1) →
  repeatM h (@_predict_recursive_step V _ _ pool model dynamic_dfs before after X_df) s1
    = (Ok (), s2) →
  ∃ start dates0 dates steps,
    working_copy self0 = Ok start ∧ start_dates self0 = Ok dates0 ∧
    y_pred s2 = Some steps ∧ test_dates s2 = dates ∧
    length steps = h ∧ length dates = h ∧
    Forall (λ step, length step = n_groups start) steps ∧
    (∀ k d, dates !! k = Some d → dates_after (freq self0) (S k) dates0 = Ok d) ∧
    (∀ k step, steps !! k = Some step →
       ∃ new_x raw, model_predict model new_x = Ok raw ∧
         match after with
         | Some cb => length raw = length us ∧ cb us raw = Ok step
         | None => step = raw
         end) ∧
    same_selection self0 s2 ∧ same_setup self0 s2.
Proof.
  intros Hvalid Hsel Hset Hus Hsetup Hsteps.
  destruct (working_copy_same_setup _ _ Hset Hvalid) as [Hwc Hvalid'].
  pose proof (same_selection_start_dates _ _ Hsel) as Hsd.
  destruct Hsel as (Hfit & Hu & Hi).
  pose proof (preserves_run same_setup _ _ _ _ _predict_setup_same_setup Hsetup) as Hset1.
  pose proof (preserves_run same_setup _ _ _ _
                (preserves_repeatM same_setup h _
                   (_predict_recursive_step_same_setup pool model dynamic_dfs before after
                      X_df)) Hsteps) as Hset2.
  destruct (_predict_setup_run _ _ _ Hsetup)
    as (start & dates0 & Hstart & Hload & Hd0 & Hcur & Htd & Hy & Hfit1 & Hu1 & Hi1).
  destruct (repeat_steps_Ok pool model dynamic_dfs before after X_df h (ga_groups start)
              s1 s2 [] () Hy) as (steps' & Hy2 & Hn & Hall & _);
    [constructor|by rewrite Hload|done|].
  destruct (repeat_steps_run pool model dynamic_dfs before after X_df h s1 s2 dates0 [] ()
              Hcur Hy Hsteps)
    as (dates & steps & Hnd & Hns & Htd2 & Hy2' & Hdates & Hmodel & _ & Hfit2 & Hu2 & Hi2).
  simpl in Hy2, Hy2'. assert (steps' = steps) as -> by congruence.
  rewrite Htd in Htd2. simpl in Htd2.
  assert (freq s1 = freq self0) as Hf.
  { apply fit_fields_names in Hfit1 as (_ & _ & _ & -> & _).
    by apply fit_fields_names in Hfit as (_ & _ & _ & -> & _). }
  exists start, dates0, dates, steps. rewrite Hf in Hdates.
  split_and!; try done.
  - congruence.
  - congruence.
  - eapply Forall_impl; [exact Hall|]. intros step Hstep. simpl in *.
    by rewrite <- ga_groups_length.
  - intros k step Hk. destruct (Hmodel k step Hk) as (new_x & raw & Hraw & Hcb).
    exists new_x, raw. split; [done|]. destruct after as [cb|]; [|done].
    destruct Hcb as (us' & Hus' & Hcall). assert (us' = us) as -> by congruence. done.
  - split; [congruence|]. split; congruence.
  - etrans; [exact Hset|]. etrans; [exact Hset1|exact Hset2].
Qed.

Lemma steps_for_series (steps : list (list V)) (n_g h : nat) (us : list string) :
  length steps = h → Forall (λ step, length step = n_g) steps →
  (h ≠ 0 → n_g = length us) →
  Forall (λ step, length step = length us) steps.
Proof.
  intros Hlen Hall Hn. destruct steps as [|step steps]; [constructor|].
  rewrite <- Hn; [done|]. simpl in Hlen. lia.
Qed.

(** The table after the first model. *)
Lemma first_model_table (self0 s2 s3 : TimeSeries V) after (us : list string) (h n_g : nat)
    name model (dates0 : Column V) (steps : list (list V)) (p : Frame V) :
  same_selection self0 s2 → _uids self0 = Some us →
  NoDup [id_col self0; time_col self0; target_col self0 +:+ "_pred"] →
  name ∉ [id_col self0; time_col self0] →
  start_dates self0 = Ok dates0 →
  y_pred s2 = Some steps → length steps = h → length (test_dates s2) = h →
  Forall (λ step, length step = n_g) steps →
  (∀ k d, test_dates s2 !! k = Some d → dates_after (freq self0) (S k) dates0 = Ok d) →
  (∀ k step, steps !! k = Some step →
     ∃ new_x raw, model_predict model new_x = Ok raw ∧
       match after with
       | Some cb => length raw = length us ∧ cb us raw = Ok step
       | None => step = raw
       end) →
  _get_predictions s2 = (Ok p, s3) →
  s3 = s2 ∧ (h ≠ 0 → n_g = length us) ∧
  forecast_table self0 after us h [(name, model)]
    (frame_rename (target_col s2 +:+ "_pred") name p).
Proof.
  intros (Hfit & Hu & _) Hus Hnd Hname Hd0 Hy Hlen Hlend Hall Hdates Hmodel Hrun.
  apply fit_fields_names in Hfit as (Hic & Htc & Hyc & Hf & _).
  apply _get_predictions_inv in Hrun as (-> & us' & yp & times & Hus' & Hy' & Htimes & Hp).
  assert (us' = us) as -> by congruence. assert (yp = steps) as -> by congruence.
  rewrite Hic, Htc, Hyc, Hlen in Hp. clear Hus' Hy'.
  set (ic := id_col self0) in *. set (tc := time_col self0) in *.
  set (yp := target_col self0 +:+ "_pred") in *.
  apply NoDup_cons in Hnd as [Hic' Hnd]. apply NoDup_cons in Hnd as [Htc' _].
  apply not_elem_of_cons in Hic' as [Hic1 Hic2].
  apply not_elem_of_cons in Hic2 as [Hic2 _]. apply not_elem_of_cons in Htc' as [Htc1 _].
  apply not_elem_of_cons in Hname as [Hn1 Hn2]. apply not_elem_of_cons in Hn2 as [Hn2 _].
  rewrite (od_set_fresh tc) in Hp
    by (unfold od_keys; simpl; rewrite !elem_of_cons, elem_of_nil; intuition congruence).
  rewrite (od_set_fresh yp) in Hp
    by (unfold od_keys; simpl; rewrite !elem_of_cons, elem_of_nil; intuition congruence).
  cbn [app] in Hp. apply frame_of_dict_Ok in Hp as [Hcols Hrows].
  destruct (np_repeat_lookup us h) as [Hl1 _].
  destruct (ravel_F_lookup steps n_g Hall) as [Hl3 _]. rewrite Hlen in Hl3.
  assert (nrows p = length us * h) as Hnrows.
  { rewrite <- (Hrows ic (ColStr (np_repeat us h))); [done|by left]. }
  assert (col_len (ravel_dates (test_dates s2) times) = length us * h) as Hl2.
  { rewrite <- Hnrows. apply (Hrows tc). right. by left. }
  assert (length (ravel_F steps) = length us * h) as Hl3'.
  { rewrite <- Hnrows. rewrite <- (Hrows yp (ColFloat (ravel_F steps))); [done|].
    right. right. by left. }
  assert (h ≠ 0 → n_g = length us) as Hng by (intros ?; nia).
  split; [done|]. split; [done|].
  rewrite Hyc. fold yp. unfold forecast_table, frame_rename, columns. simpl. rewrite Hcols.
  simpl. fold ic tc.
  rewrite (decide_False (P := ic = yp)) by done.
  rewrite (decide_False (P := tc = yp)) by done.
  rewrite (decide_True (P := yp = yp)) by done.
  split_and!.
  - done.
  - done.
  - by rewrite (decide_True (P := ic = ic)).
  - eexists _, dates0.
    rewrite (decide_False (P := ic = tc)) by done.
    rewrite (decide_True (P := tc = tc)) by done.
    split; [done|]. split; [done|].
    by apply forecast_times_of_dates.
  - intros name' model' Hin. apply list_elem_of_singleton in Hin as [= -> ->].
    rewrite (decide_False (P := ic = name)) by done.
    rewrite (decide_False (P := tc = name)) by done.
    rewrite (decide_True (P := name = name)) by done.
    eexists. split; [done|]. exists steps. split_and!; try done.
    by eapply steps_for_series.
Qed.

(** The table after one more model. *)
Lemma next_model_table (self0 : TimeSeries V) after (us : list string) (h n_g : nat)
    (done : list (string * Model V)) name model (steps : list (list V)) (p0 p1 : Frame V) :
  forecast_table self0 after us h done p0 →
  (h ≠ 0 → n_g = length us) →
  name ∉ [id_col self0; time_col self0] ++ done.*1 →
  length steps = h → Forall (λ step, length step = n_g) steps →
  (∀ k step, steps !! k = Some step →
     ∃ new_x raw, model_predict model new_x = Ok raw ∧
       match after with
       | Some cb => length raw = length us ∧ cb us raw = Ok step
       | None => step = raw
       end) →
  frame_set name (ColFloat (ravel_F steps)) p0 = Ok p1 →
  forecast_table self0 after us h (done ++ [(name, model)]) p1.
Proof.
  intros (Hn & Hcols & Hic & (tcol & dates0 & Htc & Hd0 & Htimes) & Hdone) Hng Hfresh Hlen
    Hall Hmodel Hset.
  assert (Forall (λ step, length step = length us) steps) as Hall'
    by (by eapply steps_for_series).
  destruct (ravel_F_lookup steps (length us) Hall') as [Hl _]. rewrite Hlen in Hl.
  unfold frame_set in Hset. simpl in Hset. rewrite decide_True in Hset by lia.
  injection Hset as <-.
  assert (name ∉ od_keys (cols p0)) as Hfresh' by (by rewrite <- Hcols in Hfresh).
  assert (∀ k, k ∈ od_keys (cols p0) →
               od_get k (od_set name (ColFloat (ravel_F steps)) (cols p0))
               = od_get k (cols p0)) as Hold.
  { intros k Hk. rewrite od_get_set. rewrite decide_False; [done|]. by intros ->. }
  unfold forecast_table, columns. simpl.
  split_and!.
  - done.
  - rewrite od_keys_set_notin by done. fold (columns p0). rewrite Hcols.
    rewrite fmap_app. csimpl. first [done | by rewrite <- app_assoc].
  - rewrite Hold; [done|]. fold (columns p0). rewrite Hcols. by left.
  - exists tcol, dates0. split; [|done].
    rewrite Hold; [done|]. fold (columns p0). rewrite Hcols. right. by left.
  - intros name' model' [Hin|Hin%list_elem_of_singleton]%elem_of_app.
    + destruct (Hdone name' model' Hin) as (col & Hcol & Hfc). exists col. split; [|done].
      rewrite Hold; [done|]. fold (columns p0). rewrite Hcols. right. right.
      apply list_elem_of_fmap. by exists (name', model').
    + injection Hin as -> ->. eexists. split; [apply od_get_set_eq|].
      exists steps. by split_and!.
Qed.
End table_loop.

Section table_claim.
Context `{Float V} `{Extern V} (pool : ThreadPool).

Lemma _predict_recursive_models_table h dynamic_dfs before after X_df (self0 : TimeSeries V)
    (us : list string) :
  ground_truth_valid self0 → _uids self0 = Some us →
  NoDup [id_col self0; time_col self0; target_col self0 +:+ "_pred"] →
  ∀ models done preds0 (self self' : TimeSeries V) preds,
    same_selection self0 self → same_setup self0 self →
    NoDup (done.*1 ++ models.*1) →
    Forall (λ name, name ∉ [id_col self0; time_col self0]) models.*1 →
    match preds0 with
    | None => done = []
    | Some p0 =>
        forecast_table self0 after us h done p0 ∧
        (h ≠ 0 → ∀ start, working_copy self0 = Ok start → n_groups start = length us)
    end →
    @_predict_recursive_models V _ _ pool models h dynamic_dfs before after X_df preds0 self
      = (Ok preds, self') →
    match preds with
    | None => done ++ models = []
    | Some p => forecast_table self0 after us h (done ++ models) p
    end.
Proof.
  intros Hvalid Hus Hnd3.
  induction models as [|[name model] models IH];
    intros done preds0 self self' preds Hsel Hset Hnd Hnames Hinv Hrun.
  - simpl in Hrun. apply retM_Ok in Hrun as [Heq _]. subst preds0. rewrite app_nil_r.
    destruct preds; [by destruct Hinv|done].
  - simpl in Hrun.
    apply bindM_Ok in Hrun as ([] & s1 & Hsetup & Hrun).
    apply bindM_Ok in Hrun as ([] & s2 & Hsteps & Hrun).
    apply bindM_Ok in Hrun as (p1 & s3 & Hassemble & Hrun).
    destruct (simulation_run pool model dynamic_dfs before after X_df h self0 self s1 s2 us
                Hvalid Hsel Hset Hus Hsetup Hsteps)
      as (start & dates0 & dates & steps & Hwc & Hd0 & Hy & Htd & Hns & Hnd' & Hall & Hdates
          & Hmodel & Hsel2 & Hset2).
    csimpl in Hnd. csimpl in Hnames. apply Forall_cons in Hnames as [Hname Hnames].
    assert (NoDup ((done ++ [(name, model)]).*1 ++ models.*1)) as Hnd1
      by (by rewrite fmap_app, <- app_assoc).
    assert (¬ name ∈ done.*1) as Hfresh.
    { apply NoDup_app in Hnd as (_ & Hdisj & _). intros Hin. apply (Hdisj name Hin). by left. }
    assert (s3 = s2 ∧
            forecast_table self0 after us h (done ++ [(name, model)]) p1 ∧
            (h ≠ 0 → ∀ start, working_copy self0 = Ok start → n_groups start = length us))
      as (-> & Htable & Hng).
    { destruct preds0 as [p0|].
      - destruct Hinv as [Htable0 Hng0].
        apply bindM_Ok in Hassemble as (raw & s & Hraw & Hassemble).
        apply _get_raw_predictions_inv in Hraw as (-> & yp & Hyp & ->).
        assert (yp = steps) as -> by congruence.
        apply liftM_Ok in Hassemble as [Hset1 ->]. split; [done|]. split; [|done].
        eapply (next_model_table self0 after us h (n_groups start)); try done.
        + intros Hh. by apply Hng0.
        + intros [Hin|Hin]%elem_of_app; [by apply Hname|by apply Hfresh].
      - subst done.
        apply bindM_Ok in Hassemble as (p & s & Hp & Hassemble).
        apply bindM_Ok in Hassemble as (yc & ? & [-> ->]%getM_Ok & Hassemble).
        apply retM_Ok in Hassemble as [Hp1 ->]. subst p1.
        rewrite <- Htd in Hnd', Hdates.
        destruct (first_model_table self0 s2 s after us h (n_groups start) name model dates0
                    steps p Hsel2 Hus Hnd3 Hname Hd0 Hy Hns Hnd' Hall Hdates Hmodel Hp)
          as (-> & Hng & Htable).
        split; [done|]. split; [done|].
        intros Hh start' Hstart'. assert (start' = start) as -> by congruence. by apply Hng. }
    specialize (IH (done ++ [(name, model)]) (Some p1) s2 self' preds Hsel2 Hset2 Hnd1 Hnames
                   (conj Htable Hng) Hrun).
    by rewrite <- app_assoc in IH.
Qed.

(** X18.  A recursive forecast that returns gives a table of one row
    per series to forecast and step, with the id column, the time
    column and one column per model, in this order.  Row [j * h + i]
    holds the id of series [j], its last date with the frequency added
    [i + 1] times and, for every model, the value for series [j] at
    step [i] of its own simulation: what the model gave or, with an
    [after_predict_callback], what the callback returned for the ids
    and the values of the model, one per id.  For a horizon of zero the
    table has no rows and its time column is an empty column of
    floats. *)
Theorem recursive_forecast_table (models : list (string * Model V)) (horizon : nat)
    (dynamic_dfs : option (list (Frame V)))
    (before_predict_callback : option (Frame V → res (Frame V)))
    (after_predict_callback : option (list string → list V → res (list V)))
    (X_df : option (Frame V)) (self self' : TimeSeries V) (us : list string)
    (out : Frame V) :
  ground_truth_valid self →
  _uids self = Some us →
  NoDup [id_col self; time_col self; target_col self +:+ "_pred"] →
  NoDup (od_keys models) →
  Forall (λ name, name ∉ [id_col self; time_col self]) (od_keys models) →
  @_predict_recursive V _ _ pool models horizon dynamic_dfs before_predict_callback
                      after_predict_callback X_df self = (Ok out, self') →
  forecast_table self after_predict_callback us horizon models out.
Proof.
  intros Hvalid Hus Hnd3 Hnd Hnames Hrun. unfold _predict_recursive in Hrun.
  apply bindM_Ok in Hrun as (preds & s & Hloop & Hrun).
  destruct preds as [p|]; [|done]. apply retM_Ok in Hrun as [Heq _]. subst out.
  apply (_predict_recursive_models_table horizon (default [] dynamic_dfs)
           before_predict_callback after_predict_callback X_df self us Hvalid Hus Hnd3
           models [] None self s (Some p)); try done.
Qed.
End table_claim.

(** X18 on the fitted two series, two steps ahead with the model that
    adds one to the last value and the callback that doubles: A goes on
    10, 22 and B 62, 126. *)
Lemma recursive_forecast_table_witness :
  let ready := (predict_select_ids None demo_fitted).2 in
  let run := @_predict_recursive _ _ _ pool_in_order [("m", next_model)] 2 None None
                                 (Some double_predictions) None ready in
  let out := {| nrows := 4;
                cols := [("unique_id", ColStr ["A"; "A"; "B"; "B"]);
                         ("ds", ColInt [5; 6; 4; 5]%Z);
                         ("m", ColFloat [Some 10; Some 22; Some 62; Some 126]%Z)] |} in
  run.1 = Ok out ∧
  forecast_table ready (Some double_predictions) ["A"; "B"] 2 [("m", next_model)] out.
Proof.
  intros ready run out.
  assert (@_predict_recursive _ _ _ pool_in_order [("m", next_model)] 2 None None
                              (Some double_predictions) None ready = (Ok out, run.2))
    as Hrun by (vm_compute; reflexivity).
  split; [vm_compute; reflexivity|].
  apply (recursive_forecast_table pool_in_order [("m", next_model)] 2 None None
           (Some double_predictions) None ready run.2 ["A"; "B"] out).
  - split; vm_compute; lia.
  - vm_compute. reflexivity.
  - apply (bool_decide_unpack _). vm_compute. exact I.
  - apply (bool_decide_unpack _). vm_compute. exact I.
  - apply (bool_decide_unpack _). vm_compute. exact I.
  - exact Hrun.
Defined.

(** ** Direct forecasting and the callback after a prediction *)

Section direct_callback.
Context `{Float V} `{Extern V} (pool : ThreadPool).

(** C10.  On an object fitted with [max_horizon] set, [predict] does
    not use the [after_predict_callback]: with a callback it does what
    it does without one.  What [_predict_multi] returns holds for every
    model the outputs of its per-horizon models on the features of its
    one step, row by row: the value of series [j] and horizon [i] is
    output [j] of the model of horizon [i].  On an object without
    [max_horizon], [predict] with a callback returns what
    [_predict_recursive] with that callback returns, up to the inverse
    target transforms, and there the column of every model holds, for
    every step, what the callback returned for the ids and the output
    of the model, which has one value per id. *)
Theorem direct_predict_skips_after_callback (models : list (string * Model V))
    (horizon : nat) (dynamic_dfs : option (list (Frame V)))
    (before_predict_callback : option (Frame V → res (Frame V)))
    (X_df : option (Frame V)) (ids : option (list string))
    (self : TimeSeries V) (mh : nat) :
  max_horizon self = Some mh →
  NoDup (od_keys models) →
  (∀ after_predict_callback,
     @predict V _ _ pool models horizon dynamic_dfs before_predict_callback
              (Some after_predict_callback) X_df ids self =
     @predict V _ _ pool models horizon dynamic_dfs before_predict_callback
              None X_df ids self) ∧
  (∀ (ready self' : TimeSeries V) (out : Frame V) name model,
     @_predict_multi V _ _ pool models horizon dynamic_dfs before_predict_callback X_df
                     ready = (Ok out, self') →
     (name, model) ∈ models →
     ∃ new_x rows,
       od_get name (cols out) = Some (ColFloat (concat rows)) ∧
       length rows = nrows new_x ∧
       ∀ i, i < horizon →
         ∃ raw, model_predict_at model i new_x = Ok raw ∧
                ∀ j row, rows !! j = Some row →
                         row !! i = broadcast_to (nrows new_x) raw !! j) ∧
  (∀ callback (other other' : TimeSeries V) (out : Frame V),
     max_horizon other = None →
     @predict V _ _ pool models horizon dynamic_dfs before_predict_callback
              (Some callback) X_df ids other = (Ok out, other') →
     ∃ X' ready ready' preds,
       @_predict_recursive V _ _ pool models horizon dynamic_dfs before_predict_callback
                           (Some callback) X' ready = (Ok preds, ready') ∧
       (target_transforms other = None → out = preds)) ∧
  (∀ callback X' (ready ready' : TimeSeries V) (uids : list string) (preds : Frame V),
     ground_truth_valid ready →
     _uids ready = Some uids →
     NoDup [id_col ready; time_col ready; target_col ready +:+ "_pred"] →
     Forall (λ name, name ∉ [id_col ready; time_col ready]) (od_keys models) →
     @_predict_recursive V _ _ pool models horizon dynamic_dfs before_predict_callback
                         (Some callback) X' ready = (Ok preds, ready') →
     ∀ name model, (name, model) ∈ models →
       ∃ steps,
         od_get name (cols preds) = Some (ColFloat (ravel_F steps)) ∧
         length steps = horizon ∧
         ∀ k step, steps !! k = Some step →
           ∃ new_x raw,
             model_predict model new_x = Ok raw ∧ length raw = length uids ∧
             callback uids raw = Ok step).
Proof.
  intros Hmh Hnd. split_and!.
  - intros after. unfold predict.
    apply bindM_ext_state. intros last_dates ready Hsel.
    destruct (predict_select_ids_state _ _ _ _ Hsel) as (_ & Hmh' & _).
    apply bindM_ext_state. intros X' ready' Hcheck.
    assert (ready' = ready) as ->.
    { destruct X_df as [X|].
      - apply bindM_Ok in Hcheck as (X'' & s & Hcheck & [_ ->]%retM_Ok).
        pose proof (predict_check_X_df_state X horizon last_dates ready) as Hs.
        by rewrite Hcheck in Hs.
      - by apply retM_Ok in Hcheck as [_ ->]. }
    apply bindM_ext_state. intros mh' ? [-> ->]%getM_Ok.
    by rewrite Hmh', Hmh.
  - intros ready self' out name model Hrun Hin.
    by eapply _predict_multi_Ok.
  - intros callback other other' out Hnone Hrun. unfold predict in Hrun.
    apply bindM_Ok in Hrun as (last_dates & ready & Hsel & Hrun).
    destruct (predict_select_ids_state _ _ _ _ Hsel) as (_ & Hmh' & Htt & _).
    apply bindM_Ok in Hrun as (X' & ready1 & Hcheck & Hrun).
    assert (ready1 = ready) as ->.
    { destruct X_df as [X|].
      - apply bindM_Ok in Hcheck as (X'' & s & Hcheck & [_ ->]%retM_Ok).
        pose proof (predict_check_X_df_state X horizon last_dates ready) as Hs.
        by rewrite Hcheck in Hs.
      - by apply retM_Ok in Hcheck as [_ ->]. }
    apply bindM_Ok in Hrun as (mh' & ? & [-> ->]%getM_Ok & Hrun).
    rewrite Hmh', Hnone in Hrun.
    apply bindM_Ok in Hrun as (preds & ready' & Hrec & Hrun).
    exists X', ready, ready', preds. split; [exact Hrec|]. intros Hnott.
    apply bindM_Ok in Hrun as (tfms & ? & [-> ->]%getM_Ok & Hrun).
    pose proof (preserves_run same_selection _ _ _ _
                  (_predict_recursive_same_selection pool models horizon dynamic_dfs
                     before_predict_callback (Some callback) X') Hrec) as [Hfit _].
    rewrite (same_fit_target_transforms _ _ Hfit), Htt, Hnott in Hrun.
    apply bindM_Ok in Hrun as (preds' & ? & [-> ->]%retM_Ok & Hrun).
    apply bindM_Ok in Hrun as ([] & ? & ->%modifyM_Ok & Hrun).
    apply bindM_Ok in Hrun as ([] & ? & ->%modifyM_Ok & Hrun).
    by apply retM_Ok in Hrun as [-> _].
  - intros callback X' ready ready' uids preds Hvalid Hus Hnd3 Hnames Hrun name model Hin.
    unfold _predict_recursive in Hrun.
    apply bindM_Ok in Hrun as (p & s & Hloop & Hrun).
    destruct p as [p|]; [|done]. apply retM_Ok in Hrun as [Heq _]. subst preds.
    assert (forecast_table ready (Some callback) uids horizon models p) as Htable.
    { apply (_predict_recursive_models_table pool horizon (default [] dynamic_dfs)
               before_predict_callback (Some callback) X' ready uids Hvalid Hus Hnd3
               models [] None ready s (Some p)); try done. }
    destruct Htable as (_ & _ & _ & _ & Hcols).
    destruct (Hcols name model Hin) as (col & Hcol & steps & Hlen & _ & -> & Hsteps).
    exists steps. split; [done|]. split; [done|]. exact Hsteps.
Qed.
End direct_callback.

(** C10 on the two series: fitted with [max_horizon = 2] and one model
    per horizon, [predict] returns, whatever the callback, what it
    returns without one, the outputs 1 and 2 of the two models for each
    series; fitted without [max_horizon], with the model that adds one
    to the last value and the callback that doubles, every step holds
    the doubled output. *)
Lemma direct_predict_skips_after_callback_witness :
  max_horizon demo_direct = Some 2 ∧
  (∀ after_predict_callback,
     (@predict _ _ _ pool_in_order [("m", horizon_models)] 2 None None
               (Some after_predict_callback) None None demo_direct).1 =
     Ok {| nrows := 4;
           cols := [("unique_id", ColStr ["A"; "A"; "B"; "B"]);
                    ("ds", ColInt [5; 6; 4; 5]%Z);
                    ("m", ColFloat [Some 1; Some 2; Some 1; Some 2]%Z)] |}) ∧
  (@predict _ _ _ pool_in_order [("m", next_model)] 2 None None
            (Some double_predictions) None None demo_fitted).1 =
  Ok {| nrows := 4;
        cols := [("unique_id", ColStr ["A"; "A"; "B"; "B"]);
                 ("ds", ColInt [5; 6; 4; 5]%Z);
                 ("m", ColFloat [Some 10; Some 22; Some 62; Some 126]%Z)] |} ∧
  ∃ steps,
    ravel_F steps = [Some 10; Some 22; Some 62; Some 126]%Z ∧
    ∀ k step, steps !! k = Some step →
      ∃ new_x raw,
        model_predict next_model new_x = Ok raw ∧ length raw = 2 ∧
        double_predictions ["A"; "B"] raw = Ok step.
Proof.
  split; [reflexivity|].
  destruct (direct_predict_skips_after_callback pool_in_order [("m", next_model)] 2
              None None None None demo_direct 2) as (_ & _ & _ & Hrec).
  { reflexivity. }
  { apply (bool_decide_unpack _). vm_compute. exact I. }
  destruct (direct_predict_skips_after_callback pool_in_order [("m", horizon_models)] 2
              None None None None demo_direct 2) as (Hsame & _).
  { reflexivity. }
  { apply (bool_decide_unpack _). vm_compute. exact I. }
  split; [intros after; rewrite Hsame; vm_compute; reflexivity|].
  split; [vm_compute; reflexivity|].
  set (ready := (predict_select_ids None demo_fitted).2).
  set (run := @_predict_recursive _ _ _ pool_in_order [("m", next_model)] 2 None None
                                  (Some double_predictions) None ready).
  set (preds := {| nrows := 4;
                   cols := [("unique_id", ColStr ["A"; "A"; "B"; "B"]);
                            ("ds", ColInt [5; 6; 4; 5]%Z);
                            ("m", ColFloat [Some 10; Some 22; Some 62; Some 126]%Z)] |}).
  assert (@_predict_recursive _ _ _ pool_in_order [("m", next_model)] 2 None None
                              (Some double_predictions) None ready = (Ok preds, run.2))
    as Hrun by (vm_compute; reflexivity).
  destruct (Hrec double_predictions None ready run.2 ["A"; "B"] preds) with
    (name := "m") (model := next_model) as (steps & Hcol & _ & Hsteps).
  - split; vm_compute; lia.
  - vm_compute. reflexivity.
  - apply (bool_decide_unpack _). vm_compute. exact I.
  - apply (bool_decide_unpack _). vm_compute. exact I.
  - exact Hrun.
  - by left.
  - exists steps. split; [|exact Hsteps].
    assert (od_get "m" (cols preds)
            = Some (ColFloat [Some 10; Some 22; Some 62; Some 126]%Z)) as Hm
      by (vm_compute; reflexivity).
    rewrite Hm in Hcol. injection Hcol as Hcol. symmetry. exact Hcol.
Defined.

(** ** Forecasting: the table of a direct forecast *)

Section direct_table.
Context `{Float V} `{Extern V} (pool : ThreadPool).

Lemma res_map_Forall2 {A B} (f : A → res B) (xs : list A) (ys : list B) :
  res_map f xs = Ok ys ↔ Forall2 (λ x y, f x = Ok y) xs ys.
Proof.
  revert ys. induction xs as [|x xs IH]; intros ys; simpl.
  - split; [intros [= <-]; constructor|]. by intros ->%Forall2_nil_inv_l.
  - destruct (f x) as [y|] eqn:Hx; simpl.
    + destruct (res_map f xs) as [ys'|]; simpl.
      * split.
        -- intros [= <-]. constructor; [done|]. by apply IH.
        -- intros (y' & ys'' & Hy & Hys & ->)%Forall2_cons_inv_l.
           apply IH in Hys. congruence.
      * split; [done|].
        intros (y' & ys'' & Hy & Hys & ->)%Forall2_cons_inv_l. by apply IH in Hys.
    + split; [done|]. intros (y' & ys'' & Hy & _)%Forall2_cons_inv_l. congruence.
Qed.

Lemma date_steps_lookup (times : list Z) (h : nat) :
  length (times ≫= λ date, (λ i, (date, i)) <$> seq 0 h) = length times * h ∧
  ∀ j i last, times !! j = Some last → i < h →
    (times ≫= λ date, (λ i, (date, i)) <$> seq 0 h) !! (j * h + i) = Some (last, i).
Proof.
  induction times as [|t times [IH1 IH2]]; [done|].
  rewrite bind_cons. split.
  - rewrite length_app, length_fmap, length_seq, IH1. simpl. lia.
  - intros [|j] i last Hj Hi; simpl in Hj.
    + injection Hj as ->. simpl. rewrite lookup_app_l by (rewrite length_fmap, length_seq; lia).
      by rewrite list_lookup_fmap, lookup_seq_lt.
    + rewrite lookup_app_r by (rewrite length_fmap, length_seq; simpl; lia).
      rewrite length_fmap, length_seq. rewrite <- (IH2 j i last Hj Hi). f_equal. simpl. lia.
Qed.

(** The dates of a direct forecast: for every fitted series and step, the
    last date of the series plus the frequency times the number of the
    step. *)
Lemma _predict_multi_dates_Ok (f : Freq) (h : nat) (last_dates dates : Column V) :
  _predict_multi_dates f h last_dates = Ok dates →
  ∃ lasts ds,
    col_times last_dates = Ok lasts ∧ dates = col_like last_dates ds ∧
    length ds = length lasts * h ∧ ds ≠ [] ∧
    ∀ j i last, lasts !! j = Some last → i < h →
      ∃ d, date_add f (Z.of_nat i + 1) last_dates last = Ok d ∧
           ds !! (j * h + i) = Some d.
Proof.
  unfold _predict_multi_dates. intros Hd.
  apply res_bind_Ok in Hd as (lasts & Hlasts & Hd).
  apply res_bind_Ok in Hd as (ds & Hds & Hd).
  destruct ds as [|d0 ds']; [done|]. injection Hd as <-.
  remember (d0 :: ds') as ds eqn:Hne.
  apply res_map_Forall2 in Hds.
  destruct (date_steps_lookup lasts h) as [Hlen Hget].
  exists lasts, ds. split_and!; [done|done| |by subst|].
  - rewrite <- Hlen. symmetry. by eapply Forall2_length.
  - intros j i last Hj Hi.
    destruct (Forall2_lookup_l _ _ _ _ _ Hds (Hget j i last Hj Hi)) as (d & Hd & Hdate).
    exists d. by split.
Qed.

(** The table that [_predict_multi] starts from. *)
Lemma _predict_multi_result models h dynamic_dfs before X_df (self self' : TimeSeries V)
    (out : Frame V) (us : list string) :
  _uids self = Some us → id_col self ≠ time_col self →
  @_predict_multi V _ _ pool models h dynamic_dfs before X_df self = (Ok out, self') →
  ∃ lasts ds result,
    col_times (last_dates self) = Ok lasts ∧
    length lasts = length us ∧ 0 < h ∧
    nrows result = length us * h ∧ nrows result ≠ 0 ∧
    cols result = [(id_col self, ColStr (np_repeat us h));
                   (time_col self, col_like (last_dates self) ds)] ∧
    (∀ j i last, lasts !! j = Some last → i < h →
       ∃ d, date_add (freq self) (Z.of_nat i + 1) (last_dates self) last = Ok d ∧
            ds !! (j * h + i) = Some d) ∧
    @_predict_multi_models V _ _ pool models h (default [] dynamic_dfs) before X_df result self
      = (Ok out, self').
Proof.
  intros Hus Hne Hrun. unfold _predict_multi in Hrun.
  apply bindM_Ok in Hrun as ([mh|] & ? & [_ ->]%getM_Ok & Hrun); [|done].
  destruct (decide (mh < h)); [done|]. cbv zeta in Hrun.
  apply bindM_Ok in Hrun as (us' & ? & [Hus' ->]%attr_Ok & Hrun).
  assert (us' = us) as -> by congruence.
  apply bindM_Ok in Hrun as (ld & ? & [-> ->]%getM_Ok & Hrun).
  apply bindM_Ok in Hrun as (f & ? & [-> ->]%getM_Ok & Hrun).
  apply bindM_Ok in Hrun as (dates & ? & [Hdates ->]%liftM_Ok & Hrun).
  apply bindM_Ok in Hrun as (ic & ? & [-> ->]%getM_Ok & Hrun).
  apply bindM_Ok in Hrun as (tc & ? & [-> ->]%getM_Ok & Hrun).
  apply bindM_Ok in Hrun as (result & ? & [Hresult ->]%liftM_Ok & Hrun).
  apply _predict_multi_dates_Ok in Hdates as (lasts & ds & Hlasts & -> & Hlen & Hds & Hget).
  rewrite (od_set_fresh (time_col self)) in Hresult
    by (unfold od_keys; simpl; rewrite !elem_of_cons, elem_of_nil; intuition congruence).
  cbn [app] in Hresult. apply frame_of_dict_Ok in Hresult as [Hcols Hrows].
  destruct (np_repeat_lookup us h) as [Hl1 _].
  assert (nrows result = length us * h) as Hn.
  { rewrite <- (Hrows (id_col self) (ColStr (np_repeat us h))); [done|by left]. }
  assert (length ds = length us * h) as Hl2.
  { rewrite <- Hn.
    rewrite <- (Hrows (time_col self) (col_like (last_dates self) ds)).
    - by rewrite col_len_col_like.
    - right. by left. }
  assert (0 < length ds) as Hpos by (destruct ds; [done|simpl; lia]).
  exists lasts, ds, result. split_and!; try done; nia.
Qed.

(** X19.  A direct forecast that returns gives a table of one row per
    fitted series and step: the dates are computed for all the fitted
    series, so it returns only when the series to forecast are as many
    as the fitted ones, and the horizon is not 0.  Row [j * h + i]
    holds the id of series [j] and its last date plus [i + 1] times
    the frequency. *)
Theorem direct_forecast_table (models : list (string * Model V)) (horizon : nat)
    (dynamic_dfs : option (list (Frame V)))
    (before_predict_callback : option (Frame V → res (Frame V)))
    (X_df : option (Frame V)) (self self' : TimeSeries V) (us : list string)
    (out : Frame V) :
  _uids self = Some us →
  id_col self ≠ time_col self →
  NoDup (od_keys models) →
  Forall (λ name, name ∉ [id_col self; time_col self]) (od_keys models) →
  @_predict_multi V _ _ pool models horizon dynamic_dfs before_predict_callback X_df self
    = (Ok out, self') →
  ∃ lasts ds,
    col_times (last_dates self) = Ok lasts ∧
    length lasts = length us ∧ 0 < horizon ∧
    nrows out = length us * horizon ∧
    od_get (id_col self) (cols out) = Some (ColStr (np_repeat us horizon)) ∧
    od_get (time_col self) (cols out) = Some (col_like (last_dates self) ds) ∧
    ∀ j i last, lasts !! j = Some last → i < horizon →
      ∃ d, date_add (freq self) (Z.of_nat i + 1) (last_dates self) last = Ok d ∧
           ds !! (j * horizon + i) = Some d.
Proof.
  intros Hus Hne Hnd Hnames Hrun.
  destruct (_predict_multi_result _ _ _ _ _ _ _ _ _ Hus Hne Hrun)
    as (lasts & ds & result & Hlasts & Hlen & Hh & Hn & Hnz & Hcols & Hget & Hloop).
  destruct (_predict_multi_models_Ok pool _ _ _ _ _ _ _ _ _ Hnd Hnz Hloop)
    as (Hn' & Hkeep & _).
  rewrite Forall_forall in Hnames.
  assert ((id_col self ∉ od_keys models) ∧ (time_col self ∉ od_keys models)) as [Hi Ht].
  { split; intros Hin; apply (Hnames _ Hin); [by left|right; by left]. }
  exists lasts, ds. split_and!; try done.
  - congruence.
  - rewrite (Hkeep _ Hi), Hcols. simpl. by rewrite decide_True.
  - rewrite (Hkeep _ Ht), Hcols. simpl. rewrite decide_False by done. by rewrite decide_True.
Qed.

(** X20.  Direct forecasting computes the dates for all the fitted
    series whatever the selection: when the series to forecast are
    not as many as the last dates of the fitted series, as when [ids]
    selects a part of them, [_predict_multi] raises. *)
Theorem direct_forecast_needs_all_series (models : list (string * Model V)) (horizon : nat)
    (dynamic_dfs : option (list (Frame V)))
    (before_predict_callback : option (Frame V → res (Frame V)))
    (X_df : option (Frame V)) (self : TimeSeries V) (us : list string) :
  _uids self = Some us →
  id_col self ≠ time_col self →
  col_len (last_dates self) ≠ length us →
  is_Ok (@_predict_multi V _ _ pool models horizon dynamic_dfs before_predict_callback X_df
                         self).1 = false.
Proof.
  intros Hus Hne Hlen.
  destruct (_predict_multi _ _ _ _ _ self) as [[out|e] self'] eqn:Hrun; [|done].
  exfalso. apply Hlen.
  destruct (_predict_multi_result _ _ _ _ _ _ _ _ _ Hus Hne Hrun)
    as (lasts & ds & result & Hlasts & Hl & _).
  rewrite <- Hl. by destruct (last_dates self); simpl in *; try done; injection Hlasts as <-.
Qed.
End direct_table.

(** X19 on the object fitted with [max_horizon = 2] and all its series:
    two rows per series. *)
Lemma direct_forecast_table_witness :
  let ready := (predict_select_ids None demo_direct).2 in
  ∃ lasts ds,
    col_times (last_dates ready) = Ok lasts ∧
    length lasts = 2 ∧ 0 < 2 ∧
    (@_predict_multi _ _ _ pool_in_order [("m", horizon_models)] 2 None None None ready).1
    = Ok {| nrows := 4;
            cols := [("unique_id", ColStr ["A"; "A"; "B"; "B"]);
                     ("ds", ColInt [5; 6; 4; 5]%Z);
                     ("m", ColFloat [Some 1; Some 2; Some 1; Some 2]%Z)] |} ∧
    od_get (time_col ready)
           [("unique_id", ColStr ["A"; "A"; "B"; "B"]); ("ds", ColInt [5; 6; 4; 5]%Z);
            ("m", ColFloat [Some 1; Some 2; Some 1; Some 2]%Z)]
    = Some (col_like (last_dates ready) ds).
Proof.
  intros ready.
  set (out := {| nrows := 4;
                 cols := [("unique_id", ColStr ["A"; "A"; "B"; "B"]);
                          ("ds", ColInt [5; 6; 4; 5]%Z);
                          ("m", ColFloat [Some 1; Some 2; Some 1; Some 2]%Z)] |}).
  assert (@_predict_multi _ _ _ pool_in_order [("m", horizon_models)] 2 None None None ready
          = (Ok out, (@_predict_multi _ _ _ pool_in_order [("m", horizon_models)] 2 None None
                                      None ready).2)) as Hrun by (vm_compute; reflexivity).
  destruct (direct_forecast_table pool_in_order [("m", horizon_models)] 2 None None None ready
              (@_predict_multi _ _ _ pool_in_order [("m", horizon_models)] 2 None None None
                               ready).2 ["A"; "B"] out) as (lasts & ds & Hlasts & Hlen & Hh & _ & _ & Htime & _).
  - vm_compute. reflexivity.
  - vm_compute. discriminate.
  - apply (bool_decide_unpack _). vm_compute. exact I.
  - apply (bool_decide_unpack _). vm_compute. exact I.
  - exact Hrun.
  - exists lasts, ds. split; [exact Hlasts|]. split; [exact Hlen|]. split; [exact Hh|].
    split; [vm_compute; reflexivity|exact Htime].
Defined.

(** X20 on the same object when only A is to be forecast: [predict]
    raises for the lengths of the ids and the dates. *)
Lemma direct_forecast_needs_all_series_witness :
  let ready := (predict_select_ids (Some ["A"]) demo_direct).2 in
  is_Ok (@_predict_multi _ _ _ pool_in_order [("m", horizon_models)] 2 None None None
                         ready).1 = false ∧
  (@predict _ _ _ pool_in_order [("m", horizon_models)] 2 None None None None (Some ["A"])
            demo_direct).1
  = Raise (ValueError "All arrays must be of the same length").
Proof.
  intros ready. split; [|vm_compute; reflexivity].
  apply (direct_forecast_needs_all_series pool_in_order [("m", horizon_models)] 2 None None
           None ready ["A"]).
  - vm_compute. reflexivity.
  - vm_compute. discriminate.
  - vm_compute. lia.
Defined.
